(* ===== verification/_CoqProject ===== *)
-Q . S2P
Prelude.v
Endian.v
Buffer.v
Printf.v
CString.v
Date.v
Timestamp.v
TimeZone.v
ZoneLookup.v
ZoneFile.v
StringPiece.v
LogStream.v
StdMap.v
Http.v
HttpParser.v
HttpTyped.v
HttpExchange.v
HttpAnswer.v
Inspector.v
Channel.v
Poller.v
EPollPoller.v
PollPoller.v
Interest.v
TimerQueue.v
TimerFacts.v
LoopTimers.v
EventLoop.v
LoopFacts.v
MinuteHourCounter.v
TcpConnection.v
ConnFacts.v
ConnProtocol.v
HttpSession.v
Connector.v
ConnectorFacts.v
Sockets.v
SocketsFacts.v
Socket.v
TcpServer.v
ServerFacts.v
HttpMain.v
TcpClient.v
ClientFacts.v
Socks4a.v
Tunnel.v
Mutex.v
Sync.v
Thread.v
Logging.v
EventLoopThread.v
Queues.v
ThreadPool.v
PoolFacts.v
LogFile.v
AsyncLogging.v
AsyncFacts.v
ReadFile.v
Proc.v
ProcFacts.v
Favicon.v
InspectorMain.v
Local.v
Balancer.v
Socks5.v
Socks5Facts.v
Libco.v
LibcoMain.v
Cdns.v
Curl.v
Download.v
