(* ===== verification/Prelude.v ===== *)
(** * A verification library for zhengqi.cpp

    zhengqi.cpp is a C++ network library in the manner of a reactor: an event
    loop per thread polls descriptors and dispatches to channels; on top of it
    are timers, buffered TCP connections, a server, a client that reconnects and
    an HTTP server; below it are utilities for dates, time zones, strings,
    logging, synchronisation and thread pools.  This library translates those
    parts into executable Rocq definitions and proves what makes them correct.
    Paths below are under src/.

    ** The parts and their files

    Ground: [Prelude] (machine integers as [Z] with their wrap-around, the error
    monad [res] with its causes, bytes, slices, searching, automation),
    [Printf] (the formatting the code gets from snprintf), [CString] (the C string
    functions), [StdMap] (ordered
    containers over the interface [StrictOrder]).

    utility/: [Date] (Date.h, Date.cpp: Julian day numbers), [Timestamp],
    [TimeZone] with [ZoneLookup] and [ZoneFile] (TimeZone.cpp: conversions, the
    lookup of transitions, the reader of zone files), [StringPiece], [LogStream]
    (FixedBuffer, the stream, formatSI and formatIEC), [MinuteHourCounter],
    [Mutex] (MutexLock, one step per access), [Sync] (Condition,
    CountDownLatch), [Queues] (BlockingQueue, BoundedBlockingQueue), [Thread]
    (Atomic.h, CurrentThread, Thread), [ThreadPool] with [PoolFacts], [Local]
    (Singleton, ThreadLocal, ThreadLocalSingleton, WeakCallback, Exception),
    [Logging] (Logger), [LogFile] (AppendFile, LogFile), [AsyncLogging] with
    [AsyncFacts], [ReadFile] (ReadSmallFile), [Proc] with [ProcFacts]
    (ProcessInfo, and the process and system inspectors that print it).

    networking/: [Endian] and [Buffer]; [Channel]; [Poller], the interface of
    the two pollers as the class [Poller] with its laws [PollerSpec] and
    [PollerFrame], which [EPollPoller] and [PollPoller] implement and every
    client is proved against; [Interest] (channels and pollers together);
    [TimerQueue] with [TimerFacts], and [LoopTimers] (addTimer, cancel and
    EventLoop's runAt, runAfter, runEvery from any thread); [EventLoop] with [LoopFacts];
    [TcpConnection] with [ConnFacts] and [ConnProtocol]; [Connector] with
    [ConnectorFacts]; [Sockets] with [SocketsFacts] (SocketsOps.cpp,
    InetAddress.cpp); [Socket] (Socket.cpp); [EventLoopThread]; [TcpServer] with [ServerFacts] (Acceptor, EventLoopThreadPool,
    TcpServer); [TcpClient] with [ClientFacts], over [Connector].

    networking/http/: [Http] (HttpRequest.h, HttpContext.cpp, HttpResponse.cpp,
    HttpServer.cpp), [HttpParser], [HttpTyped], [HttpExchange], [HttpAnswer],
    [HttpSession] (the callbacks on a TcpConnection), [HttpMain] (the server as an
    object, over [TcpServer]); networking/inspect/: [Inspector] (the registry and
    the routing of Inspector.cpp), [InspectorMain] (the object, its constructor and
    start, and PerformanceInspector.cpp), [Favicon] (the icon it serves).

    networking-examples/: [Socks4a] (socks4a.cpp), [Tunnel] (tunnel.h) and
    [Balancer] (balancer.cpp) of socks4a/; [Socks5] with [Socks5Facts]
    (socks5_proxy.cpp and socks5_proxy_multithreaded.cpp), [Libco] and [LibcoMain]
    (socks5_proxy_libco.cpp: a client's coroutine and the accepting one) of socks5/; [Cdns] (Resolver.cpp); [Curl]
    (Curl.cpp) and [Download] (download.cpp).

    ** How the code is represented

    A class is a module with a record [t] of its members and a definition per
    member function, under the function's name; enums are inductive types.
    Objects behind pointers that are shared (channels, timers) live in a heap
    from addresses to objects.  A call that can fail returns [res]: an assertion
    that does not hold is [AssertFailed], LOG_FATAL and its kin are [Fatal], the
    exceptions of std::string and std::vector are [LengthError] and [OutOfRange],
    and what C++ leaves undefined (signed overflow, a dangling pointer, an index
    outside an array) is [Undefined].  What the kernel or the C library answers
    (read, write, accept, inet_ntop, gmtime_r, fwrite, the clock) is an
    argument, or a class with the laws of its documentation, for which a witness
    gives an instance.

    Threads are explicit: an operation takes the id of the thread it runs on, a
    loop is known by its thread, and where several threads act on one object the
    model is a step function on a world, with a reachability relation over all
    interleavings.  A step is what runs under one lock, or between two points
    where another thread can be seen.  User callbacks are the lists of calls
    they make, or arguments.

    ** What is proved

    Buffers and bytes: the buffer refines a byte queue with a prependable front
    under every sequence of operations; integers and lines round trip; [readFd]
    puts what readv returned at the end.  The address text of a socket, a
    timestamp, a date, a UTC time and a zone file without leap seconds each round
    trip; the zone lookup is the linear search, and local times go back to their
    instant, those in an overlap only if a further transition follows.
    Strings and log streams compare and format as specified.

    The reactor: on both pollers the kernel is always asked for exactly the
    events of the registered channels; the timer queue's two sets agree, due
    timers run, and the timerfd is set to the earliest after an interrupt and is
    never late, with timers added and cancelled by any thread; the event loop
    loses no wakeup, but for functors its own thread queues before it runs, runs
    functors once each in order, and touches no dead channel.

    Connections: the messages that the loop's thread and others hand to [send]
    reach the kernel whole, complete and each thread's in order, with the
    shutdown after them; the callbacks come in their protocol; the connector
    closes or hands over every socket once and backs off; the server's registry
    and the client's single connection hold in every interleaving.

    HTTP: parsing does not depend on how the bytes are cut, always ends, and
    inverts printing; every request a callback sees is well typed; and from end to
    end, through parser, callback, buffers, connection and counter, requests in
    pieces are answered in order up to the one that closes the connection.  The
    inspector routes requests to the commands registered, its index lists just
    these, and its pages are not cut.

    Proxies and clients: a tunnel relays both directions in order and complete,
    under its flow control; the SOCKS4a handshake does not depend on how its
    request arrives, nor does that of SOCKS5 when no piece has bytes of both
    greeting and request and the first five bytes of the request come together,
    and a session goes from the greeting to the tunnel
    and its removal; the balancer deals its clients round robin; the coroutine
    proxy serves a client to the end, and has passed on all it received; the
    resolver forgets no query, and fails an assertion just when c-ares closes a
    socket whose channel is active; the transfers fail none while each has one
    socket at a time; the parts of a download are the whole file.

    Threads: a mutex excludes and its holder is right whenever it is asked,
    which is why the other models take a critical section as one step; the
    bounded queue and the thread pool lose no wakeup and keep order, [stop] comes
    to an end, [startLoop] returns the loop of the new thread in every
    interleaving in which the thread is created and nothing in the loop quits it,
    singletons and thread-local objects are made once per process
    or thread, and the asynchronous logger writes every line in order, and has
    flushed all it wrote whenever it waits.  A log
    line is its head, the message and its place, within the buffer.  Files and
    the tables of /proc are read whole, up to the limit asked for.

    Some theorems show where the code does not do what it means to (a wait of a
    fraction of a second, cancelling a timer in its own callback, closing a
    connection twice in a race, a send that nothing protects, formatSI's width,
    a quit lost to a loop that has not started, a tcp_info reported the wrong
    way round, a timer read after it was deleted, an inspector whose constructor
    follows null pointers, an address bound before it may be reused, a functor
    queued before the loop runs, a loop that quits itself under its owner, a log
    line in the first second of 1970, an hour that is 60 minute buckets, the
    overlap before a zone's last transition, a zone with leap seconds, a SOCKS5
    client that does not wait for its greeting's answer).

    ** Bounds and fuel

    Loops are structural where they can be.  Decimal conversion has the binary
    logarithm of its argument as fuel, [convert_loop] 64 steps (an int64 has at
    most 20 digits), the binary search the length of its list, the HTTP parser
    one step more than the bytes in the buffer; each is shown to be enough
    ([dec_go_fuel], [convert] and [parseRequest] specifications).  Loops that
    depend on what the outside answers ([AppendFile.append_loop], the reads and
    writes of [Libco], the events of [Curl]) recurse on the answers.  Reading a
    file has its length and one more as fuel, the relay of [Libco] the length of
    the client's data and one more; that both are enough is part of
    [readFile_reads] and [libco_session].  The theorem on the server's names is for listening addresses of at
    most 51 characters and fewer than 2^31 connections.

    ** What is not modelled

    gperftools, libcurl, c-ares and the scheduler of the coroutines beyond what
    they answer or promise; the main functions of the examples, and the options
    they pass to these libraries; log lines inside other components; casts and mix-ins (Types.h, copyable, noncopyable), which have no
    behaviour; smart pointers beyond who owns what.  Doubles are IEEE
    binary64 where they are printed (LogStream, ProcessInspector) and parameters
    elsewhere.  Tests and the vendored test framework are left out. *)

From stdpp Require Export prelude gmap strings list.
From Stdlib Require Export ZArith Lia.
From Stdlib Require Export Strings.Byte.

#[export] Set Default Goal Selector "!".
Open Scope Z_scope.

(** ** Machine integers

    An integer of the C++ code is a [Z]; [uwrap w] and [swrap w] are the values
    of the unsigned and signed w-bit types.  Division and remainder of C++11
    round towards zero, so they are [Z.quot] and [Z.rem]. *)

Definition uwrap (w z : Z) : Z := z mod 2 ^ w.
Definition swrap (w z : Z) : Z := (z + 2 ^ (w - 1)) mod 2 ^ w - 2 ^ (w - 1).

Definition size_max : Z := 2 ^ 64 - 1.
Definition int_min : Z := - 2 ^ 31.
Definition int_max : Z := 2 ^ 31 - 1.
Definition in_int (z : Z) : Prop := int_min <= z <= int_max.
Definition in_int64 (z : Z) : Prop := - 2 ^ 63 <= z <= 2 ^ 63 - 1.

Abbreviation u64 := (uwrap 64).
Abbreviation i64 := (swrap 64).
Abbreviation i32 := (swrap 32).

Lemma uwrap_small w z : 0 <= z < 2 ^ w -> uwrap w z = z.
Proof. intros. unfold uwrap. by apply Z.mod_small. Qed.

Lemma swrap_small w z : 0 < w -> - 2 ^ (w - 1) <= z < 2 ^ (w - 1) -> swrap w z = z.
Proof.
  intros Hw Hz. unfold swrap.
  assert (2 ^ w = 2 * 2 ^ (w - 1)) as E.
  { rewrite <- Z.pow_succ_r by lia. f_equal. lia. }
  rewrite Z.mod_small; lia.
Qed.

Lemma swrap_mod w z k : 0 <= w -> k mod 2 ^ w = z mod 2 ^ w -> swrap w k = swrap w z.
Proof.
  intros Hw E. unfold swrap. f_equal.
  by rewrite (Z.add_mod k), (Z.add_mod z), E by (apply Z.pow_nonzero; lia).
Qed.

Lemma u64_small z : 0 <= z <= size_max -> u64 z = z.
Proof. unfold size_max. intros. apply uwrap_small. lia. Qed.

Lemma i32_small z : in_int z -> i32 z = z.
Proof.
  unfold in_int, int_min, int_max. intros. apply swrap_small; [lia|].
  change (2 ^ (32 - 1)) with (2 ^ 31). lia.
Qed.

Lemma i64_small z : in_int64 z -> i64 z = z.
Proof.
  unfold in_int64. intros. apply swrap_small; [lia|].
  change (2 ^ (64 - 1)) with (2 ^ 63). lia.
Qed.

(** ** Fallible code

    An operation of the code returns, or stops: a failed [assert] (the debug
    build, where assertions are on), a thrown exception, a call of [abort]
    through [LOG_FATAL], or an access the language leaves undefined. *)

Inductive err :=
  | AssertFailed
  | LengthError
  | OutOfRange
  | LogicError
  | Fatal
  | Undefined.

Inductive res (A : Type) :=
  | Ok (a : A)
  | Err (e : err).
Arguments Ok {A} a.
Arguments Err {A} e.

#[export] Instance err_eq_dec : EqDecision err.
Proof. solve_decision. Defined.

#[export] Instance res_ret : MRet res := @Ok.
#[export] Instance res_bind : MBind res := fun A B f m =>
  match m with Ok a => f a | Err e => Err e end.
#[export] Instance res_fmap : FMap res := fun A B f m =>
  match m with Ok a => Ok (f a) | Err e => Err e end.

Definition assert_ (b : bool) : res unit := if b then Ok tt else Err AssertFailed.

Declare Scope cpp_scope.
Delimit Scope cpp_scope with cpp.
Notation "'assert!' b ; k" := (assert_ b ≫= fun _ => k)
  (at level 100, b at level 99, k at level 200, right associativity) : cpp_scope.
Open Scope cpp_scope.

Lemma res_bind_Ok {A B} (f : A -> res B) m b :
  m ≫= f = Ok b <-> exists a, m = Ok a /\ f a = Ok b.
Proof.
  destruct m as [a|e]; cbn; split; try done; [by eauto|by intros (? & [= ->] & ?)|].
  by intros (? & ? & ?).
Qed.

Lemma assert_true (b : bool) {A} (k : res A) : b = true -> (assert! b; k) = k.
Proof. by intros ->. Qed.

Lemma assert_Ok (b : bool) {A} (k : res A) a : (assert! b; k) = Ok a -> b = true /\ k = Ok a.
Proof. by destruct b. Qed.

(** ** Bytes *)

Abbreviation byte := Init.Byte.byte.

Definition u8 (b : byte) : Z := Z.of_N (Byte.to_N b).
Definition byte_of (z : Z) : byte :=
  match Byte.of_N (Z.to_N (z mod 256)) with Some b => b | None => x00 end.
(** A [char] is signed on the target. *)
Definition s8 (b : byte) : Z := swrap 8 (u8 b).

(** A string literal of the code, without its terminating NUL. *)
Definition bs (s : string) : list byte := String.list_byte_of_string s.
Arguments bs s%_string.

#[export] Instance byte_eq_dec : EqDecision byte := Byte.byte_eq_dec.
#[export] Instance byte_inhabited : Inhabited byte := populate x00.
#[export] Instance byte_countable : Countable byte.
Proof.
  apply (inj_countable' Byte.to_N (fun n => default x00 (Byte.of_N n))).
  intros b. by rewrite Byte.of_to_N.
Defined.

Lemma u8_range b : 0 <= u8 b < 256.
Proof. unfold u8. pose proof (Byte.to_N_bounded b). lia. Qed.

Lemma byte_of_u8 b : byte_of (u8 b) = b.
Proof.
  unfold byte_of. pose proof (u8_range b). rewrite Z.mod_small by lia.
  unfold u8. by rewrite N2Z.id, Byte.of_to_N.
Qed.

Lemma u8_byte_of z : u8 (byte_of z) = z mod 256.
Proof.
  unfold byte_of, u8. pose proof (Z.mod_pos_bound z 256 ltac:(lia)) as Hz.
  destruct (Byte.of_N (Z.to_N (z mod 256))) eqn:E.
  - apply Byte.to_of_N in E. rewrite E. lia.
  - apply Byte.of_N_None_iff in E. lia.
Qed.

Lemma u8_inj b1 b2 : u8 b1 = u8 b2 -> b1 = b2.
Proof. intros H. by rewrite <- (byte_of_u8 b1), <- (byte_of_u8 b2), H. Qed.

(** The object representation of an n-byte integer on a little-endian host. *)
Fixpoint le_split (n : nat) (z : Z) : list byte :=
  match n with
  | O => []
  | S n => byte_of z :: le_split n (z / 256)
  end.

Fixpoint le_combine (l : list byte) : Z :=
  match l with
  | [] => 0
  | b :: l => u8 b + 256 * le_combine l
  end.

Lemma length_le_split n z : length (le_split n z) = n.
Proof. revert z. induction n; intros; cbn; auto. Qed.

Lemma le_combine_range l : 0 <= le_combine l < 2 ^ (8 * Z.of_nat (length l)).
Proof.
  induction l as [|b l IH]; cbn [le_combine length]; [lia|].
  pose proof (u8_range b).
  replace (8 * Z.of_nat (S (length l))) with (8 + 8 * Z.of_nat (length l)) by lia.
  rewrite Z.pow_add_r by lia. change (2 ^ 8) with 256. nia.
Qed.

Lemma le_combine_split n z : le_combine (le_split n z) = z mod 2 ^ (8 * Z.of_nat n).
Proof.
  revert z. induction n as [|n IH]; intros z; cbn [le_split le_combine].
  - by rewrite Z.mod_1_r.
  - rewrite IH, u8_byte_of.
    replace (8 * Z.of_nat (S n)) with (8 + 8 * Z.of_nat n) by lia.
    rewrite Z.pow_add_r by lia. change (2 ^ 8) with 256.
    by rewrite Z.rem_mul_r by (try apply Z.pow_pos_nonneg; lia).
Qed.

Lemma le_split_combine l : le_split (length l) (le_combine l) = l.
Proof.
  induction l as [|b l IH]; cbn [le_split le_combine length]; [done|].
  pose proof (u8_range b). f_equal.
  - rewrite <- (byte_of_u8 b) at 2. unfold byte_of.
    by rewrite (Z.mul_comm 256), Z_mod_plus_full.
  - rewrite (Z.mul_comm 256), Z.div_add, Z.div_small by lia. exact IH.
Qed.

Lemma le_split_mod n z k :
  z mod 2 ^ (8 * Z.of_nat n) = k mod 2 ^ (8 * Z.of_nat n) -> le_split n z = le_split n k.
Proof.
  intros H. rewrite <- (le_split_combine (le_split n z)), <- (le_split_combine (le_split n k)).
  by rewrite !length_le_split, !le_combine_split, H.
Qed.

(** ** Arrays and pointers

    An array is a list; a pointer into it is a [Z] offset from its start. *)

Definition zlen {A} (l : list A) : Z := Z.of_nat (length l).

(** The [n] elements at offset [i]. *)
Definition slice {A} (l : list A) (i n : Z) : list A :=
  take (Z.to_nat n) (drop (Z.to_nat i) l).

(** [std::copy] of [d] to offset [i]; the destination must be inside the array. *)
Definition blit {A} (l : list A) (i : Z) (d : list A) : list A :=
  take (Z.to_nat i) l ++ d ++ drop (Z.to_nat i + length d) l.

Lemma zlen_nonneg {A} (l : list A) : 0 <= zlen l.
Proof. unfold zlen. lia. Qed.

Lemma zlen_nil {A} : zlen (@nil A) = 0.
Proof. done. Qed.

Lemma zlen_cons {A} (x : A) l : zlen (x :: l) = 1 + zlen l.
Proof. unfold zlen. cbn [length]. lia. Qed.

Lemma zlen_app {A} (l k : list A) : zlen (l ++ k) = zlen l + zlen k.
Proof. unfold zlen. rewrite length_app. lia. Qed.

Lemma zlen_replicate {A} n (x : A) : zlen (replicate n x) = Z.of_nat n.
Proof. unfold zlen. by rewrite length_replicate. Qed.

Lemma zlen_slice {A} (l : list A) i n :
  0 <= i -> 0 <= n -> i + n <= zlen l -> zlen (slice l i n) = n.
Proof. unfold zlen, slice. intros. rewrite length_take, length_drop. lia. Qed.

Lemma zlen_blit {A} (l : list A) i d :
  0 <= i -> i + zlen d <= zlen l -> zlen (blit l i d) = zlen l.
Proof.
  unfold zlen, blit. intros. rewrite !length_app, length_take, length_drop. lia.
Qed.

Lemma slice_blit_eq {A} (l : list A) i d :
  0 <= i -> i + zlen d <= zlen l -> slice (blit l i d) i (zlen d) = d.
Proof.
  unfold zlen, blit, slice. intros.
  rewrite drop_app_length' by (rewrite length_take; lia).
  by rewrite take_app_length' by lia.
Qed.

Lemma slice_blit_before {A} (l : list A) i d j n :
  0 <= i -> i + zlen d <= zlen l -> 0 <= j -> 0 <= n -> j + n <= i ->
  slice (blit l i d) j n = slice l j n.
Proof.
  unfold zlen, blit, slice. intros.
  rewrite drop_app_le by (rewrite length_take; lia).
  rewrite take_app_le by (rewrite length_drop, length_take; lia).
  rewrite skipn_firstn_comm, take_take. f_equal. lia.
Qed.

Lemma slice_blit_after {A} (l : list A) i d j n :
  0 <= i -> i + zlen d <= zlen l -> i + zlen d <= j ->
  slice (blit l i d) j n = slice l j n.
Proof.
  unfold zlen, blit, slice. intros. f_equal.
  rewrite app_assoc, drop_app_ge by (rewrite length_app, length_take; lia).
  rewrite drop_drop, length_app, length_take. f_equal. lia.
Qed.

Lemma slice_app {A} (l : list A) i n m :
  0 <= i -> 0 <= n -> 0 <= m -> slice l i (n + m) = slice l i n ++ slice l (i + n) m.
Proof.
  unfold slice. intros. rewrite !Z2Nat.inj_add by lia.
  by rewrite <- drop_drop, take_take_drop.
Qed.

Lemma slice_all {A} (l : list A) : slice l 0 (zlen l) = l.
Proof. unfold slice, zlen. rewrite Nat2Z.id, drop_0. by rewrite take_ge. Qed.

Lemma slice_0 {A} (l : list A) i : slice l i 0 = [].
Proof. done. Qed.

Lemma slice_app_l {A} (l k : list A) i n :
  0 <= i -> 0 <= n -> i + n <= zlen l -> slice (l ++ k) i n = slice l i n.
Proof.
  unfold slice, zlen. intros. rewrite drop_app_le by lia.
  rewrite take_app_le; [done|]. rewrite length_drop. lia.
Qed.

Lemma slice_slice {A} (l : list A) i n j m :
  0 <= i -> 0 <= j -> 0 <= m -> j + m <= n -> slice (slice l i n) j m = slice l (i + j) m.
Proof.
  unfold slice. intros. rewrite skipn_firstn_comm, take_take, drop_drop.
  f_equal; [lia|]. f_equal. lia.
Qed.

(** [std::find]/[memchr] and [std::search] on a range: the offset of the first
    match in the range, its length when there is none. *)

Fixpoint find_idx {A} (p : A -> bool) (l : list A) : nat :=
  match l with
  | [] => 0
  | x :: l => if p x then 0 else S (find_idx p l)
  end%nat.

Fixpoint prefixb (p l : list byte) : bool :=
  match p, l with
  | [], _ => true
  | x :: p, y :: l => bool_decide (x = y) && prefixb p l
  | _ :: _, [] => false
  end.

Fixpoint search_idx (p l : list byte) : nat :=
  if prefixb p l then 0%nat
  else match l with [] => 0%nat | _ :: l => S (search_idx p l) end.

Definition is_char (c b : byte) : bool := bool_decide (b = c).

Lemma find_idx_le {A} (p : A -> bool) l : (find_idx p l <= length l)%nat.
Proof. induction l as [|x l IH]; cbn; [lia|]. destruct (p x); cbn; lia. Qed.

Lemma find_idx_found {A} (p : A -> bool) l :
  (find_idx p l < length l)%nat -> exists x, l !! find_idx p l = Some x /\ p x = true.
Proof.
  induction l as [|x l IH]; cbn; [lia|]. destruct (p x) eqn:E; cbn; [by eauto|].
  intros H. apply IH. lia.
Qed.

Lemma find_idx_before {A} (p : A -> bool) l k x :
  (k < find_idx p l)%nat -> l !! k = Some x -> p x = false.
Proof.
  revert k. induction l as [|y l IH]; intros k; cbn; [lia|].
  destruct (p y) eqn:E; cbn; [lia|]. destruct k; cbn; [congruence|].
  intros. eapply IH; [|done]. lia.
Qed.

Lemma find_idx_absent {A} (p : A -> bool) l : Forall (fun x => p x = false) l -> find_idx p l = length l.
Proof. induction 1 as [|x l E _ IH]; cbn; [done|]. by rewrite E, IH. Qed.

Lemma find_idx_app {A} (p : A -> bool) l x k :
  Forall (fun x => p x = false) l -> p x = true -> find_idx p (l ++ x :: k) = length l.
Proof. intros H Hx. induction H as [|y l E _ IH]; cbn; [by rewrite Hx|]. by rewrite E, IH. Qed.

Lemma prefixb_spec p l : prefixb p l = true <-> exists k, l = p ++ k.
Proof.
  revert l. induction p as [|x p IH]; intros l; cbn; [split; [by eauto|done]|].
  destruct l as [|y l]; [split; [done|by intros (?&?)]|].
  rewrite andb_true_iff, bool_decide_eq_true, IH.
  split; [intros (-> & k & ->); by eauto|intros (k & [= -> ->]); by eauto].
Qed.

Lemma prefixb_app p k : prefixb p (p ++ k) = true.
Proof. apply prefixb_spec. by eauto. Qed.

Lemma search_idx_le p l : (search_idx p l <= length l)%nat.
Proof. induction l as [|x l IH]; cbn; destruct (prefixb _ _); cbn; lia. Qed.

Lemma search_idx_found p l :
  p <> [] -> (search_idx p l < length l)%nat -> prefixb p (drop (search_idx p l) l) = true.
Proof.
  intros Hp. induction l as [|x l IH]; cbn [search_idx length]; [lia|].
  destruct (prefixb p (x :: l)) eqn:E; [done|]. cbn. intros. apply IH. lia.
Qed.

Lemma search_idx_before p l k :
  (k < search_idx p l)%nat -> prefixb p (drop k l) = false.
Proof.
  revert k. induction l as [|x l IH]; intros k; cbn [search_idx].
  - destruct (prefixb p []) eqn:E; lia.
  - destruct (prefixb p (x :: l)) eqn:E; [lia|]. destruct k; cbn; [done|].
    intros. apply IH. lia.
Qed.

Lemma search_idx_eq p l k :
  prefixb p (drop k l) = true -> (forall j, (j < k)%nat -> prefixb p (drop j l) = false) ->
  (k <= length l)%nat -> search_idx p l = k.
Proof.
  revert k. induction l as [|x l IH]; intros k Hk Hb Hl; cbn [search_idx].
  - cbn in Hl. by replace k with 0%nat in * by lia; destruct (prefixb p []).
  - destruct k as [|k]; [by cbn in Hk; rewrite Hk|].
    rewrite (Hb 0%nat ltac:(lia) : prefixb p (x :: l) = false). f_equal.
    apply IH; [done| |cbn in Hl; lia]. intros j Hj. apply (Hb (S j)). lia.
Qed.

Lemma filter_none {A} (P : A -> Prop) `{!forall x, Decision (P x)} l :
  (forall x, x ∈ l -> ~ P x) -> filter P l = [].
Proof.
  induction l as [|y l IH]; intros Hno; [done|]. rewrite filter_cons_False by (apply Hno; set_solver).
  apply IH. intros x Hx. apply Hno. set_solver.
Qed.

(** ** Automation *)

Create HintDb cpp.
Create Rewrite HintDb cpp.
#[export] Hint Resolve u8_range zlen_nonneg : cpp.
#[export] Hint Rewrite @zlen_nil @zlen_app @zlen_replicate @length_app @length_replicate : cpp.

(** Linear arithmetic with division and remainder by constants. *)
Ltac dlia := cbn beta in *; Z.to_euclidean_division_equations; lia.

(** Inverts a chain of successful monadic steps. *)
Ltac res_step :=
  match goal with
  | H : Ok _ = Ok _ |- _ => injection H as H; try subst
  | H : Err _ = Ok _ |- _ => discriminate H
  | H : Ok _ = Err _ |- _ => discriminate H
  | H : mret _ = Ok _ |- _ => cbv [mret res_ret] in H
  | H : (assert! _; _) = Ok _ |- _ =>
      let E := fresh "A" in apply assert_Ok in H as [E H]
  | H : _ ≫= _ = Ok _ |- _ =>
      let a := fresh "a" in let E := fresh "E" in apply res_bind_Ok in H as (a & E & H)
  end.
Ltac res_inv := repeat (res_step; cbn beta iota in *).

(** Boolean tests of the code as propositions. *)
Ltac zbool :=
  repeat (rewrite ?andb_true_iff, ?andb_false_iff, ?orb_true_iff, ?orb_false_iff,
    ?negb_true_iff, ?negb_false_iff, ?bool_decide_eq_true, ?bool_decide_eq_false,
    ?Z.leb_le, ?Z.leb_gt, ?Z.ltb_lt, ?Z.ltb_ge, ?Z.eqb_eq, ?Z.eqb_neq in *).

(** Case analysis on the innermost [if]/[match] scrutinee of the goal. *)
Ltac case_code :=
  match goal with
  | |- context [if ?b then _ else _] =>
      lazymatch b with context [if _ then _ else _] => fail | _ => destruct b eqn:? end
  end.
