(* ===== verification/Endian.v ===== *)
(** Byte order (src/networking/Endian.h).

    The target is x86-64: the object representation of an integer is
    little-endian ([le_split]), so [htobe64]/[be64toh] and their 32- and 16-bit
    forms reverse the bytes.  The functions take and return unsigned values. *)

From S2P Require Import Prelude.

(** Reversal of the [n] bytes of an integer. *)
Definition bswap (n : nat) (x : Z) : Z := le_combine (rev (le_split n x)).

Definition hostToNetwork64 (host64 : Z) : Z := bswap 8 host64.
Definition hostToNetwork32 (host32 : Z) : Z := bswap 4 host32.
Definition hostToNetwork16 (host16 : Z) : Z := bswap 2 host16.
Definition networkToHost64 (net64 : Z) : Z := bswap 8 net64.
Definition networkToHost32 (net32 : Z) : Z := bswap 4 net32.
Definition networkToHost16 (net16 : Z) : Z := bswap 2 net16.

(** The specification: the [n] bytes of an integer, most significant first. *)
Definition be_split (n : nat) (z : Z) : list byte := rev (le_split n z).

Lemma le_split_bswap n x : le_split n (bswap n x) = be_split n x.
Proof.
  unfold bswap, be_split. rewrite <- (le_split_combine (rev (le_split n x))) at 2.
  by rewrite length_rev, length_le_split.
Qed.

Lemma bswap_involutive n x : bswap n (bswap n x) = x mod 2 ^ (8 * Z.of_nat n).
Proof.
  unfold bswap at 1. rewrite le_split_bswap. unfold be_split.
  by rewrite rev_involutive, le_combine_split.
Qed.

Lemma bswap_range n x : 0 <= bswap n x < 2 ^ (8 * Z.of_nat n).
Proof.
  unfold bswap. pose proof (le_combine_range (rev (le_split n x))) as H.
  by rewrite length_rev, length_le_split in H.
Qed.

Lemma length_be_split n z : length (be_split n z) = n.
Proof. unfold be_split. by rewrite length_rev, length_le_split. Qed.

(** Reading back in host order the network-order representation of a signed value. *)
Lemma swrap_bswap n w x :
  (0 < n)%nat -> w = 8 * Z.of_nat n -> - 2 ^ (w - 1) <= x < 2 ^ (w - 1) ->
  swrap w (bswap n (le_combine (be_split n x))) = x.
Proof.
  intros Hn -> Hx. rewrite <- le_split_bswap, le_combine_split.
  rewrite Z.mod_small by apply bswap_range.
  rewrite bswap_involutive.
  erewrite swrap_mod, swrap_small; [done|lia|done|lia|]. by rewrite Z.mod_mod by lia.
Qed.
