(* ===== verification/Buffer.v ===== *)
(** The I/O buffer (src/networking/Buffer.h, src/networking/Buffer.cpp).

    [buffer_] is the vector's content, [readerIndex_] and [writerIndex_] are
    [size_t] offsets into it; a [const char *] into the buffer is an offset from
    [begin()], [nullptr] is [None].  [size_t] arithmetic wraps at 64 bits.  The
    vector's [capacity()] is an implementation detail of the library and is not
    part of the state; [resize] beyond [max_size()] throws. *)

From S2P Require Import Prelude Endian.

Module Buffer.

Definition kCheapPrepend : Z := 8.
Definition kInitialSize : Z := 1024.

Record t := mk {
  buffer_ : list byte;
  readerIndex_ : Z;
  writerIndex_ : Z;
}.

(** [std::vector<char>]: [max_size()], [resize()]. *)
Definition max_size : Z := 2 ^ 63 - 1.
Definition vec_resize (v : list byte) (n : Z) : res (list byte) :=
  if n <=? max_size
  then Ok (take (Z.to_nat n) v ++ replicate (Z.to_nat n - length v) x00)
  else Err LengthError.

Definition size (b : t) : Z := zlen (buffer_ b).
Definition readableBytes (b : t) : Z := u64 (writerIndex_ b - readerIndex_ b).
Definition writableBytes (b : t) : Z := u64 (size b - writerIndex_ b).
Definition prependableBytes (b : t) : Z := readerIndex_ b.
Definition peek (b : t) : Z := readerIndex_ b.
Definition beginWrite (b : t) : Z := writerIndex_ b.

Definition new (initialSize : Z) : res t :=
  v ← vec_resize [] (u64 (kCheapPrepend + initialSize));
  let b := mk v kCheapPrepend kCheapPrepend in
  assert! readableBytes b =? 0;
  assert! writableBytes b =? initialSize;
  assert! prependableBytes b =? kCheapPrepend;
  Ok b.

Definition swap (b rhs : t) : t * t :=
  (mk (buffer_ rhs) (readerIndex_ rhs) (writerIndex_ rhs),
   mk (buffer_ b) (readerIndex_ b) (writerIndex_ b)).

Definition kCRLF : list byte := [x0d; x0a].

(** [std::search] for the line end in [start, beginWrite()). *)
Definition findCRLF_from (b : t) (start : Z) : res (option Z) :=
  assert! peek b <=? start;
  assert! start <=? beginWrite b;
  let crlf := start + Z.of_nat (search_idx kCRLF (slice (buffer_ b) start (beginWrite b - start))) in
  Ok (if crlf =? beginWrite b then None else Some crlf).

Definition findCRLF (b : t) : option Z :=
  let crlf := peek b + Z.of_nat (search_idx kCRLF (slice (buffer_ b) (peek b) (beginWrite b - peek b))) in
  if crlf =? beginWrite b then None else Some crlf.

(** [memchr]: [nullptr] when the byte does not occur in the range. *)
Definition memchr (v : list byte) (start : Z) (c : byte) (n : Z) : option Z :=
  let i := Z.of_nat (find_idx (is_char c) (slice v start n)) in
  if i =? zlen (slice v start n) then None else Some (start + i).

Definition findEOL (b : t) : option Z := memchr (buffer_ b) (peek b) x0a (readableBytes b).

Definition findEOL_from (b : t) (start : Z) : res (option Z) :=
  assert! peek b <=? start;
  assert! start <=? beginWrite b;
  Ok (memchr (buffer_ b) start x0a (u64 (beginWrite b - start))).

Definition retrieveAll (b : t) : t := mk (buffer_ b) kCheapPrepend kCheapPrepend.

Definition retrieve (b : t) (len : Z) : res t :=
  assert! len <=? readableBytes b;
  Ok (if len <? readableBytes b
      then mk (buffer_ b) (u64 (readerIndex_ b + len)) (writerIndex_ b)
      else retrieveAll b).

Definition retrieveInt64 (b : t) : res t := retrieve b 8.
Definition retrieveInt32 (b : t) : res t := retrieve b 4.
Definition retrieveInt16 (b : t) : res t := retrieve b 2.
Definition retrieveInt8 (b : t) : res t := retrieve b 1.

Definition retrieveUntil (b : t) (end_ : Z) : res t :=
  assert! peek b <=? end_;
  assert! end_ <=? beginWrite b;
  retrieve b (u64 (end_ - peek b)).

Definition retrieveAsString (b : t) (len : Z) : res (list byte * t) :=
  assert! len <=? readableBytes b;
  let result := slice (buffer_ b) (peek b) len in
  b ← retrieve b len;
  Ok (result, b).

Definition retrieveAllAsString (b : t) : res (list byte * t) :=
  retrieveAsString b (readableBytes b).

(** The piece's pointer and length; the length is the readable count narrowed to
    [int]. *)
Definition toStringPiece (b : t) : Z * Z := (peek b, i32 (readableBytes b)).

Definition makeSpace (b : t) (len : Z) : res t :=
  if u64 (writableBytes b + prependableBytes b) <? u64 (len + kCheapPrepend) then
    v ← vec_resize (buffer_ b) (u64 (writerIndex_ b + len));
    Ok (mk v (readerIndex_ b) (writerIndex_ b))
  else
    assert! kCheapPrepend <? readerIndex_ b;
    let readable := readableBytes b in
    let data := slice (buffer_ b) (readerIndex_ b) (writerIndex_ b - readerIndex_ b) in
    let b' := mk (blit (buffer_ b) kCheapPrepend data) kCheapPrepend (u64 (kCheapPrepend + readable)) in
    assert! readable =? readableBytes b';
    Ok b'.

Definition ensureWritableBytes (b : t) (len : Z) : res t :=
  b ← (if writableBytes b <? len then makeSpace b len else Ok b);
  assert! len <=? writableBytes b;
  Ok b.

Definition hasWritten (b : t) (len : Z) : res t :=
  assert! len <=? writableBytes b;
  Ok (mk (buffer_ b) (readerIndex_ b) (u64 (writerIndex_ b + len))).

Definition unwrite (b : t) (len : Z) : res t :=
  assert! len <=? readableBytes b;
  Ok (mk (buffer_ b) (readerIndex_ b) (u64 (writerIndex_ b - len))).

(** [append(data, len)]; the StringPiece and [void *] overloads call it. *)
Definition append (b : t) (data : list byte) : res t :=
  b ← ensureWritableBytes b (zlen data);
  let b := mk (blit (buffer_ b) (beginWrite b) data) (readerIndex_ b) (writerIndex_ b) in
  hasWritten b (zlen data).

Definition prepend (b : t) (data : list byte) : res t :=
  assert! zlen data <=? prependableBytes b;
  let reader := u64 (readerIndex_ b - zlen data) in
  Ok (mk (blit (buffer_ b) reader data) reader (writerIndex_ b)).

(** The argument is converted to the unsigned parameter of [hostToNetwork],
    its result back to the signed [be64]; [append] copies the object. *)
Definition appendInt64 (b : t) (x : Z) : res t := append b (le_split 8 (swrap 64 (hostToNetwork64 (uwrap 64 x)))).
Definition appendInt32 (b : t) (x : Z) : res t := append b (le_split 4 (swrap 32 (hostToNetwork32 (uwrap 32 x)))).
Definition appendInt16 (b : t) (x : Z) : res t := append b (le_split 2 (swrap 16 (hostToNetwork16 (uwrap 16 x)))).
Definition appendInt8 (b : t) (x : Z) : res t := append b (le_split 1 x).

Definition prependInt64 (b : t) (x : Z) : res t := prepend b (le_split 8 (swrap 64 (hostToNetwork64 (uwrap 64 x)))).
Definition prependInt32 (b : t) (x : Z) : res t := prepend b (le_split 4 (swrap 32 (hostToNetwork32 (uwrap 32 x)))).
Definition prependInt16 (b : t) (x : Z) : res t := prepend b (le_split 2 (swrap 16 (hostToNetwork16 (uwrap 16 x)))).
Definition prependInt8 (b : t) (x : Z) : res t := prepend b (le_split 1 x).

Definition peekInt64 (b : t) : res Z :=
  assert! 8 <=? readableBytes b;
  let be64 := swrap 64 (le_combine (slice (buffer_ b) (peek b) 8)) in
  Ok (swrap 64 (networkToHost64 (uwrap 64 be64))).
Definition peekInt32 (b : t) : res Z :=
  assert! 4 <=? readableBytes b;
  let be32 := swrap 32 (le_combine (slice (buffer_ b) (peek b) 4)) in
  Ok (swrap 32 (networkToHost32 (uwrap 32 be32))).
Definition peekInt16 (b : t) : res Z :=
  assert! 2 <=? readableBytes b;
  let be16 := swrap 16 (le_combine (slice (buffer_ b) (peek b) 2)) in
  Ok (swrap 16 (networkToHost16 (uwrap 16 be16))).
Definition peekInt8 (b : t) : res Z :=
  assert! 1 <=? readableBytes b;
  Ok (swrap 8 (le_combine (slice (buffer_ b) (peek b) 1))).

Definition readInt64 (b : t) : res (Z * t) := r ← peekInt64 b; b ← retrieveInt64 b; Ok (r, b).
Definition readInt32 (b : t) : res (Z * t) := r ← peekInt32 b; b ← retrieveInt32 b; Ok (r, b).
Definition readInt16 (b : t) : res (Z * t) := r ← peekInt16 b; b ← retrieveInt16 b; Ok (r, b).
Definition readInt8 (b : t) : res (Z * t) := r ← peekInt8 b; b ← retrieveInt8 b; Ok (r, b).

Definition shrink (b : t) (reserve : Z) : res t :=
  other ← new kInitialSize;
  other ← ensureWritableBytes other (u64 (readableBytes b + reserve));
  let '(data, len) := toStringPiece b in
  (* a negative length is a huge one as a size_t, and append copies out of range *)
  other ← (if len <? 0 then Err Undefined else append other (slice (buffer_ b) data len));
  Ok (swap b other).1.

(** What [readv] reports: an errno, or the bytes it stored, in order, into the
    vectors it was given. *)
Inductive readv_result :=
  | ReadvError (errno : Z)
  | ReadvData (data : list byte).

Definition extraBufSize : Z := 65536.

(** The vectors passed to [readv]: the writable space, and the 64 KiB stack
    buffer when the writable space is smaller than that. *)
Definition readFd_iov (b : t) : list Z :=
  let writable := writableBytes b in
  let iovcnt := if writable <? extraBufSize then 2%nat else 1%nat in
  take iovcnt [writable; extraBufSize].

Definition readFd (sys_readv : list Z -> readv_result) (b : t) : res (t * Z * option Z) :=
  let writable := writableBytes b in
  match sys_readv (readFd_iov b) with
  | ReadvError errno => Ok (b, -1, Some errno)
  | ReadvData data =>
      let n := zlen data in
      let b := mk (blit (buffer_ b) (writerIndex_ b) (take (Z.to_nat writable) data))
                  (readerIndex_ b) (writerIndex_ b) in
      let extraBuf := drop (Z.to_nat writable) data in
      if n <=? writable then
        Ok (mk (buffer_ b) (readerIndex_ b) (u64 (writerIndex_ b + n)), n, None)
      else
        let b := mk (buffer_ b) (readerIndex_ b) (size b) in
        b ← append b (take (Z.to_nat (n - writable)) extraBuf);
        Ok (b, n, None)
  end.

(** ** The representation invariant and the abstraction *)

Record wf (b : t) : Prop := {
  wf_reader : 0 <= readerIndex_ b <= writerIndex_ b;
  wf_writer : writerIndex_ b <= size b;
  wf_size : kCheapPrepend <= size b <= max_size;
}.

(** The abstract buffer: the bytes between the two indexes. *)
Definition content (b : t) : list byte :=
  slice (buffer_ b) (readerIndex_ b) (writerIndex_ b - readerIndex_ b).

Ltac unfold_sizes := unfold size, kCheapPrepend, max_size, size_max in *.
Ltac buf_destruct b :=
  let v := fresh "v" in let r := fresh "r" in let w := fresh "w" in
  destruct b as [v r w]; match goal with H : wf _ |- _ => destruct H end; cbn in *.

Lemma readableBytes_wf b : wf b -> readableBytes b = writerIndex_ b - readerIndex_ b.
Proof. intros []. unfold readableBytes. apply u64_small. unfold_sizes. lia. Qed.

Lemma writableBytes_wf b : wf b -> writableBytes b = size b - writerIndex_ b.
Proof. intros []. unfold writableBytes. apply u64_small. unfold_sizes. lia. Qed.

Lemma zlen_content b : wf b -> zlen (content b) = writerIndex_ b - readerIndex_ b.
Proof. intros []. unfold content. apply zlen_slice; unfold size in *; lia. Qed.

Lemma readableBytes_content b : wf b -> readableBytes b = zlen (content b).
Proof. intros. by rewrite readableBytes_wf, zlen_content. Qed.

Lemma zlen_vec_resize v n v' :
  0 <= n -> vec_resize v n = Ok v' -> zlen v' = n.
Proof.
  unfold vec_resize, zlen. intros. case_match; res_inv.
  rewrite length_app, length_take, length_replicate. lia.
Qed.

Lemma vec_resize_grow v n :
  zlen v <= n <= max_size -> vec_resize v n = Ok (v ++ replicate (Z.to_nat (n - zlen v)) x00).
Proof.
  unfold vec_resize, zlen. intros. rewrite (proj2 (Z.leb_le _ _)) by lia.
  rewrite take_ge by lia. do 3 f_equal. lia.
Qed.

Lemma new_ok n :
  0 <= n -> kCheapPrepend + n <= max_size ->
  exists b, new n = Ok b /\ wf b /\ content b = [] /\ writableBytes b = n /\
    readerIndex_ b = kCheapPrepend.
Proof.
  intros Hn Hm. unfold new. rewrite u64_small by (unfold_sizes; lia).
  rewrite vec_resize_grow by (rewrite zlen_nil; unfold_sizes; lia). cbn [mbind res_bind app].
  set (b := mk _ _ _).
  assert (size b = kCheapPrepend + n) as Hs.
  { unfold size, b, zlen. cbn [buffer_ length]. rewrite length_replicate. unfold kCheapPrepend. lia. }
  assert (wf b) as Hwf. { split; rewrite ?Hs; unfold b; cbn [readerIndex_ writerIndex_]; unfold_sizes; lia. }
  rewrite !assert_true; rewrite ?readableBytes_wf, ?writableBytes_wf by done; cbn; zbool; try lia.
  exists b. split_and!; try done. rewrite writableBytes_wf, Hs by done. cbn. lia.
Qed.

(** ** Growing: the two ways [makeSpace] finds room keep the readable bytes *)

(** Growing never lowers the prependable space below [kCheapPrepend] and adds
    at most [len] bytes to the vector. *)
Definition frame (b b' : t) (len : Z) : Prop :=
  Z.min (readerIndex_ b) kCheapPrepend <= readerIndex_ b' /\ size b' <= size b + len.

Lemma makeSpace_ok b len :
  wf b -> writableBytes b < len -> size b + len <= max_size ->
  exists b', makeSpace b len = Ok b' /\ wf b' /\ content b' = content b /\
    len <= writableBytes b' /\
    (writerIndex_ b - readerIndex_ b + len + kCheapPrepend <= size b -> size b' = size b) /\
    frame b b' len.
Proof.
  intros Hwf Hlen Hmax. pose proof (writableBytes_wf b Hwf) as Hw.
  pose proof (readableBytes_wf b Hwf) as Hr. unfold makeSpace, prependableBytes.
  rewrite Hw in *. buf_destruct b. unfold size in *; cbn in *.
  rewrite !(u64_small) by (unfold_sizes; lia). case_match; zbool.
  - rewrite vec_resize_grow by (unfold_sizes; lia). eexists; split; [done|].
    set (v' := v ++ _). assert (zlen v' = w + len) as E.
    { unfold v'. rewrite zlen_app, zlen_replicate. lia. }
    assert (wf (mk v' r w)) as Hwf'. { split; cbn; unfold size; cbn; rewrite ?E; unfold_sizes; lia. }
    split_and!; [done| | | |].
    + unfold content, v'; cbn. by rewrite slice_app_l by lia.
    + rewrite writableBytes_wf by done. unfold size; cbn. lia.
    + unfold kCheapPrepend in *. lia.
    + unfold frame, size; cbn. lia.
  - rewrite Hr. unfold kCheapPrepend in *.
    rewrite assert_true by (zbool; lia). rewrite ?u64_small by (unfold_sizes; lia).
    set (d := slice v r (w - r)). assert (zlen d = w - r) as Ed by (apply zlen_slice; lia).
    set (b' := mk (blit v 8 d) 8 _).
    assert (zlen (blit v 8 d) = zlen v) as Ev by (apply zlen_blit; lia).
    assert (wf b') as Hwf'. { split; cbn; unfold size; cbn; rewrite ?Ev; unfold_sizes; lia. }
    rewrite assert_true by (rewrite readableBytes_wf by done; cbn; zbool; lia).
    exists b'. split_and!; [done|done| | |by intros _; unfold size; cbn; rewrite Ev|].
    + unfold content; cbn. replace (8 + (w - r) - 8) with (zlen d) by lia.
      apply slice_blit_eq; fold d; lia.
    + rewrite writableBytes_wf by done. unfold size; cbn. lia.
    + unfold frame, size, kCheapPrepend; cbn. lia.
Qed.

Lemma ensureWritableBytes_ok b len :
  wf b -> 0 <= len -> size b + len <= max_size ->
  exists b', ensureWritableBytes b len = Ok b' /\ wf b' /\ content b' = content b /\
    len <= writableBytes b' /\
    (writerIndex_ b - readerIndex_ b + len + kCheapPrepend <= size b -> size b' = size b) /\
    frame b b' len.
Proof.
  intros Hwf Hlen Hmax. unfold ensureWritableBytes. case_match; zbool.
  - destruct (makeSpace_ok b len) as (b' & -> & ? & ? & ? & ? & ?); [done..|].
    cbn [mbind res_bind]. exists b'. rewrite assert_true by (zbool; lia). done.
  - exists b. cbn [mbind res_bind]. rewrite assert_true by (zbool; lia).
    split_and!; try done; unfold frame; lia.
Qed.

(** ** Effect of each operation on the abstract buffer *)

Lemma append_ok b d :
  wf b -> size b + zlen d <= max_size ->
  exists b', append b d = Ok b' /\ wf b' /\ content b' = content b ++ d /\
    (zlen (content b) + zlen d + kCheapPrepend <= size b -> size b' = size b) /\
    frame b b' (zlen d).
Proof.
  intros Hwf Hmax. unfold append.
  destruct (ensureWritableBytes_ok b (zlen d)) as (b1 & -> & Hwf1 & Hc & Hlen & Hsz & Hfr);
    [done|apply zlen_nonneg|done|].
  cbn [mbind res_bind]. rewrite zlen_content by done.
  rewrite <- Hc. clear Hc Hwf Hmax. rewrite writableBytes_wf in Hlen by done.
  set (b2 := mk _ _ _).
  pose proof (zlen_nonneg d). buf_destruct b1. unfold size in Hlen, wf_writer0, wf_size0; cbn in *.
  assert (zlen (blit v w d) = zlen v) as Ev by (apply zlen_blit; lia).
  assert (wf b2) as Hwf2. { unfold b2; split; unfold size; cbn; rewrite ?Ev; lia. }
  unfold hasWritten. rewrite writableBytes_wf by done. unfold size; cbn.
  rewrite Ev, u64_small, assert_true by (unfold_sizes; zbool; lia).
  eexists; split; [done|]. split_and!.
  - split; unfold size; cbn; rewrite ?Ev; unfold_sizes; lia.
  - unfold content; cbn. replace (w + zlen d - r) with ((w - r) + zlen d) by lia.
    rewrite slice_app by lia. f_equal.
    + apply slice_blit_before; lia.
    + replace (r + (w - r)) with w by lia. apply slice_blit_eq; lia.
  - intros. cbn. rewrite Ev. by apply Hsz.
  - unfold frame, size in *; cbn in *. by rewrite Ev.
Qed.

Lemma retrieve_ok b n :
  wf b -> 0 <= n <= zlen (content b) ->
  exists b', retrieve b n = Ok b' /\ wf b' /\ content b' = drop (Z.to_nat n) (content b) /\
    frame b b' 0.
Proof.
  intros Hwf Hn. unfold retrieve. rewrite readableBytes_content by done.
  rewrite assert_true by (zbool; lia). eexists; split; [done|].
  pose proof (zlen_content b Hwf) as Hz. destruct Hwf, b as [v r w]; cbn in *.
  case_match; zbool.
  - rewrite u64_small by (unfold_sizes; cbn in *; lia).
    split; [split; cbn; unfold_sizes; cbn in *; lia|]. split; [|unfold frame, size; cbn; lia].
    unfold content, slice; cbn. rewrite skipn_firstn_comm, drop_drop. f_equal; [lia|].
    f_equal. lia.
  - split; [split; cbn; unfold_sizes; cbn in *; lia|]. split; [|unfold frame, size; cbn; lia].
    rewrite drop_ge; [done|]. unfold zlen in *. lia.
Qed.

Lemma retrieve_too_much b n :
  wf b -> zlen (content b) < n -> retrieve b n = Err AssertFailed.
Proof.
  intros Hwf Hn. unfold retrieve. rewrite readableBytes_content by done.
  rewrite (proj2 (Z.leb_gt _ _)) by lia. done.
Qed.

Lemma retrieveAll_ok b : wf b -> wf (retrieveAll b) /\ content (retrieveAll b) = [].
Proof. intros []. split; [split; cbn; unfold_sizes; cbn in *; lia|done]. Qed.

Lemma retrieveUntil_ok b e :
  wf b -> peek b <= e <= beginWrite b ->
  exists b', retrieveUntil b e = Ok b' /\ wf b' /\
    content b' = drop (Z.to_nat (e - peek b)) (content b).
Proof.
  intros Hwf He. unfold retrieveUntil. rewrite !assert_true by (zbool; lia).
  pose proof (zlen_content b Hwf). pose proof Hwf as []. unfold peek, beginWrite in *.
  rewrite u64_small by (unfold_sizes; lia).
  destruct (retrieve_ok b (e - readerIndex_ b)) as (b' & ? & ? & ? & ?); [done|lia|].
  by exists b'.
Qed.

Lemma retrieveAsString_ok b n :
  wf b -> 0 <= n <= zlen (content b) ->
  exists b', retrieveAsString b n = Ok (take (Z.to_nat n) (content b), b') /\ wf b' /\
    content b' = drop (Z.to_nat n) (content b).
Proof.
  intros Hwf Hn. unfold retrieveAsString. rewrite readableBytes_content by done.
  rewrite assert_true by (zbool; lia).
  destruct (retrieve_ok b n) as (b' & -> & ? & ? & _); [done..|].
  cbn [mbind res_bind]. exists b'. split_and!; [|done..]. do 2 f_equal.
  pose proof (zlen_content b Hwf). unfold content, slice, peek.
  rewrite take_take. f_equal. lia.
Qed.

Lemma prepend_ok b d :
  wf b -> zlen d <= prependableBytes b ->
  exists b', prepend b d = Ok b' /\ wf b' /\ content b' = d ++ content b /\
    prependableBytes b' = prependableBytes b - zlen d /\ size b' = size b.
Proof.
  intros Hwf Hd. unfold prepend. rewrite assert_true by (zbool; lia).
  unfold prependableBytes in *. pose proof (zlen_nonneg d). buf_destruct b.
  unfold size in *; cbn in *.
  rewrite u64_small by (unfold_sizes; lia). eexists; split; [done|].
  assert (zlen (blit v (r - zlen d) d) = zlen v) as Ev by (apply zlen_blit; lia).
  split_and!; [split; unfold size; cbn; rewrite ?Ev; lia| |done|done].
  unfold content; cbn. replace (w - (r - zlen d)) with (zlen d + (w - r)) by lia.
  rewrite slice_app by lia. f_equal; [apply slice_blit_eq; lia|].
  replace (r - zlen d + zlen d) with r by lia. apply slice_blit_after; lia.
Qed.

Lemma unwrite_ok b n :
  wf b -> 0 <= n <= zlen (content b) ->
  exists b', unwrite b n = Ok b' /\ wf b' /\ buffer_ b' = buffer_ b /\
    content b' = take (length (content b) - Z.to_nat n) (content b).
Proof.
  intros Hwf Hn. unfold unwrite. rewrite readableBytes_content by done.
  rewrite assert_true by (zbool; lia). eexists; split; [done|].
  pose proof (zlen_content b Hwf) as Hz. buf_destruct b.
  rewrite u64_small by (unfold_sizes; cbn in *; lia).
  split; [split; cbn; unfold_sizes; cbn in *; lia|]. split; [done|].
  assert (length (content (mk v r w)) = Z.to_nat (w - r)) as E by (unfold zlen in Hz; lia).
  rewrite E. unfold content, slice; cbn. rewrite take_take. f_equal. lia.
Qed.

Lemma toStringPiece_ok b : wf b -> zlen (content b) <= int_max -> toStringPiece b = (peek b, zlen (content b)).
Proof.
  intros Hwf Hn. unfold toStringPiece. rewrite readableBytes_content by done.
  pose proof (zlen_nonneg (content b)). by rewrite i32_small by (unfold in_int, int_min, int_max in *; lia).
Qed.
Lemma content_slice b : wf b -> slice (buffer_ b) (peek b) (zlen (content b)) = content b.
Proof. intros Hwf. by rewrite zlen_content by done. Qed.

Lemma shrink_ok b reserve :
  wf b -> 0 <= reserve -> zlen (content b) <= int_max ->
  kCheapPrepend + kInitialSize + zlen (content b) + reserve + zlen (content b) <= max_size ->
  exists b', shrink b reserve = Ok b' /\ wf b' /\ content b' = content b /\
    kCheapPrepend <= readerIndex_ b' /\
    size b' <= kCheapPrepend + kInitialSize + zlen (content b) + reserve /\
    zlen (content b) + reserve <= size b' - kCheapPrepend.
Proof.
  intros Hwf Hr Hi Hm. pose proof (zlen_nonneg (content b)). unfold shrink.
  destruct (new_ok kInitialSize) as (o & -> & Ho & Hc & Hw & Hri); [done..|].
  cbn [mbind res_bind]. rewrite readableBytes_content, u64_small by (done || unfold_sizes; unfold kInitialSize in *; lia).
  pose proof (writableBytes_wf o Ho) as Hw'. pose proof (zlen_content o Ho) as Hz.
  rewrite Hc, zlen_nil in Hz. rewrite Hw in Hw'.
  destruct (ensureWritableBytes_ok o (zlen (content b) + reserve)) as (o1 & -> & Ho1 & Hc1 & Hw1 & _ & [Hr1 Hs1]);
    [done|lia|unfold kInitialSize, kCheapPrepend in *; lia|].
  cbn [mbind res_bind]. rewrite toStringPiece_ok, content_slice, (proj2 (Z.ltb_ge _ _)) by (done || apply zlen_nonneg).
  pose proof (writableBytes_wf o1 Ho1) as Hw1'. pose proof (zlen_content o1 Ho1) as Hz1.
  rewrite Hc1, Hc, zlen_nil in Hz1.
  destruct (append_ok o1 (content b)) as (o2 & -> & Ho2 & Hc2 & Hk & [Hr2 Hs2]);
    [done|unfold kInitialSize, kCheapPrepend in *; lia|].
  cbn [mbind res_bind swap fst]. exists (mk (buffer_ o2) (readerIndex_ o2) (writerIndex_ o2)).
  destruct o2 as [v2 r2 w2]; cbn. rewrite Hc1, Hc in Hc2.
  assert (zlen (content o1) + zlen (content b) + kCheapPrepend <= size o1) as Hfit.
  { rewrite Hc1, Hc, zlen_nil. unfold kCheapPrepend in *. destruct Ho1. lia. }
  specialize (Hk Hfit).
  pose proof (zlen_content _ Ho2) as Hz2. rewrite Hc2, app_nil_l in Hz2. destruct Ho2, Ho1; cbn in *.
  split_and!; try done; unfold size, kInitialSize, kCheapPrepend in *; cbn in *; lia.
Qed.
(** ** Refinement: a buffer implements a byte queue with headroom

    The specification keeps the queued bytes and a lower bound on the bytes
    that can still be prepended; an operation whose precondition fails has no
    abstract step. *)

Inductive op :=
  | OpAppend (d : list byte)
  | OpPrepend (d : list byte)
  | OpRetrieve (n : Z)
  | OpRetrieveAll
  | OpUnwrite (n : Z)
  | OpEnsureWritable (n : Z)
  | OpShrink (reserve : Z).

Definition run_op (b : t) (o : op) : res t :=
  match o with
  | OpAppend d => append b d
  | OpPrepend d => prepend b d
  | OpRetrieve n => retrieve b n
  | OpRetrieveAll => Ok (retrieveAll b)
  | OpUnwrite n => unwrite b n
  | OpEnsureWritable n => ensureWritableBytes b n
  | OpShrink r => shrink b r
  end.

Fixpoint run_ops (b : t) (os : list op) : res t :=
  match os with
  | [] => Ok b
  | o :: os => b ← run_op b o; run_ops b os
  end.

Definition spec_op (q : list byte * Z) (o : op) : option (list byte * Z) :=
  let '(s, h) := q in
  match o with
  | OpAppend d => Some (s ++ d, Z.min h kCheapPrepend)
  | OpPrepend d => if zlen d <=? h then Some (d ++ s, h - zlen d) else None
  | OpRetrieve n =>
      if (0 <=? n) && (n <=? zlen s)
      then Some (drop (Z.to_nat n) s, Z.min h kCheapPrepend) else None
  | OpRetrieveAll => Some ([], Z.min h kCheapPrepend)
  | OpUnwrite n =>
      if (0 <=? n) && (n <=? zlen s)
      then Some (take (length s - Z.to_nat n) s, h) else None
  | OpEnsureWritable n => if 0 <=? n then Some (s, Z.min h kCheapPrepend) else None
  | OpShrink r =>
      if (0 <=? r) && (zlen s <=? int_max) then Some (s, kCheapPrepend) else None
  end.

Fixpoint spec_ops (q : list byte * Z) (os : list op) : option (list byte * Z) :=
  match os with
  | [] => Some q
  | o :: os => q ← spec_op q o; spec_ops q os
  end.

(** An upper bound on the bytes an operation adds to the vector. *)
Definition growth (o : op) : Z :=
  match o with
  | OpAppend d => zlen d
  | OpEnsureWritable n => n
  | OpShrink r => kCheapPrepend + kInitialSize + r + int_max
  | _ => 0
  end.
Definition growths (os : list op) : Z := foldr (fun o n => growth o + n) 0 os.

Definition refines (b : t) (q : list byte * Z) : Prop :=
  wf b /\ content b = q.1 /\ q.2 <= prependableBytes b.

Lemma run_op_refines b q o q' :
  refines b q -> spec_op q o = Some q' -> size b + growth o <= max_size ->
  exists b', run_op b o = Ok b' /\ refines b' q' /\ size b' <= size b + growth o.
Proof.
  destruct q as [s h]; intros (Hwf & Hc & Hh) Ho Hg; cbn in Hc, Hh; subst s.
  unfold refines, prependableBytes in *.
  destruct o; cbn [spec_op run_op growth] in *; try case_match; simplify_eq; zbool; cbn [fst snd].
  - destruct (append_ok b d) as (b' & ? & ? & ? & _ & []); [done..|].
    exists b'; split_and!; done || lia.
  - destruct (prepend_ok b d) as (b' & ? & ? & ? & ? & ?); [done|unfold prependableBytes; lia|].
    unfold prependableBytes in *. exists b'; split_and!; done || lia.
  - destruct (retrieve_ok b n) as (b' & ? & ? & ? & []); [done|lia|].
    exists b'; split_and!; done || lia.
  - destruct (retrieveAll_ok b) as []; [done|].
    exists (retrieveAll b); split_and!; try done; unfold size; cbn; lia.
  - unfold unwrite. destruct (unwrite_ok b n) as (b' & E & ? & Hb & ?); [done|lia|].
    unfold unwrite in E. rewrite E. exists b'; split_and!; try done; unfold size; rewrite ?Hb; try lia.
    res_inv. cbn. lia.
  - destruct (ensureWritableBytes_ok b n) as (b' & ? & ? & ? & _ & _ & []); [done|lia|done|].
    exists b'; split_and!; done || lia.
  - pose proof (zlen_nonneg (content b)). pose proof (zlen_content b Hwf). destruct Hwf.
    destruct (shrink_ok b reserve) as (b' & ? & ? & ? & ? & ? & _); [done|lia..|].
    exists b'; split_and!; done || lia.
Qed.

Lemma spec_op_growth q o q' : spec_op q o = Some q' -> 0 <= growth o.
Proof.
  destruct q as [s h], o; cbn; try case_match; intros; simplify_eq; zbool;
    auto using zlen_nonneg; unfold kCheapPrepend, kInitialSize, int_max; lia.
Qed.

Lemma spec_ops_growths q os q' : spec_ops q os = Some q' -> 0 <= growths os.
Proof.
  revert q. induction os as [|o os IH]; intros q H; cbn in *; [lia|].
  apply bind_Some in H as (q1 & Ho & H). apply spec_op_growth in Ho. apply IH in H.
  unfold growths in H. lia.
Qed.

(** C1: a buffer refines the byte queue.  From a well-formed buffer, every
    sequence of operations the specification allows runs to completion (no
    assertion fails, nothing is thrown) as long as the vector may grow by the
    bytes asked for, leaves a well-formed buffer, and its readable bytes are
    those of the queue. *)
Theorem run_ops_refines b q os q' :
  refines b q -> spec_ops q os = Some q' -> size b + growths os <= max_size ->
  exists b', run_ops b os = Ok b' /\ refines b' q'.
Proof.
  revert b q. induction os as [|o os IH]; intros b q Hr Hs Hg; [cbn in *; simplify_eq; by eauto|].
  change (growths (o :: os)) with (growth o + growths os) in Hg. cbn in Hs.
  apply bind_Some in Hs as (q1 & Ho & Hs). pose proof (spec_ops_growths _ _ _ Hs).
  destruct (run_op_refines b q o q1) as (b1 & E & Hr1 & Hsz); [done|done|lia|].
  cbn. rewrite E. cbn [mbind res_bind]. apply (IH b1 q1); done || lia.
Qed.

Lemma run_ops_refines_witness :
  exists b b', new 16 = Ok b /\
  run_ops b [OpAppend (bs "hello world"); OpPrepend [x01; x02]; OpRetrieve 8;
             OpUnwrite 2; OpAppend (bs "0123456789abcdef"); OpShrink 5] = Ok b' /\
  refines b' (bs "wor0123456789abcdef", 8).
Proof.
  destruct (new_ok 16) as (b & Hb & Hwf & Hc & _ & Hr); [done..|].
  destruct (run_ops_refines b ([], 8)
    [OpAppend (bs "hello world"); OpPrepend [x01; x02]; OpRetrieve 8;
     OpUnwrite 2; OpAppend (bs "0123456789abcdef"); OpShrink 5]
    (bs "wor0123456789abcdef", 8)) as (b' & E & H).
  - split; [exact Hwf|]. split; [exact Hc|]. unfold prependableBytes. rewrite Hr. done.
  - by vm_compute.
  - clear -Hb. injection Hb as <-. by vm_compute.
  - exists b, b'. done.
Defined.

(** ** Integers in network byte order *)

Lemma wire_bytes n w x :
  w = 8 * Z.of_nat n -> le_split n (swrap w (bswap n (uwrap w x))) = be_split n x.
Proof.
  intros ->. rewrite (le_split_mod n _ (bswap n (uwrap (8 * Z.of_nat n) x))).
  - rewrite le_split_bswap. unfold be_split, uwrap. f_equal. apply le_split_mod.
    by rewrite Z.mod_mod by (apply Z.pow_nonzero; lia).
  - unfold swrap. rewrite Zminus_mod_idemp_l. f_equal. lia.
Qed.

Lemma wire_value n w l :
  (0 < n)%nat -> w = 8 * Z.of_nat n -> length l = n ->
  swrap w (bswap n (uwrap w (swrap w (le_combine l)))) = swrap w (bswap n (le_combine l)).
Proof.
  intros Hn -> Hl. f_equal. unfold bswap. do 2 f_equal. apply le_split_mod.
  unfold uwrap, swrap. rewrite Z.mod_mod by (apply Z.pow_nonzero; lia).
  rewrite Zminus_mod_idemp_l. f_equal. lia.
Qed.

Lemma content_prefix b d k :
  wf b -> content b = d ++ k -> slice (buffer_ b) (peek b) (zlen d) = d.
Proof.
  intros Hwf Hc. pose proof (zlen_content b Hwf) as Hz. pose proof (zlen_nonneg d).
  pose proof (zlen_nonneg k). rewrite Hc, zlen_app in Hz.
  pose proof (slice_app (buffer_ b) (readerIndex_ b) (zlen d) (writerIndex_ b - readerIndex_ b - zlen d)
    ltac:(destruct Hwf; lia) ltac:(lia) ltac:(lia)) as Hs.
  replace (zlen d + (writerIndex_ b - readerIndex_ b - zlen d)) with (writerIndex_ b - readerIndex_ b) in Hs by lia.
  unfold content in Hc. rewrite Hs in Hc. apply app_inj_1 in Hc as [? _]; [done|].
  assert (zlen (slice (buffer_ b) (readerIndex_ b) (zlen d)) = zlen d) as E.
  { apply zlen_slice; destruct Hwf; unfold size in *; lia. }
  unfold zlen in *. lia.
Qed.

Lemma wire_value_1 l :
  length l = 1%nat -> swrap 8 (bswap 1 (uwrap 8 (swrap 8 (le_combine l)))) = swrap 8 (le_combine l).
Proof.
  intros Hl. rewrite wire_value by (done || lia). f_equal. unfold bswap.
  rewrite <- Hl at 1. rewrite le_split_combine. by destruct l as [|? []].
Qed.

(** The typed readers, when the buffer starts with the big-endian bytes of [x]. *)
Lemma read_wire n zn w b x k :
  (0 < n)%nat -> zn = Z.of_nat n -> w = 8 * Z.of_nat n -> - 2 ^ (w - 1) <= x < 2 ^ (w - 1) ->
  wf b -> content b = be_split n x ++ k ->
  zn <= readableBytes b /\
  swrap w (bswap n (uwrap w (swrap w (le_combine (slice (buffer_ b) (peek b) zn))))) = x /\
  exists b', retrieve b zn = Ok b' /\ wf b' /\ content b' = k.
Proof.
  intros Hn -> Hw Hx Hwf Hc. pose proof (content_prefix b _ _ Hwf Hc) as Hp.
  unfold zlen in Hp. rewrite length_be_split in Hp.
  assert (Z.of_nat n <= zlen (content b)) as Hle.
  { rewrite Hc, zlen_app. unfold zlen. rewrite length_be_split. lia. }
  split_and!.
  - by rewrite readableBytes_content.
  - rewrite Hp, wire_value by (done || apply length_be_split). by apply swrap_bswap.
  - destruct (retrieve_ok b (Z.of_nat n)) as (b' & ? & ? & Hd & _); [done|lia|].
    exists b'. split_and!; [done..|]. rewrite Hd, Hc, Nat2Z.id.
    by rewrite drop_app_length' by (by rewrite length_be_split).
Qed.

(** [appendInt64] queues the eight bytes of [x] most significant first, and
    when everything before it has been consumed [readInt64] returns [x] and
    removes exactly those bytes; the same for the 32-, 16- and 8-bit forms. *)
Theorem appendInt_readInt b x64 x32 x16 x8 :
  wf b -> content b = [] -> size b + 15 <= max_size ->
  - 2 ^ 63 <= x64 < 2 ^ 63 -> - 2 ^ 31 <= x32 < 2 ^ 31 ->
  - 2 ^ 15 <= x16 < 2 ^ 15 -> - 2 ^ 7 <= x8 < 2 ^ 7 ->
  exists b1 b2 b3 b4,
    (b ← appendInt64 b x64; b ← appendInt32 b x32; b ← appendInt16 b x16; appendInt8 b x8) = Ok b1 /\
    content b1 = be_split 8 x64 ++ be_split 4 x32 ++ be_split 2 x16 ++ be_split 1 x8 /\
    readInt64 b1 = Ok (x64, b2) /\ readInt32 b2 = Ok (x32, b3) /\ readInt16 b3 = Ok (x16, b4) /\
    exists b5, readInt8 b4 = Ok (x8, b5) /\ wf b5 /\ content b5 = [].
Proof.
  intros Hwf Hc Hm H64 H32 H16 H8.
  unfold appendInt64, appendInt32, appendInt16, appendInt8.
  unfold hostToNetwork64, hostToNetwork32, hostToNetwork16. rewrite !wire_bytes by done.
  change (le_split 1 x8) with (be_split 1 x8).
  assert (forall n z, zlen (be_split n z) = Z.of_nat n) as Hl by (intros; unfold zlen; by rewrite length_be_split).
  destruct (append_ok b (be_split 8 x64)) as (c1 & -> & Hw1 & Hc1 & _ & [_ Hs1]); [done|rewrite Hl; lia|].
  cbn [mbind res_bind]. rewrite Hl in Hs1.
  destruct (append_ok c1 (be_split 4 x32)) as (c2 & -> & Hw2 & Hc2 & _ & [_ Hs2]); [done|rewrite Hl; lia|].
  cbn [mbind res_bind]. rewrite Hl in Hs2.
  destruct (append_ok c2 (be_split 2 x16)) as (c3 & -> & Hw3 & Hc3 & _ & [_ Hs3]); [done|rewrite Hl; lia|].
  cbn [mbind res_bind]. rewrite Hl in Hs3.
  destruct (append_ok c3 (be_split 1 x8)) as (b1 & E1 & Hb1 & Hcb & _); [done|rewrite Hl; lia|].
  rewrite Hc3, Hc2, Hc1, Hc, app_nil_l, <- !app_assoc in Hcb.
  destruct (read_wire 8 8 64 b1 x64 _ ltac:(lia) eq_refl eq_refl H64 Hb1 Hcb) as (L1 & V1 & b2 & R1 & W2 & C2).
  destruct (read_wire 4 4 32 b2 x32 _ ltac:(lia) eq_refl eq_refl H32 W2 C2) as (L2 & V2 & b3 & R2 & W3 & C3).
  destruct (read_wire 2 2 16 b3 x16 _ ltac:(lia) eq_refl eq_refl H16 W3 C3) as (L3 & V3 & b4 & R3 & W4 & C4).
  rewrite <- (app_nil_r (be_split 1 x8)) in C4.
  destruct (read_wire 1 1 8 b4 x8 _ ltac:(lia) eq_refl eq_refl H8 W4 C4) as (L4 & V4 & b5 & R4 & W5 & C5).
  exists b1, b2, b3, b4. split_and!; [done|done|..].
  - unfold readInt64, peekInt64. rewrite assert_true by (zbool; lia). cbn [mbind res_bind].
    unfold networkToHost64. rewrite V1. unfold retrieveInt64. by rewrite R1.
  - unfold readInt32, peekInt32. rewrite assert_true by (zbool; lia). cbn [mbind res_bind].
    unfold networkToHost32. rewrite V2. unfold retrieveInt32. by rewrite R2.
  - unfold readInt16, peekInt16. rewrite assert_true by (zbool; lia). cbn [mbind res_bind].
    unfold networkToHost16. rewrite V3. unfold retrieveInt16. by rewrite R3.
  - exists b5. split_and!; [|done..].
    unfold readInt8, peekInt8. rewrite assert_true by (zbool; lia). cbn [mbind res_bind].
    rewrite wire_value_1 in V4.
    + by rewrite V4; unfold retrieveInt8; rewrite R4.
    + apply (content_prefix b4) in C4 as E; [|done]. rewrite Hl in E.
      change (Z.of_nat 1) with 1 in E. by rewrite E, length_be_split.
Qed.

Lemma appendInt_readInt_witness :
  exists b b1, new 16 = Ok b /\
    (b ← appendInt64 b (-2); b ← appendInt32 b 258; b ← appendInt16 b (-1); appendInt8 b 7) = Ok b1 /\
    content b1 = [xff; xff; xff; xff; xff; xff; xff; xfe; x00; x00; x01; x02; xff; xff; x07].
Proof.
  destruct (new_ok 16) as (b & Hb & Hwf & Hc & _); [done..|].
  destruct (appendInt_readInt b (-2) 258 (-1) 7) as (b1 & _ & _ & _ & E & Hc1 & _); [done|done|..|lia|lia|lia|lia|].
  - clear -Hb. injection Hb as <-. by vm_compute.
  - exists b, b1. split_and!; [done|done|]. by rewrite Hc1.
Defined.


(** ** Searching *)

(** [p] is where the first line end of the readable bytes starts. *)
Definition first_crlf (s line rest : list byte) : Prop :=
  s = line ++ kCRLF ++ rest /\
  forall l r, s = l ++ kCRLF ++ r -> (length line <= length l)%nat.

Lemma search_crlf_found s :
  (search_idx kCRLF s < length s)%nat ->
  first_crlf s (take (search_idx kCRLF s) s) (drop (search_idx kCRLF s + 2) s).
Proof.
  intros H. pose proof (search_idx_found kCRLF s ltac:(done) H) as Hp.
  apply prefixb_spec in Hp as (k & Hk). split.
  - rewrite <- drop_drop, Hk. change (drop 2 (kCRLF ++ k)) with k.
    rewrite <- Hk. by rewrite take_drop.
  - intros l r ->. rewrite length_take_le by lia.
    destruct (decide (search_idx kCRLF (l ++ kCRLF ++ r) <= length l)%nat) as [|n]; [done|].
    pose proof (search_idx_before kCRLF (l ++ kCRLF ++ r) (length l) ltac:(lia)) as Hf.
    by rewrite drop_app_length, prefixb_app in Hf.
Qed.

Lemma search_crlf_none s :
  search_idx kCRLF s = length s -> forall l r, s <> l ++ kCRLF ++ r.
Proof.
  intros H l r ->. pose proof (search_idx_before kCRLF (l ++ kCRLF ++ r) (length l)) as Hf.
  rewrite H, drop_app_length, prefixb_app, !length_app in Hf. cbn in Hf.
  discriminate Hf. lia.
Qed.

Lemma search_crlf_first s line rest :
  first_crlf s line rest -> search_idx kCRLF s = length line.
Proof.
  intros [-> H].
  destruct (decide (search_idx kCRLF (line ++ kCRLF ++ rest) < length (line ++ kCRLF ++ rest))%nat) as [L|L].
  - destruct (search_crlf_found _ L) as [E Hm].
    pose proof (H _ _ E) as H1. pose proof (Hm _ _ eq_refl) as H2.
    rewrite length_take_le in H1, H2 by lia. lia.
  - exfalso. pose proof (search_idx_le kCRLF (line ++ kCRLF ++ rest)).
    apply (search_crlf_none (line ++ kCRLF ++ rest)) with (l := line) (r := rest); done || lia.
Qed.

Lemma findCRLF_spec b :
  wf b ->
  findCRLF b = (if bool_decide (search_idx kCRLF (content b) = length (content b)) then None
                else Some (peek b + Z.of_nat (search_idx kCRLF (content b)))).
Proof.
  intros Hwf. unfold findCRLF, peek, beginWrite.
  change (slice _ _ _) with (content b). pose proof (zlen_content b Hwf) as Hz. unfold zlen in Hz.
  pose proof (search_idx_le kCRLF (content b)).
  case_bool_decide; case_match; zbool; done || lia.
Qed.

(** [findCRLF] returns the start of the first CR LF of the readable bytes,
    and null exactly when they contain none. *)
Theorem findCRLF_correct b :
  wf b ->
  match findCRLF b with
  | Some p => exists line rest, first_crlf (content b) line rest /\ p = peek b + zlen line
  | None => forall l r, content b <> l ++ kCRLF ++ r
  end.
Proof.
  intros Hwf. rewrite findCRLF_spec by done. case_bool_decide as E.
  - by apply search_crlf_none.
  - pose proof (search_idx_le kCRLF (content b)).
    eexists _, _; split; [apply search_crlf_found; lia|].
    unfold zlen. rewrite length_take_le by lia. done.
Qed.

Lemma findCRLF_correct_witness :
  exists b, (b ← new 32; append b (bs "GET" ++ kCRLF ++ kCRLF)) = Ok b /\ wf b /\
    findCRLF b = Some 11 /\
    match findCRLF b with
    | Some p => exists line rest, first_crlf (content b) line rest /\ p = peek b + zlen line
    | None => forall l r, content b <> l ++ kCRLF ++ r
    end.
Proof.
  destruct (b ← new 32; append b (bs "GET" ++ kCRLF ++ kCRLF)) as [b|] eqn:E; [|by vm_compute in E].
  exists b. assert (wf b) as Hwf.
  { clear -E. vm_compute in E. injection E as <-. by split; vm_compute. }
  split_and!; [done|done| |apply (findCRLF_correct b Hwf)].
  clear -E. vm_compute in E. injection E as <-. by vm_compute.
Defined.

(** ** Reading from the socket *)

(** What POSIX says of [readv]: it stores at most the bytes the vectors hold. *)
Definition readv_bounded (sys_readv : list Z -> readv_result) : Prop :=
  forall iov, match sys_readv iov with
              | ReadvData d => zlen d <= foldr Z.add 0 iov
              | ReadvError _ => True
              end.

(** What one call delivers goes to the end of the buffer. *)
Lemma readFd_data sys_readv b d :
  sys_readv (readFd_iov b) = ReadvData d -> zlen d <= foldr Z.add 0 (readFd_iov b) -> wf b -> size b + extraBufSize <= max_size ->
  exists b', readFd sys_readv b = Ok (b', zlen d, None) /\ wf b' /\ content b' = content b ++ d /\ size b' <= size b + zlen d.
Proof.
  intros E Hb Hwf Hm. unfold readFd. rewrite E.
  pose proof (writableBytes_wf b Hwf) as Hw. pose proof (zlen_nonneg d).
  assert (zlen d <= writableBytes b + extraBufSize) as Hd.
  { unfold readFd_iov in Hb. destruct (_ <? _) in Hb; cbn in Hb; unfold extraBufSize in *; lia. }
  clear Hb E. rewrite Hw in *. pose proof (zlen_content b Hwf) as Hz.
  set (d1 := take _ d). set (d2 := take _ _).
  assert (zlen d1 = Z.min (zlen d) (size b - writerIndex_ b)) as E1.
  { unfold d1, zlen. destruct Hwf. rewrite length_take. lia. }
  set (v1 := blit _ _ _).
  assert (zlen v1 = size b) as Ev. { apply zlen_blit; destruct Hwf; unfold size in *; lia. }
  assert (forall w, writerIndex_ b <= w -> w - writerIndex_ b = zlen d1 ->
    content (mk v1 (readerIndex_ b) w) = content b ++ d1) as Hc.
  { intros w Hw1 Hw2. unfold content; cbn. destruct Hwf.
    replace (w - readerIndex_ b) with (writerIndex_ b - readerIndex_ b + zlen d1) by lia.
    rewrite slice_app by lia. f_equal.
    - apply slice_blit_before; unfold size in *; lia.
    - replace (readerIndex_ b + (writerIndex_ b - readerIndex_ b)) with (writerIndex_ b) by lia.
      apply slice_blit_eq; unfold size in *; lia. }
  cbn [buffer_ readerIndex_ writerIndex_]. case_match; zbool.
  - assert (d1 = d) as Ed by (unfold d1; rewrite take_ge; [done|unfold zlen in *; lia]).
    rewrite u64_small by (destruct Hwf; unfold_sizes; lia). eexists; split_and!; [done| | |].
    + destruct Hwf. split; cbn; unfold size; cbn; rewrite ?Ev; lia.
    + rewrite Hc, Ed; [done|lia|]. rewrite Ed. lia.
    + unfold size at 1. cbn. lia.
  - assert (d2 = drop (Z.to_nat (size b - writerIndex_ b)) d) as Ed2.
    { unfold d2. rewrite take_ge; [done|]. rewrite length_drop. unfold zlen in *. lia. }
    set (b1 := mk v1 _ _). assert (wf b1) as Hwf1.
    { destruct Hwf. unfold b1. split; unfold size; cbn; rewrite ?Ev; unfold size in *; lia. }
    destruct (append_ok b1 d2) as (b' & -> & Hwf' & Hc' & _ & [_ Hs']); [done| |].
    { unfold size at 1, b1; cbn. rewrite Ev, Ed2. unfold zlen in *. rewrite length_drop. destruct Hwf. lia. }
    cbn [mbind res_bind]. exists b'. split_and!; [done|done| |].
    2:{ unfold size at 2, b1 in Hs'. cbn in Hs'. rewrite Ev in Hs'. subst d2. unfold zlen in *. rewrite length_take, length_drop in Hs'. lia. }
    rewrite Hc'. unfold b1. unfold size; cbn [buffer_]. rewrite Ev, Hc by (destruct Hwf; lia).
    rewrite <- app_assoc, Ed2. unfold d1. by rewrite take_drop.
Qed.

(** C38: [readFd] queues exactly the bytes the kernel delivered, in order, both
    when they fit the writable space and when they spill into the stack buffer,
    and returns their number; on an error the buffer is unchanged and the errno
    is reported. *)
Theorem readFd_correct sys_readv b :
  readv_bounded sys_readv -> wf b -> size b + extraBufSize <= max_size ->
  match sys_readv (readFd_iov b) with
  | ReadvError e => readFd sys_readv b = Ok (b, -1, Some e)
  | ReadvData d =>
      exists b', readFd sys_readv b = Ok (b', zlen d, None) /\ wf b' /\ content b' = content b ++ d
  end.
Proof.
  intros Hb Hwf Hm. specialize (Hb (readFd_iov b)). destruct (sys_readv (readFd_iov b)) as [e|d] eqn:E.
  - unfold readFd. by rewrite E.
  - destruct (readFd_data sys_readv b d E Hb Hwf Hm) as (b' & ? & ? & ? & _). by exists b'.
Qed.

Lemma readFd_correct_witness :
  exists b b', new 4 = Ok b /\
    readFd (fun iov => if 11 <=? foldr Z.add 0 iov then ReadvData (bs "spills over") else ReadvError 22) b
    = Ok (b', 11, None) /\ content b' = bs "spills over".
Proof.
  destruct (new_ok 4) as (b & Hb & Hwf & Hc & _); [done..|].
  pose proof (readFd_correct
    (fun iov => if 11 <=? foldr Z.add 0 iov then ReadvData (bs "spills over") else ReadvError 22) b) as H.
  cbn beta iota in H. assert (foldr Z.add 0 (readFd_iov b) = 65540) as Ef.
  { clear -Hb. injection Hb as <-. by vm_compute. }
  rewrite Ef in H. destruct H as (b' & E & _ & Hc').
  - intros iov. destruct (11 <=? _) eqn:L; [|done]. by apply Z.leb_le in L.
  - done.
  - clear -Hb. injection Hb as <-. by vm_compute.
  - exists b, b'. rewrite Hc in Hc'. done.
Defined.

End Buffer.
