(* ===== verification/Printf.v ===== *)
(** The integer conversions of [snprintf] the sources use ([%d], [%5d], [%02d],
    [%zd], ...) and the truncation of its output to the buffer.

    [dec] is the reference for every integer the program prints; [undec] reads
    it back. *)

From S2P Require Import Prelude.

Definition digit (d : Z) : byte := byte_of (48 + d).

(** Decimal digits of a non-negative number, most significant first.  The fuel
    [log2 n + 1] bounds the number of decimal digits. *)
Fixpoint dec_go (fuel : nat) (n : Z) : list byte :=
  match fuel with
  | O => []
  | S f => if n <? 10 then [digit n] else dec_go f (n / 10) ++ [digit (n mod 10)]
  end.
Definition dec_fuel (n : Z) : nat := S (Z.to_nat (Z.log2 n)).
Definition dec_pos (n : Z) : list byte := dec_go (dec_fuel n) n.

Arguments dec_pos n : simpl never.

Definition minus : byte := x2d.
Definition space : byte := x20.
Definition zero : byte := x30.

(** [%d] *)
Definition dec (z : Z) : list byte :=
  if z <? 0 then minus :: dec_pos (- z) else dec_pos z.

(** [%Nd]: right-justified in a field of [w] spaces. *)
Definition fmt_sp (w : nat) (z : Z) : list byte :=
  replicate (w - length (dec z)) space ++ dec z.

(** [%0Nd]: the sign, then zeros up to the field width. *)
Definition fmt_0 (w : nat) (z : Z) : list byte :=
  if z <? 0 then minus :: replicate (w - 1 - length (dec_pos (- z))) zero ++ dec_pos (- z)
  else replicate (w - length (dec_pos z)) zero ++ dec_pos z.

(** [snprintf(buf, size, ...)]: what the buffer holds as a C string. *)
Definition snprintf (size : nat) (out : list byte) : list byte := take (size - 1) out.

(** The value of a digit string. *)
Definition digit_val (b : byte) : Z := u8 b - 48.
Definition undec_pos (l : list byte) : Z := foldl (fun n b => n * 10 + digit_val b) 0 l.
Definition undec (l : list byte) : Z :=
  match l with
  | x2d :: l => - undec_pos l
  | _ => undec_pos l
  end.

Definition is_digit (b : byte) : bool := (48 <=? u8 b) && (u8 b <=? 57).

Lemma digit_val_digit d : 0 <= d < 10 -> digit_val (digit d) = d.
Proof. intros. unfold digit_val, digit. rewrite u8_byte_of, Z.mod_small; lia. Qed.

Lemma is_digit_digit d : 0 <= d < 10 -> is_digit (digit d) = true.
Proof. intros. unfold is_digit, digit. rewrite u8_byte_of, Z.mod_small; zbool; lia. Qed.

Lemma dec_fuel_step n : 10 <= n -> exists f, dec_fuel n = S (S f) /\ (dec_fuel (n / 10) <= S f)%nat.
Proof.
  intros Hn. unfold dec_fuel.
  assert (0 < Z.log2 n) as Hl by (apply Z.log2_pos; lia).
  assert (Z.log2 (n / 10) + 1 <= Z.log2 n).
  { transitivity (Z.log2 (n / 2)).
    - assert (n / 10 * 2 <= n / 2) by dlia.
      rewrite <- (Z.log2_shiftl (n / 10) 1) by dlia. apply Z.log2_le_mono.
      rewrite Z.shiftl_mul_pow2 by lia. lia.
    - apply Z.log2_le_mono. dlia. }
  exists (Z.to_nat (Z.log2 n) - 1)%nat. lia.
Qed.

Lemma dec_go_S f n :
  dec_go (S f) n = if n <? 10 then [digit n] else dec_go f (n / 10) ++ [digit (n mod 10)].
Proof. done. Qed.

Lemma dec_go_fuel f n : 0 <= n -> (dec_fuel n <= f)%nat -> dec_go f n = dec_pos n.
Proof.
  unfold dec_pos. intros Hn. remember (dec_fuel n) as g eqn:Eg.
  revert n f Hn Eg. induction (lt_wf g) as [g _ IH]; intros n f Hn -> Hf.
  destruct (decide (n < 10)) as [L|L].
  - unfold dec_fuel in *. destruct f; [lia|]. cbn. by rewrite (proj2 (Z.ltb_lt _ _)) by lia.
  - destruct (dec_fuel_step n) as (k & E & Hk); [lia|]. rewrite E in *.
    destruct f as [|f]; [lia|]. rewrite (dec_go_S f), (dec_go_S (S k)).
    rewrite (proj2 (Z.ltb_ge _ _)) by lia. f_equal.
    rewrite (IH (dec_fuel (n / 10)) ltac:(lia) (n / 10) f); [|dlia|done|lia].
    by rewrite (IH (dec_fuel (n / 10)) ltac:(lia) (n / 10) (S k)); [|dlia|done|lia].
Qed.

Lemma dec_pos_small n : 0 <= n < 10 -> dec_pos n = [digit n].
Proof. intros. unfold dec_pos, dec_fuel. cbn. by rewrite (proj2 (Z.ltb_lt _ _)) by lia. Qed.

Lemma dec_pos_step n : 10 <= n -> dec_pos n = dec_pos (n / 10) ++ [digit (n mod 10)].
Proof.
  intros Hn. destruct (dec_fuel_step n Hn) as (k & E & Hk).
  unfold dec_pos at 1. rewrite E, dec_go_S. rewrite (proj2 (Z.ltb_ge _ _)) by lia.
  by rewrite dec_go_fuel by dlia.
Qed.

(** Induction on the decimal digits. *)
Lemma dec_ind (P : Z -> Prop) :
  (forall n, 0 <= n < 10 -> P n) -> (forall n, 10 <= n -> P (n / 10) -> P n) -> forall n, 0 <= n -> P n.
Proof.
  intros H1 H2 n Hn. induction (Z.lt_wf 0 n) as [n _ IH].
  destruct (decide (n < 10)); [apply H1; lia|]. apply H2; [lia|]. apply IH; dlia.
Qed.

Lemma undec_pos_app l b : undec_pos (l ++ [b]) = undec_pos l * 10 + digit_val b.
Proof. unfold undec_pos. by rewrite foldl_app. Qed.

Lemma undec_dec_pos n : 0 <= n -> undec_pos (dec_pos n) = n.
Proof.
  revert n. apply dec_ind; intros n Hn.
  - rewrite dec_pos_small by done. unfold undec_pos; cbn. by rewrite digit_val_digit.
  - intros IH. rewrite dec_pos_step, undec_pos_app, IH, digit_val_digit by dlia. dlia.
Qed.

Lemma dec_pos_digits n : 0 <= n -> Forall (fun b => is_digit b = true) (dec_pos n).
Proof.
  revert n. apply dec_ind; intros n Hn.
  - rewrite dec_pos_small by done. constructor; [by apply is_digit_digit|done].
  - intros IH. rewrite dec_pos_step by done. apply Forall_app; split; [done|].
    constructor; [apply is_digit_digit; dlia|done].
Qed.

Lemma length_dec_pos n k : (0 < k)%nat -> 0 <= n < 10 ^ Z.of_nat k -> (1 <= length (dec_pos n) <= k)%nat.
Proof.
  intros Hk [Hn Hb]. revert k Hk Hb. revert n Hn.
  apply (dec_ind (fun n => forall k, (0 < k)%nat -> n < 10 ^ Z.of_nat k -> (1 <= length (dec_pos n) <= k)%nat));
    intros n Hn; [|intros IH]; intros k Hk Hb.
  - rewrite dec_pos_small by done. cbn. lia.
  - rewrite dec_pos_step, length_app by done. cbn.
    destruct k as [|[|k]]; [lia|change (10 ^ Z.of_nat 1) with 10 in Hb; lia|].
    assert (n / 10 < 10 ^ Z.of_nat (S k)) as Hd.
    { apply Z.div_lt_upper_bound; [lia|]. rewrite <- Z.pow_succ_r by lia.
      by replace (Z.succ (Z.of_nat (S k))) with (Z.of_nat (S (S k))) by lia. }
    specialize (IH (S k) ltac:(lia) Hd). lia.
Qed.

Lemma dec_pos_inj n m : 0 <= n -> 0 <= m -> dec_pos n = dec_pos m -> n = m.
Proof. intros Hn Hm H. by rewrite <- (undec_dec_pos n), <- (undec_dec_pos m), H. Qed.

Lemma undec_dec z : undec (dec z) = z.
Proof.
  unfold dec. case_match; zbool.
  - cbn. rewrite undec_dec_pos; lia.
  - pose proof (dec_pos_digits z ltac:(lia)) as Hd. pose proof (undec_dec_pos z ltac:(lia)) as Hu.
    destruct Hd as [|b l Hb _]; [done|]. unfold undec. by destruct b.
Qed.

Lemma fmt_0_len w z :
  (0 < w)%nat -> 0 <= z < 10 ^ Z.of_nat w -> length (fmt_0 w z) = w.
Proof.
  intros Hw Hz. unfold fmt_0. rewrite (proj2 (Z.ltb_ge _ _)) by lia.
  rewrite length_app, length_replicate. pose proof (length_dec_pos z w Hw Hz). lia.
Qed.

Lemma undec_pos_zeros k l : undec_pos (replicate k zero ++ l) = undec_pos l.
Proof. induction k as [|k IH]; [done|]. exact IH. Qed.

Lemma undec_fmt_0 w z : 0 <= z -> undec_pos (fmt_0 w z) = z.
Proof.
  intros Hz. unfold fmt_0. rewrite (proj2 (Z.ltb_ge _ _)) by lia.
  by rewrite undec_pos_zeros, undec_dec_pos.
Qed.

#[export] Hint Resolve dec_pos_digits is_digit_digit : cpp.
