(* ===== verification/CString.v ===== *)
(** The C and C++ string functions that the parsers of the program use: the
    conversions strtol, atol, atoll and atoi, and searching in a std::string.

    A C string is the bytes before its NUL; what follows a std::string's text is
    a NUL too, so reading on stops there. *)

From S2P Require Import Prelude Printf.

Module CString.

(** The bytes up to the first NUL. *)
Definition c_str (p : list byte) : list byte := take (find_idx (is_char x00) p) p.

Definition isspace (b : byte) : bool := (u8 b =? 32) || ((9 <=? u8 b) && (u8 b <=? 13)).
Definition isdigit (b : byte) : bool := is_digit b.

(** The longest prefix whose bytes satisfy [p], and the rest. *)
Fixpoint span (p : byte -> bool) (l : list byte) : list byte * list byte :=
  match l with
  | [] => ([], [])
  | b :: l => if p b then let '(x, y) := span p l in (b :: x, y) else ([], b :: l)
  end.

Definition long_max : Z := 2 ^ 63 - 1.
Definition long_min : Z := - 2 ^ 63.
Definition clamp (z : Z) : Z := if long_max <? z then long_max else if z <? long_min then long_min else z.

Definition sign (p : list byte) : bool * list byte :=
  match p with
  | b :: r => if bool_decide (b = minus) then (true, r) else if bool_decide (b = x2b) then (false, r) else (false, p)
  | [] => (false, p)
  end.
(** [strtol(p, NULL, 10)]: white space, a sign, digits; out of range it answers
    the nearest limit. *)
Definition strtol (p : list byte) : Z :=
  let p := (span isspace p).2 in
  let '(neg, p) := sign p in
  let n := undec_pos (span isdigit p).1 in
  clamp (if neg then - n else n).
Definition atol (p : list byte) : Z := strtol p.
Definition atoll (p : list byte) : Z := strtol p.
Definition atoi (p : list byte) : Z := i32 (strtol p).

(** [str.find(key)], [str.find(c)] and [str.rfind(c)]; [None] is npos. *)
Definition find (str key : list byte) : option nat :=
  let i := search_idx key str in
  if prefixb key (drop i str) then Some i else None.
Definition find_char (str : list byte) (c : byte) : option nat :=
  let i := find_idx (is_char c) str in
  if decide (i < length str)%nat then Some i else None.
Definition rfind_char (str : list byte) (c : byte) : option nat :=
  let i := find_idx (is_char c) (rev str) in
  if decide (i < length str)%nat then Some (length str - 1 - i)%nat else None.

(** ** What they find *)

Lemma span_app (p : byte -> bool) a b :
  Forall (fun x => p x = true) a -> match b with x :: _ => p x = false | [] => True end -> span p (a ++ b) = (a, b).
Proof.
  intros Ha Hb. induction Ha as [|x a Hx Ha IH]; cbn.
  - destruct b as [|y b]; [done|]. cbn. by rewrite Hb.
  - by rewrite Hx, IH.
Qed.

Definition not_digit (r : list byte) : Prop := match r with b :: _ => isdigit b = false | [] => True end.

(** A number that was printed is read back, with blanks before it. *)
Lemma strtol_dec blanks n r :
  Forall (fun b => isspace b = true) blanks -> 0 <= n <= long_max -> not_digit r -> strtol (blanks ++ dec n ++ r) = n.
Proof.
  intros Hb Hn Hr. unfold strtol. unfold dec. rewrite (proj2 (Z.ltb_ge n 0)) by lia.
  pose proof (dec_pos_digits n ltac:(lia)) as Hd. destruct (dec_pos n) as [|d l] eqn:E.
  { pose proof (length_dec_pos n 20 ltac:(lia) ltac:(unfold long_max in *; lia)) as Hl. rewrite E in Hl. cbn in Hl. lia. }
  assert (Hdig : isdigit d = true) by (by apply Forall_inv in Hd).
  rewrite (span_app isspace) by (try done; cbn; unfold isspace, isdigit, is_digit in *; zbool; lia). cbn [snd app].
  assert (Hm : sign (d :: l ++ r) = (false, d :: l ++ r)).
  { unfold sign. rewrite !bool_decide_false; [done|..]; intros ->; by vm_compute in Hdig. }
  rewrite Hm. change (d :: l ++ r) with ((d :: l) ++ r). rewrite (span_app isdigit (d :: l) r Hd) by (by destruct r). cbn [fst].
  rewrite <- E, undec_dec_pos by lia. unfold clamp, long_min, long_max in *.
  rewrite (proj2 (Z.ltb_ge _ n)) by lia. by rewrite (proj2 (Z.ltb_ge n _)) by lia.
Qed.

Lemma find_first str key i :
  (exists r, drop i str = key ++ r) -> (i <= length str)%nat -> (forall j, (j < i)%nat -> prefixb key (drop j str) = false) -> find str key = Some i.
Proof.
  intros [r Hr] Hi Hb. unfold find. assert (search_idx key str = i) as ->.
  { apply search_idx_eq; [|done..]. rewrite Hr. apply prefixb_app. }
  by rewrite Hr, prefixb_app.
Qed.

Lemma not_in_find (c : byte) l : c ∉ l -> Forall (fun x => is_char c x = false) l.
Proof. intros Hn. apply Forall_forall. intros x Hx. unfold is_char. apply bool_decide_eq_false. intros ->. by apply Hn. Qed.

Lemma find_char_app c a b : c ∉ a -> find_char (a ++ c :: b) c = Some (length a).
Proof.
  intros Ha. unfold find_char. rewrite find_idx_app by (by apply not_in_find || by unfold is_char; rewrite bool_decide_true).
  rewrite length_app. cbn. by rewrite decide_True by lia.
Qed.
Lemma rfind_char_app c a b : c ∉ b -> rfind_char (a ++ c :: b) c = Some (length a).
Proof.
  intros Hb. unfold rfind_char. rewrite rev_app_distr. cbn [rev]. rewrite <- app_assoc. cbn [app].
  rewrite find_idx_app by (try (by unfold is_char; rewrite bool_decide_true); apply not_in_find; by rewrite list_elem_of_In, <- in_rev, <- list_elem_of_In).
  rewrite length_rev, length_app. cbn. rewrite decide_True by lia. f_equal. lia.
Qed.

Lemma c_str_app a b : x00 ∉ a -> c_str (a ++ b) = a ++ c_str b.
Proof.
  intros Ha. induction a as [|x a IH]; [done|]. apply not_elem_of_cons in Ha as [Hx Ha]. specialize (IH Ha).
  unfold c_str in *. cbn. unfold is_char at 1. rewrite bool_decide_false by congruence. cbn. by rewrite IH.
Qed.
Lemma c_str_nul b : c_str (x00 :: b) = [].
Proof. done. Qed.
Lemma c_str_not_digit r : not_digit r -> not_digit (c_str r).
Proof.
  destruct r as [|b r]; [done|]. unfold c_str. cbn. intros Hb. destruct (is_char x00 b); [done|exact Hb].
Qed.

Lemma dec_bytes n c : 0 <= n -> is_digit c = false -> c ∉ dec n.
Proof.
  intros Hn Hc Hin. unfold dec in Hin. rewrite (proj2 (Z.ltb_ge n 0)) in Hin by lia.
  pose proof (dec_pos_digits n Hn) as Hd. rewrite Forall_forall in Hd. specialize (Hd c Hin). congruence.
Qed.

(** [strtol] stops at the NUL. *)
Lemma strtol_c_str n r : 0 <= n <= long_max -> not_digit r -> strtol (c_str (dec n ++ r)) = n.
Proof.
  intros Hn Hr. rewrite c_str_app by (apply dec_bytes; [lia|done]). apply (strtol_dec []); [constructor|done|by apply c_str_not_digit].
Qed.

End CString.
