(* ===== verification/Date.v ===== *)
(** Calendar dates (src/utility/Date.h, src/utility/Date.cpp).

    [int] arithmetic is checked: an operation whose result leaves the range of
    [int] is undefined behaviour ([Err Undefined]).  The Gregorian calendar the
    conversions implement is [valid_ymd]/[days_in_month]. *)

From S2P Require Import Prelude Printf.

Definition in_intb (z : Z) : bool := (int_min <=? z) && (z <=? int_max).

(** [r], when every intermediate [int] of its computation is in range. *)
Definition check_ints {A} (l : list Z) (r : A) : res A :=
  if forallb in_intb l then Ok r else Err Undefined.

Lemma check_ints_ok {A} l (r : A) : Forall in_int l -> check_ints l r = Ok r.
Proof.
  intros H. unfold check_ints.
  assert (forallb in_intb l = true) as ->; [|done].
  induction H as [|z l Hz _ IH]; cbn; [done|]. rewrite IH, andb_true_r.
  unfold in_intb, in_int in *. zbool. lia.
Qed.

Module Date.

Record YearMonthDay := ymd { year_ : Z; month_ : Z; day_ : Z }.

Definition kDaysPerWeek : Z := 7.
Definition kJulianDayOf1970_01_01 : Z := 2440588.

Definition getJulianDayNumber (year month day : Z) : res Z :=
  let a := (14 - month) `quot` 12 in
  let y := year + 4800 - a in
  let m := month + 12 * a - 3 in
  let s1 := day + (153 * m + 2) `quot` 5 in
  let s2 := s1 + y * 365 in
  let s3 := s2 + y `quot` 4 in
  let s4 := s3 - y `quot` 100 in
  let s5 := s4 + y `quot` 400 in
  let r := s5 - 32045 in
  check_ints [14 - month; year + 4800; y; 12 * a; month + 12 * a; m; 153 * m; 153 * m + 2;
              y * 365; s1; s2; s3; s4; s5; r] r.

Definition getYearMonthDay (julianDayNumber : Z) : res YearMonthDay :=
  let a := julianDayNumber + 32044 in
  let b := (4 * a + 3) `quot` 146097 in
  let c := a - (b * 146097) `quot` 4 in
  let d := (4 * c + 3) `quot` 1461 in
  let e := c - (1461 * d) `quot` 4 in
  let m := (5 * e + 2) `quot` 153 in
  let day := e - (153 * m + 2) `quot` 5 + 1 in
  let month := m + 3 - 12 * (m `quot` 10) in
  let year := b * 100 + d - 4800 + m `quot` 10 in
  check_ints [a; 4 * a; 4 * a + 3; b * 146097; c; 4 * c; 4 * c + 3; 1461 * d; e; 5 * e; 5 * e + 2;
              153 * m; 153 * m + 2; day - 1; day; m + 3; 12 * (m `quot` 10); month;
              b * 100; b * 100 + d; b * 100 + d - 4800; year]
    (ymd year month day).

(** The class: one field. *)
Record t := mk { julianDayNumber_ : Z }.

Definition invalid : t := mk 0.
Definition of_ymd (y m d : Z) : res t := mk <$> getJulianDayNumber y m d.
Definition of_julianDay (julianDayNum : Z) : t := mk julianDayNum.
(** From [struct tm]: years since 1900, months from 0. *)
Definition of_tm (tm_year tm_mon tm_mday : Z) : res t :=
  r ← check_ints [tm_year + 1900; tm_mon + 1] tt;
  mk <$> getJulianDayNumber (tm_year + 1900) (tm_mon + 1) tm_mday.

Definition swap (this that : t) : t * t := (mk (julianDayNumber_ that), mk (julianDayNumber_ this)).
Definition valid (d : t) : bool := 0 <? julianDayNumber_ d.
Definition julianDayNumber (d : t) : Z := julianDayNumber_ d.
Definition yearMonthDay (d : t) : res YearMonthDay := getYearMonthDay (julianDayNumber_ d).
Definition year (d : t) : res Z := year_ <$> yearMonthDay d.
Definition month (d : t) : res Z := month_ <$> yearMonthDay d.
Definition day (d : t) : res Z := day_ <$> yearMonthDay d.
Definition weekDay (d : t) : res Z :=
  check_ints [julianDayNumber_ d + 1] ((julianDayNumber_ d + 1) `rem` kDaysPerWeek).

Definition toIsoString (d : t) : res (list byte) :=
  r ← yearMonthDay d;
  Ok (snprintf 32 (fmt_sp 4 (year_ r) ++ bs "-" ++ fmt_0 2 (month_ r) ++ bs "-" ++ fmt_0 2 (day_ r))).

Definition lt (x y : t) : bool := julianDayNumber x <? julianDayNumber y.
Definition eqb (x y : t) : bool := julianDayNumber x =? julianDayNumber y.

(** ** The Gregorian calendar *)

Definition leap (y : Z) : bool :=
  (y mod 4 =? 0) && (negb (y mod 100 =? 0) || (y mod 400 =? 0)).

Definition days_in_month (y m : Z) : Z :=
  if m =? 2 then (if leap y then 29 else 28)
  else if (m =? 4) || (m =? 6) || (m =? 9) || (m =? 11) then 30 else 31.

Definition valid_ymd (r : YearMonthDay) : Prop :=
  1 <= month_ r <= 12 /\ 1 <= day_ r <= days_in_month (year_ r) (month_ r).

(** The day after. *)
Definition next_ymd (r : YearMonthDay) : YearMonthDay :=
  if day_ r <? days_in_month (year_ r) (month_ r) then ymd (year_ r) (month_ r) (day_ r + 1)
  else if month_ r <? 12 then ymd (year_ r) (month_ r + 1) 1
  else ymd (year_ r + 1) 1 1.

(** ** The March-based year: the 400-, 4- and 1-year cycles *)

(** The number of days before the day [e] of the March-based year [100 * b + d]. *)
Definition march_days (b d e : Z) : Z := 36524 * b + b / 4 + 365 * d + d / 4 + e.

(** Day [e] of the year: only a year whose February is leap has a day 365. *)
Definition march_ok (b d e : Z) : Prop :=
  0 <= b /\ 0 <= d <= 99 /\ 0 <= e <= 365 /\
  (e = 365 -> d mod 4 = 3 /\ (d = 99 -> b mod 4 = 3)).

Lemma march_split a : 0 <= a -> exists b d e, march_ok b d e /\ a = march_days b d e.
Proof.
  intros Ha. set (b := (4 * a + 3) / 146097). set (c := a - (b * 146097) / 4).
  set (d := (4 * c + 3) / 1461). set (e := c - (1461 * d) / 4). exists b, d, e.
  assert (0 <= b) by (unfold b; dlia).
  assert (b * 146097 / 4 = 36524 * b + b / 4) as Eb by dlia.
  assert (0 <= c <= 36524 /\ (c = 36524 -> b mod 4 = 3)) as [Hc Hc'] by (unfold c; rewrite Eb; unfold b; dlia).
  assert (1461 * d / 4 = 365 * d + d / 4) as Ed by dlia.
  assert (0 <= d <= 99) by (unfold d; dlia).
  assert (0 <= e <= 365 /\ (e = 365 -> d mod 4 = 3)) as [He He'] by (unfold e; rewrite Ed; unfold d; dlia).
  unfold march_ok, march_days. split_and!; try lia.
  intros E. split; [by apply He'|]. intros E2. apply Hc'. unfold e in E. rewrite Ed in E. dlia.
Qed.

Lemma march_unique b d e :
  march_ok b d e ->
  let a := march_days b d e in
  (4 * a + 3) / 146097 = b /\
  let c := a - (b * 146097) / 4 in
  (4 * c + 3) / 1461 = d /\ c - (1461 * d) / 4 = e /\ 0 <= a.
Proof.
  intros (Hb & Hd & He & H365) a. unfold march_days in a.
  assert (b * 146097 / 4 = 36524 * b + b / 4) as Eb by dlia.
  assert (1461 * d / 4 = 365 * d + d / 4) as Ed by dlia.
  split.
  - unfold a. clear Eb Ed a. dlia.
  - intros c. assert (c = 365 * d + d / 4 + e) as Ec by (unfold c, a; lia).
    rewrite Ed, Ec. split_and!; [clear Eb Ed c a Ec; dlia|lia|unfold a; dlia].
Qed.

(** Months counted from March. *)
Definition march_month (m : Z) : Z := (153 * m + 2) / 5.

Lemma month_split e :
  0 <= e <= 365 ->
  let m := (5 * e + 2) / 153 in
  0 <= m <= 11 /\ march_month m <= e /\
  e - march_month m + 1 <= (if m =? 11 then 29 else if (m =? 1) || (m =? 3) || (m =? 6) || (m =? 8) then 30 else 31).
Proof.
  intros He m. unfold march_month.
  assert (0 <= m <= 11) as Hm by (unfold m; dlia).
  split; [done|]. assert (153 * m <= 5 * e + 2 < 153 * m + 153) as Hr by (unfold m; dlia).
  assert (m = 0 \/ m = 1 \/ m = 2 \/ m = 3 \/ m = 4 \/ m = 5 \/ m = 6 \/ m = 7 \/ m = 8 \/ m = 9 \/ m = 10 \/ m = 11) as Hc by lia.
  clearbody m. destruct_or! Hc; subst m; cbn [Z.eqb Pos.eqb orb]; dlia.
Qed.

(** ** The conversions in terms of March-based days *)

Ltac quot_div := repeat (rewrite (Z.quot_div_nonneg) by lia).
Ltac ints := repeat first [apply Forall_nil_2 | apply Forall_cons_2]; unfold in_int, int_min, int_max in *.

(** The civil date of month [m] (from March) and day [e] of the March-based year [y]. *)
Definition civil (y m e : Z) : YearMonthDay :=
  ymd (y - 4800 + m / 10) (m + 3 - 12 * (m / 10)) (e - march_month m + 1).

Lemma getYearMonthDay_march b d e :
  march_ok b d e -> march_days b d e <= 536870911 ->
  getYearMonthDay (march_days b d e - 32044) = Ok (civil (100 * b + d) ((5 * e + 2) / 153) e).
Proof.
  intros Hok Hmax. destruct (march_unique b d e Hok) as (Eb & Ed & Ee & Ha).
  set (a := march_days b d e) in *. destruct Hok as (Hb & Hd & He & _).
  unfold getYearMonthDay. replace (a - 32044 + 32044) with a by lia. cbv zeta.
  rewrite (Z.quot_div_nonneg (4 * a + 3)), Eb by lia.
  rewrite (Z.quot_div_nonneg (b * 146097)) by lia.
  set (c := a - b * 146097 / 4) in *. assert (0 <= c <= a) by (unfold c; dlia).
  rewrite (Z.quot_div_nonneg (4 * c + 3)), Ed by lia.
  rewrite (Z.quot_div_nonneg (1461 * d)), Ee by lia.
  rewrite (Z.quot_div_nonneg (5 * e + 2)) by lia.
  destruct (month_split e He) as (Hm & Hle & _). set (m := (5 * e + 2) / 153) in *.
  rewrite (Z.quot_div_nonneg (153 * m + 2)), (Z.quot_div_nonneg m) by lia.
  fold (march_month m). assert (0 <= march_month m) by (unfold march_month; dlia).
  assert (0 <= m / 10 <= 1) by dlia. assert (b * 146097 <= 4 * a + 3) by dlia.
  rewrite check_ints_ok; [unfold civil; do 2 f_equal; lia|].
  clear Eb Ed Ee. clearbody a c m. ints; lia.
Qed.

Lemma getJulianDayNumber_march b d e m :
  march_ok b d e -> march_days b d e <= 536870911 -> 0 <= m <= 11 -> march_month m <= e ->
  let r := civil (100 * b + d) m e in
  getJulianDayNumber (year_ r) (month_ r) (day_ r) = Ok (march_days b d e - 32044).
Proof.
  intros Hok Hmax Hm Hle r. destruct (march_unique b d e Hok) as (_ & _ & _ & Ha).
  destruct Hok as (Hb & Hd & He & _). unfold r, civil; cbn [year_ month_ day_]. clear r.
  set (a := march_days b d e) in *. unfold getJulianDayNumber.
  assert ((14 - (m + 3 - 12 * (m / 10))) `quot` 12 = m / 10) as Ea by dlia.
  rewrite Ea. cbv zeta.
  replace (100 * b + d - 4800 + m / 10 + 4800 - m / 10) with (100 * b + d) by lia.
  replace (m + 3 - 12 * (m / 10) + 12 * (m / 10) - 3) with m by lia.
  rewrite (Z.quot_div_nonneg (153 * m + 2)) by lia. fold (march_month m).
  rewrite !(Z.quot_div_nonneg (100 * b + d)) by lia.
  replace ((100 * b + d) / 100) with b by dlia.
  replace ((100 * b + d) / 400) with (b / 4) by dlia.
  replace ((100 * b + d) / 4) with (25 * b + d / 4) by dlia.
  assert (0 <= march_month m) by (unfold march_month; dlia). assert (0 <= m / 10 <= 1) by dlia.
  assert (a = 36524 * b + b / 4 + 365 * d + d / 4 + e) as E by done.
  assert (0 <= b / 4 <= b /\ 0 <= d / 4 <= d) as [] by dlia.
  rewrite check_ints_ok; [f_equal; lia|]. clear Ea. clearbody a. ints; lia.
Qed.

Lemma march_leap b d e :
  march_ok b d e -> e = 365 -> leap (100 * b + d - 4800 + 1) = true.
Proof.
  intros (Hb & Hd & _ & H) E. destruct (H E) as [H4 H100]. unfold leap.
  apply andb_true_iff; split; [zbool; dlia|]. apply orb_true_iff.
  destruct (decide (d = 99)) as [->|]; [right; specialize (H100 eq_refl)|left]; zbool; dlia.
Qed.

Lemma civil_valid b d e :
  march_ok b d e -> valid_ymd (civil (100 * b + d) ((5 * e + 2) / 153) e).
Proof.
  intros Hok. pose proof (march_leap b d e Hok) as Hl. destruct Hok as (_ & _ & He & _).
  destruct (month_split e He) as (Hm & Hle & Hub).
  set (m := (5 * e + 2) / 153) in *. unfold valid_ymd, civil; cbn [month_ day_ year_].
  split; [dlia|]. split; [lia|]. unfold days_in_month.
  assert (m = 0 \/ m = 1 \/ m = 2 \/ m = 3 \/ m = 4 \/ m = 5 \/ m = 6 \/ m = 7 \/ m = 8 \/ m = 9 \/ m = 10 \/ m = 11) as Hc by lia.
  clearbody m. destruct_or! Hc; subst m; try exact Hub.
  change (march_month 11) with 337 in *. change (11 / 10) with 1 in *.
  change (11 + 3 - 12 * 1 =? 2) with true. cbn iota.
  destruct (decide (e = 365)) as [E|]; [rewrite (Hl E); lia|]. clear Hub; case_match; lia.
Qed.

Lemma ymd_of_jdn jdn :
  -32044 <= jdn <= 536838867 ->
  exists r, getYearMonthDay jdn = Ok r /\ valid_ymd r /\
    getJulianDayNumber (year_ r) (month_ r) (day_ r) = Ok jdn.
Proof.
  intros Hj. destruct (march_split (jdn + 32044)) as (b & d & e & Hok & Ea); [lia|].
  assert (jdn = march_days b d e - 32044) as -> by lia.
  assert (march_days b d e <= 536870911) as Hle by lia.
  eexists; split_and!; [by apply getYearMonthDay_march|by apply civil_valid|].
  destruct Hok as (? & ? & He & ?). destruct (month_split e He) as (? & ? & _).
  by apply getJulianDayNumber_march.
Qed.

(** The March-based year and month of a civil date. *)
Definition mar_year (r : YearMonthDay) : Z := if month_ r <=? 2 then year_ r + 4799 else year_ r + 4800.
Definition mar_month (r : YearMonthDay) : Z := if month_ r <=? 2 then month_ r + 9 else month_ r - 3.
Definition in_years (r : YearMonthDay) : Prop := -4799 <= year_ r <= 1000000.

Lemma civil_surj r :
  valid_ymd r -> in_years r ->
  let m := mar_month r in let e := march_month m + day_ r - 1 in
  let b := mar_year r / 100 in let d := mar_year r mod 100 in
  march_ok b d e /\ 0 <= m <= 11 /\ march_month m <= e /\ (5 * e + 2) / 153 = m /\
  r = civil (100 * b + d) m e /\ march_days b d e <= 536870911.
Proof.
  destruct r as [y mo dy]. intros [Hm Hd] Hy; cbn zeta. unfold in_years in Hy.
  unfold mar_month, mar_year; cbn [year_ month_ day_] in *.
  set (y' := if mo <=? 2 then y + 4799 else y + 4800) in *.
  set (m := if mo <=? 2 then mo + 9 else mo - 3) in *.
  set (e := march_month m + dy - 1). set (b := y' / 100). set (d := y' mod 100).
  assert (0 <= y' <= 1004800) by (unfold y'; case_match; zbool; lia).
  assert (y' = 100 * b + d) as Ey by (unfold b, d; dlia).
  assert (0 <= b <= 10048 /\ 0 <= d <= 99) as [Hb Hd'] by (unfold b, d; dlia).
  assert (0 <= m <= 11 /\ mo = m + 3 - 12 * (m / 10) /\ y = y' - 4800 + m / 10) as (Hm' & Emo & Eyr).
  { unfold m, y'. case_match; zbool; dlia. }
  assert (march_month m <= e /\ 0 <= e <= 365 /\ (5 * e + 2) / 153 = m /\
    (e = 365 -> m = 11 /\ leap y = true)) as (He1 & He2 & He3 & He4).
  { assert (m = 0 \/ m = 1 \/ m = 2 \/ m = 3 \/ m = 4 \/ m = 5 \/ m = 6 \/ m = 7 \/ m = 8 \/ m = 9 \/ m = 10 \/ m = 11) as Hc by lia.
    unfold e, days_in_month in *. clearbody m y' b d. clear Hb Hd' Ey Eyr. subst mo.
    destruct_or! Hc; subst m; unfold march_month;
      match type of Hd with context [?k + 3 - 12 * (?k / 10)] =>
        let v := eval vm_compute in (k + 3 - 12 * (k / 10)) in
        change (k + 3 - 12 * (k / 10)) with v in Hd
      end; cbn [Z.eqb Pos.eqb orb] in Hd; try (repeat split; dlia).
    destruct (leap y); repeat split; dlia. }
  split_and!; try done; try lia.
  - unfold march_ok. split_and!; try lia. intros E. destruct (He4 E) as [-> Hl].
    unfold leap in Hl. zbool. rewrite Eyr, Ey in Hl. change (11 / 10) with 1 in Hl. dlia.
  - unfold civil. rewrite <- Ey, <- Emo, <- Eyr. f_equal. unfold e. lia.
  - unfold march_days. dlia.
Qed.
Lemma getJulianDayNumber_valid r :
  valid_ymd r -> in_years r ->
  getJulianDayNumber (year_ r) (month_ r) (day_ r) =
    Ok (march_days (mar_year r / 100) (mar_year r mod 100) (march_month (mar_month r) + day_ r - 1) - 32044).
Proof.
  intros Hv Hy. destruct (civil_surj r Hv Hy) as (Hok & Hm & Hle & _ & E & Hmax).
  rewrite E at 1 2 3. by apply getJulianDayNumber_march.
Qed.

Lemma jdn_of_ymd r :
  valid_ymd r -> in_years r ->
  exists jdn, getJulianDayNumber (year_ r) (month_ r) (day_ r) = Ok jdn /\
    -32044 <= jdn <= 536838867 /\ getYearMonthDay jdn = Ok r.
Proof.
  intros Hv Hy. rewrite getJulianDayNumber_valid by done. eexists; split; [done|].
  destruct (civil_surj r Hv Hy) as (Hok & _ & _ & Em & E & Hmax).
  destruct (march_unique _ _ _ Hok) as (_ & _ & _ & Ha).
  split; [lia|]. rewrite getYearMonthDay_march, Em by done. by rewrite <- E.
Qed.

(** Days and dates are one to one.  [getYearMonthDay] maps every Julian day
    number whose computation stays in [int] to a valid Gregorian date, and
    [getJulianDayNumber] maps that date back to it; a valid date from March
    4800 BC up to the year 1000000 has a Julian day number, and
    [getYearMonthDay] returns the date it came from. *)
Theorem julian_civil_bijection :
  (forall jdn, -32044 <= jdn <= 536838867 ->
     exists r, getYearMonthDay jdn = Ok r /\ valid_ymd r /\ getJulianDayNumber (year_ r) (month_ r) (day_ r) = Ok jdn) /\
  (forall r, valid_ymd r -> in_years r ->
     exists jdn, getJulianDayNumber (year_ r) (month_ r) (day_ r) = Ok jdn /\ getYearMonthDay jdn = Ok r).
Proof.
  split; [apply ymd_of_jdn|]. intros r Hv Hy. destruct (jdn_of_ymd r Hv Hy) as (jdn & ? & _ & ?). by exists jdn.
Qed.

(** The days of the March-based year [y], as one number. *)
Lemma march_days_year y e :
  0 <= y -> march_days (y / 100) (y mod 100) e = 365 * y + y / 4 - y / 100 + y / 400 + e.
Proof.
  intros. unfold march_days. set (b := y / 100). set (d := y mod 100).
  assert (y = 100 * b + d) as Ey by (unfold b, d; dlia).
  assert (0 <= b /\ 0 <= d <= 99) as [] by (unfold b, d; dlia). clearbody b d. subst y.
  replace ((100 * b + d) / 400) with (b / 4) by dlia.
  replace ((100 * b + d) / 4) with (25 * b + d / 4) by dlia. lia.
Qed.

Lemma year_step y :
  0 <= y ->
  365 * (y + 1) + (y + 1) / 4 - (y + 1) / 100 + (y + 1) / 400 =
  365 * y + y / 4 - y / 100 + y / 400 + 365 + (if leap (y + 1 - 4800) then 1 else 0).
Proof.
  intros. assert ((y + 1) / 4 = y / 4 + (if (y + 1 - 4800) mod 4 =? 0 then 1 else 0)) as ->
    by (case_match; zbool; dlia).
  assert ((y + 1) / 100 = y / 100 + (if (y + 1 - 4800) mod 100 =? 0 then 1 else 0)) as ->
    by (case_match; zbool; dlia).
  assert ((y + 1) / 400 = y / 400 + (if (y + 1 - 4800) mod 400 =? 0 then 1 else 0)) as ->
    by (case_match; zbool; dlia).
  unfold leap. destruct (_ mod 4 =? 0) eqn:E4, (_ mod 100 =? 0) eqn:E1, (_ mod 400 =? 0) eqn:E400;
    cbn [andb orb negb]; zbool; try lia; exfalso; dlia.
Qed.

(** Evaluates the comparisons of closed numbers in the goal. *)
Ltac eval_test t :=
  let v := eval vm_compute in t in
  lazymatch v with true => change t with true | false => change t with false end.
Ltac eval_tests :=
  repeat match goal with
  | |- context [?a <=? ?b] => eval_test (a <=? b)
  | |- context [?a <? ?b] => eval_test (a <? b)
  | |- context [?a =? ?b] => eval_test (a =? b)
  end; cbn [orb]; cbn iota.

(** The dates from 1970 to the end of the year 9999. *)
Lemma year_range jdn : 2440588 <= jdn <= 5373484 -> exists r, getYearMonthDay jdn = Ok r /\ 0 <= year_ r <= 9999.
Proof.
  intros Hj. destruct (march_split (jdn + 32044)) as (b & d & e & Hok & Ea); [lia|].
  assert (jdn = march_days b d e - 32044) as -> by lia.
  eexists; split; [apply getYearMonthDay_march; [done|lia]|]. unfold civil. cbn [year_].
  destruct Hok as (Hb & Hd & He & _). unfold march_days in *. dlia.
Qed.

Lemma next_ymd_days r :
  valid_ymd r -> in_years r ->
  march_days (mar_year (next_ymd r) / 100) (mar_year (next_ymd r) mod 100)
    (march_month (mar_month (next_ymd r)) + day_ (next_ymd r) - 1) =
  march_days (mar_year r / 100) (mar_year r mod 100) (march_month (mar_month r) + day_ r - 1) + 1.
Proof.
  destruct r as [y mo dy]. unfold valid_ymd, in_years, next_ymd; cbn [year_ month_ day_].
  intros [Hm Hd] Hy.
  assert (mo = 1 \/ mo = 2 \/ mo = 3 \/ mo = 4 \/ mo = 5 \/ mo = 6 \/ mo = 7 \/ mo = 8 \/ mo = 9 \/ mo = 10 \/ mo = 11 \/ mo = 12) as Hc by lia.
  case_match eqn:Ed; zbool.
  - unfold mar_year, mar_month, march_days; cbn [year_ month_ day_]. case_match; lia.
  - assert (dy = days_in_month y mo) as -> by lia. clear Ed Hd.
    destruct (decide (mo = 2)) as [->|Hn].
    + unfold mar_year, mar_month, days_in_month; cbn [year_ month_ day_]; eval_tests; cbn [year_ month_ day_]; eval_tests.
      rewrite !march_days_year by lia.
      replace (y + 4800) with (y + 4799 + 1) by lia. rewrite year_step by lia.
      replace (y + 4799 + 1 - 4800) with y by lia.
      change (march_month (2 + 1 - 3)) with 0. change (march_month (2 + 9)) with 337. case_match; lia.
    + unfold mar_year, mar_month, days_in_month, march_month.
      destruct_or! Hc; subst mo; try done;
        eval_tests; cbn [year_ month_ day_]; eval_tests; unfold march_days; dlia.
Qed.

Lemma days_in_month_pos y m : 28 <= days_in_month y m.
Proof. unfold days_in_month. repeat case_match; lia. Qed.

Lemma next_ymd_valid r : valid_ymd r -> valid_ymd (next_ymd r).
Proof.
  intros [Hm Hd]. unfold next_ymd, valid_ymd.
  pose proof (days_in_month_pos (year_ r) (month_ r + 1)). pose proof (days_in_month_pos (year_ r + 1) 1).
  repeat case_match; cbn [year_ month_ day_]; zbool; lia.
Qed.

(** Consecutive Gregorian dates have consecutive Julian day numbers, and
    their week days follow each other modulo seven (day 2440588, 1970-01-01,
    being a Thursday). *)
Theorem next_day r :
  valid_ymd r -> in_years r -> year_ r < 1000000 ->
  exists jdn, getJulianDayNumber (year_ r) (month_ r) (day_ r) = Ok jdn /\
    getJulianDayNumber (year_ (next_ymd r)) (month_ (next_ymd r)) (day_ (next_ymd r)) = Ok (jdn + 1) /\
    (0 <= jdn -> exists w, weekDay (of_julianDay jdn) = Ok w /\ 0 <= w <= 6 /\
       w = (4 + (jdn - kJulianDayOf1970_01_01)) mod 7 /\
       weekDay (of_julianDay (jdn + 1)) = Ok ((w + 1) mod 7)).
Proof.
  intros Hv Hy Hlt. rewrite (getJulianDayNumber_valid r) by done. eexists; split; [done|]. split.
  - rewrite getJulianDayNumber_valid.
    + f_equal. rewrite next_ymd_days by done. lia.
    + by apply next_ymd_valid.
    + unfold in_years, next_ymd in *. repeat case_match; cbn; lia.
  - destruct (civil_surj r Hv Hy) as (_ & _ & _ & _ & _ & Hmax).
    set (j := march_days _ _ _ - 32044) in *. intros Hj.
    unfold weekDay, of_julianDay, kDaysPerWeek, kJulianDayOf1970_01_01; cbn [julianDayNumber_].
    rewrite !check_ints_ok by (ints; lia). eexists; split_and!; [done|dlia..|]. f_equal. dlia.
Qed.

End Date.
