(* ===== verification/Timestamp.v ===== *)
(** Time stamps in microseconds (src/utility/Timestamp.h, src/utility/Timestamp.cpp).

    A [double] number of seconds only occurs as an argument of [addTime]; its
    product with 10^6, converted to [int64_t], is the parameter [to_micros].
    [gmtime_r] is a parameter of [toFormattedString]. *)

From S2P Require Import Prelude Printf.

(** [int64_t] arithmetic, undefined outside its range. *)
Definition check_int64 (z : Z) : res Z :=
  if (- 2 ^ 63 <=? z) && (z <=? 2 ^ 63 - 1) then Ok z else Err Undefined.

Lemma check_int64_ok z : in_int64 z -> check_int64 z = Ok z.
Proof.
  intros [H1 H2]. unfold check_int64.
  by rewrite (proj2 (Z.leb_le _ _) H1), (proj2 (Z.leb_le _ _) H2).
Qed.

Module Timestamp.

Record t := mk { microSecondsSinceEpoch_ : Z }.

Definition kMicroSecondsPerSecond : Z := 1000 * 1000.

Definition invalid : t := mk 0.
Definition swap (this that : t) : t * t :=
  (mk (microSecondsSinceEpoch_ that), mk (microSecondsSinceEpoch_ this)).
Definition valid (s : t) : bool := 0 <? microSecondsSinceEpoch_ s.
Definition microSecondsSinceEpoch (s : t) : Z := microSecondsSinceEpoch_ s.
Definition secondsSinceEpoch (s : t) : Z := microSecondsSinceEpoch_ s `quot` kMicroSecondsPerSecond.

Definition fromUnixTime (secs microseconds : Z) : res t :=
  p ← check_int64 (secs * kMicroSecondsPerSecond);
  mk <$> check_int64 (p + microseconds).

(** [now()], from the [timeval] that [gettimeofday] fills. *)
Definition now (tv_sec tv_usec : Z) : res t :=
  p ← check_int64 (tv_sec * kMicroSecondsPerSecond);
  mk <$> check_int64 (p + tv_usec).

Definition lt (lhs rhs : t) : bool := microSecondsSinceEpoch lhs <? microSecondsSinceEpoch rhs.
Definition eqb (lhs rhs : t) : bool := microSecondsSinceEpoch lhs =? microSecondsSinceEpoch rhs.
(** The operators [boost_operator.h] derives from these two. *)
Definition neb (x y : t) : bool := negb (eqb x y).
Definition gt (x y : t) : bool := lt y x.
Definition le (x y : t) : bool := negb (lt y x).
Definition ge (x y : t) : bool := negb (lt x y).

Definition addTime {double} (to_micros : double -> Z) (timestamp : t) (seconds : double) : res t :=
  let delta := to_micros seconds in
  mk <$> check_int64 (microSecondsSinceEpoch timestamp + delta).

(** The difference [timeDifference] divides by 10^6 in floating point. *)
Definition timeDifference_us (high low : t) : res Z :=
  check_int64 (microSecondsSinceEpoch high - microSecondsSinceEpoch low).

Definition toString (s : t) : list byte :=
  let seconds := microSecondsSinceEpoch_ s `quot` kMicroSecondsPerSecond in
  let microseconds := microSecondsSinceEpoch_ s `rem` kMicroSecondsPerSecond in
  snprintf 32 (dec seconds ++ bs "." ++ fmt_0 6 microseconds).

Record tm := mk_tm { tm_year : Z; tm_mon : Z; tm_mday : Z; tm_hour : Z; tm_min : Z; tm_sec : Z }.

Definition toFormattedString (gmtime_r : Z -> tm) (s : t) (showMicroseconds : bool) : list byte :=
  let seconds := microSecondsSinceEpoch_ s `quot` kMicroSecondsPerSecond in
  let tm_time := gmtime_r seconds in
  let head := fmt_sp 4 (tm_year tm_time + 1900) ++ fmt_0 2 (tm_mon tm_time + 1) ++ fmt_0 2 (tm_mday tm_time)
    ++ bs " " ++ fmt_0 2 (tm_hour tm_time) ++ bs ":" ++ fmt_0 2 (tm_min tm_time) ++ bs ":" ++ fmt_0 2 (tm_sec tm_time) in
  if showMicroseconds then
    let microseconds := i32 (microSecondsSinceEpoch_ s `rem` kMicroSecondsPerSecond) in
    snprintf 64 (head ++ bs "." ++ fmt_0 6 microseconds)
  else snprintf 64 head.

(** ** Properties *)

#[export] Instance t_eq_dec : EqDecision t.
Proof. solve_decision. Defined.

Lemma le_total x y : le x y = true \/ le y x = true.
Proof. unfold le, lt. destruct x as [a], y as [b]; cbn. zbool. lia. Qed.

Lemma toString_digits s :
  0 <= microSecondsSinceEpoch_ s < 2 ^ 63 ->
  toString s = dec_pos (microSecondsSinceEpoch_ s / 1000000) ++ bs "." ++ fmt_0 6 (microSecondsSinceEpoch_ s mod 1000000).
Proof.
  intros Hs. unfold toString, kMicroSecondsPerSecond, snprintf, dec. set (u := microSecondsSinceEpoch_ s) in *.
  rewrite Z.quot_div_nonneg, Z.rem_mod_nonneg by lia. change (1000 * 1000) with 1000000.
  assert (0 <= u / 1000000 < 10 ^ Z.of_nat 13) as Hq by dlia.
  rewrite (proj2 (Z.ltb_ge _ _)) by lia. apply take_ge.
  pose proof (length_dec_pos _ 13 ltac:(lia) Hq). rewrite !length_app, fmt_0_len; [cbn; lia|lia|].
  change (10 ^ Z.of_nat 6) with 1000000. dlia.
Qed.

(** [toString] of a non-negative stamp is never cut by its 32-byte buffer
    and loses nothing: the digits before the point are the seconds, the six
    after it the microseconds. *)
Theorem toString_lossless s :
  0 <= microSecondsSinceEpoch_ s < 2 ^ 63 ->
  exists a b, toString s = a ++ bs "." ++ b /\ length b = 6%nat /\
    undec_pos a * 1000000 + undec_pos b = microSecondsSinceEpoch_ s.
Proof.
  intros Hs. rewrite toString_digits by done. set (u := microSecondsSinceEpoch_ s) in *.
  eexists _, _; split_and!; [done|apply fmt_0_len; [lia|change (10 ^ Z.of_nat 6) with 1000000; dlia]|].
  rewrite undec_dec_pos by dlia. rewrite undec_fmt_0 by dlia. dlia.
Qed.

Lemma toString_lossless_witness :
  exists a b, toString (mk 1234567890000042) = a ++ bs "." ++ b /\ length b = 6%nat /\
    undec_pos a * 1000000 + undec_pos b = 1234567890000042.
Proof. apply (toString_lossless (mk 1234567890000042)). cbn. lia. Defined.

End Timestamp.
