(* ===== verification/TimeZone.v ===== *)
(** Time zones (src/utility/TimeZone.h, src/utility/TimeZone.cpp): broken-down
    times, the zone-file reader (RFC 8536), and the conversions between UTC and
    local time.

    A file is its bytes and the position of the stream; [fopen] failing is
    [None].  [std::logic_error] and the exceptions derived from it
    ([length_error], [out_of_range]) are what [readTimeZoneFile] catches. *)

From S2P Require Import Prelude Endian Printf Date Timestamp.

Module TimeZone.

Definition kSecondsPerDay : Z := 24 * 60 * 60.

Record DateTime := dt {
  year : Z; month : Z; day : Z; hour : Z; minute : Z; second : Z;
}.

Definition DateTime_of_tm (t : Timestamp.tm) : res DateTime :=
  check_ints [Timestamp.tm_year t + 1900; Timestamp.tm_mon t + 1]
    (dt (Timestamp.tm_year t + 1900) (Timestamp.tm_mon t + 1) (Timestamp.tm_mday t)
     (Timestamp.tm_hour t) (Timestamp.tm_min t) (Timestamp.tm_sec t)).

Definition toIsoString (d : DateTime) : list byte :=
  snprintf 64 (fmt_0 4 (year d) ++ bs "-" ++ fmt_0 2 (month d) ++ bs "-" ++ fmt_0 2 (day d) ++ bs " "
    ++ fmt_0 2 (hour d) ++ bs ":" ++ fmt_0 2 (minute d) ++ bs ":" ++ fmt_0 2 (second d)).

(** ** Broken-down time *)

(** [fillHMS]: the hour, minute and second of an unsigned count of seconds. *)
Definition fillHMS (seconds : Z) : Z * Z * Z :=
  let second := seconds mod 60 in
  let minutes := seconds / 60 in
  (minutes / 60, minutes mod 60, second).

Definition BreakTime (t : Z) : res DateTime :=
  let seconds := i32 (t `rem` kSecondsPerDay) in
  let days := i32 (t `quot` kSecondsPerDay) in
  let '(seconds, days) := if seconds <? 0 then (seconds + kSecondsPerDay, days - 1) else (seconds, days) in
  let '(h, mi, s) := fillHMS (uwrap 32 seconds) in
  date ← check_ints [days; days + Date.kJulianDayOf1970_01_01]
           (Date.of_julianDay (days + Date.kJulianDayOf1970_01_01));
  r ← Date.yearMonthDay date;
  Ok (dt (Date.year_ r) (Date.month_ r) (Date.day_ r) h mi s).

Definition fromUtcTime (d : DateTime) : res Z :=
  date ← Date.of_ymd (year d) (month d) (day d);
  let secondsInDay := hour d * 3600 + minute d * 60 + second d in
  let days := Date.julianDayNumber date - Date.kJulianDayOf1970_01_01 in
  check_ints [hour d * 3600; minute d * 60; hour d * 3600 + minute d * 60; secondsInDay; days]
    (days * kSecondsPerDay + secondsInDay).

Definition toUtcTime (secondsSinceEpoch : Z) : res DateTime := BreakTime secondsSinceEpoch.

(** ** Zone data *)

Record Transition := mk_transition { utctime : Z; localtime : Z; localtimeIdx : Z }.
Record LocalTime := mk_localtime { utcOffset : Z; isDst : bool; desigIdx : Z }.

Record Data := mk_data {
  transitions_ : list Transition;
  localtimes_ : list LocalTime;
  tzstring_ : list byte;
  abbreviation_ : list byte;
}.

Definition empty_data : Data := mk_data [] [] [] [].

Definition addLocalTime (d : Data) (offset : Z) (dst : bool) (idx : Z) : Data :=
  mk_data (transitions_ d) (localtimes_ d ++ [mk_localtime offset dst idx]) (tzstring_ d) (abbreviation_ d).

(** [localtimes_.at(i)] throws outside the vector. *)
Definition at_ {A} (l : list A) (i : Z) : res A :=
  if i <? 0 then Err OutOfRange else match l !! Z.to_nat i with Some x => Ok x | None => Err OutOfRange end.
(** [v[i]] outside the vector is undefined. *)
Definition index_ {A} (l : list A) (i : Z) : res A :=
  if i <? 0 then Err Undefined else match l !! Z.to_nat i with Some x => Ok x | None => Err Undefined end.

Definition addTransition (d : Data) (utcTime idx : Z) : res Data :=
  lt ← at_ (localtimes_ d) idx;
  local ← check_int64 (utcTime + utcOffset lt);
  Ok (mk_data (transitions_ d ++ [mk_transition utcTime local idx]) (localtimes_ d) (tzstring_ d) (abbreviation_ d)).

(** [std::upper_bound]: the first element the value is less than; [below x] is
    the comparison of the value with element [x]. *)
Fixpoint upper_bound_go {A} (below : A -> bool) (l : list A) (fuel : nat) (first len : nat) : nat :=
  match fuel with
  | O => first
  | S fuel =>
      if decide (len = 0)%nat then first
      else
        let half := (len / 2)%nat in
        let middle := (first + half)%nat in
        match l !! middle with
        | Some x => if below x then upper_bound_go below l fuel first half
                    else upper_bound_go below l fuel (middle + 1) (len - half - 1)%nat
        | None => first
        end
  end.
Definition upper_bound {A} (below : A -> bool) (l : list A) : nat :=
  upper_bound_go below l (S (length l)) 0 (length l).

Definition findLocalTime_utc (d : Data) (utcTime : Z) : res LocalTime :=
  match transitions_ d with
  | [] => index_ (localtimes_ d) 0
  | front :: _ =>
      if utcTime <? utctime front then index_ (localtimes_ d) 0
      else
        let transI := upper_bound (fun tr => utcTime <? utctime tr) (transitions_ d) in
        assert! negb (bool_decide (transI = 0%nat));
        if bool_decide (transI = length (transitions_ d)) then
          back ← index_ (transitions_ d) (zlen (transitions_ d) - 1);
          index_ (localtimes_ d) (localtimeIdx back)
        else
          tr ← index_ (transitions_ d) (Z.of_nat transI - 1);
          index_ (localtimes_ d) (localtimeIdx tr)
  end.

(** The last local second before transition [tr], in the offset of transition [prior]. *)
Definition prior_second_of (d : Data) (prior tr : Transition) : res Z :=
  lt ← index_ (localtimes_ d) (localtimeIdx prior);
  check_int64 (utctime tr - 1 + utcOffset lt).

Definition findLocalTime_local (d : Data) (lt : DateTime) (postTransition : bool) : res LocalTime :=
  local ← fromUtcTime lt;
  match transitions_ d with
  | [] => index_ (localtimes_ d) 0
  | front :: _ =>
      if local <? localtime front then index_ (localtimes_ d) 0
      else
        let transI := upper_bound (fun tr => local <? localtime tr) (transitions_ d) in
        assert! negb (bool_decide (transI = 0%nat));
        if bool_decide (transI = length (transitions_ d)) then
          back ← index_ (transitions_ d) (zlen (transitions_ d) - 1);
          index_ (localtimes_ d) (localtimeIdx back)
        else
          prior_trans ← index_ (transitions_ d) (Z.of_nat transI - 1);
          cur ← index_ (transitions_ d) (Z.of_nat transI);
          prior_second ← prior_second_of d prior_trans cur;
          if prior_second <? local then
            index_ (localtimes_ d) (localtimeIdx (if postTransition then cur else prior_trans))
          else
            let transI := Z.of_nat transI - 1 in
            cur ← index_ (transitions_ d) transI;
            '(prior_trans, prior_second) ←
              (if transI =? 0 then Ok (prior_trans, prior_second)
               else p ← index_ (transitions_ d) (transI - 1);
                    s ← prior_second_of d p cur;
                    Ok (p, s));
            if local <=? prior_second then
              index_ (localtimes_ d) (localtimeIdx (if postTransition then cur else prior_trans))
            else index_ (localtimes_ d) (localtimeIdx cur)
  end.

(** ** The class: a shared pointer to zone data, null when no file was loaded *)

Record t := mk { data_ : option Data }.

Definition TimeZone_offset (eastOfUtc : Z) (name : list byte) : t :=
  let d := addLocalTime empty_data eastOfUtc false 0 in
  mk (Some (mk_data (transitions_ d) (localtimes_ d) (tzstring_ d) name)).
Definition UTC : t := TimeZone_offset 0 (bs "UTC").
Definition valid (z : t) : bool := match data_ z with Some _ => true | None => false end.

(** The broken-down local time, and the offset stored through the out pointer. *)
Definition toLocalTime (z : t) (seconds : Z) : res (DateTime * Z) :=
  match data_ z with
  | None => Err AssertFailed
  | Some d =>
      local ← findLocalTime_utc d seconds;
      s ← check_int64 (seconds + utcOffset local);
      localTime ← BreakTime s;
      Ok (localTime, utcOffset local)
  end.

Definition fromLocalTime (z : t) (localtime : DateTime) (postTransition : bool) : res Z :=
  match data_ z with
  | None => Err AssertFailed
  | Some d =>
      local ← findLocalTime_local d localtime postTransition;
      localSeconds ← fromUtcTime localtime;
      check_int64 (localSeconds - utcOffset local)
  end.

(** ** The zone-file reader *)

(** class [File]: the content of the open stream and its position. *)
Record File := mk_file { bytes : list byte; pos : Z }.

(** [fread] of at most [n] bytes. *)
Definition fread (f : File) (n : Z) : list byte * File :=
  let got := slice (bytes f) (pos f) n in
  (got, mk_file (bytes f) (pos f + zlen got)).

Definition read_exact (f : File) (n : Z) : res (list byte * File) :=
  let '(got, f) := fread f n in
  if zlen got =? n then Ok (got, f) else Err LogicError.

(** The variable-length array of a negative size is undefined. *)
Definition readBytes (f : File) (n : Z) : res (list byte * File) :=
  if n <? 0 then Err Undefined else read_exact f n.

(** Chunks of 4096 bytes until [fread] returns none. *)
Fixpoint readToEnd_go (fuel : nat) (f : File) (result : list byte) : list byte * File :=
  match fuel with
  | O => (result, f)
  | S fuel =>
      let '(got, f) := fread f 4096 in
      if 0 <? zlen got then readToEnd_go fuel f (result ++ got) else (result, f)
  end.
Definition readToEnd (f : File) : list byte * File := readToEnd_go (S (length (bytes f))) f [].

Definition readInt64 (f : File) : res (Z * File) :=
  '(x, f) ← read_exact f 8;
  Ok (swrap 64 (bswap 8 (uwrap 64 (swrap 64 (le_combine x)))), f).
Definition readInt32 (f : File) : res (Z * File) :=
  '(x, f) ← read_exact f 4;
  Ok (swrap 32 (bswap 4 (uwrap 32 (swrap 32 (le_combine x)))), f).
Definition readUInt8 (f : File) : res (Z * File) :=
  '(x, f) ← read_exact f 1;
  Ok (le_combine x, f).

(** [fseek] relative to the current position; it fails, and moves nothing,
    when the target is before the start. *)
Definition skip (f : File) (n : Z) : File :=
  if pos f + n <? 0 then f else mk_file (bytes f) (pos f + n).

(** [reserve] of a negative count, converted to [size_t], throws. *)
Definition reserve (n : Z) : res unit := if n <? 0 then Err LengthError else Ok tt.

(** [for (i = 0; i < n; ++i) v.push_back(read())] *)
Fixpoint read_n {A} (read : File -> res (A * File)) (n : nat) (f : File) : res (list A * File) :=
  match n with
  | O => Ok ([], f)
  | S n =>
      '(x, f) ← read f;
      '(l, f) ← read_n read n f;
      Ok (x :: l, f)
  end.

Definition readLocalTime (f : File) : res (LocalTime * File) :=
  '(gmtoff, f) ← readInt32 f;
  '(isdst, f) ← readUInt8 f;
  '(abbrind, f) ← readUInt8 f;
  Ok (mk_localtime gmtoff (negb (isdst =? 0)) abbrind, f).

Fixpoint addTransitions (d : Data) (l : list (Z * Z)) : res Data :=
  match l with
  | [] => Ok d
  | (utc, idx) :: l => d ← addTransition d utc idx; addTransitions d l
  end.

Definition readDataBlock (f : File) (d : Data) (v1 : bool) : res (bool * Data * File) :=
  let time_size := if v1 then 4 else 8 in
  '(isutccnt, f) ← readInt32 f;
  '(isstdcnt, f) ← readInt32 f;
  '(leapcnt, f) ← readInt32 f;
  '(timecnt, f) ← readInt32 f;
  '(typecnt, f) ← readInt32 f;
  '(charcnt, f) ← readInt32 f;
  if negb (leapcnt =? 0) then Ok (false, d, f)
  else if negb (isutccnt =? 0) && negb (isutccnt =? typecnt) then Ok (false, d, f)
  else if negb (isstdcnt =? 0) && negb (isstdcnt =? typecnt) then Ok (false, d, f)
  else
    _ ← reserve timecnt;
    '(trans, f) ← read_n (if v1 then readInt32 else readInt64) (Z.to_nat timecnt) f;
    _ ← reserve timecnt;
    '(localtimes, f) ← read_n readUInt8 (Z.to_nat timecnt) f;
    _ ← reserve typecnt;
    '(types, f) ← read_n readLocalTime (Z.to_nat typecnt) f;
    let d := foldl (fun d lt => addLocalTime d (utcOffset lt) (isDst lt) (desigIdx lt)) d types in
    d ← addTransitions d (combine trans localtimes);
    '(abbreviation, f) ← readBytes f charcnt;
    let f := skip f (leapcnt * (time_size + 4)) in
    let f := skip f isstdcnt in
    let f := skip f isutccnt in
    let '(tzstring, f) := if v1 then (tzstring_ d, f) else readToEnd f in
    Ok (true, mk_data (transitions_ d) (localtimes_ d) tzstring abbreviation, f).

(** The body of the [try] block. *)
Definition readTimeZoneStream (f : File) (d : Data) : res (bool * Data) :=
  '(head, f) ← readBytes f 4;
  if negb (bool_decide (head = bs "TZif")) then Err LogicError
  else
    '(version, f) ← readBytes f 1;
    '(skipped, f) ← readBytes f 15;
    '(isgmtcnt, f) ← readInt32 f;
    '(isstdcnt, f) ← readInt32 f;
    '(leapcnt, f) ← readInt32 f;
    '(timecnt, f) ← readInt32 f;
    '(typecnt, f) ← readInt32 f;
    '(charcnt, f) ← readInt32 f;
    if bool_decide (version = bs "2") then
      n ← check_ints [6 * typecnt; 8 * leapcnt]
            (u64 (4 * timecnt + timecnt + 6 * typecnt + charcnt + 8 * leapcnt + isstdcnt + isgmtcnt));
      let f := skip f (i64 n) in
      '(head, f) ← readBytes f 4;
      if negb (bool_decide (head = bs "TZif")) then Err LogicError
      else
        let f := skip f 16 in
        '(ok, d, f) ← readDataBlock f d false;
        Ok (ok, d)
    else
      let f := skip f (-4 * 6) in
      '(ok, d, f) ← readDataBlock f d true;
      Ok (ok, d).

(** The data filled in when it returns true.  When it returns false, which an
    exception derived from [std::logic_error] makes it do, the only caller drops
    the data, and [None] stands for whatever it holds. *)
Definition readTimeZoneFile (file : option (list byte)) (d : Data) : res (option Data) :=
  match file with
  | None => Ok None
  | Some content =>
      match readTimeZoneStream (mk_file content 0) d with
      | Ok (true, d) => Ok (Some d)
      | Ok (false, _) => Ok None
      | Err (LogicError | LengthError | OutOfRange) => Ok None
      | Err e => Err e
      end
  end.

Definition loadZoneFile (file : option (list byte)) : res t :=
  mk <$> readTimeZoneFile file empty_data.

(** ** Broken-down time and seconds since the epoch are inverse *)

Definition valid_dt (d : DateTime) : Prop :=
  Date.valid_ymd (Date.ymd (year d) (month d) (day d)) /\
  0 <= hour d < 24 /\ 0 <= minute d < 60 /\ 0 <= second d < 60.

(** The seconds whose day number getYearMonthDay can convert: about the years
    -4800 to 1400000. *)
Definition in_epoch (t : Z) : Prop := -2472632 * 86400 <= t < 534398280 * 86400.

Lemma BreakTime_days t :
  in_epoch t ->
  BreakTime t =
    (r ← Date.getYearMonthDay (t / 86400 + Date.kJulianDayOf1970_01_01);
     let s := t mod 86400 in
     Ok (dt (Date.year_ r) (Date.month_ r) (Date.day_ r) (s / 3600) (s / 60 mod 60) (s mod 60))).
Proof.
  unfold in_epoch. intros Ht. unfold BreakTime, kSecondsPerDay. change (24 * 60 * 60) with 86400.
  assert (in_int (t `rem` 86400) /\ in_int (t `quot` 86400)) as [H1 H2]
    by (unfold in_int, int_min, int_max; dlia).
  rewrite !i32_small by done. clear H1 H2.
  assert ((if t `rem` 86400 <? 0 then (t `rem` 86400 + 86400, t `quot` 86400 - 1) else (t `rem` 86400, t `quot` 86400))
    = (t mod 86400, t / 86400)) as -> by (case_match; zbool; f_equal; dlia).
  rewrite uwrap_small by dlia. unfold fillHMS.
  rewrite check_ints_ok by (Date.ints; unfold Date.kJulianDayOf1970_01_01; dlia).
  cbn [mbind res_bind]. unfold Date.yearMonthDay, Date.of_julianDay; cbn [Date.julianDayNumber_].
  destruct (Date.getYearMonthDay _); cbn [mbind res_bind]; [|done].
  do 2 f_equal. dlia.
Qed.

Lemma fromUtcTime_value d jdn :
  Date.getJulianDayNumber (year d) (month d) (day d) = Ok jdn -> -32044 <= jdn <= 536838867 ->
  0 <= hour d < 24 -> 0 <= minute d < 60 -> 0 <= second d < 60 ->
  fromUtcTime d = Ok ((jdn - Date.kJulianDayOf1970_01_01) * 86400 + (hour d * 3600 + minute d * 60 + second d)).
Proof.
  intros E Hj Hh Hm Hs. unfold fromUtcTime, Date.of_ymd. rewrite E. cbn [fmap res_fmap mbind res_bind].
  unfold Date.julianDayNumber; cbn [Date.julianDayNumber_].
  rewrite check_ints_ok; [done|]. Date.ints; unfold Date.kJulianDayOf1970_01_01; lia.
Qed.

Lemma getYearMonthDay_inv days :
  -2472632 <= days <= 534398279 ->
  exists r, Date.getYearMonthDay (days + Date.kJulianDayOf1970_01_01) = Ok r /\ Date.valid_ymd r /\
    Date.getJulianDayNumber (Date.year_ r) (Date.month_ r) (Date.day_ r) = Ok (days + Date.kJulianDayOf1970_01_01).
Proof. intros. apply Date.ymd_of_jdn. unfold Date.kJulianDayOf1970_01_01. lia. Qed.

Lemma getJulianDayNumber_inv r :
  Date.valid_ymd r -> Date.in_years r ->
  exists jdn, Date.getJulianDayNumber (Date.year_ r) (Date.month_ r) (Date.day_ r) = Ok jdn /\
    -32044 <= jdn <= 536838867 /\ Date.getYearMonthDay jdn = Ok r.
Proof. apply Date.jdn_of_ymd. Qed.

(** [fromUtcTime] inverts [BreakTime] ([toUtcTime]) on every number of
    seconds in range, negative ones included, and the fields are valid. *)
Lemma utc_there_and_back t :
  in_epoch t -> exists d, toUtcTime t = Ok d /\ valid_dt d /\ fromUtcTime d = Ok t.
Proof.
  intros Ht. unfold toUtcTime. rewrite BreakTime_days by done. unfold in_epoch in Ht.
  destruct (getYearMonthDay_inv (t / 86400)) as (r & -> & Hv & Hj); [dlia|].
  cbn [mbind res_bind]. eexists; split_and!; [done| |].
  - split; [by destruct r|]. cbn. split_and!; dlia.
  - erewrite fromUtcTime_value; cbn [year month day hour minute second]; [|exact Hj|unfold Date.kJulianDayOf1970_01_01; dlia|dlia..].
    f_equal. dlia.
Qed.

(** [toUtcTime] inverts [fromUtcTime] on every valid date and time of the
    supported years. *)
Lemma utc_back_and_there d :
  valid_dt d -> Date.in_years (Date.ymd (year d) (month d) (day d)) ->
  exists t, fromUtcTime d = Ok t /\ toUtcTime t = Ok d.
Proof.
  intros (Hv & Hh & Hm & Hs) Hy. destruct d as [y mo da h mi s]; cbn [year month day hour minute second] in *.
  destruct (getJulianDayNumber_inv _ Hv Hy) as (jdn & E & Hr & E').
  cbn [Date.year_ Date.month_ Date.day_] in E. eexists; split; [by apply fromUtcTime_value|].
  unfold toUtcTime, Date.kJulianDayOf1970_01_01. cbn [hour minute second].
  rewrite BreakTime_days by (unfold in_epoch; lia).
  set (u := (jdn - 2440588) * 86400 + _).
  assert (u / 86400 = jdn - 2440588 /\ u mod 86400 = h * 3600 + mi * 60 + s) as [-> ->] by (unfold u; dlia).
  unfold Date.kJulianDayOf1970_01_01. replace (jdn - 2440588 + 2440588) with jdn by lia. rewrite E'.
  cbn [mbind res_bind Date.year_ Date.month_ Date.day_]. do 2 f_equal; dlia.
Qed.

(** C34: seconds and dates in UTC are one to one: [fromUtcTime] inverts
    [toUtcTime] on every number of seconds in range, negative ones included, with
    valid fields, and [toUtcTime] inverts [fromUtcTime] on every valid date and
    time of the supported years. *)
Theorem utc_bijection :
  (forall t, in_epoch t -> exists d, toUtcTime t = Ok d /\ valid_dt d /\ fromUtcTime d = Ok t) /\
  (forall d, valid_dt d -> Date.in_years (Date.ymd (year d) (month d) (day d)) ->
     exists t, fromUtcTime d = Ok t /\ toUtcTime t = Ok d).
Proof. split; [apply utc_there_and_back|apply utc_back_and_there]. Qed.

End TimeZone.
