(* ===== verification/ZoneLookup.v ===== *)
(** What the zone lookup and the zone-file reader of src/utility/TimeZone.cpp
    compute: the binary search over the transitions is a linear one, the offset
    in force is that of the last transition not after the instant, a local time
    goes back to the instant it came from, and a file laid out by RFC 8536 is
    read back. *)

From S2P Require Import Prelude Endian Date Timestamp TimeZone.

Module ZoneLookup.
Import TimeZone.

(** ** Binary search *)

(** Once the value is below an element it is below all later ones. *)
Definition monotone {A} (below : A -> bool) (l : list A) : Prop :=
  forall i j x y, (i <= j)%nat -> l !! i = Some x -> l !! j = Some y -> below x = true -> below y = true.

Lemma find_idx_bracket {A} (p : A -> bool) l k :
  (k <= length l)%nat -> (forall i x, (i < k)%nat -> l !! i = Some x -> p x = false) ->
  (forall x, l !! k = Some x -> p x = true) -> find_idx p l = k.
Proof.
  revert k. induction l as [|y l IH]; intros k Hk Hb Ha; cbn in *; [lia|].
  destruct k as [|k]; [by rewrite (Ha y eq_refl)|].
  rewrite (Hb 0%nat y ltac:(lia) eq_refl). f_equal. apply IH; [lia| |done].
  intros i x Hi. apply (Hb (S i)). lia.
Qed.

Lemma upper_bound_go_spec {A} (below : A -> bool) l :
  monotone below l ->
  forall fuel first len, (len < fuel)%nat -> (first + len <= length l)%nat ->
  (forall i x, (i < first)%nat -> l !! i = Some x -> below x = false) ->
  (forall x, l !! (first + len)%nat = Some x -> below x = true) ->
  upper_bound_go below l fuel first len = find_idx below l.
Proof.
  intros Hm. induction fuel as [|fuel IH]; intros first len Hf Hlen Hbefore Hafter; [lia|].
  cbn [upper_bound_go]. case_decide as Hz.
  - subst. rewrite Nat.add_0_r in *. symmetry. by apply find_idx_bracket.
  - assert (len / 2 < len)%nat as Hhalf by (apply Nat.div_lt; lia).
    destruct (l !! (first + len / 2)%nat) as [x|] eqn:Ex.
    2:{ apply lookup_ge_None in Ex. lia. }
    destruct (below x) eqn:Eb; apply IH; try lia.
    + done.
    + intros y Ey. rewrite Ex in Ey. by simplify_eq.
    + intros i y Hi Ey. destruct (below y) eqn:Eby; [|done].
      rewrite (Hm i (first + len / 2)%nat y x) in Eb; [done|lia|done..].
    + intros y. replace (first + len / 2 + 1 + (len - len / 2 - 1))%nat with (first + len)%nat by lia. apply Hafter.
Qed.

Lemma upper_bound_spec {A} (below : A -> bool) l : monotone below l -> upper_bound below l = find_idx below l.
Proof.
  intros Hm. apply upper_bound_go_spec; [done|lia..| |]; [intros; lia|].
  intros x Hx. apply lookup_lt_Some in Hx. lia.
Qed.

Lemma upper_bound_at {A} (below : A -> bool) l k :
  monotone below l -> (k <= length l)%nat ->
  (forall x, (0 < k)%nat -> l !! (k - 1)%nat = Some x -> below x = false) ->
  (forall x, l !! k = Some x -> below x = true) -> upper_bound below l = k.
Proof.
  intros Hm Hk Hb Ha. rewrite upper_bound_spec by done. apply find_idx_bracket; [done| |done].
  intros i x Hi Ei. destruct (lookup_lt_is_Some_2 l (k - 1)%nat) as [y Ey]; [lia|].
  destruct (below x) eqn:E; [|done]. rewrite <- (Hb y ltac:(lia) Ey).
  symmetry. by eapply (Hm i (k - 1)%nat); [lia|..].
Qed.

(** ** The offset in force at an instant *)

Definition sorted_utc (l : list Transition) : Prop :=
  forall i j a b, (i <= j)%nat -> l !! i = Some a -> l !! j = Some b -> utctime a <= utctime b.

(** The specification: the last transition that is not after the instant. *)
Definition in_force (l : list Transition) (t : Z) : option Transition :=
  last (filter (fun tr => utctime tr <= t) l).

Lemma in_force_at l t k tr :
  l !! k = Some tr -> utctime tr <= t ->
  (forall j x, (k < j)%nat -> l !! j = Some x -> t < utctime x) -> in_force l t = Some tr.
Proof.
  intros Hk Ht Hafter. unfold in_force. rewrite <- (take_drop_middle l k tr Hk).
  rewrite filter_app, filter_cons_True by done.
  rewrite (filter_none _ (drop (S k) l)); [by rewrite last_snoc|].
  intros x Hx. apply list_elem_of_lookup in Hx as [j Hj]. rewrite lookup_drop in Hj.
  specialize (Hafter (S k + j)%nat x ltac:(lia) Hj). lia.
Qed.

Lemma index_spec {A} (l : list A) (n : nat) : index_ l (Z.of_nat n) = match l !! n with Some x => Ok x | None => Err Undefined end.
Proof. unfold index_. case_match; zbool; [lia|]. by rewrite Nat2Z.id. Qed.

Lemma index_at {A} (l : list A) (n : nat) (i : Z) x : i = Z.of_nat n -> l !! n = Some x -> index_ l i = Ok x.
Proof. intros -> H. by rewrite index_spec, H. Qed.

Lemma monotone_utc l t : sorted_utc l -> monotone (fun tr => t <? utctime tr) l.
Proof. intros Hs i j x y Hij Hx Hy H. zbool. pose proof (Hs _ _ _ _ Hij Hx Hy). lia. Qed.

Lemma findLocalTime_utc_spec d t :
  sorted_utc (transitions_ d) ->
  findLocalTime_utc d t =
    index_ (localtimes_ d) (match in_force (transitions_ d) t with Some tr => localtimeIdx tr | None => 0 end).
Proof.
  intros Hs. unfold findLocalTime_utc. destruct (transitions_ d) as [|front rest] eqn:Et; [done|].
  rewrite <- Et in *. set (l := transitions_ d) in *.
  assert (l !! 0%nat = Some front) as H0 by (by rewrite Et).
  case_match; zbool.
  - replace (in_force l t) with (@None Transition); [done|]. unfold in_force. rewrite filter_none; [done|].
    intros x Hx. apply list_elem_of_lookup in Hx as [j Hj]. pose proof (Hs 0%nat j _ _ ltac:(lia) H0 Hj). lia.
  - rewrite upper_bound_spec by by apply monotone_utc. set (k := find_idx _ l).
    assert (k <= length l)%nat by apply find_idx_le.
    assert (k <> 0%nat) as Hk.
    { unfold k. rewrite Et. cbn. case_match; zbool; lia. }
    rewrite (bool_decide_eq_false_2 _ Hk). cbn [negb]. rewrite assert_true by done.
    destruct (lookup_lt_is_Some_2 l (k - 1)%nat) as [tr Htr]; [lia|].
    rewrite (in_force_at l t (k - 1) tr Htr).
    + case_bool_decide as He; rewrite (index_at l (k - 1) _ tr) by (try done; unfold zlen; lia); done.
    + pose proof (find_idx_before (fun tr => t <? utctime tr) l (k - 1)%nat tr ltac:(fold k; lia) Htr) as Hb.
      cbn in Hb. by zbool.
    + intros j x Hj Hx. destruct (find_idx_found (fun tr => t <? utctime tr) l) as (y & Hy & Hyt).
      { fold k. apply lookup_lt_Some in Hx. lia. }
      fold k in Hy. zbool. pose proof (Hs k j y x ltac:(lia) Hy Hx). lia.
Qed.

(** ** Local time back to the instant *)

(** What [addTransition] establishes and zone files satisfy: a transition
    names a local time type and carries the local time it starts at, offsets
    are at most [H] seconds, and transitions are more than [4 * H] apart. *)
Record wf (H : Z) (d : Data) : Prop := {
  wf_H : 0 <= H <= 2 ^ 40;
  wf_tr i tr : transitions_ d !! i = Some tr ->
    exists lt, 0 <= localtimeIdx tr /\ localtimes_ d !! Z.to_nat (localtimeIdx tr) = Some lt /\
      Z.abs (utcOffset lt) <= H /\ localtime tr = utctime tr + utcOffset lt /\ Z.abs (utctime tr) <= 2 ^ 62;
  wf_space i a b : transitions_ d !! i = Some a -> transitions_ d !! S i = Some b ->
    utctime a + 4 * H < utctime b;
}.

Section Zone.
Context (H : Z) (d : Data) (Hwf : wf H d).
Local Abbreviation l := (transitions_ d).

Lemma spaced i j a b : (i < j)%nat -> l !! i = Some a -> l !! j = Some b -> utctime a + 4 * H < utctime b.
Proof using Hwf.
  pose proof (wf_H _ _ Hwf). intros Hij Ha. revert b. induction Hij as [|j Hij IH]; intros b Hb; [by eapply wf_space|].
  destruct (lookup_lt_is_Some_2 l j) as [c Hc]; [apply lookup_lt_Some in Hb; lia|].
  specialize (IH c Hc). pose proof (wf_space _ _ Hwf _ _ _ Hc Hb). lia.
Qed.

Lemma wf_sorted : sorted_utc l.
Proof using Hwf.
  pose proof (wf_H _ _ Hwf). intros i j a b Hij Ha Hb. destruct (decide (i = j)) as [->|]; [simplify_eq; lia|].
  pose proof (spaced i j a b ltac:(lia) Ha Hb). lia.
Qed.

(** The offset of a transition, and the index expression of the code at it. *)
Lemma type_of i tr : l !! i = Some tr ->
  exists lt, index_ (localtimes_ d) (localtimeIdx tr) = Ok lt /\ Z.abs (utcOffset lt) <= H /\
    localtime tr = utctime tr + utcOffset lt /\ Z.abs (utctime tr) <= 2 ^ 62.
Proof using Hwf.
  intros Hi. destruct (wf_tr _ _ Hwf i tr Hi) as (lt & H0 & Hl & ? & ? & ?). exists lt. split_and!; try done.
  by apply (index_at _ (Z.to_nat (localtimeIdx tr))); [lia|].
Qed.

Lemma monotone_local L : monotone (fun tr => L <? localtime tr) l.
Proof using Hwf.
  pose proof (wf_H _ _ Hwf). intros i j x y Hij Hx Hy E. zbool.
  destruct (decide (i = j)) as [->|]; [simplify_eq; lia|].
  pose proof (spaced i j x y ltac:(lia) Hx Hy).
  destruct (type_of i x Hx) as (? & _ & ? & ? & _), (type_of j y Hy) as (? & _ & ? & ? & _). lia.
Qed.

Lemma prior_second_at i p ltp tr : l !! i = Some p -> index_ (localtimes_ d) (localtimeIdx p) = Ok ltp ->
  (exists j, l !! j = Some tr) -> prior_second_of d p tr = Ok (utctime tr - 1 + utcOffset ltp).
Proof using Hwf.
  intros Hp Hltp [j Htr]. unfold prior_second_of. rewrite Hltp. cbn [mbind res_bind]. apply check_int64_ok.
  destruct (type_of i p Hp) as (lt & E & ? & _), (type_of j tr Htr) as (? & _ & _ & _ & ?).
  pose proof (wf_H _ _ Hwf). unfold in_int64. simplify_eq/=. replace lt with ltp in * by congruence. lia.
Qed.

(** Past the two early exits, the code is at the position of the binary search. *)
Lemma findLocalTime_at L k :
  (0 < k <= length l)%nat ->
  (forall x, l !! (k - 1)%nat = Some x -> localtime x <= L) -> (forall x, l !! k = Some x -> L < localtime x) ->
  exists front rest, l = front :: rest /\ (L <? localtime front) = false /\ upper_bound (fun tr => L <? localtime tr) l = k.
Proof using Hwf.
  intros Hk Hb Ha. assert (upper_bound (fun tr => L <? localtime tr) l = k) as Hu.
  { apply upper_bound_at; [apply monotone_local|lia|..].
    - intros x _ Hx. apply Hb in Hx. by apply Z.ltb_ge.
    - intros x Hx. apply Ha in Hx. by apply Z.ltb_lt. }
  destruct l as [|front rest] eqn:El; [cbn in Hk; lia|]. exists front, rest. split_and!; try done.
  destruct (L <? localtime front) eqn:Ef; [|done].
  rewrite upper_bound_spec in Hu by (rewrite <- El; apply monotone_local). cbn in Hu. rewrite Ef in Hu. lia.
Qed.

Lemma pred_index (k : nat) : Z.of_nat (S k) - 1 = Z.of_nat k.
Proof. lia. Qed.

(** At or after the last transition before the local time: its own type. *)
Lemma findLocalTime_after L k tr lt t ltk :
  l !! k = Some tr -> index_ (localtimes_ d) (localtimeIdx tr) = Ok ltk -> utctime tr <= t -> L = t + utcOffset ltk ->
  (forall x, l !! S k = Some x -> t < utctime x /\ L < localtime x) ->
  fromUtcTime lt = Ok L -> findLocalTime_local d lt true = Ok ltk.
Proof using Hwf.
  intros Htr Hltk Ht HL Hnext E. pose proof (lookup_lt_Some _ _ _ Htr).
  destruct (type_of k tr Htr) as (ltk' & Hltk' & HH & Hloc & _). replace ltk' with ltk in * by congruence.
  destruct (findLocalTime_at L (S k)) as (front & rest & El & Ef & Eu); [lia|..].
  { intros x. replace (S k - 1)%nat with k by lia. intros. simplify_eq. lia. }
  { intros x Hx. by apply Hnext. }
  unfold findLocalTime_local. rewrite E. cbn [mbind res_bind]. rewrite El, Ef, <- El, Eu, assert_true by done.
  case_bool_decide as He.
  { rewrite (index_at l k _ tr) by (try done; unfold zlen; lia). by cbn [mbind res_bind]. }
  destruct (lookup_lt_is_Some_2 l (S k)) as [cur Hcur]; [lia|].
  rewrite !pred_index, (index_at l k (Z.of_nat k) tr) by done. cbn [mbind res_bind].
  rewrite (index_at l (S k) (Z.of_nat (S k)) cur) by done. cbn [mbind res_bind].
  rewrite (prior_second_at k tr ltk cur) by eauto. cbn [mbind res_bind].
  destruct (Hnext cur Hcur) as [Hu Hl]. case_match; zbool; [lia|].
  case_match; zbool; cbn [mbind res_bind]; [by case_match|].
  destruct (lookup_lt_is_Some_2 l (k - 1)%nat) as [p Hp]; [lia|].
  destruct (type_of (k - 1) p Hp) as (ltp & Hltp & _).
  rewrite (index_at l (k - 1) _ p) by (try done; lia). cbn [mbind res_bind].
  rewrite (prior_second_at (k - 1) p ltp tr) by eauto. cbn [mbind res_bind]. by case_match.
Qed.

(** In the overlap before a transition that turns the clock back: the type
    before it, when the caller asks for the earlier reading. *)
Lemma findLocalTime_overlap L k tr cur lt t ltk :
  l !! k = Some tr -> index_ (localtimes_ d) (localtimeIdx tr) = Ok ltk -> L = t + utcOffset ltk ->
  l !! S k = Some cur -> t < utctime cur -> localtime cur <= L -> is_Some (l !! S (S k)) ->
  fromUtcTime lt = Ok L -> findLocalTime_local d lt false = Ok ltk.
Proof using Hwf.
  intros Htr Hltk HL Hcur Ht Hl [nxt Hnxt] E. pose proof (wf_H _ _ Hwf).
  pose proof (spaced (S k) (S (S k)) cur nxt ltac:(lia) Hcur Hnxt).
  destruct (type_of k tr Htr) as (ltk' & Hltk' & ? & Hloc & _). replace ltk' with ltk in * by congruence.
  destruct (type_of _ cur Hcur) as (ltc & Hltc & ? & ? & _), (type_of _ nxt Hnxt) as (ltn & Hltn & ? & ? & _).
  pose proof (lookup_lt_Some _ _ _ Hnxt).
  destruct (findLocalTime_at L (S (S k))) as (front & rest & El & Ef & Eu); [lia|..].
  { intros x. replace (S (S k) - 1)%nat with (S k) by lia. intros. simplify_eq. lia. }
  { intros x Hx. simplify_eq. lia. }
  unfold findLocalTime_local. rewrite E. cbn [mbind res_bind]. rewrite El, Ef, <- El, Eu, assert_true by done.
  rewrite bool_decide_eq_false_2 by lia.
  rewrite !pred_index, (index_at l (S k) (Z.of_nat (S k)) cur) by done. cbn [mbind res_bind].
  rewrite (index_at l (S (S k)) (Z.of_nat (S (S k))) nxt) by done. cbn [mbind res_bind].
  rewrite (prior_second_at (S k) cur ltc nxt) by eauto. cbn [mbind res_bind]. case_match; zbool; [lia|].
  case_match; zbool; [lia|].
  rewrite (index_at l k (Z.of_nat k) tr) by done. cbn [mbind res_bind].
  rewrite (prior_second_at k tr ltk cur) by eauto. cbn [mbind res_bind]. case_match; zbool; [done|lia].
Qed.

(** After the start of the last transition, its type, whatever the caller asks. *)
Lemma findLocalTime_last L k tr lt ltk post :
  l !! k = Some tr -> l !! S k = None -> index_ (localtimes_ d) (localtimeIdx tr) = Ok ltk -> localtime tr <= L ->
  fromUtcTime lt = Ok L -> findLocalTime_local d lt post = Ok ltk.
Proof using Hwf.
  intros Htr Hno Hltk HL E. pose proof (lookup_lt_Some _ _ _ Htr). pose proof (lookup_ge_None_1 _ _ Hno).
  destruct (findLocalTime_at L (S k)) as (front & rest & El & Ef & Eu); [lia|..].
  { intros x. replace (S k - 1)%nat with k by lia. intros. by simplify_eq. }
  { intros x Hx. congruence. }
  unfold findLocalTime_local. rewrite E. cbn [mbind res_bind]. rewrite El, Ef, <- El, Eu, assert_true by done.
  rewrite bool_decide_true by lia. rewrite (index_at l k _ tr) by (try done; unfold zlen; lia). by cbn [mbind res_bind].
Qed.

End Zone.

Lemma in_force_next H d (Hwf : wf H d) k t :
  (forall x, transitions_ d !! S k = Some x -> t < utctime x) ->
  forall j x, (k < j)%nat -> transitions_ d !! j = Some x -> t < utctime x.
Proof.
  intros Hnext j x Hj Hx.
  destruct (lookup_lt_is_Some_2 (transitions_ d) (S k)) as [y Hy]; [apply lookup_lt_Some in Hx; lia|].
  specialize (Hnext y Hy). pose proof (wf_sorted H d Hwf (S k) j y x ltac:(lia) Hy Hx). lia.
Qed.

(** Broken-down times name the second they came from (the date arithmetic). *)
Lemma BreakTime_fromUtcTime t : in_epoch t -> exists l, BreakTime t = Ok l /\ fromUtcTime l = Ok t.
Proof.
  intros Ht. rewrite BreakTime_days by done. unfold in_epoch in Ht.
  destruct (getYearMonthDay_inv (t / 86400)) as (r & -> & Hv & Hj); [dlia|].
  cbn [mbind res_bind]. eexists; split; [done|].
  erewrite fromUtcTime_value; cbn [year month day hour minute second];
    [|exact Hj|unfold Date.kJulianDayOf1970_01_01; dlia|dlia..].
  f_equal. dlia.
Qed.

(** C32: [toLocalTime] uses the offset of the last transition not after the
    instant, and [fromLocalTime] takes the local time back: with
    [postTransition], outside the overlap before the next transition, to that
    instant; without it, inside the overlap, to that instant when a further
    transition follows; and when none does, whatever the caller asks, to the
    other instant with this local time, after the transition: the code does not
    notice the overlap before the last transition. *)
Theorem fromLocalTime_toLocalTime H d k tr lt t :
  wf H d -> transitions_ d !! k = Some tr -> utctime tr <= t ->
  (forall x, transitions_ d !! S k = Some x -> t < utctime x) ->
  index_ (localtimes_ d) (localtimeIdx tr) = Ok lt -> in_epoch (t + utcOffset lt) ->
  let z := mk (Some d) in
  exists l, toLocalTime z t = Ok (l, utcOffset lt) /\
    ((forall x, transitions_ d !! S k = Some x -> t + utcOffset lt < localtime x) -> fromLocalTime z l true = Ok t) /\
    (forall cur, transitions_ d !! S k = Some cur -> localtime cur <= t + utcOffset lt ->
       is_Some (transitions_ d !! S (S k)) -> fromLocalTime z l false = Ok t) /\
    (forall cur lt' post, transitions_ d !! S k = Some cur -> localtime cur <= t + utcOffset lt -> transitions_ d !! S (S k) = None ->
       index_ (localtimes_ d) (localtimeIdx cur) = Ok lt' -> fromLocalTime z l post = Ok (t + (utcOffset lt - utcOffset lt'))).
Proof.
  intros Hwf Htr Ht Hnext Hlt HL z. pose proof (wf_H _ _ Hwf).
  destruct (type_of H d Hwf k tr Htr) as (lt' & Hlt' & ? & _). replace lt' with lt in * by congruence.
  destruct (BreakTime_fromUtcTime _ HL) as (l & Hl & E). exists l. split_and!.
  - unfold toLocalTime, z. cbn [data_]. rewrite findLocalTime_utc_spec by by eapply wf_sorted.
    rewrite (in_force_at _ _ k tr); [|done|done|by apply (in_force_next H d Hwf)].
    rewrite Hlt. cbn [mbind res_bind].
    rewrite check_int64_ok by (unfold in_epoch, in_int64 in *; lia). cbn [mbind res_bind]. by rewrite Hl.
  - intros Hn. unfold fromLocalTime, z. cbn [data_].
    erewrite (findLocalTime_after H d Hwf _ k tr l t lt) by (try done; eauto). cbn [mbind res_bind].
    rewrite E. cbn [mbind res_bind]. replace (t + utcOffset lt - utcOffset lt) with t by lia.
    apply check_int64_ok. unfold in_epoch, in_int64 in *. lia.
  - intros cur Hcur Hc Hs. unfold fromLocalTime, z. cbn [data_].
    erewrite (findLocalTime_overlap H d Hwf _ k tr cur l t lt) by (try done; eauto). cbn [mbind res_bind].
    rewrite E. cbn [mbind res_bind]. replace (t + utcOffset lt - utcOffset lt) with t by lia.
    apply check_int64_ok. unfold in_epoch, in_int64 in *. lia.
  - intros cur ltc post Hcur Hc Hno Hltc. unfold fromLocalTime, z. cbn [data_].
    rewrite (findLocalTime_last H d Hwf (t + utcOffset lt) (S k) cur l ltc post) by done. cbn [mbind res_bind].
    destruct (type_of H d Hwf (S k) cur Hcur) as (lt2 & Hlt2 & ? & _). replace lt2 with ltc in * by congruence.
    rewrite E. cbn [mbind res_bind]. rewrite check_int64_ok; [f_equal; lia|unfold in_epoch, in_int64 in *; lia].
Qed.

(** A zone with the three transitions of one summer: standard, daylight, standard. *)
Definition sample_zone : Data :=
  mk_data [mk_transition 0 0 0; mk_transition 10000000 10003600 1; mk_transition 30000000 30000000 0;
           mk_transition 50000000 50003600 1]
          [mk_localtime 0 false 0; mk_localtime 3600 true 4] [] [].

Lemma sample_zone_wf : wf 3600 sample_zone.
Proof.
  split; [lia| |].
  - intros i tr Hi. do 4 (destruct i as [|i]; [cbn in Hi; simplify_eq; cbn; eexists; split_and!; [done|done|cbn; lia|done|lia]|]).
    done.
  - intros i a b Ha Hb. do 4 (destruct i as [|i]; [cbn in Ha, Hb; simplify_eq; cbn; lia|]). done.
Qed.

Lemma fromLocalTime_toLocalTime_witness :
  exists l, toLocalTime (mk (Some sample_zone)) 29999000 = Ok (l, 3600) /\
    fromLocalTime (mk (Some sample_zone)) l false = Ok 29999000.
Proof.
  destruct (fromLocalTime_toLocalTime 3600 sample_zone 1 (mk_transition 10000000 10003600 1) (mk_localtime 3600 true 4) 29999000)
    as (l & H1 & _ & H2 & _); [apply sample_zone_wf|done|done|intros x [= <-]; done|done|unfold in_epoch; cbn; lia|].
  exists l. split; [exact H1|]. by apply (H2 (mk_transition 30000000 30000000 0)).
Defined.

(** Without the last of these transitions, the same instant is in the overlap
    before the last transition, and comes back an hour later. *)
Example last_overlap_missed :
  let z := mk (Some (mk_data (take 3 (transitions_ sample_zone)) (localtimes_ sample_zone) [] [])) in
  ('(l, _) ← toLocalTime z 29999000; fromLocalTime z l false) = Ok 30002600.
Proof. vm_compute. reflexivity. Qed.

End ZoneLookup.
