(* ===== verification/ZoneFile.v ===== *)
(** The zone-file reader of src/utility/TimeZone.cpp against the layout of
    RFC 8536: a version-2 file whose second block is the encoding of a zone is
    read to that zone whatever its first block holds, and a version-1 file from
    its only block, unless the zone has leap seconds: then the file is refused. *)

From S2P Require Import Prelude Endian Date Timestamp TimeZone.

Module ZoneFile.
Import TimeZone.

(** ** The layout *)

Definition be32 (z : Z) : list byte := be_split 4 z.

(** A zone as the file describes it: instants with the index of the type that
    starts there, the types, the designations, the leap seconds (when each
    occurs, and the correction from then on), and the indicator bytes the reader
    skips. *)
Record zone := mk_zone {
  z_trans : list (Z * Z);
  z_types : list LocalTime;
  z_chars : list byte;
  z_leaps : list (Z * Z);
  z_isstd : list byte;
  z_isut : list byte;
}.

Definition encode_type (lt : LocalTime) : list byte :=
  be32 (utcOffset lt) ++ [if isDst lt then x01 else x00; byte_of (desigIdx lt)].

Definition encode_leap (time_size : nat) (p : Z * Z) : list byte := be_split time_size p.1 ++ be32 p.2.

Definition encode_counts (isut isstd leap time type char : Z) : list byte :=
  be32 isut ++ be32 isstd ++ be32 leap ++ be32 time ++ be32 type ++ be32 char.

Definition encode_block (time_size : nat) (z : zone) : list byte :=
  encode_counts (zlen (z_isut z)) (zlen (z_isstd z)) (zlen (z_leaps z)) (zlen (z_trans z)) (zlen (z_types z)) (zlen (z_chars z))
  ++ mjoin (map (fun p => be_split time_size p.1) (z_trans z))
  ++ mjoin (map (fun p => [byte_of p.2]) (z_trans z))
  ++ mjoin (map encode_type (z_types z))
  ++ z_chars z ++ mjoin (map (encode_leap time_size) (z_leaps z)) ++ z_isstd z ++ z_isut z.

(** The zone data the block denotes. *)
Definition denotes (z : zone) (footer : list byte) : Data :=
  mk_data (map (fun p => mk_transition p.1 (p.1 + match z_types z !! Z.to_nat p.2 with Some lt => utcOffset lt | None => 0 end) p.2)
               (z_trans z))
          (z_types z) footer (z_chars z).

(** What the reader makes of it: nothing when there are leap seconds. *)
Definition accepted (z : zone) (footer : list byte) : option Data :=
  match z_leaps z with [] => Some (denotes z footer) | _ => None end.

Definition count_ok (n : Z) : Prop := 0 <= n < 2 ^ 31.

Record zone_ok (time_size : nat) (z : zone) : Prop := {
  zo_trans : Forall (fun p => - 2 ^ (8 * Z.of_nat time_size - 1) <= p.1 < 2 ^ (8 * Z.of_nat time_size - 1) /\
    0 <= p.2 < 256 /\ p.2 < zlen (z_types z) /\
    forall lt, z_types z !! Z.to_nat p.2 = Some lt -> in_int64 (p.1 + utcOffset lt)) (z_trans z);
  zo_types : Forall (fun lt => in_int (utcOffset lt) /\ 0 <= desigIdx lt < 256) (z_types z);
  zo_counts : Forall count_ok [zlen (z_trans z); zlen (z_types z); zlen (z_chars z); zlen (z_leaps z)];
  zo_isstd : zlen (z_isstd z) = 0 \/ zlen (z_isstd z) = zlen (z_types z);
  zo_isut : zlen (z_isut z) = 0 \/ zlen (z_isut z) = zlen (z_types z);
}.

(** ** What is left of a stream *)

Definition left (f : File) (r : list byte) : Prop := 0 <= pos f /\ drop (Z.to_nat (pos f)) (bytes f) = r.

Lemma fread_left f x r n :
  left f (x ++ r) -> zlen x = n -> exists f', fread f n = (x, f') /\ left f' r /\ bytes f' = bytes f /\ pos f' = pos f + n.
Proof.
  intros [Hp Hd] Hn. unfold fread, slice. rewrite Hd, take_app_length' by (unfold zlen in Hn; lia).
  eexists; split; [done|]. rewrite Hn. split; [|done]. split; cbn [pos bytes]; [pose proof (zlen_nonneg x); lia|].
  rewrite Z2Nat.inj_add by (pose proof (zlen_nonneg x); lia).
  rewrite <- drop_drop, Hd. apply drop_app_length'. unfold zlen in Hn. lia.
Qed.

(** A reader consumes exactly an encoding and returns the value it encodes. *)
Definition decodes {A} (rd : File -> res (A * File)) (enc : list byte) (a : A) : Prop :=
  forall f r, left f (enc ++ r) -> exists f', rd f = Ok (a, f') /\ left f' r /\ bytes f' = bytes f /\ pos f' = pos f + zlen enc.

Lemma read_exact_decodes x n : zlen x = n -> decodes (fun f => read_exact f n) x x.
Proof.
  intros Hn f r Hl. destruct (fread_left f x r n Hl Hn) as (f' & E & Hl' & ? & ?). exists f'. unfold read_exact.
  rewrite E, Hn, Z.eqb_refl. subst. done.
Qed.

Lemma readBytes_decodes x n : zlen x = n -> decodes (fun f => readBytes f n) x x.
Proof.
  intros Hn f r Hl. unfold readBytes. replace (n <? 0) with false by (symmetry; apply Z.ltb_ge; rewrite <- Hn; auto with cpp).
  by apply read_exact_decodes.
Qed.

Lemma read_int_decodes n w v :
  (0 < n)%nat -> w = 8 * Z.of_nat n -> - 2 ^ (w - 1) <= v < 2 ^ (w - 1) ->
  decodes (fun f => '(x, f) ← read_exact f (Z.of_nat n); Ok (swrap w (bswap n (uwrap w (swrap w (le_combine x)))), f))
    (be_split n v) v.
Proof.
  intros Hn Hw Hv f r Hl.
  destruct (read_exact_decodes (be_split n v) (Z.of_nat n)) with (f := f) (r := r) as (f' & E & Hl' & ? & ?);
    [unfold zlen; by rewrite length_be_split|done|].
  exists f'. rewrite E. cbn [mbind res_bind]. split; [|done]. do 2 f_equal.
  assert (uwrap w (swrap w (le_combine (be_split n v))) = le_combine (be_split n v)) as ->; [|by apply swrap_bswap].
  pose proof (le_combine_range (be_split n v)) as Hr. rewrite length_be_split, <- Hw in Hr.
  unfold uwrap, swrap. rewrite Zminus_mod_idemp_l.
  replace (le_combine (be_split n v) + 2 ^ (w - 1) - 2 ^ (w - 1)) with (le_combine (be_split n v)) by lia.
  by apply Z.mod_small.
Qed.

Lemma readInt32_decodes v : in_int v -> decodes readInt32 (be32 v) v.
Proof. unfold in_int, int_min, int_max. intros. apply (read_int_decodes 4 32); [lia|done|]. change (2 ^ (32 - 1)) with (2 ^ 31). lia. Qed.

Lemma readInt64_decodes v : in_int64 v -> decodes readInt64 (be_split 8 v) v.
Proof. unfold in_int64. intros. apply (read_int_decodes 8 64); [lia|done|]. change (2 ^ (64 - 1)) with (2 ^ 63). lia. Qed.

Lemma readUInt8_decodes b v : u8 b = v -> decodes readUInt8 [b] v.
Proof.
  intros Hv f r Hl. destruct (read_exact_decodes [b] 1) with (f := f) (r := r) as (f' & E & Hl' & ?); [done..|].
  exists f'. unfold readUInt8. rewrite E. cbn [mbind res_bind le_combine]. by rewrite Hv, Z.add_0_r.
Qed.

Lemma readUInt8_byte_of v : 0 <= v < 256 -> decodes readUInt8 [byte_of v] v.
Proof. intros. apply readUInt8_decodes. by rewrite u8_byte_of, Z.mod_small. Qed.

Lemma readLocalTime_decodes lt : in_int (utcOffset lt) -> 0 <= desigIdx lt < 256 -> decodes readLocalTime (encode_type lt) lt.
Proof.
  intros Ho Hd f r Hl. unfold encode_type in Hl. rewrite <- app_assoc in Hl.
  destruct (readInt32_decodes _ Ho f _ Hl) as (f1 & E1 & Hl1 & Hb1 & Hp1).
  destruct (readUInt8_decodes (if isDst lt then x01 else x00) (if isDst lt then 1 else 0)) with (f := f1) (r := [byte_of (desigIdx lt)] ++ r)
    as (f2 & E2 & Hl2 & Hb2 & Hp2); [by destruct (isDst lt)|done|].
  destruct (readUInt8_byte_of _ Hd f2 r Hl2) as (f3 & E3 & Hl3 & Hb3 & Hp3).
  exists f3. unfold readLocalTime. rewrite E1. cbn [mbind res_bind]. rewrite E2. cbn [mbind res_bind]. rewrite E3. cbn [mbind res_bind].
  split_and!; [by destruct lt as [o [] i]|done|congruence|]. unfold encode_type, be32, zlen in *. rewrite length_app, length_be_split in *. cbn in *. lia.
Qed.

Lemma read_n_decodes {A B} (rd : File -> res (B * File)) (enc : A -> list byte) (v : A -> B) l :
  Forall (fun a => decodes rd (enc a) (v a)) l -> decodes (read_n rd (length l)) (mjoin (map enc l)) (map v l).
Proof.
  induction 1 as [|a l Ha _ IH]; intros f r Hl.
  { exists f. cbn in *. rewrite zlen_nil. split_and!; try done. lia. }
  change (mjoin (map enc (a :: l))) with (enc a ++ mjoin (map enc l)) in *. rewrite <- app_assoc in Hl.
  destruct (Ha f _ Hl) as (f1 & E1 & Hl1 & ? & ?), (IH f1 r Hl1) as (f2 & E2 & Hl2 & ? & ?).
  exists f2. cbn [length read_n]. rewrite E1. cbn [mbind res_bind]. rewrite E2. cbn [mbind res_bind].
  split_and!; try done; [congruence|]. rewrite zlen_app. lia.
Qed.

Lemma skip_left f x r n : left f (x ++ r) -> zlen x = n -> left (skip f n) r.
Proof.
  intros [Hp Hd] Hn. unfold skip. pose proof (zlen_nonneg x). case_match; zbool; [lia|]. split; cbn [pos bytes]; [lia|].
  rewrite Z2Nat.inj_add by lia. rewrite <- drop_drop, Hd. apply drop_app_length'. unfold zlen in Hn. lia.
Qed.

Lemma readToEnd_go_left fuel f r acc :
  left f r -> (length r < fuel)%nat -> (readToEnd_go fuel f acc).1 = acc ++ r.
Proof.
  revert f r acc. induction fuel as [|fuel IH]; intros f r acc Hl Hf; [lia|]. cbn [readToEnd_go].
  destruct Hl as [Hp Hd]. unfold fread, slice. rewrite Hd. change (Z.to_nat 4096) with 4096%nat.
  case_match; zbool.
  - rewrite (IH _ (drop 4096 r)).
    + by rewrite <- app_assoc, take_drop.
    + split; cbn [pos bytes]; [lia|]. rewrite Z2Nat.inj_add by lia. rewrite <- drop_drop, Hd. unfold zlen.
      rewrite Nat2Z.id, length_take. destruct (decide (4096 <= length r)%nat); [f_equal; lia|].
      by rewrite !drop_ge by lia.
    + unfold zlen in *. rewrite length_take in *. rewrite length_drop. lia.
  - cbn. destruct r; [by rewrite app_nil_r|]. unfold zlen in *. rewrite length_take in *. cbn [length] in *. lia.
Qed.

Lemma readToEnd_left f r : left f r -> (readToEnd f).1 = r.
Proof.
  intros Hl. unfold readToEnd. rewrite (readToEnd_go_left _ _ r); [done|done|].
  destruct Hl as [_ <-]. rewrite length_drop. lia.
Qed.

Lemma addLocalTimes_spec types d :
  foldl (fun d lt => addLocalTime d (utcOffset lt) (isDst lt) (desigIdx lt)) d types =
  mk_data (transitions_ d) (localtimes_ d ++ types) (tzstring_ d) (abbreviation_ d).
Proof.
  revert d. induction types as [|lt types IH]; intros d; cbn [foldl]; [by rewrite app_nil_r; destruct d|].
  rewrite IH. unfold addLocalTime. cbn. rewrite <- app_assoc. by destruct lt.
Qed.

Lemma addTransitions_spec l d :
  Forall (fun p => 0 <= p.2 /\ p.2 < zlen (localtimes_ d) /\
    forall lt, localtimes_ d !! Z.to_nat p.2 = Some lt -> in_int64 (p.1 + utcOffset lt)) l ->
  addTransitions d l = Ok (mk_data (transitions_ d ++
    map (fun p => mk_transition p.1 (p.1 + match localtimes_ d !! Z.to_nat p.2 with Some lt => utcOffset lt | None => 0 end) p.2) l)
    (localtimes_ d) (tzstring_ d) (abbreviation_ d)).
Proof.
  revert d. induction l as [|[u i] l IH]; intros d Hl; cbn [addTransitions map]; [by rewrite app_nil_r; destruct d|].
  apply Forall_cons in Hl as [(H0 & Hi & Hr) Hl]. cbn [fst snd] in *.
  destruct (lookup_lt_is_Some_2 (localtimes_ d) (Z.to_nat i)) as [lt Hlt]; [unfold zlen in Hi; lia|].
  unfold addTransition, at_. case_match; zbool; [lia|]. rewrite Hlt. cbn [mbind res_bind].
  rewrite check_int64_ok by by apply Hr. cbn [mbind res_bind]. rewrite IH by done.
  cbn [transitions_ localtimes_ tzstring_ abbreviation_]. by rewrite <- app_assoc.
Qed.

Lemma count_int n : count_ok n -> in_int n.
Proof. unfold count_ok, in_int, int_min, int_max. lia. Qed.

Lemma combine_fst_snd {A B} (l : list (A * B)) : combine (map fst l) (map snd l) = l.
Proof. induction l as [|[a b] l IH]; cbn; [done|]. by rewrite IH. Qed.

Lemma reserve_ok n : 0 <= n -> reserve n = Ok tt.
Proof. intros. unfold reserve. case_match; zbool; [lia|done]. Qed.

Lemma indicator_ok n m : n = 0 \/ n = m -> negb (n =? 0) && negb (n =? m) = false.
Proof. intros Hn. zbool. lia. Qed.

(** Runs a reader at the front of what is left of the stream. *)
Ltac decode lem :=
  lazymatch goal with
  | Hl : left ?f _ |- _ =>
      let f' := fresh "f" in let E := fresh "E" in let Hl' := fresh "Hl" in
      destruct (lem f _ Hl) as (f' & E & Hl' & _); rewrite E; cbn [mbind res_bind]; clear E Hl
  end.

Section Block.
Context (z : zone) (v1 : bool).
Let time_size : nat := if v1 then 4 else 8.
Hypothesis Hz : zone_ok time_size z.

Lemma times_decode :
  decodes (read_n (if v1 then readInt32 else readInt64) (Z.to_nat (zlen (z_trans z))))
    (mjoin (map (fun p => be_split time_size p.1) (z_trans z))) (map fst (z_trans z)).
Proof using Hz.
  unfold zlen. rewrite Nat2Z.id. apply read_n_decodes. eapply Forall_impl; [apply (zo_trans _ _ Hz)|].
  intros [u i] (Hu & _). cbn [fst] in *. unfold time_size in *. destruct v1.
  - apply readInt32_decodes. change (8 * Z.of_nat 4 - 1) with 31 in Hu. unfold in_int, int_min, int_max. lia.
  - apply readInt64_decodes. change (8 * Z.of_nat 8 - 1) with 63 in Hu. unfold in_int64. lia.
Qed.

Lemma indices_decode :
  decodes (read_n readUInt8 (Z.to_nat (zlen (z_trans z)))) (mjoin (map (fun p => [byte_of p.2]) (z_trans z))) (map snd (z_trans z)).
Proof using Hz.
  unfold zlen. rewrite Nat2Z.id. apply read_n_decodes. eapply Forall_impl; [apply (zo_trans _ _ Hz)|].
  intros [u i] (_ & Hi & _). by apply readUInt8_byte_of.
Qed.

Lemma types_decode :
  decodes (read_n readLocalTime (Z.to_nat (zlen (z_types z)))) (mjoin (map encode_type (z_types z))) (z_types z).
Proof using Hz.
  pose proof (read_n_decodes readLocalTime encode_type (fun lt => lt) (z_types z)) as P. rewrite map_id in P.
  unfold zlen. rewrite Nat2Z.id. apply P.
  eapply Forall_impl; [apply (zo_types _ _ Hz)|]. intros lt [? ?]. by apply readLocalTime_decodes.
Qed.

Lemma readDataBlock_left f r :
  left f (encode_block time_size z ++ r) ->
  exists ok d f', readDataBlock f empty_data v1 = Ok (ok, d, f') /\ (if ok then Some d else None) = accepted z (if v1 then [] else r).
Proof using Hz.
  intros Hl. destruct Hz as [Htr _ Hc Hstd Hut]. rewrite !Forall_cons in Hc. destruct Hc as (Hn & Hm & Hk & Hp & _).
  assert (count_ok (zlen (z_isut z)) /\ count_ok (zlen (z_isstd z))) as [Hu Hs] by (unfold count_ok in *; lia).
  unfold encode_block, encode_counts in Hl. rewrite <- !app_assoc in Hl. unfold readDataBlock.
  decode (readInt32_decodes _ (count_int _ Hu)). decode (readInt32_decodes _ (count_int _ Hs)).
  decode (readInt32_decodes _ (count_int _ Hp)). decode (readInt32_decodes _ (count_int _ Hn)).
  decode (readInt32_decodes _ (count_int _ Hm)). decode (readInt32_decodes _ (count_int _ Hk)).
  unfold accepted. destruct (z_leaps z) as [|p leaps] eqn:Eleap; [|by eexists false, _, _].
  cbn [map mjoin list_join app] in *. rewrite zlen_nil, !indicator_ok by done. cbn [Z.eqb negb]. unfold count_ok in *. rewrite !reserve_ok by lia. cbn [mbind res_bind].
  decode times_decode.
  decode indices_decode.
  decode types_decode. rewrite addLocalTimes_spec, combine_fst_snd. cbn [transitions_ localtimes_ empty_data app].
  rewrite addTransitions_spec by (cbn [localtimes_]; eapply Forall_impl; [exact Htr|cbn beta; intuition lia]).
  cbn [mbind res_bind]. decode (readBytes_decodes (z_chars z) _ eq_refl).
  lazymatch goal with Hl : left ?f _ |- _ => assert (left (skip f (0 * ((if v1 then 4 else 8) + 4))) (z_isstd z ++ z_isut z ++ r)) as Hl' by (by apply (skip_left f [])); clear Hl end.
  pose proof (skip_left _ _ _ _ Hl' eq_refl) as Hl2. pose proof (skip_left _ _ _ _ Hl2 eq_refl) as Hl3.
  cbn [transitions_ localtimes_ tzstring_]. unfold denotes. destruct v1; [by eexists true, _, _|].
  rewrite (surjective_pairing (readToEnd _)), (readToEnd_left _ r) by exact Hl3. by eexists true, _, _.
Qed.

End Block.

Lemma bs_refuse (x y : list byte) : x = y -> negb (bool_decide (x = y)) = false.
Proof. intros ->. by rewrite bool_decide_eq_true_2. Qed.

(** Runs a reader and keeps track of the position as well. *)
Ltac decode_at lem :=
  lazymatch goal with
  | Hl : left ?f _ |- _ =>
      let f' := fresh "f" in let E := fresh "E" in let Hl' := fresh "Hl" in
      let Hb := fresh "Hb" in let Hp := fresh "Hp" in
      destruct (lem f _ Hl) as (f' & E & Hl' & Hb & Hp); rewrite E; cbn [mbind res_bind]; clear E Hl
  end.

Lemma zlen_be32 v : zlen (be32 v) = 4.
Proof. unfold zlen, be32. by rewrite length_be_split. Qed.

(** A version-1 file is read from its only block. *)
Lemma readTimeZoneFile_v1 z ver pad r :
  zone_ok 4 z -> ver <> bs "2" -> zlen ver = 1 -> zlen pad = 15 ->
  readTimeZoneFile (Some (bs "TZif" ++ ver ++ pad ++ encode_block 4 z ++ r)) empty_data = Ok (accepted z []).
Proof.
  intros Hz Hver H1 H15. set (content := bs "TZif" ++ _).
  assert (left (mk_file content 0) content) as Hl by done.
  unfold content in Hl at 2. unfold encode_block at 1, encode_counts in Hl. rewrite <- !app_assoc in Hl.
  destruct (Hz) as [_ _ Hc Hstd Hut]. rewrite !Forall_cons in Hc. destruct Hc as (Hn & Hm & Hk & Hp & _).
  assert (count_ok (zlen (z_isut z)) /\ count_ok (zlen (z_isstd z))) as [Hu Hs] by (unfold count_ok in *; lia).
  unfold readTimeZoneFile, readTimeZoneStream.
  decode_at (readBytes_decodes (bs "TZif") 4 eq_refl). rewrite bs_refuse by done.
  decode_at (readBytes_decodes ver 1 H1). decode_at (readBytes_decodes pad 15 H15).
  decode_at (readInt32_decodes _ (count_int _ Hu)). decode_at (readInt32_decodes _ (count_int _ Hs)).
  decode_at (readInt32_decodes _ (count_int _ Hp)). decode_at (readInt32_decodes _ (count_int _ Hn)).
  decode_at (readInt32_decodes _ (count_int _ Hm)). decode_at (readInt32_decodes _ (count_int _ Hk)).
  rewrite bool_decide_eq_false_2 by done. rewrite !zlen_be32 in *. cbn [pos bytes] in *. change (zlen (bs "TZif")) with 4 in *.
  rewrite H1, H15 in *.
  lazymatch goal with Hl : left ?f _ |- _ =>
    assert (pos f = 44) as Hpos by lia; assert (bytes f = content) as Hbytes by congruence;
    assert (left (skip f (-4 * 6)) (encode_block 4 z ++ r)) as Hblock; [|clear Hl] end.
  { unfold skip. rewrite Hpos, Hbytes. change (44 + -4 * 6 <? 0) with false. split; cbn [pos bytes]; [done|]. unfold content.
    rewrite (app_assoc (bs "TZif")), (app_assoc _ pad). apply drop_app_length'.
    unfold zlen in *. rewrite !length_app. change (length (bs "TZif")) with 4%nat. change (Z.to_nat (44 + -4 * 6)) with 20%nat. lia. }
  destruct (readDataBlock_left z true Hz _ _ Hblock) as (ok & d & f' & -> & <-). by destruct ok.
Qed.

Definition v1_bytes (isut isstd leap time type char : Z) : Z := 5 * time + 6 * type + char + 8 * leap + isstd + isut.

(** C33: a version-2 zone file laid out by RFC 8536 is read to the zone its
    64-bit block encodes, the footer included, whatever the 32-bit block
    before it holds; but a zone with leap seconds is refused. *)
Theorem readTimeZoneFile_v2 z footer pad head2 isut isstd leap time type char block1 :
  zone_ok 8 z -> zlen pad = 15 -> zlen head2 = 16 ->
  Forall count_ok [isut; isstd; leap; time; type; char; 6 * type; 8 * leap] ->
  zlen block1 = v1_bytes isut isstd leap time type char ->
  readTimeZoneFile (Some (bs "TZif" ++ bs "2" ++ pad ++ encode_counts isut isstd leap time type char ++ block1
                          ++ bs "TZif" ++ head2 ++ encode_block 8 z ++ footer)) empty_data
  = Ok (accepted z footer).
Proof.
  intros Hz H15 H16 Hc Hb. unfold encode_counts. rewrite <- !app_assoc. set (content := bs "TZif" ++ _).
  assert (left (mk_file content 0) content) as Hl by done. unfold content in Hl at 2.
  rewrite !Forall_cons in Hc. destruct Hc as (Hu & Hs & Hp & Ht & Hy & Hk & Hy6 & Hp8 & _).
  unfold readTimeZoneFile, readTimeZoneStream.
  decode (readBytes_decodes (bs "TZif") 4 eq_refl). rewrite bs_refuse by done.
  decode (readBytes_decodes (bs "2") 1 eq_refl). decode (readBytes_decodes pad 15 H15).
  decode (readInt32_decodes _ (count_int _ Hu)). decode (readInt32_decodes _ (count_int _ Hs)).
  decode (readInt32_decodes _ (count_int _ Hp)). decode (readInt32_decodes _ (count_int _ Ht)).
  decode (readInt32_decodes _ (count_int _ Hy)). decode (readInt32_decodes _ (count_int _ Hk)).
  rewrite bool_decide_eq_true_2 by done.
  rewrite check_ints_ok by (repeat constructor; by apply count_int). cbn [mbind res_bind].
  unfold v1_bytes, count_ok in *.
  rewrite u64_small by (unfold size_max; lia). rewrite i64_small by (unfold in_int64; lia).
  lazymatch goal with Hl : left ?f _ |- context [skip ?f ?n] => pose proof (skip_left f block1 _ n Hl ltac:(lia)) as Hl1; clear Hl end.
  decode (readBytes_decodes (bs "TZif") 4 eq_refl). rewrite bs_refuse by done.
  lazymatch goal with Hl : left ?f _ |- _ => pose proof (skip_left f head2 _ 16 Hl ltac:(lia)) as Hl2 end.
  destruct (readDataBlock_left z false Hz _ _ Hl2) as (ok & d & f' & -> & <-). by destruct ok.
Qed.

Definition sample_file : zone :=
  mk_zone [(-100, 1); (100, 0)] [mk_localtime 3600 false 0; mk_localtime 0 true 4] (bs "ABC") [] [] [].

Lemma readTimeZoneFile_v2_witness :
  exists d, readTimeZoneFile (Some (bs "TZif" ++ bs "2" ++ replicate 15 x00 ++ encode_counts 0 0 0 0 1 0 ++ replicate 6 x00
    ++ bs "TZif" ++ replicate 16 x00 ++ encode_block 8 sample_file ++ bs "X")) empty_data = Ok (Some d) /\
    transitions_ d = [mk_transition (-100) (-100) 1; mk_transition 100 3700 0].
Proof.
  exists (denotes sample_file (bs "X")). split; [|done]. change (Some (denotes sample_file (bs "X"))) with (accepted sample_file (bs "X")).
  apply (readTimeZoneFile_v2 sample_file (bs "X") (replicate 15 x00) (replicate 16 x00) 0 0 0 0 1 0 (replicate 6 x00));
    [|done|done|repeat constructor; done|done].
  split.
  - repeat constructor; cbn; intros; simplify_eq/=; done.
  - repeat constructor; done.
  - repeat constructor; done.
  - by left.
  - by left.
Defined.

(** One leap second in the 64-bit block, and the file is refused. *)
Example leap_seconds_refused :
  readTimeZoneFile (Some (bs "TZif" ++ bs "2" ++ replicate 15 x00 ++ encode_counts 0 0 0 0 1 0 ++ replicate 6 x00
    ++ bs "TZif" ++ replicate 16 x00 ++ encode_block 8 (mk_zone [(-100, 1); (100, 0)] (z_types sample_file) (bs "ABC") [(78796800, 1)] [] []) ++ bs "X"))
    empty_data = Ok None.
Proof. vm_compute. reflexivity. Qed.

End ZoneFile.
