(* ===== verification/StringPiece.v ===== *)
(** Non-owning strings (src/utility/StringPiece.h).

    A pointer is the memory from it to the end of the object it points into, or
    null.  Reading past that memory, or a negative length, is undefined.  C
    fixes only the sign of the result of [memcmp], so the model returns -1, 0
    or 1. *)

From S2P Require Import Prelude.

Module StringPiece.

Record t := mk { ptr_ : option (list byte); length_ : Z }.

Definition StringPiece_null : t := mk None 0.
(** [strlen]: the memory must hold a NUL; the length is narrowed to [int]. *)
Definition strlen (p : list byte) : res Z :=
  let n := find_idx (is_char x00) p in
  if decide (n < length p)%nat then Ok (Z.of_nat n) else Err Undefined.
Definition StringPiece_cstr (str : list byte) : res t :=
  n ← strlen str; Ok (mk (Some str) (i32 n)).
Definition StringPiece_string (str : list byte) : t := mk (Some str) (i32 (zlen str)).
Definition StringPiece_len (offset : option (list byte)) (len : Z) : t := mk offset len.

Definition size (s : t) : Z := length_ s.
Definition empty (s : t) : bool := length_ s =? 0.
Definition clear (s : t) : t := mk None 0.
Definition set_len (s : t) (buffer : option (list byte)) (len : Z) : t := mk buffer len.
Definition set_cstr (s : t) (str : list byte) : res t := StringPiece_cstr str.

(** The [n] bytes at a pointer. *)
Definition load (p : option (list byte)) (n : Z) : res (list byte) :=
  match p with
  | None => if n =? 0 then Ok [] else Err Undefined
  | Some m => if (0 <=? n) && (n <=? zlen m) then Ok (take (Z.to_nat n) m) else Err Undefined
  end.

Definition index (s : t) (i : Z) : res byte :=
  match ptr_ s with
  | Some m => if i <? 0 then Err Undefined else match m !! Z.to_nat i with Some b => Ok b | None => Err Undefined end
  | None => Err Undefined
  end.

Definition remove_prefix (s : t) (n : Z) : res t :=
  match ptr_ s with
  | Some m => if (0 <=? n) && (n <=? zlen m) then Ok (mk (Some (drop (Z.to_nat n) m)) (length_ s - n)) else Err Undefined
  | None => if n =? 0 then Ok s else Err Undefined
  end.
Definition remove_suffix (s : t) (n : Z) : t := mk (ptr_ s) (length_ s - n).

(** The sign of the first difference, on equally long ranges. *)
Fixpoint cmp_bytes (l k : list byte) : Z :=
  match l, k with
  | a :: l, b :: k => if u8 a <? u8 b then -1 else if u8 b <? u8 a then 1 else cmp_bytes l k
  | _, _ => 0
  end.
Definition memcmp (p q : option (list byte)) (n : Z) : res Z :=
  a ← load p n; b ← load q n; Ok (cmp_bytes a b).

Definition min_len (s x : t) : Z := if length_ s <? length_ x then length_ s else length_ x.

Definition eqb (s x : t) : res bool :=
  if length_ s =? length_ x then r ← memcmp (ptr_ s) (ptr_ x) (length_ s); Ok (r =? 0) else Ok false.
Definition neb (s x : t) : res bool := negb <$> eqb s x.
Definition lt (s x : t) : res bool :=
  r ← memcmp (ptr_ s) (ptr_ x) (min_len s x); Ok ((r <? 0) || ((r =? 0) && (length_ s <? length_ x))).
Definition le (s x : t) : res bool :=
  r ← memcmp (ptr_ s) (ptr_ x) (min_len s x); Ok ((r <? 0) || ((r =? 0) && (length_ s <=? length_ x))).
Definition ge (s x : t) : res bool :=
  r ← memcmp (ptr_ s) (ptr_ x) (min_len s x); Ok ((0 <? r) || ((r =? 0) && (length_ x <=? length_ s))).
Definition gt (s x : t) : res bool :=
  r ← memcmp (ptr_ s) (ptr_ x) (min_len s x); Ok ((0 <? r) || ((r =? 0) && (length_ x <? length_ s))).
Definition compare (s x : t) : res Z :=
  r ← memcmp (ptr_ s) (ptr_ x) (min_len s x);
  Ok (if r =? 0 then if length_ s <? length_ x then -1 else if length_ x <? length_ s then 1 else r else r).

Definition as_string (s : t) : res (list byte) := load (ptr_ s) (length_ s).
Definition CopyToString (s : t) : res (list byte) := load (ptr_ s) (length_ s).
Definition starts_with (s x : t) : res bool :=
  if length_ x <=? length_ s then r ← memcmp (ptr_ s) (ptr_ x) (length_ x); Ok (r =? 0) else Ok false.

(** ** The order on texts *)

(** A piece that points to at least its length of memory denotes a text. *)
Definition denotes (s : t) (l : list byte) : Prop :=
  length_ s = zlen l /\ match ptr_ s with Some m => exists r, m = l ++ r | None => l = [] end.

(** Lexicographic comparison of texts by unsigned bytes. *)
Fixpoint lex (l k : list byte) : Z :=
  match l, k with
  | [], [] => 0
  | [], _ :: _ => -1
  | _ :: _, [] => 1
  | a :: l, b :: k => if u8 a <? u8 b then -1 else if u8 b <? u8 a then 1 else lex l k
  end.

Lemma load_prefix s l n : denotes s l -> 0 <= n <= zlen l -> load (ptr_ s) n = Ok (take (Z.to_nat n) l).
Proof.
  intros [_ Hp] Hn. unfold load. destruct (ptr_ s) as [m|].
  - destruct Hp as [r ->]. rewrite zlen_app. pose proof (zlen_nonneg r).
    case_match; zbool; [|lia]. unfold zlen in *. rewrite take_app_le by lia. done.
  - subst l. unfold zlen in Hn. cbn [length] in Hn. by replace n with 0 by lia.
Qed.

Lemma denotes_text s l : denotes s l -> as_string s = Ok l.
Proof.
  intros H. unfold as_string. rewrite (proj1 H), (load_prefix s l) by (done || pose proof (zlen_nonneg l); lia).
  unfold zlen. rewrite Nat2Z.id, firstn_all. done.
Qed.

Lemma lex_range l k : lex l k = -1 \/ lex l k = 0 \/ lex l k = 1.
Proof. revert k. induction l as [|a l IH]; intros [|b k]; cbn; auto. repeat case_match; auto. Qed.

Lemma lex_eq l k : lex l k = 0 <-> l = k.
Proof.
  revert k. induction l as [|a l IH]; intros [|b k]; cbn; try done. split.
  - repeat case_match; zbool; try done. intros ->%IH. f_equal. apply u8_inj. lia.
  - intros [= -> ->]. rewrite Z.ltb_irrefl. by apply IH.
Qed.

(** The comparison the code makes: the common length first, then the lengths. *)
Lemma cmp_bytes_lex l k :
  let r := cmp_bytes (take (min (length l) (length k)) l) (take (min (length l) (length k)) k) in
  lex l k = if r =? 0 then if zlen l <? zlen k then -1 else if zlen k <? zlen l then 1 else 0 else r.
Proof.
  revert k. induction l as [|a l IH]; intros [|b k]; cbn [lex length Nat.min take cmp_bytes].
  - done.
  - unfold zlen. cbn [length]. case_match; zbool; [case_match; zbool; [done|lia]|lia].
  - unfold zlen. cbn [length]. case_match; zbool; [|lia]. case_match; zbool; [lia|]. case_match; zbool; [done|lia].
  - case_match; [done|]. case_match; [done|]. rewrite IH. cbn zeta.
    case_match; [|done]. unfold zlen. cbn [length]. repeat case_match; zbool; try done; lia.
Qed.

Lemma memcmp_min s x l k : denotes s l -> denotes x k ->
  memcmp (ptr_ s) (ptr_ x) (min_len s x) = Ok (cmp_bytes (take (min (length l) (length k)) l) (take (min (length l) (length k)) k)).
Proof.
  intros Hs Hx. assert (min_len s x = Z.of_nat (min (length l) (length k))) as ->.
  { unfold min_len. rewrite (proj1 Hs), (proj1 Hx). unfold zlen. case_match; zbool; lia. }
  unfold memcmp. rewrite (load_prefix s l), (load_prefix x k) by (done || unfold zlen; lia).
  cbn [mbind res_bind]. by rewrite !Nat2Z.id.
Qed.

Lemma cmp_bytes_range l k : cmp_bytes l k = -1 \/ cmp_bytes l k = 0 \/ cmp_bytes l k = 1.
Proof. revert k. induction l as [|a l IH]; intros [|b k]; cbn; auto. repeat case_match; auto. Qed.

Lemma cmp_bytes_prefix l k : (length k <= length l)%nat -> (cmp_bytes (take (length k) l) k =? 0) = prefixb k l.
Proof.
  revert k. induction l as [|a l IH]; intros [|b k] Hl; cbn in *; try done; [lia|].
  case_bool_decide as E; [subst; rewrite Z.ltb_irrefl; apply IH; lia|].
  repeat case_match; try done. zbool. exfalso. apply E, u8_inj. lia.
Qed.

Lemma eqb_spec s x l k : denotes s l -> denotes x k -> eqb s x = Ok (bool_decide (l = k)).
Proof.
  intros Hs Hx. unfold eqb. rewrite (proj1 Hs), (proj1 Hx). destruct (zlen l =? zlen k) eqn:E; zbool.
  - unfold memcmp. rewrite (load_prefix s l), (load_prefix x k) by (done || pose proof (zlen_nonneg l); lia).
    cbn [mbind res_bind]. unfold zlen in *. assert (length l = length k) as El by lia. rewrite Nat2Z.id, El.
    rewrite firstn_all, cmp_bytes_prefix by lia. f_equal. case_bool_decide as Elk.
    + subst. rewrite <- (app_nil_r k) at 2. apply prefixb_app.
    + destruct (prefixb k l) eqn:Ep; [|done]. apply prefixb_spec in Ep as [[|b r] ->]; [by rewrite app_nil_r in Elk|].
      rewrite length_app in El. cbn in El. lia.
  - rewrite bool_decide_eq_false_2; [done|]. by intros ->.
Qed.

(** The operators' tests on the sign [r] of the common part and the lengths. *)
Lemma sign_cases r n m :
  r = -1 \/ r = 0 \/ r = 1 ->
  let c := if r =? 0 then if n <? m then -1 else if m <? n then 1 else 0 else r in
  ((r <? 0) || ((r =? 0) && (n <? m)) = (c <? 0)) /\ ((r <? 0) || ((r =? 0) && (n <=? m)) = (c <=? 0)) /\
  ((0 <? r) || ((r =? 0) && (m <? n)) = (0 <? c)) /\ ((0 <? r) || ((r =? 0) && (m <=? n)) = (0 <=? c)).
Proof.
  intros [-> | [-> | ->]]; cbn; try done.
  destruct (n <? m) eqn:?, (m <? n) eqn:?, (n <=? m) eqn:?, (m <=? n) eqn:?; zbool; try done; lia.
Qed.

(** On pieces of valid memory, [compare] is the lexicographic comparison
    of the texts by unsigned bytes, the six operators agree with it, and
    [starts_with] is the prefix test. *)
Theorem operators_lexicographic s x l k :
  denotes s l -> denotes x k ->
  compare s x = Ok (lex l k) /\
  eqb s x = Ok (bool_decide (l = k)) /\ neb s x = Ok (negb (bool_decide (l = k))) /\
  lt s x = Ok (lex l k <? 0) /\ le s x = Ok (lex l k <=? 0) /\
  gt s x = Ok (0 <? lex l k) /\ ge s x = Ok (0 <=? lex l k) /\
  starts_with s x = Ok (prefixb k l).
Proof.
  intros Hs Hx. pose proof (cmp_bytes_lex l k) as Hl. cbn zeta in Hl.
  unfold compare, lt, le, gt, ge. rewrite !(memcmp_min s x l k) by done. cbn [mbind res_bind].
  remember (cmp_bytes _ _) as r eqn:Er. rewrite (proj1 Hs), (proj1 Hx).
  pose proof (eqb_spec s x l k Hs Hx) as He.
  pose proof (cmp_bytes_range (take (length l `min` length k) l) (take (length l `min` length k) k)) as Hr. rewrite <- Er in Hr.
  split_and!.
  - rewrite Hl. do 2 f_equal. repeat case_match; zbool; try done; lia.
  - done.
  - unfold neb. by rewrite He.
  - rewrite Hl. f_equal. by apply sign_cases.
  - rewrite Hl. f_equal. by apply sign_cases.
  - rewrite Hl. f_equal. by apply sign_cases.
  - rewrite Hl. f_equal. by apply sign_cases.
  - unfold starts_with. rewrite (proj1 Hs), (proj1 Hx). clear Hl. destruct (zlen k <=? zlen l) eqn:E; zbool.
    + unfold memcmp. rewrite (load_prefix s l), (load_prefix x k) by (done || pose proof (zlen_nonneg k); lia).
      cbn [mbind res_bind]. unfold zlen in *. rewrite !Nat2Z.id, firstn_all. f_equal. apply cmp_bytes_prefix. lia.
    + f_equal. symmetry. destruct (prefixb k l) eqn:Ep; [|done]. apply prefixb_spec in Ep as [r' ->].
      rewrite zlen_app in *. pose proof (zlen_nonneg r'). lia.
Qed.

Lemma operators_lexicographic_witness :
  let s := StringPiece_string (bs "abc") in
  let x := StringPiece_len (Some (bs "abcdef")) 2 in
  compare s x = Ok 1 /\ starts_with s x = Ok true.
Proof.
  destruct (operators_lexicographic (StringPiece_string (bs "abc")) (StringPiece_len (Some (bs "abcdef")) 2) (bs "abc") (bs "ab"))
    as (H & _ & _ & _ & _ & _ & _ & H').
  - split; [done|]. by exists [].
  - split; [done|]. by exists (bs "cdef").
  - split; [exact H|exact H'].
Defined.

End StringPiece.
