(* ===== verification/LogStream.v ===== *)
(** The formatting side of the logger (src/utility/LogStream.h,
    src/utility/LogStream.cpp): fixed buffers, integer conversion, the stream
    operators and the unit formatters.

    A [double] of the unit formatters is an IEEE binary64 number of the
    standard library's [SpecFloat], so conversions, divisions and the decimal
    output of [printf] are exact.  The text of [%.12g] and of a format chosen by
    the caller is a parameter. *)

From Stdlib Require Import Floats.SpecFloat.
From S2P Require Import Prelude Printf StringPiece.

Module FixedBuffer.

(** [FixedBuffer<SIZE>]: [SIZE] is the length of [data_], [cur_] an offset. *)
Record t := mk { data_ : list byte; cur_ : Z }.

Definition new (garbage : list byte) : t := mk garbage 0.
Definition length (b : t) : Z := i32 (cur_ b).
Definition avail (b : t) : Z := i32 (zlen (data_ b) - cur_ b).
Definition add (b : t) (len : Z) : t := mk (data_ b) (cur_ b + len).
Definition reset (b : t) : t := mk (data_ b) 0.
Definition bZero (b : t) : t := mk (replicate (List.length (data_ b)) x00) (cur_ b).

(** A store through [cur_], with an offset; outside the array it is undefined. *)
Definition store (b : t) (off : Z) (d : list byte) : res t :=
  let at_ := cur_ b + off in
  if (0 <=? at_) && (at_ + zlen d <=? zlen (data_ b)) then Ok (mk (blit (data_ b) at_ d) (cur_ b)) else Err Undefined.

Definition append (b : t) (buf : list byte) : res t :=
  if zlen buf <? u64 (avail b) then b ← store b 0 buf; Ok (add b (zlen buf)) else Ok b.

Definition debugString (b : t) : res (t * list byte) :=
  b ← store b 0 [x00]; Ok (b, data_ b).
Definition toString (b : t) : list byte := take (Z.to_nat (length b)) (data_ b).
Definition toStringPiece (b : t) : StringPiece.t := StringPiece.StringPiece_len (Some (data_ b)) (length b).

Definition wf (size : Z) (b : t) : Prop := zlen (data_ b) = size /\ 0 <= cur_ b < size /\ size <= int_max.

End FixedBuffer.

Module LogStream.

Definition kSmallBuffer : Z := 4000.
Definition kLargeBuffer : Z := 4000 * 1000.
Definition kMaxNumericSize : Z := 48.

(** ** Integer conversion *)

Definition digits : list byte := bs "9876543210123456789".
Definition digitsHex : list byte := bs "0123456789ABCDEF".

(** [zero[lsd]], with [zero = digits + 9]. *)
Definition zero_at (lsd : Z) : res byte :=
  match (if 9 + lsd <? 0 then None else digits !! Z.to_nat (9 + lsd)) with Some b => Ok b | None => Err Undefined end.

(** The [do]-[while] loop: what it stores, in the order it is stored. *)
Fixpoint convert_loop (fuel : nat) (i : Z) : res (list byte) :=
  match fuel with
  | O => Err Undefined
  | S fuel =>
      let lsd := i `rem` 10 in
      let i := i `quot` 10 in
      c ← zero_at lsd;
      if negb (i =? 0) then r ← convert_loop fuel i; Ok (c :: r) else Ok [c]
  end.
(** At least one turn, and every turn divides by ten: 64 turns are enough for
    the widest type. *)
Definition convert (value : Z) : res (list byte) :=
  p ← convert_loop 64 value;
  Ok (rev (p ++ (if value <? 0 then bs "-" else []))).

Fixpoint convertHex_loop (fuel : nat) (i : Z) : res (list byte) :=
  match fuel with
  | O => Err Undefined
  | S fuel =>
      let lsd := i mod 16 in
      let i := i / 16 in
      c ← (match digitsHex !! Z.to_nat lsd with Some b => Ok b | None => Err Undefined end);
      if negb (i =? 0) then r ← convertHex_loop fuel i; Ok (c :: r) else Ok [c]
  end.
Definition convertHex (value : Z) : res (list byte) := (fun p => rev p) <$> convertHex_loop 64 value.

(** ** The stream *)

Record t := mk { buffer_ : FixedBuffer.t }.

(** The digits and the NUL after them are stored at [current()]. *)
Definition formatInteger (s : t) (v : Z) : res t :=
  if kMaxNumericSize <=? FixedBuffer.avail (buffer_ s) then
    text ← convert v;
    b ← FixedBuffer.store (buffer_ s) 0 (text ++ [x00]);
    Ok (mk (FixedBuffer.add b (zlen text)))
  else Ok s.

Definition shl_bool (s : t) (v : bool) : res t := mk <$> FixedBuffer.append (buffer_ s) (if v then bs "1" else bs "0").
Definition shl_int (s : t) (v : Z) : res t := formatInteger s v.
Definition shl_unsigned (s : t) (v : Z) : res t := formatInteger s v.
Definition shl_short (s : t) (v : Z) : res t := shl_int s v.
Definition shl_ushort (s : t) (v : Z) : res t := shl_unsigned s v.
Definition shl_long (s : t) (v : Z) : res t := formatInteger s v.
Definition shl_ulong (s : t) (v : Z) : res t := formatInteger s v.
Definition shl_longlong (s : t) (v : Z) : res t := formatInteger s v.
Definition shl_ulonglong (s : t) (v : Z) : res t := formatInteger s v.

Definition shl_pointer (s : t) (v : Z) : res t :=
  if kMaxNumericSize <=? FixedBuffer.avail (buffer_ s) then
    b ← FixedBuffer.store (buffer_ s) 0 (bs "0x");
    text ← convertHex v;
    b ← FixedBuffer.store b 2 (text ++ [x00]);
    Ok (mk (FixedBuffer.add b (zlen text + 2)))
  else Ok s.

(** [snprintf(current(), 48, "%.12g", v)] with the full text [text]. *)
Definition shl_double (s : t) (text : list byte) : res t :=
  if kMaxNumericSize <=? FixedBuffer.avail (buffer_ s) then
    b ← FixedBuffer.store (buffer_ s) 0 (take (Z.to_nat (kMaxNumericSize - 1)) text ++ [x00]);
    Ok (mk (FixedBuffer.add b (zlen text)))
  else Ok s.

Definition shl_char (s : t) (v : byte) : res t := mk <$> FixedBuffer.append (buffer_ s) [v].
(** A C string without its NUL, or null. *)
Definition shl_cstr (s : t) (str : option (list byte)) : res t :=
  mk <$> FixedBuffer.append (buffer_ s) (match str with Some str => str | None => bs "(null)" end).
Definition shl_string (s : t) (v : list byte) : res t := mk <$> FixedBuffer.append (buffer_ s) v.

(** [append] of the piece's length converted to [size_t]: a negative one is
    never less than the space left. *)
Definition shl_piece (s : t) (v : StringPiece.t) : res t :=
  if u64 (StringPiece.size v) <? u64 (FixedBuffer.avail (buffer_ s)) then
    text ← StringPiece.as_string v;
    mk <$> FixedBuffer.append (buffer_ s) text
  else Ok s.
Definition shl_buffer (s : t) (v : FixedBuffer.t) : res t := shl_piece s (FixedBuffer.toStringPiece v).
Definition append (s : t) (data : option (list byte)) (len : Z) : res t := shl_piece s (StringPiece.StringPiece_len data len).
Definition resetBuffer (s : t) : t := mk (FixedBuffer.reset (buffer_ s)).

(** [Fmt]: [text] is the whole output of [snprintf]. *)
Record Fmt := mk_fmt { buf_ : list byte; length_ : Z }.
Definition Fmt_new (text : list byte) : res Fmt :=
  assert! (zlen text <? 32);
  Ok (mk_fmt (take 31 text ++ [x00]) (zlen text)).
Definition shl_fmt (s : t) (fmt : Fmt) : res t := append s (Some (buf_ fmt)) (length_ fmt).

(** ** Units *)

Local Abbreviation double := spec_float.
Definition ddiv : double -> double -> double := SFdiv 53 1024.
Definition dmul : double -> double -> double := SFmul 53 1024.
Definition dltb : double -> double -> bool := SFltb.
(** [static_cast<double>]: round to nearest, ties to even. *)
Definition double_of (z : Z) : double := binary_normalize 53 1024 z 0 false.
(** A literal [n / 10^k]: the quotient is rounded once, as the literal is. *)
Definition dec_literal (n k : Z) : double := ddiv (double_of n) (double_of (10 ^ k)).

(** [n / d] to the nearest integer, ties to even. *)
Definition round_even (n d : Z) : Z :=
  let q := n / d in
  let r := n mod d in
  if 2 * r <? d then q else if d <? 2 * r then q + 1 else if Z.even q then q else q + 1.

(** [printf("%.<p>f")] of a finite non-negative double. *)
Definition fmt_f (p : Z) (x : double) : list byte :=
  let q := match x with
           | S754_finite false m e => if e <? 0 then round_even (Zpos m * 10 ^ p) (2 ^ (- e)) else Zpos m * 2 ^ e * 10 ^ p
           | _ => 0
           end in
  if p =? 0 then dec q else dec (q / 10 ^ p) ++ bs "." ++ fmt_0 (Z.to_nat p) (q mod 10 ^ p).

Definition formatSI (s : Z) : list byte :=
  let n := double_of s in
  let show p unit_ e := snprintf 64 (fmt_f p (ddiv n (double_of (10 ^ e))) ++ bs unit_) in
  if s <? 1000 then snprintf 64 (dec s)
  else if s <? 9995 then show 2 "k"%string 3
  else if s <? 99950 then show 1 "k"%string 3
  else if s <? 999500 then show 0 "k"%string 3
  else if s <? 9995000 then show 2 "M"%string 6
  else if s <? 99950000 then show 1 "M"%string 6
  else if s <? 999500000 then show 0 "M"%string 6
  else if s <? 9995000000 then show 2 "G"%string 9
  else if s <? 99950000000 then show 1 "G"%string 9
  else if s <? 999500000000 then show 0 "G"%string 9
  else if s <? 9995000000000 then show 2 "T"%string 12
  else if s <? 99950000000000 then show 1 "T"%string 12
  else if s <? 999500000000000 then show 0 "T"%string 12
  else if s <? 9995000000000000 then show 2 "P"%string 15
  else if s <? 99950000000000000 then show 1 "P"%string 15
  else if s <? 999500000000000000 then show 0 "P"%string 15
  else show 2 "E"%string 18.

Definition formatIEC (s : Z) : list byte :=
  let n := double_of s in
  let Ki := double_of 1024 in
  let Mi := dmul Ki (double_of 1024) in
  let Gi := dmul Mi (double_of 1024) in
  let Ti := dmul Gi (double_of 1024) in
  let Pi := dmul Ti (double_of 1024) in
  let Ei := dmul Pi (double_of 1024) in
  let below u k := dltb n (dmul u k) in
  let c9995 := dec_literal 9995 3 in
  let c9995' := dec_literal 9995 2 in
  let c10235 := dec_literal 10235 1 in
  let show p unit_ u := snprintf 64 (fmt_f p (ddiv n u) ++ bs unit_) in
  if dltb n Ki then snprintf 64 (dec s)
  else if below Ki c9995 then show 2 "Ki"%string Ki
  else if below Ki c9995' then show 1 "Ki"%string Ki
  else if below Ki c10235 then show 0 "Ki"%string Ki
  else if below Mi c9995 then show 2 "Mi"%string Mi
  else if below Mi c9995' then show 1 "Mi"%string Mi
  else if below Mi c10235 then show 0 "Mi"%string Mi
  else if below Gi c9995 then show 2 "Gi"%string Gi
  else if below Gi c9995' then show 1 "Gi"%string Gi
  else if below Gi c10235 then show 0 "Gi"%string Gi
  else if below Ti c9995 then show 2 "Ti"%string Ti
  else if below Ti c9995' then show 1 "Ti"%string Ti
  else if below Ti c10235 then show 0 "Ti"%string Ti
  else if below Pi c9995 then show 2 "Pi"%string Pi
  else if below Pi c9995' then show 1 "Pi"%string Pi
  else if below Pi c10235 then show 0 "Pi"%string Pi
  else if below Ei c9995 then show 2 "Ei"%string Ei
  else show 1 "Ei"%string Ei.

(** ** The conversion prints the number *)

Lemma zero_at_digit lsd : -9 <= lsd <= 9 -> zero_at lsd = Ok (digit (Z.abs lsd)).
Proof.
  intros H. assert (lsd ∈ seqZ (-9) 19) as Hin by (apply elem_of_seqZ; lia). clear H.
  let l := eval vm_compute in (seqZ (-9) 19) in change (seqZ (-9) 19) with l in Hin.
  rewrite !elem_of_cons in Hin. destruct_or! Hin; [subst; reflexivity..|by apply elem_of_nil in Hin].
Qed.

Lemma convert_loop_spec fuel i :
  (0 < fuel)%nat -> Z.abs i < 10 ^ Z.of_nat fuel -> convert_loop fuel i = Ok (rev (dec_pos (Z.abs i))).
Proof.
  revert i. induction fuel as [|fuel IH]; intros i Hf Hi; [lia|]. cbn [convert_loop].
  assert (Z.abs (i `rem` 10) = Z.abs i mod 10 /\ Z.abs (i `quot` 10) = Z.abs i / 10) as [Hr Hq] by dlia.
  rewrite zero_at_digit by dlia. cbn [mbind res_bind]. rewrite Hr.
  rewrite Nat2Z.inj_succ, Z.pow_succ_r in Hi by lia.
  destruct (i `quot` 10 =? 0) eqn:E; cbn [negb]; zbool.
  - rewrite dec_pos_small by dlia. by rewrite Z.mod_small by dlia.
  - assert (10 <= Z.abs i) by dlia. rewrite (dec_pos_step (Z.abs i)) by done.
    destruct fuel as [|fuel]; [change (10 ^ Z.of_nat 0) with 1 in Hi; lia|].
    rewrite IH by (try lia; rewrite Hq; apply Z.div_lt_upper_bound; lia).
    cbn [mbind res_bind]. by rewrite Hq, rev_app_distr.
Qed.

(** Every value of the integer types. *)
Definition in_integer (v : Z) : Prop := - 2 ^ 63 <= v < 2 ^ 64.

Lemma convert_spec v : in_integer v -> convert v = Ok (dec v).
Proof.
  unfold in_integer. intros Hv. unfold convert, dec.
  rewrite convert_loop_spec by (try lia; change (Z.of_nat 64) with 64; lia). cbn [mbind res_bind].
  destruct (v <? 0) eqn:E; zbool.
  - rewrite rev_app_distr, rev_involutive, Z.abs_neq by lia. done.
  - by rewrite app_nil_r, rev_involutive, Z.abs_eq.
Qed.

Lemma length_dec v : in_integer v -> 1 <= zlen (dec v) <= 20.
Proof.
  unfold in_integer. intros Hv. unfold dec, zlen. case_match; zbool.
  - pose proof (length_dec_pos (- v) 19 ltac:(lia) ltac:(change (Z.of_nat 19) with 19; lia)). cbn [length]. lia.
  - pose proof (length_dec_pos v 20 ltac:(lia) ltac:(change (Z.of_nat 20) with 20; lia)). lia.
Qed.

(** The hexadecimal numeral of a number below 2^64, most significant digit first
    and without leading zeros, and the value of a numeral. *)
Definition hex_digit (d : Z) : byte := byte_of (if d <? 10 then 48 + d else 65 + (d - 10)).
Fixpoint hex_numeral (size : nat) (v : Z) : list byte :=
  match size with
  | O => []
  | S size => if v <? 16 then [hex_digit v] else hex_numeral size (v / 16) ++ [hex_digit (v mod 16)]
  end.
Definition hex (v : Z) : list byte := hex_numeral 16 v.

Definition hex_val (b : byte) : Z := if u8 b <? 58 then u8 b - 48 else u8 b - 65 + 10.
Definition unhex (l : list byte) : Z := foldl (fun n b => n * 16 + hex_val b) 0 l.

Lemma hex_val_digit d : 0 <= d < 16 -> hex_val (hex_digit d) = d.
Proof.
  intros Hd. unfold hex_val, hex_digit. rewrite u8_byte_of, Z.mod_small by (case_match; zbool; lia). repeat case_match; zbool; lia.
Qed.
Lemma hex_numeral_spec size v :
  (0 < size)%nat -> 0 <= v < 16 ^ Z.of_nat size -> unhex (hex_numeral size v) = v /\ (1 <= length (hex_numeral size v) <= size)%nat.
Proof.
  revert v. induction size as [|size IH]; intros v Hs Hv; [lia|]. cbn [hex_numeral]. rewrite Nat2Z.inj_succ, Z.pow_succ_r in Hv by lia.
  destruct (v <? 16) eqn:E; zbool; [unfold unhex; cbn; rewrite hex_val_digit by lia; lia|].
  destruct size as [|size]; [change (16 ^ Z.of_nat 0) with 1 in Hv; lia|].
  destruct (IH (v / 16)) as [Hu Hl]; [lia|split; [dlia|apply Z.div_lt_upper_bound; lia]|].
  rewrite length_app. unfold unhex in *. rewrite foldl_app, Hu. cbn [foldl length]. rewrite hex_val_digit by dlia. split; [dlia|lia].
Qed.

Lemma digitsHex_at d : 0 <= d < 16 -> digitsHex !! Z.to_nat d = Some (hex_digit d).
Proof.
  intros H. assert (d ∈ seqZ 0 16) as Hin by (apply elem_of_seqZ; lia). clear H.
  let l := eval vm_compute in (seqZ 0 16) in change (seqZ 0 16) with l in Hin.
  rewrite !elem_of_cons in Hin. destruct_or! Hin; [subst; reflexivity..|by apply elem_of_nil in Hin].
Qed.

Lemma convertHex_loop_spec fuel i :
  (0 < fuel)%nat -> 0 <= i < 16 ^ Z.of_nat fuel -> convertHex_loop fuel i = Ok (rev (hex_numeral fuel i)).
Proof.
  revert i. induction fuel as [|fuel IH]; intros i Hf Hi; [lia|]. cbn [convertHex_loop hex_numeral].
  rewrite digitsHex_at by dlia. cbn [mbind res_bind]. rewrite Nat2Z.inj_succ, Z.pow_succ_r in Hi by lia.
  destruct (i <? 16) eqn:E; zbool.
  - rewrite Z.mod_small, Z.div_small by lia. done.
  - replace (i / 16 =? 0) with false by (symmetry; apply Z.eqb_neq; dlia). cbn [negb].
    destruct fuel as [|fuel]; [change (16 ^ Z.of_nat 0) with 1 in Hi; lia|].
    rewrite IH; [|lia|split; [dlia|apply Z.div_lt_upper_bound; lia]]. cbn [mbind res_bind]. by rewrite rev_app_distr.
Qed.

Lemma convertHex_fuel f g i l : (f <= g)%nat -> convertHex_loop f i = Ok l -> convertHex_loop g i = Ok l.
Proof.
  revert g i l. induction f as [|f IH]; intros [|g] i l Hfg; cbn [convertHex_loop]; try done; [lia|].
  destruct (digitsHex !! _); cbn [mbind res_bind]; [|done]. case_match; [|done].
  destruct (convertHex_loop f (i / 16)) as [r|] eqn:E; cbn [mbind res_bind]; [|done].
  rewrite (IH g _ r) by (done || lia). done.
Qed.

Lemma hex_spec v : 0 <= v < 2 ^ 64 -> unhex (hex v) = v /\ 1 <= zlen (hex v) <= 16.
Proof.
  intros Hv. destruct (hex_numeral_spec 16 v) as [Hu Hl]; [lia|change (Z.of_nat 16) with 16; lia|]. unfold hex, zlen. split; [done|lia].
Qed.
Lemma convertHex_spec v : 0 <= v < 2 ^ 64 -> convertHex v = Ok (hex v).
Proof.
  intros Hv. unfold convertHex, hex. rewrite (convertHex_fuel 16 64 v (rev (hex_numeral 16 v))); [cbn; by rewrite rev_involutive|lia|].
  apply convertHex_loop_spec; [lia|change (Z.of_nat 16) with 16; lia].
Qed.

(** ** The stream appends what fits *)

Definition content (b : FixedBuffer.t) : list byte := take (Z.to_nat (FixedBuffer.cur_ b)) (FixedBuffer.data_ b).

Lemma avail_wf size b : FixedBuffer.wf size b ->
  FixedBuffer.avail b = size - FixedBuffer.cur_ b /\ u64 (FixedBuffer.avail b) = size - FixedBuffer.cur_ b /\
  zlen (content b) = FixedBuffer.cur_ b.
Proof.
  intros (Hs & Hc & Hm). unfold FixedBuffer.avail, content, int_max, zlen in *.
  rewrite i32_small by (unfold in_int, int_min, int_max; lia). rewrite u64_small by (unfold size_max; lia).
  rewrite length_take. lia.
Qed.

(** A store at [cur_] of [d], then [add n] with [n] inside [d]. *)
Lemma store_add size b d n :
  FixedBuffer.wf size b -> 0 <= n <= zlen d -> n < size - FixedBuffer.cur_ b -> zlen d <= size - FixedBuffer.cur_ b ->
  exists b', FixedBuffer.store b 0 d = Ok b' /\ FixedBuffer.wf size (FixedBuffer.add b' n) /\
    content (FixedBuffer.add b' n) = content b ++ take (Z.to_nat n) d.
Proof.
  intros (Hs & Hc & Hm) Hn Hr Hd. unfold FixedBuffer.store. rewrite Z.add_0_r. case_match; zbool; [|lia].
  eexists; split; [done|]. unfold FixedBuffer.add. split.
  - repeat split; cbn; [|lia..|done]. by rewrite zlen_blit by lia.
  - unfold content. cbn. unfold blit. rewrite Z2Nat.inj_add by lia.
    unfold zlen in *. rewrite take_app_add' by (rewrite length_take; lia). f_equal.
    by rewrite take_app_le by lia.
Qed.

Lemma append_spec size b d : FixedBuffer.wf size b ->
  exists b', FixedBuffer.append b d = Ok b' /\ FixedBuffer.wf size b' /\
    content b' = if zlen d <? size - FixedBuffer.cur_ b then content b ++ d else content b.
Proof.
  intros Hw. destruct (avail_wf _ _ Hw) as (_ & Hu & _). unfold FixedBuffer.append. rewrite Hu. case_match; zbool; [|by eauto].
  destruct (store_add size b d (zlen d) Hw) as (b' & -> & ? & E); [pose proof (zlen_nonneg d); lia..|].
  cbn [mbind res_bind]. eexists; split_and!; [done|done|]. rewrite E. unfold zlen. by rewrite Nat2Z.id, firstn_all.
Qed.

(** What a program writes to a stream. *)
Inductive item :=
  | IBool (v : bool)
  | IInteger (v : Z)
  | IPointer (v : Z)
  | IDouble (text : list byte)
  | IChar (c : byte)
  | ICStr (str : option (list byte))
  | IString (v : list byte)
  | IPiece (v : StringPiece.t)
  | IBuffer (v : FixedBuffer.t)
  | IFmt (text : list byte).

Definition shl (s : t) (i : item) : res t :=
  match i with
  | IBool v => shl_bool s v
  | IInteger v => formatInteger s v
  | IPointer v => shl_pointer s v
  | IDouble text => shl_double s text
  | IChar c => shl_char s c
  | ICStr str => shl_cstr s str
  | IString v => shl_string s v
  | IPiece v => shl_piece s v
  | IBuffer v => shl_buffer s v
  | IFmt text => f ← Fmt_new text; shl_fmt s f
  end.

Fixpoint shl_all (s : t) (l : list item) : res t :=
  match l with [] => Ok s | i :: l => s ← shl s i; shl_all s l end.

(** The specification of an item: its text, and the space it asks for. *)
Inductive shows : item -> Z -> list byte -> Prop :=
  | show_bool v : shows (IBool v) 2 (if v then bs "1" else bs "0")
  | show_integer v : in_integer v -> shows (IInteger v) kMaxNumericSize (dec v)
  | show_pointer v : 0 <= v < 2 ^ 64 -> shows (IPointer v) kMaxNumericSize (bs "0x" ++ hex v)
  | show_double text : zlen text < kMaxNumericSize -> shows (IDouble text) kMaxNumericSize text
  | show_char c : shows (IChar c) 2 [c]
  | show_cstr str : shows (ICStr (Some str)) (zlen str + 1) str
  | show_null : shows (ICStr None) 7 (bs "(null)")
  | show_string v : shows (IString v) (zlen v + 1) v
  | show_piece v text : StringPiece.denotes v text -> zlen text <= int_max -> shows (IPiece v) (zlen text + 1) text
  | show_buffer v size : FixedBuffer.wf size v -> shows (IBuffer v) (zlen (content v) + 1) (content v)
  | show_fmt text : zlen text < 32 -> shows (IFmt text) (zlen text + 1) text.

(** The abstract stream: a text of fewer than [kSmallBuffer] bytes; an item is
    written whole when the space it asks for is left, and dropped otherwise. *)
Definition write (text : list byte) (room : Z) (d : list byte) : list byte :=
  if room <=? kSmallBuffer - zlen text then text ++ d else text.

Definition stream_wf (s : t) : Prop := FixedBuffer.wf kSmallBuffer (buffer_ s).

Lemma fmap_append s d :
  stream_wf s -> exists s', mk <$> FixedBuffer.append (buffer_ s) d = Ok s' /\ stream_wf s' /\
    content (buffer_ s') = write (content (buffer_ s)) (zlen d + 1) d.
Proof.
  intros Hw. destruct (append_spec _ _ d Hw) as (b & -> & Hb & E). exists (mk b). split_and!; [done|done|]. cbn [buffer_].
  rewrite E. unfold write. destruct (avail_wf _ _ Hw) as (_ & _ & ->). repeat case_match; zbool; done || lia.
Qed.

Lemma shl_piece_spec s v text :
  stream_wf s -> StringPiece.denotes v text -> zlen text <= int_max -> exists s', shl_piece s v = Ok s' /\ stream_wf s' /\
    content (buffer_ s') = write (content (buffer_ s)) (zlen text + 1) text.
Proof.
  intros Hw Hd Hm. unfold shl_piece, StringPiece.size. rewrite (proj1 Hd).
  destruct (avail_wf _ _ Hw) as (_ & -> & Hc). rewrite u64_small by (pose proof (zlen_nonneg text); unfold size_max, int_max in *; lia).
  case_match; zbool.
  - rewrite (StringPiece.denotes_text _ _ Hd). cbn [mbind res_bind]. by apply fmap_append.
  - exists s. split_and!; [done|done|]. unfold write. rewrite Hc. case_match; zbool; [lia|done].
Qed.

Lemma content_piece size v : FixedBuffer.wf size v -> StringPiece.denotes (FixedBuffer.toStringPiece v) (content v) /\ zlen (content v) <= int_max.
Proof.
  intros Hw. destruct (avail_wf _ _ Hw) as (_ & _ & Hc), Hw as (? & ? & ?). rewrite Hc. split; [|lia]. split.
  - unfold FixedBuffer.toStringPiece, FixedBuffer.length. cbn. rewrite Hc. apply i32_small. unfold in_int, int_min. lia.
  - cbn. exists (drop (Z.to_nat (FixedBuffer.cur_ v)) (FixedBuffer.data_ v)). unfold content. by rewrite take_drop.
Qed.

(** Numbers: the text and its NUL are stored, and the text is kept. *)
Lemma numeric_spec s text d (k : res FixedBuffer.t) :
  stream_wf s -> zlen text < kMaxNumericSize -> d = text ++ [x00] -> k = FixedBuffer.store (buffer_ s) 0 d ->
  exists s', (if kMaxNumericSize <=? FixedBuffer.avail (buffer_ s) then b ← k; Ok (mk (FixedBuffer.add b (zlen text))) else Ok s) = Ok s' /\
    stream_wf s' /\ content (buffer_ s') = write (content (buffer_ s)) kMaxNumericSize text.
Proof.
  intros Hw Ht -> ->. destruct (avail_wf _ _ Hw) as (Ha & _ & Hc). unfold write. rewrite Ha, Hc. case_match; zbool; [|by eauto].
  pose proof (zlen_nonneg text). unfold kMaxNumericSize in *.
  destruct (store_add _ (buffer_ s) (text ++ [x00]) (zlen text) Hw) as (b & -> & Hb & E);
    [rewrite ?zlen_app; unfold zlen in *; cbn [length]; lia..|].
  cbn [mbind res_bind]. eexists; split_and!; [done|done|]. cbn [buffer_]. rewrite E. unfold zlen.
  by rewrite Nat2Z.id, take_app_length.
Qed.

Lemma blit_blit (l : list byte) i a b :
  0 <= i -> i + zlen a + zlen b <= zlen l -> blit (blit l i a) (i + zlen a) b = blit l i (a ++ b).
Proof.
  unfold blit, zlen. intros Hi Hl. rewrite Z2Nat.inj_add, Nat2Z.id by lia.
  assert (length (take (Z.to_nat i) l ++ a) = (Z.to_nat i + length a)%nat) as E by (rewrite length_app, length_take; lia).
  rewrite (app_assoc _ a), take_app_length' by done. rewrite drop_app_ge by lia.
  rewrite drop_drop, E, length_app, <- !app_assoc. do 4 f_equal. lia.
Qed.

Lemma store_store b a d off :
  off = zlen a -> 0 <= FixedBuffer.cur_ b -> FixedBuffer.cur_ b + zlen a + zlen d <= zlen (FixedBuffer.data_ b) ->
  (b1 ← FixedBuffer.store b 0 a; FixedBuffer.store b1 off d) = FixedBuffer.store b 0 (a ++ d).
Proof.
  intros -> Hc Hl. pose proof (zlen_nonneg a). pose proof (zlen_nonneg d). unfold FixedBuffer.store.
  rewrite Z.add_0_r, zlen_app. case_match; zbool; [|lia]. cbn [mbind res_bind FixedBuffer.cur_ FixedBuffer.data_].
  rewrite zlen_blit by lia. repeat case_match; zbool; try lia. by rewrite blit_blit by lia.
Qed.

Lemma shl_pointer_spec s v :
  stream_wf s -> 0 <= v < 2 ^ 64 -> exists s', shl_pointer s v = Ok s' /\ stream_wf s' /\
    content (buffer_ s') = write (content (buffer_ s)) kMaxNumericSize (bs "0x" ++ hex v).
Proof.
  intros Hw Hv. pose proof (convertHex_spec v Hv) as Hh. destruct (hex_spec v Hv) as [_ Hl]. set (h := hex v) in *.
  assert (zlen (bs "0x" ++ h) = zlen h + 2) as E by (rewrite zlen_app; change (zlen (bs "0x")) with 2; lia).
  destruct (numeric_spec s (bs "0x" ++ h) _ _ Hw ltac:(rewrite E; unfold kMaxNumericSize; lia) eq_refl eq_refl) as (s' & Hs' & Hw' & Hc').
  exists s'. split_and!; [|done..]. rewrite <- Hs'. unfold shl_pointer.
  destruct (avail_wf _ _ Hw) as (Ha & _), (Hw) as (Hsz & Hc & _). destruct (kMaxNumericSize <=? _) eqn:Ek; [|done]. zbool.
  rewrite E, <- app_assoc, <- (store_store _ _ _ 2) by (rewrite ?zlen_app; change (zlen (bs "0x")) with 2;
    change (zlen [x00]) with 1; unfold kMaxNumericSize in *; lia).
  destruct (FixedBuffer.store (buffer_ s) 0 (bs "0x")); cbn [mbind res_bind]; [|done]. by rewrite Hh.
Qed.

Lemma shl_spec s i room text :
  stream_wf s -> shows i room text -> exists s', shl s i = Ok s' /\ stream_wf s' /\
    content (buffer_ s') = write (content (buffer_ s)) room text.
Proof.
  intros Hw Hi. destruct Hi; cbn [shl].
  - unfold shl_bool. destruct v; apply fmap_append, Hw.
  - unfold formatInteger. rewrite convert_spec by done. cbn [mbind res_bind]. pose proof (length_dec v H).
    by eapply numeric_spec; [|unfold kMaxNumericSize; lia|..].
  - by apply shl_pointer_spec.
  - unfold shl_double. unfold zlen, kMaxNumericSize in H. rewrite take_ge by (change (Z.to_nat (kMaxNumericSize - 1)) with 47%nat; lia).
    by eapply numeric_spec.
  - apply fmap_append, Hw.
  - apply fmap_append, Hw.
  - apply (fmap_append _ (bs "(null)")), Hw.
  - apply fmap_append, Hw.
  - by apply shl_piece_spec.
  - destruct (content_piece _ _ H). by apply shl_piece_spec.
  - unfold Fmt_new. rewrite assert_true by by apply Z.ltb_lt. cbn [mbind res_bind]. unfold zlen in H.
    rewrite take_ge by lia. apply shl_piece_spec; [done| |unfold zlen, int_max; lia]. split; [done|]. cbn. by eexists.
Qed.

(** What a sequence of items leaves. *)
Lemma shl_all_spec s l texts :
  stream_wf s -> Forall2 (fun i '(room, text) => shows i room text) l texts ->
  exists s', shl_all s l = Ok s' /\ stream_wf s' /\
    content (buffer_ s') = foldl (fun acc '(room, text) => write acc room text) (content (buffer_ s)) texts.
Proof.
  intros Hw Hl. revert s Hw. induction Hl as [|i [room text] l texts Hi _ IH]; intros s Hw; cbn [shl_all foldl]; [by eauto|].
  destruct (shl_spec _ _ _ _ Hw Hi) as (s1 & -> & Hw1 & E1). cbn [mbind res_bind].
  destruct (IH s1 Hw1) as (s2 & -> & Hw2 & E2). exists s2. split_and!; [done|done|]. by rewrite E2, E1.
Qed.

(** Nothing is dropped while the buffer has room for a number more. *)
Lemma write_all acc (texts : list (Z * list byte)) :
  Forall (fun p => p.1 <= zlen p.2 + kMaxNumericSize) texts ->
  zlen acc + zlen (concat (map snd texts)) + kMaxNumericSize <= kSmallBuffer ->
  foldl (fun acc '(room, text) => write acc room text) acc texts = acc ++ concat (map snd texts).
Proof.
  intros H. revert acc. induction H as [|[room text] texts Hr _ IH]; intros acc Hl; cbn in *; [by rewrite app_nil_r|].
  unfold write. rewrite zlen_app in Hl. pose proof (zlen_nonneg (concat (map snd texts))).
  rewrite (proj2 (Z.leb_le _ _)) by lia. rewrite IH by (rewrite zlen_app; lia). by rewrite <- app_assoc.
Qed.

(** The text of a stream. *)
Lemma stream_text s : stream_wf s -> FixedBuffer.toString (buffer_ s) = content (buffer_ s).
Proof.
  intros (_ & Hcur & _). unfold FixedBuffer.toString, FixedBuffer.length, content.
  by rewrite i32_small by (unfold in_int, int_min, int_max, kSmallBuffer in *; lia).
Qed.

(** C36: streaming any sequence of items into a [LogStream] never stores
    outside its buffer; the buffer's text is the concatenation of the printed
    items, each written whole while the space it asks for is left and dropped
    otherwise; integers print as [dec], in decimal, and pointers as [hex], in
    hexadecimal, after 0x. *)
Theorem stream_refines s l texts :
  stream_wf s -> Forall2 (fun i '(room, text) => shows i room text) l texts ->
  exists s', shl_all s l = Ok s' /\ stream_wf s' /\
    content (buffer_ s') = foldl (fun acc '(room, text) => write acc room text) (content (buffer_ s)) texts.
Proof. exact (shl_all_spec s l texts). Qed.

Lemma stream_refines_witness :
  let s := mk (FixedBuffer.new (replicate 4000 x00)) in
  exists s', shl_all s [IInteger (-42); IChar x20; IPointer 255; ICStr None] = Ok s' /\
    FixedBuffer.toString (buffer_ s') = bs "-42 0xFF(null)".
Proof.
  cbn zeta. destruct (stream_refines (mk (FixedBuffer.new (replicate 4000 x00))) [IInteger (-42); IChar x20; IPointer 255; ICStr None]
    [(kMaxNumericSize, dec (-42)); (2, [x20]); (kMaxNumericSize, bs "0x" ++ hex 255); (7, bs "(null)")]) as (s' & E & Hw & Hc).
  - repeat split; by vm_compute.
  - repeat constructor; done.
  - exists s'. split; [exact E|]. rewrite stream_text by exact Hw. exact Hc.
Defined.

(** [formatSI] can print six characters where its comments promise five:
    the quantity is rounded up to the next double before it is printed. *)
Example formatSI_six : formatSI 99949999999999999 = bs "100.0P" /\
  formatSI 9994 = bs "9.99k" /\ formatSI 99949 = bs "99.9k" /\ formatSI 999499999999 = bs "999G".
Proof. vm_compute. repeat split. Qed.

End LogStream.
