(* ===== verification/StdMap.v ===== *)
(** Ordered containers: [std::map] and [std::set] over a strict order on keys,
    as the sorted sequence an iterator visits.

    The interface [StrictOrder] is what the containers ask of a key's
    [operator<]; its instances are the key types of the program. *)

From S2P Require Import Prelude StringPiece.

(** A decidable strict total order. *)
Class StrictOrder (K : Type) := {
  ltb : K -> K -> bool;
  ltb_irrefl x : ltb x x = false;
  ltb_trans x y z : ltb x y = true -> ltb y z = true -> ltb x z = true;
  ltb_total x y : ltb x y = false -> ltb y x = false -> x = y;
}.

#[export] Program Instance Z_order : StrictOrder Z := {| ltb := Z.ltb |}.
Next Obligation. apply Z.ltb_irrefl. Qed.
Next Obligation. cbn. intros. zbool. lia. Qed.
Next Obligation. cbn. intros. zbool. lia. Qed.

(** [std::pair]: the first component, then the second. *)
#[export] Program Instance pair_order {A B} `{StrictOrder A, StrictOrder B} : StrictOrder (A * B) :=
  {| ltb p q := ltb p.1 q.1 || (negb (ltb q.1 p.1) && ltb p.2 q.2) |}.
Next Obligation. intros. cbn. by rewrite !ltb_irrefl. Qed.
Next Obligation.
  intros A B ? ? [a1 b1] [a2 b2] [a3 b3]; cbn. zbool. intros H1 H2.
  destruct H1 as [H1|[H1 K1]], H2 as [H2|[H2 K2]].
  - left. by eapply ltb_trans.
  - destruct (ltb a2 a3) eqn:E; [left; by eapply ltb_trans|]. rewrite <- (ltb_total a2 a3) by done. by left.
  - destruct (ltb a1 a2) eqn:E; [left; by eapply ltb_trans|]. rewrite (ltb_total a1 a2) by done. by left.
  - destruct (ltb a1 a2) eqn:E1; [|rewrite (ltb_total a1 a2) by done].
    + left. destruct (ltb a2 a3) eqn:E2; [by eapply ltb_trans|]. by rewrite <- (ltb_total a2 a3).
    + right. split; [done|]. by eapply ltb_trans.
Qed.
Next Obligation.
  intros A B ? ? [a1 b1] [a2 b2]; cbn. zbool. intros [H1 H2] [H3 H4].
  rewrite H1, H3 in *. destruct H2 as [|H2]; [done|]. destruct H4 as [|H4]; [done|].
  f_equal; by apply ltb_total.
Qed.

(** [std::string]: lexicographic by unsigned bytes. *)
Lemma lex_trans l k m : StringPiece.lex l k < 0 -> StringPiece.lex k m < 0 -> StringPiece.lex l m < 0.
Proof.
  revert k m. induction l as [|a l IH]; intros [|b k] [|c m]; cbn; try lia.
  repeat case_match; zbool; try lia. apply IH.
Qed.

Lemma lex_antisym l k : StringPiece.lex k l = - StringPiece.lex l k.
Proof. revert k. induction l as [|a l IH]; intros [|b k]; cbn; try done. repeat case_match; zbool; done || lia || apply IH. Qed.

#[export] Program Instance string_order : StrictOrder (list byte) := {| ltb l k := StringPiece.lex l k <? 0 |}.
Next Obligation. intros. cbn. rewrite (proj2 (StringPiece.lex_eq _ _)) by done. done. Qed.
Next Obligation. cbn. intros. zbool. by eapply lex_trans. Qed.
Next Obligation. cbn. intros x y H1 H2. zbool. rewrite lex_antisym in H2. apply StringPiece.lex_eq. lia. Qed.

Module StdMap.
Section Map.
Context {K V : Type} `{StrictOrder K}.

(** [m.find(k)]; [end()] is [None]. *)
Fixpoint find (k : K) (m : list (K * V)) : option V :=
  match m with
  | [] => None
  | (k', v) :: m => if ltb k' k then find k m else if ltb k k' then None else Some v
  end.

(** [m[k] = v] *)
Fixpoint set (k : K) (v : V) (m : list (K * V)) : list (K * V) :=
  match m with
  | [] => [(k, v)]
  | (k', v') :: m =>
      if ltb k' k then (k', v') :: set k v m else if ltb k k' then (k, v) :: (k', v') :: m else (k, v) :: m
  end.

(** [m.erase(k)] *)
Fixpoint erase (k : K) (m : list (K * V)) : list (K * V) :=
  match m with
  | [] => []
  | (k', v') :: m => if ltb k' k then (k', v') :: erase k m else if ltb k k' then (k', v') :: m else m
  end.

(** [m.lower_bound(k)]: the entries before it, and those from it on. *)
Fixpoint lower_bound (k : K) (m : list (K * V)) : list (K * V) * list (K * V) :=
  match m with
  | [] => ([], [])
  | (k', v') :: m' => if ltb k' k then let '(a, b) := lower_bound k m' in ((k', v') :: a, b) else ([], m)
  end.

Definition below (k : K) (m : list (K * V)) : Prop := Forall (fun p => ltb k p.1 = true) m.

Inductive sorted : list (K * V) -> Prop :=
  | sorted_nil : sorted []
  | sorted_cons k v m : below k m -> sorted m -> sorted ((k, v) :: m).

Lemma below_trans k k' m : ltb k k' = true -> below k' m -> below k m.
Proof. intros Hk Hm. eapply Forall_impl; [exact Hm|]. cbn. intros. by eapply ltb_trans. Qed.

Lemma below_set k k' v m : ltb k k' = true -> below k m -> below k (set k' v m).
Proof.
  intros Hk. induction 1 as [|[k1 v1] m H1 Hm IH]; cbn; [by repeat constructor|].
  repeat case_match; repeat (apply Forall_cons_2; [done|]); done.
Qed.

Lemma below_erase k k' m : below k m -> below k (erase k' m).
Proof. induction 1 as [|[k1 v1] m H1 Hm IH]; cbn; [constructor|].
  repeat case_match; try done; by apply Forall_cons_2. Qed.

Lemma set_sorted k v m : sorted m -> sorted (set k v m).
Proof.
  induction 1 as [|k' v' m Hb Hm IH]; cbn; [by repeat constructor|].
  destruct (ltb k' k) eqn:E1; [constructor; [by apply below_set|done]|].
  destruct (ltb k k') eqn:E2.
  - constructor; [|by constructor]. constructor; [done|by eapply below_trans].
  - rewrite <- (ltb_total k' k) by done. by constructor.
Qed.

Lemma erase_sorted k m : sorted m -> sorted (erase k m).
Proof.
  induction 1 as [|k' v' m Hb Hm IH]; cbn; [constructor|].
  repeat case_match; try constructor; try done. by apply below_erase.
Qed.

Lemma find_below k m : below k m -> find k m = None.
Proof.
  destruct 1 as [|[k1 v1] m H1 Hm]; cbn; [done|]. cbn in H1. rewrite H1.
  destruct (ltb k1 k) eqn:E; [|done]. pose proof (ltb_trans _ _ _ H1 E) as F. by rewrite ltb_irrefl in F.
Qed.

Lemma find_set_eq k v m : find k (set k v m) = Some v.
Proof.
  induction m as [|[k' v'] m IH]; cbn; [by rewrite !ltb_irrefl|].
  destruct (ltb k' k) eqn:E1; cbn; [by rewrite E1|].
  destruct (ltb k k') eqn:E2; cbn; by rewrite !ltb_irrefl.
Qed.

Lemma find_set_ne k k' v m : k <> k' -> sorted m -> find k (set k' v m) = find k m.
Proof.
  intros Hne. induction 1 as [|k1 v1 m Hb Hm IH]; cbn.
  - destruct (ltb k' k) eqn:E1; [done|]. destruct (ltb k k') eqn:E2; [done|]. by rewrite (ltb_total k' k) in Hne.
  - destruct (ltb k1 k') eqn:E1; cbn; [by rewrite IH|].
    destruct (ltb k' k1) eqn:E2; cbn.
    + destruct (ltb k' k) eqn:E3; [done|]. destruct (ltb k k') eqn:E4.
      * rewrite (ltb_trans _ _ _ E4 E2). destruct (ltb k1 k) eqn:E5; [|done].
        pose proof (ltb_trans _ _ _ E5 E4) as F. congruence.
      * by rewrite (ltb_total k' k) in Hne.
    + assert (k1 = k') as -> by by apply ltb_total.
      destruct (ltb k' k) eqn:E3; [done|]. destruct (ltb k k') eqn:E4; [done|]. by rewrite (ltb_total k' k) in Hne.
Qed.

Lemma find_erase_eq k m : sorted m -> find k (erase k m) = None.
Proof.
  induction 1 as [|k1 v1 m Hb Hm IH]; cbn; [done|].
  destruct (ltb k1 k) eqn:E1; cbn; [by rewrite E1|].
  destruct (ltb k k1) eqn:E2; cbn; [by rewrite E1, E2|].
  apply find_below. by rewrite <- (ltb_total k1 k).
Qed.

Lemma find_erase_ne k k' m : k <> k' -> sorted m -> find k (erase k' m) = find k m.
Proof.
  intros Hne. induction 1 as [|k1 v1 m Hb Hm IH]; cbn; [done|].
  destruct (ltb k1 k') eqn:E1; cbn; [by rewrite IH|].
  destruct (ltb k' k1) eqn:E2; cbn; [done|].
  assert (k1 = k') as -> by by apply ltb_total.
  destruct (ltb k' k) eqn:E3; [done|]. destruct (ltb k k') eqn:E4; [apply find_below; by eapply below_trans|].
  by rewrite (ltb_total k' k) in Hne.
Qed.

(** A key that was not there leaves no trace. *)
Lemma erase_set k v m : find k m = None -> erase k (set k v m) = m.
Proof.
  induction m as [|[k' v'] m IH]; cbn; [by rewrite ltb_irrefl|].
  destruct (ltb k' k) eqn:E1; cbn; [intros Hf; by rewrite E1, IH|].
  destruct (ltb k k') eqn:E2; cbn; [by rewrite ltb_irrefl|done].
Qed.

Lemma find_elem k v m : sorted m -> find k m = Some v <-> (k, v) ∈ m.
Proof.
  induction 1 as [|k1 v1 m Hb Hm IH]; cbn; [split; [done|by intros ?%elem_of_nil]|].
  rewrite elem_of_cons. destruct (ltb k1 k) eqn:E1.
  - rewrite IH. split; [by right|]. intros [[= -> ->]|?]; [by rewrite ltb_irrefl in E1|done].
  - destruct (ltb k k1) eqn:E2.
    + split; [done|]. intros [[= -> ->]|Hin]; [by rewrite ltb_irrefl in E2|].
      eapply Forall_forall in Hb; [|exact Hin]. cbn in Hb. congruence.
    + rewrite (ltb_total k1 k) by done. split; [intros [= ->]; by left|]. intros [[= ->]|Hin]; [done|].
      eapply Forall_forall in Hb; [|exact Hin]. cbn in Hb. congruence.
Qed.

Lemma lower_bound_app k m : (lower_bound k m).1 ++ (lower_bound k m).2 = m.
Proof.
  induction m as [|[k' v'] m IH]; cbn; [done|]. case_match; [|done].
  destruct (lower_bound k m) as [a b] eqn:E. cbn in *. by rewrite IH.
Qed.

Lemma lower_bound_before k m : Forall (fun p => ltb p.1 k = true) (lower_bound k m).1.
Proof.
  induction m as [|[k' v'] m IH]; cbn; [constructor|]. destruct (ltb k' k) eqn:E; [|constructor].
  destruct (lower_bound k m) as [a b]. by constructor.
Qed.

Lemma lower_bound_after k m : sorted m -> Forall (fun p => ltb p.1 k = false) (lower_bound k m).2.
Proof.
  induction 1 as [|k' v' m Hb Hm IH]; cbn; [constructor|]. destruct (ltb k' k) eqn:E.
  - by destruct (lower_bound k m) as [a b].
  - constructor; [done|]. eapply Forall_impl; [exact Hb|]. cbn. intros [k1 v1] H1. cbn in *.
    destruct (ltb k1 k) eqn:E1; [|done]. rewrite (ltb_trans _ _ _ H1 E1) in E. done.
Qed.

Lemma set_perm k v m : find k m = None -> set k v m ≡ₚ (k, v) :: m.
Proof.
  induction m as [|[k' v'] m IH]; cbn; [done|]. destruct (ltb k' k) eqn:E1.
  - intros Hf. rewrite (IH Hf). apply perm_swap.
  - by destruct (ltb k k').
Qed.

Lemma erase_perm k v m : find k m = Some v -> (k, v) :: erase k m ≡ₚ m.
Proof.
  induction m as [|[k' v'] m IH]; cbn; [done|]. destruct (ltb k' k) eqn:E1.
  - intros Hf. rewrite perm_swap. by rewrite (IH Hf).
  - destruct (ltb k k') eqn:E2; [done|]. intros [= ->]. by rewrite (ltb_total k' k).
Qed.

Lemma sorted_app a b : sorted a -> sorted b -> (forall p q, p ∈ a -> q ∈ b -> ltb p.1 q.1 = true) -> sorted (a ++ b).
Proof.
  intros Ha Hb. induction Ha as [|k v m Hk Hm IH]; intros Hlt; cbn; [done|]. constructor.
  - apply Forall_app. split; [done|]. apply Forall_forall. intros q Hq. apply (Hlt (k, v) q); [by left|done].
  - apply IH. intros p q Hp Hq. apply Hlt; [by right|done].
Qed.
Lemma sorted_app_r a b : sorted (a ++ b) -> sorted b.
Proof. induction a as [|[k v] a IH]; cbn; [done|]. inversion 1; subst. by apply IH. Qed.

Lemma sorted_head k v m p : sorted ((k, v) :: m) -> p ∈ m -> ltb k p.1 = true.
Proof. inversion 1 as [|? ? ? Hb]; subst. intros Hp. by eapply Forall_forall in Hb. Qed.

End Map.

(** Sets are maps to [unit]. *)
Lemma find_key {K} `{StrictOrder K} (k : K) (m : list (K * unit)) : sorted m -> find k m = Some tt <-> k ∈ map fst m.
Proof.
  intros Hs. rewrite (find_elem k tt m Hs), list_elem_of_fmap. split; [intros; by exists (k, tt)|].
  by intros ([k' []] & -> & ?).
Qed.

Lemma find_no_key {K} `{StrictOrder K} (k : K) (m : list (K * unit)) : sorted m -> find k m = None <-> k ∉ map fst m.
Proof.
  intros Hs. rewrite <- (find_key k m Hs). destruct (find k m) as [[]|]; naive_solver.
Qed.

End StdMap.
