(* ===== verification/Http.v ===== *)
(** The HTTP server (src/networking/http/): requests, the incremental request
    parser over a [Buffer], responses, and the two callbacks of [HttpServer].

    A [const char *] pair into the buffer is the text between the two pointers.
    The parsing loop runs on fuel; [parse_fuel] below is enough for every
    buffer, and the states in which the loop of the code spins are shown to
    spin. *)

From S2P Require Import Prelude Printf Timestamp StringPiece StdMap Buffer.

Module HttpRequest.

Inductive Method := kInvalid | kGet | kPost | kHead | kPut | kDelete.
Inductive Version := kUnknown | kHttp10 | kHttp11.

#[global] Instance Method_eq_dec : EqDecision Method.
Proof. solve_decision. Defined.
#[global] Instance Version_eq_dec : EqDecision Version.
Proof. solve_decision. Defined.

Record t := mk {
  method_ : Method;
  version_ : Version;
  path_ : list byte;
  query_ : list byte;
  receiveTime_ : Timestamp.t;
  headers_ : list (list byte * list byte);
}.

Definition new : t := mk kInvalid kUnknown [] [] Timestamp.invalid [].

Definition setVersion (r : t) (v : Version) : t :=
  mk (method_ r) v (path_ r) (query_ r) (receiveTime_ r) (headers_ r).

Definition method_of (m : list byte) : Method :=
  if bool_decide (m = bs "GET") then kGet
  else if bool_decide (m = bs "POST") then kPost
  else if bool_decide (m = bs "HEAD") then kHead
  else if bool_decide (m = bs "PUT") then kPut
  else if bool_decide (m = bs "DELETE") then kDelete
  else kInvalid.

Definition setMethod (r : t) (m : list byte) : res (t * bool) :=
  assert! bool_decide (method_ r = kInvalid);
  let m := method_of m in
  Ok (mk m (version_ r) (path_ r) (query_ r) (receiveTime_ r) (headers_ r), negb (bool_decide (m = kInvalid))).

Definition methodString (r : t) : list byte :=
  match method_ r with
  | kGet => bs "GET"
  | kPost => bs "POST"
  | kHead => bs "HEAD"
  | kPut => bs "PUT"
  | kDelete => bs "DELETE"
  | kInvalid => bs "UNKNOWN"
  end.

Definition setPath (r : t) (p : list byte) : t :=
  mk (method_ r) (version_ r) p (query_ r) (receiveTime_ r) (headers_ r).
Definition setQuery (r : t) (q : list byte) : t :=
  mk (method_ r) (version_ r) (path_ r) q (receiveTime_ r) (headers_ r).
Definition setReceiveTime (r : t) (ts : Timestamp.t) : t :=
  mk (method_ r) (version_ r) (path_ r) (query_ r) ts (headers_ r).

(** [isspace] in the C locale. *)
Definition isspace (b : byte) : bool := (u8 b =? 32) || ((9 <=? u8 b) && (u8 b <=? 13)).

Fixpoint skip_space (l : list byte) : list byte :=
  match l with [] => [] | b :: l' => if isspace b then skip_space l' else l end.
(** [resize(size() - 1)] while the last byte is a space. *)
Definition trim_right (l : list byte) : list byte := rev (skip_space (rev l)).

(** [line] is the text from [start] to [end], [colon] an offset in it. *)
Definition addHeader (r : t) (line : list byte) (colon : nat) : t :=
  let field := take colon line in
  let value := trim_right (skip_space (drop (S colon) line)) in
  mk (method_ r) (version_ r) (path_ r) (query_ r) (receiveTime_ r) (StdMap.set field value (headers_ r)).

Definition getHeader (r : t) (field : list byte) : list byte :=
  match StdMap.find field (headers_ r) with Some v => v | None => [] end.

Definition swap (this that : t) : t * t :=
  (mk (method_ that) (version_ that) (path_ that) (query_ that) (receiveTime_ that) (headers_ that),
   mk (method_ this) (version_ this) (path_ this) (query_ this) (receiveTime_ this) (headers_ this)).

End HttpRequest.

Module HttpContext.
Import HttpRequest.

Inductive HttpRequestParseState := kExpectRequestLine | kExpectHeaders | kExpectBody | kGotAll.

#[global] Instance state_eq_dec : EqDecision HttpRequestParseState.
Proof. solve_decision. Defined.

Record t := mk { state_ : HttpRequestParseState; request_ : HttpRequest.t }.

Definition new : t := mk kExpectRequestLine HttpRequest.new.
Definition gotAll (c : t) : bool := bool_decide (state_ c = kGotAll).
Definition reset (c : t) : t := mk kExpectRequestLine (HttpRequest.swap (request_ c) HttpRequest.new).1.

Definition processRequestLine (r : HttpRequest.t) (line : list byte) : res (HttpRequest.t * bool) :=
  let space := find_idx (is_char x20) line in
  if bool_decide (space = length line) then Ok (r, false)
  else
    '(r, known) ← setMethod r (take space line);
    if negb known then Ok (r, false)
    else
      let rest := drop (S space) line in
      let space := find_idx (is_char x20) rest in
      if bool_decide (space = length rest) then Ok (r, false)
      else
        let target := take space rest in
        let question := find_idx (is_char x3f) target in
        let r := if negb (bool_decide (question = length target))
                 then setQuery (setPath r (take question target)) (drop question target)
                 else setPath r target in
        let start := drop (S space) rest in
        if (zlen start =? 8) && bool_decide (take 7 start = bs "HTTP/1.") then
          if bool_decide (drop 7 start = bs "1") then Ok (setVersion r kHttp11, true)
          else if bool_decide (drop 7 start = bs "0") then Ok (setVersion r kHttp10, true)
          else Ok (r, false)
        else Ok (r, false).

(** One turn of the [while] loop: another turn, or the result [ok]. *)
Inductive turn :=
  | More (c : t) (buf : Buffer.t)
  | Stop (ok : bool) (c : t) (buf : Buffer.t).

Definition parse_turn (c : t) (buf : Buffer.t) (receiveTime : Timestamp.t) : res turn :=
  match state_ c with
  | kExpectRequestLine =>
      match Buffer.findCRLF buf with
      | Some crlf =>
          let line := slice (Buffer.buffer_ buf) (Buffer.peek buf) (crlf - Buffer.peek buf) in
          '(r, ok) ← processRequestLine (request_ c) line;
          if (ok : bool) then
            let r := setReceiveTime r receiveTime in
            buf ← Buffer.retrieveUntil buf (crlf + 2);
            Ok (More (mk kExpectHeaders r) buf)
          else Ok (Stop false (mk (state_ c) r) buf)
      | None => Ok (Stop true c buf)
      end
  | kExpectHeaders =>
      match Buffer.findCRLF buf with
      | Some crlf =>
          let line := slice (Buffer.buffer_ buf) (Buffer.peek buf) (crlf - Buffer.peek buf) in
          let colon := find_idx (is_char x3a) line in
          let found := negb (bool_decide (colon = length line)) in
          let c := if found then mk (state_ c) (addHeader (request_ c) line colon) else mk kGotAll (request_ c) in
          buf ← Buffer.retrieveUntil buf (crlf + 2);
          Ok (if found then More c buf else Stop true c buf)
      | None => Ok (Stop true c buf)
      end
  | kExpectBody | kGotAll => Ok (More c buf)
  end.

(** The loop; [None] when the fuel runs out. *)
Fixpoint parse_loop (fuel : nat) (c : t) (buf : Buffer.t) (receiveTime : Timestamp.t) : option (res (bool * t * Buffer.t)) :=
  match fuel with
  | O => None
  | S fuel =>
      match parse_turn c buf receiveTime with
      | Err e => Some (Err e)
      | Ok (Stop ok c buf) => Some (Ok (ok, c, buf))
      | Ok (More c buf) => parse_loop fuel c buf receiveTime
      end
  end.

(** Every turn that goes on consumes a line of at least two bytes. *)
Definition parse_fuel (buf : Buffer.t) : nat := S (length (Buffer.content buf)).
Definition parseRequest (c : t) (buf : Buffer.t) (receiveTime : Timestamp.t) : option (res (bool * t * Buffer.t)) :=
  parse_loop (parse_fuel buf) c buf receiveTime.

End HttpContext.

Module HttpResponse.

Inductive HttpStatusCode := kUnknown | k200Ok | k301MovedPermanently | k400BadRequest | k404NotFound.
Definition code (s : HttpStatusCode) : Z :=
  match s with kUnknown => 0 | k200Ok => 200 | k301MovedPermanently => 301 | k400BadRequest => 400 | k404NotFound => 404 end.

Record t := mk {
  headers_ : list (list byte * list byte);
  statusCode_ : HttpStatusCode;
  statusMessage_ : list byte;
  closeConnection_ : bool;
  body_ : list byte;
}.

Definition new (close : bool) : t := mk [] kUnknown [] close [].
Definition setStatusCode (r : t) (c : HttpStatusCode) : t := mk (headers_ r) c (statusMessage_ r) (closeConnection_ r) (body_ r).
Definition setStatusMessage (r : t) (m : list byte) : t := mk (headers_ r) (statusCode_ r) m (closeConnection_ r) (body_ r).
Definition setCloseConnection (r : t) (on : bool) : t := mk (headers_ r) (statusCode_ r) (statusMessage_ r) on (body_ r).
Definition addHeader (r : t) (key value : list byte) : t :=
  mk (StdMap.set key value (headers_ r)) (statusCode_ r) (statusMessage_ r) (closeConnection_ r) (body_ r).
Definition setContentType (r : t) (contentType : list byte) : t := addHeader r (bs "Content-Type") contentType.
Definition setBody (r : t) (body : list byte) : t := mk (headers_ r) (statusCode_ r) (statusMessage_ r) (closeConnection_ r) body.

(** [output->append(s)] of a [std::string] and of a C string, through [StringPiece]. *)
Definition append_string (output : Buffer.t) (s : list byte) : res Buffer.t :=
  text ← StringPiece.as_string (StringPiece.StringPiece_string s); Buffer.append output text.
Definition append_cstr (output : Buffer.t) (s : list byte) : res Buffer.t :=
  p ← StringPiece.StringPiece_cstr (s ++ [x00]); text ← StringPiece.as_string p; Buffer.append output text.

Definition crlf : list byte := [x0d; x0a].

Fixpoint append_headers (output : Buffer.t) (hs : list (list byte * list byte)) : res Buffer.t :=
  match hs with
  | [] => Ok output
  | (key, value) :: hs =>
      output ← append_string output key;
      output ← append_cstr output (bs ": ");
      output ← append_string output value;
      output ← append_cstr output crlf;
      append_headers output hs
  end.

Definition appendToBuffer (r : t) (output : Buffer.t) : res Buffer.t :=
  output ← append_cstr output (snprintf 32 (bs "HTTP/1.1 " ++ dec (code (statusCode_ r)) ++ bs " "));
  output ← append_string output (statusMessage_ r);
  output ← append_cstr output crlf;
  output ← (if closeConnection_ r then append_cstr output (bs "Connection: close" ++ crlf)
            else
              output ← append_cstr output (snprintf 32 (bs "Content-Length: " ++ dec (zlen (body_ r)) ++ crlf));
              append_cstr output (bs "Connection: Keep-Alive" ++ crlf));
  output ← append_headers output (headers_ r);
  output ← append_cstr output crlf;
  append_string output (body_ r).

End HttpResponse.

Module HttpServer.

(** What the callbacks ask of the connection, in order: [send] of a buffer with
    these bytes, [send] of a string, [shutdown]. *)
Inductive action := Send (data : list byte) | SendText (text : list byte) | Shutdown.

Definition HttpCallback : Type := HttpRequest.t -> HttpResponse.t -> HttpResponse.t.

Definition defaultHttpCallback : HttpCallback := fun _ resp =>
  HttpResponse.setCloseConnection
    (HttpResponse.setStatusMessage (HttpResponse.setStatusCode resp HttpResponse.k404NotFound) (bs "Not Found")) true.

(** [onConnection]: the context of a connection that came up. *)
Definition onConnection (connected : bool) (context : option HttpContext.t) : option HttpContext.t :=
  if connected then Some HttpContext.new else context.

Definition onRequest (httpCallback : HttpCallback) (req : HttpRequest.t) : res (list action) :=
  let connection := HttpRequest.getHeader req (bs "Connection") in
  let close := bool_decide (connection = bs "close") ||
    (bool_decide (HttpRequest.version_ req = HttpRequest.kHttp10) && negb (bool_decide (connection = bs "Keep-Alive"))) in
  let response := httpCallback req (HttpResponse.new close) in
  buf ← Buffer.new Buffer.kInitialSize;
  buf ← HttpResponse.appendToBuffer response buf;
  Ok (Send (Buffer.content buf) :: if HttpResponse.closeConnection_ response then [Shutdown] else []).

Definition badRequest : list byte := bs "HTTP/1.1 400 Bad Request" ++ HttpResponse.crlf ++ HttpResponse.crlf.

Definition onMessage (httpCallback : HttpCallback) (context : HttpContext.t) (buf : Buffer.t) (receiveTime : Timestamp.t)
  : option (res (HttpContext.t * Buffer.t * list action)) :=
  match HttpContext.parseRequest context buf receiveTime with
  | None => None
  | Some r => Some (
      '(ok, context, buf) ← r;
      let bad := if (ok : bool) then [] else [SendText badRequest; Shutdown] in
      if HttpContext.gotAll context then
        acts ← onRequest httpCallback (HttpContext.request_ context);
        Ok (HttpContext.reset context, buf, bad ++ acts)
      else Ok (context, buf, bad))
  end.

End HttpServer.
