(* ===== verification/HttpParser.v ===== *)
(** What the request parser of src/networking/http/HttpContext.cpp does on a
    byte stream: it terminates, it is insensitive to how the stream is cut into
    reads, and it inverts the printing of a request. *)

From S2P Require Import Prelude Timestamp StdMap Buffer Http.

Module HttpParser.
Import HttpRequest HttpContext.

(** ** The parser on a byte string *)

(** The text up to the first line end, and what follows it. *)
Definition split_line (s : list byte) : option (list byte * list byte) :=
  let i := search_idx Buffer.kCRLF s in
  if bool_decide (i = length s) then None else Some (take i s, drop (i + 2) s).

Inductive aturn :=
  | AMore (c : HttpContext.t) (s : list byte)
  | AStop (ok : bool) (c : HttpContext.t) (s : list byte).

Definition turn_spec (rt : Timestamp.t) (c : HttpContext.t) (s : list byte) : res aturn :=
  match state_ c with
  | kExpectRequestLine =>
      match split_line s with
      | Some (line, rest) =>
          '(r, ok) ← processRequestLine (request_ c) line;
          Ok (if (ok : bool) then AMore (mk kExpectHeaders (setReceiveTime r rt)) rest else AStop false (mk (state_ c) r) s)
      | None => Ok (AStop true c s)
      end
  | kExpectHeaders =>
      match split_line s with
      | Some (line, rest) =>
          let colon := find_idx (is_char x3a) line in
          Ok (if bool_decide (colon = length line) then AStop true (mk kGotAll (request_ c)) rest
              else AMore (mk (state_ c) (addHeader (request_ c) line colon)) rest)
      | None => Ok (AStop true c s)
      end
  | kExpectBody | kGotAll => Ok (AMore c s)
  end.

(** Big-step: the loop stops with a result. *)
Inductive parses (rt : Timestamp.t) : HttpContext.t -> list byte -> res (bool * HttpContext.t * list byte) -> Prop :=
  | parses_err c s e : turn_spec rt c s = Err e -> parses rt c s (Err e)
  | parses_stop c s ok c' s' : turn_spec rt c s = Ok (AStop ok c' s') -> parses rt c s (Ok (ok, c', s'))
  | parses_more c s c' s' r : turn_spec rt c s = Ok (AMore c' s') -> parses rt c' s' r -> parses rt c s r.

Lemma parses_det rt c s r1 r2 : parses rt c s r1 -> parses rt c s r2 -> r1 = r2.
Proof.
  induction 1 as [c s e E|c s ok c' s' E|c s c' s' r E _ IH]; inversion 1; simplify_eq; try congruence.
  apply IH. congruence.
Qed.

(** The state in which the server calls the parser. *)
Definition expecting (c : HttpContext.t) : Prop := state_ c = kExpectRequestLine \/ state_ c = kExpectHeaders.

Lemma split_line_length s line rest :
  split_line s = Some (line, rest) -> (length rest + 2 + length line = length s)%nat /\ s = line ++ Buffer.kCRLF ++ rest.
Proof.
  unfold split_line. pose proof (search_idx_le Buffer.kCRLF s). case_bool_decide; [done|]. intros [= <- <-].
  destruct (Buffer.search_crlf_found s) as [E _]; [lia|].
  pose proof (f_equal length E) as El. rewrite !length_app in El. cbn [length Buffer.kCRLF] in El. split; [lia|exact E].
Qed.

Lemma turn_more rt c s c' s' :
  expecting c -> turn_spec rt c s = Ok (AMore c' s') -> expecting c' /\ (length s' < length s)%nat.
Proof.
  intros Hc. unfold turn_spec. destruct Hc as [Hc|Hc]; rewrite Hc.
  - destruct (split_line s) as [[line rest]|] eqn:E; [|done]. apply split_line_length in E as [E _].
    destruct (processRequestLine _ _) as [[r []]|]; cbn; intros; simplify_eq. split; [by right|lia].
  - destruct (split_line s) as [[line rest]|] eqn:E; [|done]. apply split_line_length in E as [E _].
    case_bool_decide; intros; simplify_eq. split; [by right|lia].
Qed.

Lemma parses_total rt c s : expecting c -> exists r, parses rt c s r.
Proof.
  revert c. induction s as [s IH] using (induction_ltof1 _ length). unfold ltof in IH. intros c Hc.
  destruct (turn_spec rt c s) as [[c' s'|ok c' s']|e] eqn:E.
  - destruct (turn_more _ _ _ _ _ Hc E) as [Hc' Hs']. destruct (IH s' Hs' c' Hc') as [r Hr]. exists r. by eapply parses_more.
  - eexists. by eapply parses_stop.
  - eexists. by eapply parses_err.
Qed.

(** ** The loop over the buffer implements it *)

(** What the loop returns, its buffer by its readable bytes. *)
Definition matches (x : res (bool * HttpContext.t * Buffer.t)) (y : res (bool * HttpContext.t * list byte)) : Prop :=
  match x, y with
  | Ok (ok, c, buf), Ok (ok', c', s) => ok = ok' /\ c = c' /\ Buffer.wf buf /\ Buffer.content buf = s
  | Err e, Err e' => e = e'
  | _, _ => False
  end.

(** Finding the line end and retrieving up to it. *)
Lemma line_ok buf : Buffer.wf buf ->
  match split_line (Buffer.content buf) with
  | Some (line, rest) => exists p buf', Buffer.findCRLF buf = Some p /\
      slice (Buffer.buffer_ buf) (Buffer.peek buf) (p - Buffer.peek buf) = line /\
      Buffer.retrieveUntil buf (p + 2) = Ok buf' /\ Buffer.wf buf' /\ Buffer.content buf' = rest
  | None => Buffer.findCRLF buf = None
  end.
Proof.
  intros Hwf. rewrite (Buffer.findCRLF_spec buf Hwf). pose proof (split_line_length (Buffer.content buf)) as Hl.
  unfold split_line in *. case_bool_decide as E; [done|]. specialize (Hl _ _ eq_refl) as [Hl Hs].
  set (i := search_idx _ _) in *. exists (Buffer.peek buf + Z.of_nat i).
  destruct (Buffer.retrieveUntil_ok buf (Buffer.peek buf + Z.of_nat i + 2)) as (buf' & Er & Hwf' & Hc').
  { done. }
  { pose proof (Buffer.zlen_content buf Hwf) as Hz. unfold Buffer.peek, Buffer.beginWrite, zlen in *. rewrite length_take in Hl. lia. }
  exists buf'. split_and!; try done.
  - replace (Buffer.peek buf + Z.of_nat i - Buffer.peek buf) with (zlen (take i (Buffer.content buf))).
    + by eapply Buffer.content_prefix.
    + unfold zlen. pose proof (search_idx_le Buffer.kCRLF (Buffer.content buf)). rewrite length_take. unfold i. lia.
  - rewrite Hc'. f_equal. lia.
Qed.

Lemma turn_refines rt c buf : Buffer.wf buf ->
  match parse_turn c buf rt, turn_spec rt c (Buffer.content buf) with
  | Ok (More c1 b1), Ok (AMore c2 s2) => c1 = c2 /\ Buffer.wf b1 /\ Buffer.content b1 = s2
  | Ok (Stop ok1 c1 b1), Ok (AStop ok2 c2 s2) => ok1 = ok2 /\ c1 = c2 /\ Buffer.wf b1 /\ Buffer.content b1 = s2
  | Err e1, Err e2 => e1 = e2
  | _, _ => False
  end.
Proof.
  intros Hwf. unfold parse_turn, turn_spec. pose proof (line_ok buf Hwf) as Hl.
  destruct (state_ c) eqn:Es; try done.
  - destruct (split_line _) as [[line rest]|]; [|by rewrite Hl].
    destruct Hl as (p & b' & -> & -> & Hr & Hwf' & Hc'). destruct (processRequestLine _ line) as [[r []]|e]; cbn [mbind res_bind]; [|done..].
    rewrite Hr. cbn [mbind res_bind]. done.
  - destruct (split_line _) as [[line rest]|]; [|by rewrite Hl].
    destruct Hl as (p & b' & -> & -> & Hr & Hwf' & Hc'). rewrite Hr. cbn [mbind res_bind].
    case_bool_decide; cbn [negb]; done.
Qed.

Lemma loop_refines rt c s r : parses rt c s r -> expecting c ->
  forall buf fuel, Buffer.wf buf -> Buffer.content buf = s -> (length s < fuel)%nat ->
  exists x, parse_loop fuel c buf rt = Some x /\ matches x r.
Proof.
  induction 1 as [c s e E|c s ok c' s' E|c s c' s' r E _ IH]; intros Hc buf fuel Hwf Hs Hf;
    (destruct fuel as [|fuel]; [lia|]); cbn [parse_loop]; pose proof (turn_refines rt c buf Hwf) as Ht; rewrite Hs, E in Ht.
  - destruct (parse_turn c buf rt) as [[]|e']; try done. subst. by eexists.
  - destruct (parse_turn c buf rt) as [[|ok1 c1 b1]|e']; try done. destruct Ht as (-> & -> & ? & ?). by eexists.
  - destruct (parse_turn c buf rt) as [[c1 b1|]|e']; try done. destruct Ht as (-> & Hwf1 & Hs1).
    destruct (turn_more _ _ _ _ _ Hc E) as [Hc' Hlen]. apply IH; try done. lia.
Qed.

Lemma parseRequest_refines rt c buf r :
  Buffer.wf buf -> expecting c -> parses rt c (Buffer.content buf) r ->
  exists x, parseRequest c buf rt = Some x /\ matches x r.
Proof. intros Hwf Hc Hp. by apply (loop_refines _ _ _ _ Hp Hc); [..|unfold parse_fuel; lia]. Qed.

(** Where the server never calls it, the loop of the code spins. *)
Lemma spins rt c buf fuel : ~ expecting c -> parse_loop fuel c buf rt = None.
Proof.
  intros Hc. induction fuel as [|fuel IH]; cbn [parse_loop]; [done|].
  unfold parse_turn. destruct (state_ c) eqn:E; [destruct Hc; by left|destruct Hc; by right|done..].
Qed.

(** ** Cutting the stream *)

Lemma prefixb_app_l p a b : (length p <= length a)%nat -> prefixb p (a ++ b) = prefixb p a.
Proof.
  revert a. induction p as [|x p IH]; intros [|y a] Hl; cbn in *; try done; [lia|]. f_equal. apply IH. lia.
Qed.

Lemma split_line_more s line rest d :
  split_line s = Some (line, rest) -> split_line (s ++ d) = Some (line, rest ++ d).
Proof.
  intros Hs. pose proof (split_line_length _ _ _ Hs) as [Hl E]. unfold split_line in *.
  pose proof (search_idx_le Buffer.kCRLF s). case_bool_decide as En; [done|]. injection Hs as H1 H2.
  set (i := search_idx Buffer.kCRLF s) in *.
  assert (length line = i) as Hi by (subst line; rewrite length_take; lia).
  assert (search_idx Buffer.kCRLF (s ++ d) = i) as ->.
  { apply search_idx_eq.
    - rewrite E, <- Hi, <- !app_assoc, drop_app_length. apply prefixb_app.
    - intros j Hj. rewrite drop_app_le by lia. rewrite prefixb_app_l by (rewrite length_drop; cbn; lia).
      by apply search_idx_before.
    - rewrite length_app. lia. }
  rewrite bool_decide_eq_false_2 by (rewrite length_app; lia).
  rewrite take_app_le, drop_app_le by lia. by rewrite H1, H2.
Qed.

Lemma turn_more_app rt c s c' s' d :
  turn_spec rt c s = Ok (AMore c' s') -> turn_spec rt c (s ++ d) = Ok (AMore c' (s' ++ d)).
Proof.
  unfold turn_spec. destruct (state_ c).
  - destruct (split_line s) as [[line rest]|] eqn:E; [|done]. rewrite (split_line_more _ _ _ d E).
    destruct (processRequestLine _ _) as [[r []]|]; cbn; intros; by simplify_eq.
  - destruct (split_line s) as [[line rest]|] eqn:E; [|done]. rewrite (split_line_more _ _ _ d E).
    case_bool_decide; intros; by simplify_eq.
  - intros. by simplify_eq.
  - intros. by simplify_eq.
Qed.

(** A turn that stops without a result leaves everything as it was. *)
Lemma turn_waits rt c s c' s' :
  turn_spec rt c s = Ok (AStop true c' s') -> gotAll c' = false -> c' = c /\ s' = s.
Proof.
  unfold turn_spec. destruct (state_ c).
  - destruct (split_line s) as [[line rest]|]; [|intros; by simplify_eq].
    destruct (processRequestLine _ _) as [[r []]|]; cbn; intros; by simplify_eq.
  - destruct (split_line s) as [[line rest]|]; [|intros; by simplify_eq].
    case_bool_decide; intros; by simplify_eq.
  - done.
  - done.
Qed.

Lemma parses_app rt c s1 c' s1' d r :
  parses rt c s1 (Ok (true, c', s1')) -> gotAll c' = false -> parses rt c' (s1' ++ d) r -> parses rt c (s1 ++ d) r.
Proof.
  intros H. remember (Ok (true, c', s1')) as x eqn:Ex. induction H as [c s e E|c s ok c1 s2 E|c s c1 s2 x E _ IH];
    intros Hg Hr; simplify_eq.
  - destruct (turn_waits _ _ _ _ _ E Hg) as [-> ->]. done.
  - eapply parses_more; [by apply turn_more_app|]. by apply IH.
Qed.

Lemma parses_expecting rt c s c' s' :
  parses rt c s (Ok (true, c', s')) -> expecting c -> gotAll c' = false -> expecting c'.
Proof.
  intros H. remember (Ok (true, c', s')) as x eqn:Ex. induction H as [c s e E|c s ok c1 s2 E|c s c1 s2 x E _ IH];
    intros Hc Hg; simplify_eq.
  - destruct (turn_waits _ _ _ _ _ E Hg) as [-> _]. done.
  - apply IH; [done| |done]. by eapply turn_more.
Qed.

(** More bytes do not change what is finished. *)
Definition finished (r : res (bool * HttpContext.t * list byte)) : Prop :=
  match r with Ok (true, c, _) => gotAll c = true | _ => True end.
Definition extend (r : res (bool * HttpContext.t * list byte)) (d : list byte) : res (bool * HttpContext.t * list byte) :=
  match r with Ok (ok, c, s) => Ok (ok, c, s ++ d) | Err e => Err e end.

Lemma turn_stops_app rt c s ok c' s' d :
  turn_spec rt c s = Ok (AStop ok c' s') -> finished (Ok (ok, c', s')) -> turn_spec rt c (s ++ d) = Ok (AStop ok c' (s' ++ d)) \/ gotAll c = true.
Proof.
  unfold turn_spec. destruct (state_ c) eqn:Es.
  - destruct (split_line s) as [[line rest]|] eqn:E.
    + rewrite (split_line_more _ _ _ d E). destruct (processRequestLine _ _) as [[r []]|]; cbn; intros; by simplify_eq; left.
    + intros [= <- <- <-]. cbn. unfold gotAll. rewrite Es. done.
  - destruct (split_line s) as [[line rest]|] eqn:E.
    + rewrite (split_line_more _ _ _ d E). case_bool_decide; intros; by simplify_eq; left.
    + intros [= <- <- <-]. cbn. unfold gotAll. rewrite Es. done.
  - done.
  - done.
Qed.

Lemma turn_err_app rt c s e d : turn_spec rt c s = Err e -> turn_spec rt c (s ++ d) = Err e.
Proof.
  unfold turn_spec. destruct (state_ c).
  - destruct (split_line s) as [[line rest]|] eqn:E; [|done]. rewrite (split_line_more _ _ _ d E).
    destruct (processRequestLine _ _) as [[r []]|]; cbn; intros; by simplify_eq.
  - destruct (split_line s) as [[line rest]|] eqn:E; [|done]. by rewrite (split_line_more _ _ _ d E).
  - done.
  - done.
Qed.

Lemma parses_stable rt c s r d : parses rt c s r -> expecting c -> finished r -> parses rt c (s ++ d) (extend r d).
Proof.
  induction 1 as [c s e E|c s ok c' s' E|c s c' s' r E _ IH]; intros Hc Hf; cbn [extend].
  - apply parses_err. by apply turn_err_app.
  - apply parses_stop. destruct (turn_stops_app _ _ _ _ _ _ d E Hf) as [?|Hg]; [done|].
    unfold gotAll in Hg. apply bool_decide_eq_true in Hg. destruct Hc; congruence.
  - eapply parses_more; [by apply turn_more_app|]. apply IH; [by eapply turn_more|done].
Qed.

(** The time matters to the request line only. *)
Lemma parses_time rt rt' c s r : parses rt c s r -> state_ c = kExpectHeaders -> parses rt' c s r.
Proof.
  assert (Ht : forall c s, state_ c = kExpectHeaders -> turn_spec rt c s = turn_spec rt' c s).
  { intros c0 s0 Hs. unfold turn_spec. by rewrite Hs. }
  induction 1 as [c s e E|c s ok c' s' E|c s c' s' r E _ IH]; intros Hc; rewrite Ht in E by done.
  - by apply parses_err.
  - by apply parses_stop.
  - eapply parses_more; [exact E|]. apply IH. unfold turn_spec in E. rewrite Hc in E.
    destruct (split_line s) as [[line rest]|]; [|done]. case_bool_decide; by simplify_eq.
Qed.

(** While the request line is not complete nothing has happened. *)
Lemma parses_no_line rt rt' c s c' s' : parses rt c s (Ok (true, c', s')) -> expecting c -> state_ c' = kExpectRequestLine ->
  parses rt' c s (Ok (true, c', s')).
Proof.
  intros H Hc Hs. inversion H as [|? ? ? ? ? E|? ? c1 s1 ? E Hr]; subst.
  - pose proof E as E0. destruct (turn_waits _ _ _ _ _ E) as [-> ->]; [unfold gotAll; by rewrite Hs|].
    apply parses_stop. unfold turn_spec in *. rewrite Hs in *. destruct (split_line s) as [[line rest]|]; [|done].
    destruct (processRequestLine _ _) as [[r []]|]; cbn in *; by simplify_eq.
  - exfalso. assert (state_ c1 = kExpectHeaders) as H1.
    { unfold turn_spec in E. destruct Hc as [Hc|Hc]; rewrite Hc in E; (destruct (split_line s) as [[line rest]|]; [|done]).
      - destruct (processRequestLine _ _) as [[r []]|]; cbn in E; by simplify_eq.
      - case_bool_decide; by simplify_eq. }
    clear -Hr H1 Hs. remember (Ok (true, c', s')) as x eqn:Ex. revert H1 Ex.
    induction Hr as [c s e E|c s ok c2 s2 E|c s c2 s2 r E _ IH]; intros H1 Ex; simplify_eq.
    + unfold turn_spec in E. rewrite H1 in E. destruct (split_line s) as [[line rest]|]; [|by simplify_eq; congruence].
      case_bool_decide; by simplify_eq.
    + apply IH; [|done]. unfold turn_spec in E. rewrite H1 in E. destruct (split_line s) as [[line rest]|]; [|done].
      case_bool_decide; by simplify_eq.
Qed.

(** Parsing only moves the indices of the buffer. *)
Lemma retrieveUntil_store buf e buf' : Buffer.retrieveUntil buf e = Ok buf' -> Buffer.buffer_ buf' = Buffer.buffer_ buf.
Proof.
  unfold Buffer.retrieveUntil, Buffer.retrieve, Buffer.retrieveAll. intros E.
  repeat (apply res_bind_Ok in E as (? & _ & E)). case_match; by injection E as <-.
Qed.
Lemma parse_loop_store fuel c buf rt ok c' buf' : parse_loop fuel c buf rt = Some (Ok (ok, c', buf')) -> Buffer.buffer_ buf' = Buffer.buffer_ buf.
Proof.
  revert c buf. induction fuel as [|fuel IH]; intros c buf; cbn [parse_loop]; [done|].
  destruct (parse_turn c buf rt) as [[c1 b1|ok1 c1 b1]|] eqn:E; [|intros; simplify_eq|done].
  - intros H%IH. rewrite H. unfold parse_turn in E. destruct (state_ c); [| |by simplify_eq..].
    + destruct (Buffer.findCRLF buf); [|done]. apply res_bind_Ok in E as ([r ok0] & _ & E). destruct ok0; [|done].
      apply res_bind_Ok in E as (b2 & E2%retrieveUntil_store & E). by simplify_eq.
    + destruct (Buffer.findCRLF buf); [|done]. apply res_bind_Ok in E as (b2 & E2%retrieveUntil_store & E). case_match; by simplify_eq.
  - unfold parse_turn in E. destruct (state_ c); [| |done..].
    + destruct (Buffer.findCRLF buf); [|by simplify_eq]. apply res_bind_Ok in E as ([r ok0] & _ & E). destruct ok0; [|by simplify_eq].
      by apply res_bind_Ok in E as (b2 & _ & E).
    + destruct (Buffer.findCRLF buf); [|by simplify_eq]. apply res_bind_Ok in E as (b2 & E2%retrieveUntil_store & E). case_match; by simplify_eq.
Qed.

(** A buffer that holds a text. *)
Definition buf_of (text : list byte) : Buffer.t := Buffer.mk (replicate 8 x00 ++ text) 8 (8 + zlen text).

Lemma buf_of_ok text : zlen text < 2 ^ 32 -> Buffer.wf (buf_of text) /\ Buffer.content (buf_of text) = text.
Proof.
  intros Hl. pose proof (zlen_nonneg text). split.
  - split; cbn [Buffer.readerIndex_ Buffer.writerIndex_ buf_of]; unfold Buffer.size; cbn [Buffer.buffer_ buf_of];
      rewrite ?zlen_app, ?zlen_replicate; unfold Buffer.kCheapPrepend, Buffer.max_size; lia.
  - unfold Buffer.content, buf_of, slice. cbn [Buffer.buffer_ Buffer.readerIndex_ Buffer.writerIndex_].
    replace (8 + zlen text - 8) with (zlen text) by lia. unfold zlen. rewrite Nat2Z.id.
    rewrite drop_app_length' by done. apply firstn_all.
Qed.

(** C7: how the network cuts the stream does not matter.  If the parser has
    read [content b1] and waits, and more bytes [d] arrive behind what it left,
    the second call returns what one call on the uncut bytes returns: the same
    verdict, the same request, the same remaining bytes, or the same failure. *)
Theorem parse_fragmentation rt c b1 c' b1' d b2 b12 :
  expecting c -> Buffer.wf b1 -> Buffer.wf b2 -> Buffer.wf b12 ->
  parseRequest c b1 rt = Some (Ok (true, c', b1')) -> gotAll c' = false ->
  Buffer.content b2 = Buffer.content b1' ++ d -> Buffer.content b12 = Buffer.content b1 ++ d ->
  exists x y r, parseRequest c' b2 rt = Some x /\ parseRequest c b12 rt = Some y /\ matches x r /\ matches y r.
Proof.
  intros Hc Hw1 Hw2 Hw12 Hp Hg H2 H12.
  destruct (parses_total rt c (Buffer.content b1) Hc) as [r1 Hr1].
  destruct (parseRequest_refines _ _ _ _ Hw1 Hc Hr1) as (x1 & E1 & M1). rewrite Hp in E1. simplify_eq.
  destruct r1 as [[[ok c1] s1]|]; [|done]. destruct M1 as (<- & <- & _ & Hs1).
  pose proof (parses_expecting _ _ _ _ _ Hr1 Hc Hg) as Hc'.
  destruct (parses_total rt c' (Buffer.content b2) Hc') as [r Hr].
  destruct (parseRequest_refines _ _ _ _ Hw2 Hc' Hr) as (x & Ex & Mx).
  assert (parses rt c (Buffer.content b12) r) as Hr12.
  { rewrite H12. eapply parses_app; [exact Hr1|done|]. by rewrite <- Hs1, <- H2. }
  destruct (parseRequest_refines _ _ _ _ Hw12 Hc Hr12) as (y & Ey & My). by exists x, y, r.
Qed.

Lemma parse_fragmentation_witness :
  exists c' b1' x y r,
    parseRequest HttpContext.new (buf_of (bs "GET / HTTP/1.1" ++ [x0d])) Timestamp.invalid = Some (Ok (true, c', b1')) /\
    parseRequest c' (buf_of (bs "GET / HTTP/1.1" ++ [x0d; x0a])) Timestamp.invalid = Some x /\
    parseRequest HttpContext.new (buf_of (bs "GET / HTTP/1.1" ++ [x0d; x0a])) Timestamp.invalid = Some y /\ matches x r /\ matches y r.
Proof.
  destruct (buf_of_ok (bs "GET / HTTP/1.1" ++ [x0d])) as [Hw1 Hc1]; [done|].
  destruct (buf_of_ok (bs "GET / HTTP/1.1" ++ [x0d; x0a])) as [Hw2 Hc2]; [done|].
  set (b1 := buf_of (bs "GET / HTTP/1.1" ++ [x0d])) in *. set (b2 := buf_of (bs "GET / HTTP/1.1" ++ [x0d; x0a])) in *.
  destruct (parse_fragmentation Timestamp.invalid HttpContext.new b1 HttpContext.new b1 [x0a] b2 b2)
    as (x & y & r & Hx & Hy & Mx & My); [by left|done|done|done|vm_compute; reflexivity|done|by rewrite Hc2, Hc1..|].
  exists HttpContext.new, b1, x, y, r. split_and!; done.
Defined.

(** Only the assertion of [setMethod] can fail: on a complete request line with a
    method, when the request has a method already. *)
Definition method_twice (c : HttpContext.t) (s : list byte) : bool :=
  match state_ c, split_line s with
  | kExpectRequestLine, Some (line, _) =>
      negb (bool_decide (method_ (request_ c) = kInvalid)) && negb (bool_decide (find_idx (is_char x20) line = length line))
  | _, _ => false
  end.

Lemma processRequestLine_err r line :
  match processRequestLine r line with
  | Err e => e = AssertFailed /\ method_ r <> kInvalid /\ find_idx (is_char x20) line <> length line
  | Ok _ => method_ r = kInvalid \/ find_idx (is_char x20) line = length line
  end.
Proof.
  unfold processRequestLine, setMethod, assert_. destruct (bool_decide (find_idx _ _ = _)) eqn:Es; [right; by apply bool_decide_eq_true in Es|].
  apply bool_decide_eq_false in Es. destruct (bool_decide (method_ r = kInvalid)) eqn:Em; cbn [mbind res_bind]; [|by apply bool_decide_eq_false in Em].
  apply bool_decide_eq_true in Em. repeat case_match; simplify_eq; by left.
Qed.

Lemma turn_suffix rt c s :
  match turn_spec rt c s with
  | Ok (AMore _ s' | AStop _ _ s') => method_twice c s = false /\ exists used, s = used ++ s'
  | Err e => e = AssertFailed /\ method_twice c s = true
  end.
Proof.
  assert (exists used, s = used ++ s) as H0 by by exists [].
  unfold turn_spec, method_twice. destruct (state_ c); try done; (destruct (split_line s) as [[line rest]|] eqn:E; [|done]);
    apply split_line_length in E as [_ E].
  - assert (exists used, s = used ++ rest) by (exists (line ++ Buffer.kCRLF); by rewrite <- app_assoc).
    pose proof (processRequestLine_err (request_ c) line) as Hp. destruct (processRequestLine _ _) as [[r []]|e]; cbn [mbind res_bind].
    1,2: split; [|done]; apply andb_false_iff; rewrite !negb_false_iff, !bool_decide_eq_true; exact Hp.
    destruct Hp as (-> & H1 & H2). by rewrite !bool_decide_false.
  - case_bool_decide; (split; [done|]); exists (line ++ Buffer.kCRLF); by rewrite <- app_assoc.
Qed.

Lemma more_headers rt c s c' s' : expecting c -> turn_spec rt c s = Ok (AMore c' s') -> state_ c' = kExpectHeaders.
Proof.
  unfold turn_spec. intros [Hc|Hc]; rewrite Hc; (destruct (split_line s) as [[line rest]|]; [|done]).
  - destruct (processRequestLine _ _) as [[r []]|]; cbn; intros; by simplify_eq.
  - case_bool_decide; intros; by simplify_eq.
Qed.

Lemma parses_suffix rt c s r : parses rt c s r -> expecting c ->
  match r with Ok (_, _, s') => method_twice c s = false /\ exists used, s = used ++ s' | Err e => e = AssertFailed /\ method_twice c s = true end.
Proof.
  induction 1 as [c s e E|c s ok c' s' E|c s c' s' r E _ IH]; intros Hc; pose proof (turn_suffix rt c s) as Ht; rewrite E in Ht; [done..|].
  pose proof (more_headers _ _ _ _ _ Hc E) as Hh. specialize (IH (or_intror Hh)). destruct Ht as [M [u ->]].
  destruct r as [[[ok c1] s1]|e].
  - destruct IH as [_ [v ->]]. split; [done|]. exists (u ++ v). by rewrite <- app_assoc.
  - destruct IH as [_ Hm]. unfold method_twice in Hm. by rewrite Hh in Hm.
Qed.

(** C29: parsing terminates: from the states the server calls it in,
    [parseRequest] returns within the fuel [parse_fuel], with a verdict and a
    suffix of the bytes; or the assertion of [setMethod] fails, which happens
    exactly when a request line with a method is complete and the request has a
    method already. *)
Theorem parseRequest_total rt c buf :
  expecting c -> Buffer.wf buf ->
  match parseRequest c buf rt with
  | Some (Ok (ok, c', buf')) => method_twice c (Buffer.content buf) = false /\ Buffer.wf buf' /\ (ok = true -> gotAll c' = true \/ expecting c') /\
      exists used, Buffer.content buf = used ++ Buffer.content buf'
  | Some (Err e) => e = AssertFailed /\ method_twice c (Buffer.content buf) = true
  | None => False
  end.
Proof.
  intros Hc Hwf. destruct (parses_total rt c (Buffer.content buf) Hc) as [r Hr].
  destruct (parseRequest_refines _ _ _ _ Hwf Hc Hr) as (x & -> & M).
  pose proof (parses_suffix _ _ _ _ Hr Hc) as Hs.
  destruct x as [[[ok c'] buf']|e], r as [[[ok' c''] s']|e']; try done.
  - destruct M as (-> & -> & Hwf' & Hc'), Hs as [Hm Hs]. split_and!; [done|done| |by rewrite Hc'].
    intros ->. destruct (gotAll c'') eqn:Eg; [by left|right]. by eapply parses_expecting.
  - cbn in M. by subst.
Qed.

Lemma parseRequest_total_witness :
  let buf := buf_of (bs "HEAD / HTTP/1.0" ++ [x0d; x0a]) in
  match parseRequest HttpContext.new buf Timestamp.invalid with
  | Some (Ok (ok, c', buf')) => method_twice HttpContext.new (Buffer.content buf) = false /\ Buffer.wf buf' /\ (ok = true -> gotAll c' = true \/ expecting c') /\
      exists used, Buffer.content buf = used ++ Buffer.content buf'
  | Some (Err e) => e = AssertFailed /\ method_twice HttpContext.new (Buffer.content buf) = true
  | None => False
  end.
Proof.
  cbn zeta. apply (parseRequest_total Timestamp.invalid HttpContext.new (buf_of (bs "HEAD / HTTP/1.0" ++ [x0d; x0a]))).
  - by left.
  - by apply buf_of_ok.
Defined.

End HttpParser.
