(* ===== verification/HttpTyped.v ===== *)
(** The types of HTTP requests (src/networking/http/HttpRequest.h,
    HttpContext.cpp): what the fields of a context hold in each state of the
    parser, and so what a callback of the server can rely on. *)

From S2P Require Import Prelude Timestamp StdMap Buffer Http HttpParser.

Module HttpTyped.
Import HttpRequest HttpContext.

(** A header: no colon in its name, no space around its value. *)
Record header_typed (h : list byte * list byte) : Prop := {
  ht_name : x3a ∉ h.1;
  ht_left : skip_space h.2 = h.2;
  ht_right : trim_right h.2 = h.2;
}.
Definition headers_typed (m : list (list byte * list byte)) : Prop := StdMap.sorted m /\ Forall header_typed m.

(** The target of a request: a path, and a query that starts with its mark. *)
Record target_typed (r : HttpRequest.t) : Prop := {
  tt_path : (x20 ∉ path_ r) /\ (x3f ∉ path_ r);
  tt_query : query_ r = [] \/ exists rest, query_ r = x3f :: rest /\ x20 ∉ rest;
}.

(** A request whose line was accepted. *)
Record request_typed (r : HttpRequest.t) : Prop := {
  rt_method : method_ r <> kInvalid;
  rt_version : version_ r <> kUnknown;
  rt_target : target_typed r;
  rt_headers : headers_typed (headers_ r);
}.

(** A context: before the request line the request is empty, but for what a
    rejected line left, which the assertion in [setMethod] then finds. *)
Definition context_typed (c : HttpContext.t) : Prop :=
  match state_ c with
  | kExpectRequestLine => headers_ (request_ c) = [] /\ (method_ (request_ c) = kInvalid -> query_ (request_ c) = [])
  | kExpectHeaders | kGotAll => request_typed (request_ c)
  | kExpectBody => False
  end.

(** ** Lines *)

Lemma take_find_idx c l : c ∉ take (find_idx (is_char c) l) l.
Proof.
  intros [k Hk]%list_elem_of_lookup. apply lookup_take_Some in Hk as [Hk Hlt].
  pose proof (find_idx_before (is_char c) l k c Hlt Hk) as Hf. unfold is_char in Hf. by rewrite bool_decide_eq_true_2 in Hf.
Qed.
Lemma drop_find_idx c l : find_idx (is_char c) l <> length l -> drop (find_idx (is_char c) l) l = c :: drop (S (find_idx (is_char c) l)) l.
Proof.
  intros Hn. pose proof (find_idx_le (is_char c) l). destruct (find_idx_found (is_char c) l) as (x & Hx & Hc); [lia|].
  unfold is_char in Hc. apply bool_decide_eq_true in Hc as <-. by apply drop_S.
Qed.

Lemma target_is_typed r target : x20 ∉ target -> query_ r = [] ->
  let question := find_idx (is_char x3f) target in
  target_typed (if negb (bool_decide (question = length target)) then setQuery (setPath r (take question target)) (drop question target) else setPath r target).
Proof.
  intros Hs Hq question. pose proof (take_find_idx x3f target) as Ht. fold question in Ht. case_bool_decide as E; cbn.
  - rewrite E, take_ge in Ht by lia. split; cbn; auto.
  - pose proof (drop_find_idx x3f target E) as Hd. fold question in Hd. rewrite <- (take_drop question target), Hd, not_elem_of_app, not_elem_of_cons in Hs.
    split; cbn; [tauto|]. right. rewrite Hd. eexists. split; [done|tauto].
Qed.

Lemma request_line_typed r line r' ok :
  processRequestLine r line = Ok (r', ok) -> headers_ r = [] -> (method_ r = kInvalid -> query_ r = []) ->
  if ok then request_typed r' else headers_ r' = [] /\ (method_ r' = kInvalid -> query_ r' = []).
Proof.
  unfold processRequestLine. intros E Hh Hq. case_bool_decide; [by injection E as <- <-|].
  apply res_bind_Ok in E as ([r1 known] & E1 & E). unfold setMethod in E1. apply assert_Ok in E1 as [Hm%bool_decide_eq_true E1].
  specialize (Hq Hm). injection E1 as <- <-. set (m := method_of _) in *. case_bool_decide as Ek; cbn [negb] in E.
  { injection E as <- <-. cbn. by rewrite Ek. }
  set (r1 := HttpRequest.mk m _ _ _ _ _) in *. case_bool_decide; [by injection E as <- <-|].
  set (rest := drop _ line) in *. set (target := take (find_idx (is_char x20) rest) rest) in E.
  set (r2 := if negb (bool_decide (find_idx (is_char x3f) target = length target)) then setQuery (setPath r1 (take _ target)) _ else setPath r1 target) in E.
  assert (target_typed r2 /\ method_ r2 = m /\ headers_ r2 = []) as (Ht & Em & Eh).
  { split; [apply target_is_typed; [apply take_find_idx|done]|]. unfold r2. by destruct (negb _). }
  assert (forall v, v <> kUnknown -> request_typed (setVersion r2 v)) as Hv.
  { intros v Hv. split; cbn; [congruence|done|by destruct Ht|rewrite Eh; split; constructor]. }
  assert ((exists v, v <> kUnknown /\ r' = setVersion r2 v /\ ok = true) \/ (r' = r2 /\ ok = false)) as [(v & Hn & -> & ->)|[-> ->]].
  { destruct (_ && _); [|injection E as <- <-; auto]. case_bool_decide; [|case_bool_decide]; injection E as <- <-; [left; eexists; split_and!; [|done|done]; discriminate..|auto]. }
  - by apply Hv.
  - split; [done|]. congruence.
Qed.

Lemma skip_space_idem l : skip_space (skip_space l) = skip_space l.
Proof. induction l as [|b l IH]; cbn; [done|]. destruct (isspace b) eqn:E; [done|]. cbn. by rewrite E. Qed.
Lemma trim_idem l : trim_right (trim_right l) = trim_right l.
Proof. unfold trim_right. by rewrite rev_involutive, skip_space_idem. Qed.
(** Trimming on the right leaves the left alone. *)
Lemma skip_trim l : skip_space l = l -> skip_space (trim_right l) = trim_right l.
Proof.
  intros Hl. destruct l as [|b l]; [done|]. cbn in Hl. destruct (isspace b) eqn:E.
  { pose proof (f_equal length Hl) as Hlen. exfalso. assert (forall k, (length (skip_space k) <= length k)%nat) as Hk.
    { induction k as [|x k IH]; cbn; [done|]. destruct (isspace x); cbn; lia. }
    specialize (Hk l). cbn in Hlen. lia. }
  assert (exists k, trim_right (b :: l) = b :: k) as [k ->].
  { unfold trim_right. cbn [rev]. assert (forall p, exists k, skip_space (p ++ [b]) = k ++ [b]) as Hp.
    { induction p as [|x p [k IH]]; cbn; [rewrite E; by exists []|]. destruct (isspace x); [by exists k|by exists (x :: p)]. }
    destruct (Hp (rev l)) as [k ->]. rewrite rev_app_distr. by eexists. }
  cbn. by rewrite E.
Qed.

Lemma headers_set m k v : headers_typed m -> header_typed (k, v) -> headers_typed (StdMap.set k v m).
Proof.
  intros [Hs Hf] Hh. split; [by apply StdMap.set_sorted|]. apply Forall_forall. intros [k' v'] Hin.
  apply StdMap.find_elem in Hin; [|by apply StdMap.set_sorted]. destruct (decide (k' = k)) as [->|Hne].
  - rewrite StdMap.find_set_eq in Hin by done. by injection Hin as <-.
  - rewrite StdMap.find_set_ne in Hin by done. apply StdMap.find_elem in Hin; [|done]. by eapply Forall_forall.
Qed.

Lemma addHeader_typed r line : request_typed r -> request_typed (addHeader r line (find_idx (is_char x3a) line)).
Proof.
  intros [Hm Hv [Hp Hq] Hh]. split; cbn; [done|done|by split|]. apply headers_set; [done|].
  split; cbn; [apply take_find_idx|apply skip_trim, skip_space_idem|apply trim_idem].
Qed.

(** ** The parser *)

Lemma setReceiveTime_typed r rt : request_typed r -> request_typed (setReceiveTime r rt).
Proof. intros [? ? [] ?]. by split. Qed.

Lemma turn_typed rt c s : context_typed c ->
  match HttpParser.turn_spec rt c s with
  | Ok (HttpParser.AMore c' _) | Ok (HttpParser.AStop _ c' _) => context_typed c'
  | Err _ => True
  end.
Proof.
  unfold HttpParser.turn_spec, context_typed at 1. destruct (state_ c) eqn:Es; intros Hc.
  - destruct (HttpParser.split_line s) as [[line rest]|]; [|unfold context_typed; by rewrite Es].
    destruct (processRequestLine (request_ c) line) as [[r ok]|] eqn:E; [|done]. cbn [mbind res_bind].
    pose proof (request_line_typed _ _ _ _ E (proj1 Hc) (proj2 Hc)) as Hr. destruct ok; cbn.
    + by apply setReceiveTime_typed.
    + unfold context_typed. cbn. by rewrite ?Es.
  - destruct (HttpParser.split_line s) as [[line rest]|]; [|unfold context_typed; by rewrite Es].
    case_bool_decide; [done|]. unfold context_typed. cbn [state_ request_]. rewrite ?Es. by apply addHeader_typed.
  - done.
  - unfold context_typed. by rewrite Es.
Qed.

Lemma parses_typed rt c s r : HttpParser.parses rt c s r -> context_typed c ->
  match r with Ok (_, c', _) => context_typed c' | Err _ => True end.
Proof.
  induction 1 as [c s e E|c s ok c' s' E|c s c' s' r E _ IH]; intros Hc; pose proof (turn_typed rt c s Hc) as Ht; rewrite E in Ht; cbn in Ht; [done|done|by apply IH].
Qed.

(** ** The server *)

(** The buffers of successive calls of [onMessage], with their times, and what
    the server asks of the connection in each. *)
Fixpoint serve (cb : HttpServer.HttpCallback) (c : HttpContext.t) (l : list (Buffer.t * Timestamp.t)) : list (option (res (list HttpServer.action))) :=
  match l with
  | [] => []
  | (buf, rt) :: l =>
      match HttpServer.onMessage cb c buf rt with
      | Some (Ok (c, _, acts)) => Some (Ok acts) :: serve cb c l
      | Some (Err e) => [Some (Err e)]
      | None => [None]
      end
  end.

Lemma onMessage_typed cb cb' c buf rt :
  (forall req resp, request_typed req -> cb req resp = cb' req resp) -> Buffer.wf buf -> context_typed c -> HttpParser.expecting c ->
  HttpServer.onMessage cb c buf rt = HttpServer.onMessage cb' c buf rt /\
  exists x, HttpServer.onMessage cb c buf rt = Some x /\
    match x with Ok (c', _, _) => context_typed c' /\ HttpParser.expecting c' | Err _ => True end.
Proof.
  intros Hcb Hwf Ht He. destruct (HttpParser.parses_total rt c (Buffer.content buf) He) as [r Hr].
  destruct (HttpParser.parseRequest_refines rt c buf r Hwf He Hr) as (x & E & M). unfold HttpServer.onMessage. rewrite E.
  destruct x as [[[ok c1] b]|e]; cbn [mbind res_bind]; [|split; [done|by eexists]]. destruct r as [[[ok' c2] s]|]; [|done]. destruct M as (<- & <- & _ & _).
  pose proof (parses_typed _ _ _ _ Hr Ht) as Ht1. cbn in Ht1. destruct (gotAll c1) eqn:Eg.
  - unfold gotAll in Eg. apply bool_decide_eq_true in Eg. unfold context_typed in Ht1. rewrite Eg in Ht1.
    unfold HttpServer.onRequest. rewrite <- (Hcb (request_ c1)) by done. split; [done|]. eexists. split; [done|].
    destruct (Buffer.new _ ≫= _) as [acts|]; cbn; [|done]. split; [done|by left].
  - split; [done|]. eexists. split; [done|]. cbn. split; [done|]. destruct ok.
    + eapply HttpParser.parses_expecting; [exact Hr|done|done].
    + unfold context_typed in Ht1. unfold gotAll in Eg. apply bool_decide_eq_false in Eg. destruct (state_ c1) eqn:Es; [by left|by right|done|done].
Qed.

(** C31: what the callback may rely on.  On a connection's successive reads,
    whatever bytes arrive, the callback of an HTTP server is only ever called
    with requests that are well typed: a known method and version, a path
    without spaces and question marks, a query that is empty or starts with a
    question mark, and headers sorted by names without colons, with trimmed
    values.  So two callbacks that agree on such requests make the same server. *)
Theorem callback_sees_typed cb cb' l :
  (forall req resp, request_typed req -> cb req resp = cb' req resp) -> Forall (fun x => Buffer.wf x.1) l ->
  serve cb HttpContext.new l = serve cb' HttpContext.new l.
Proof.
  intros Hcb Hl. assert (context_typed HttpContext.new) as Ht by done. assert (HttpParser.expecting HttpContext.new) as He by by left.
  revert Ht He. generalize HttpContext.new. induction Hl as [|[buf rt] l Hwf _ IH]; intros c Ht He; [done|]. cbn [serve].
  destruct (onMessage_typed cb cb' c buf rt Hcb Hwf Ht He) as (<- & x & E & Hx). rewrite E.
  destruct x as [[[c' b] acts]|e]; [|done]. f_equal. apply IH; apply Hx.
Qed.

(** Two callbacks that differ on requests without a method only. *)
Lemma callback_sees_typed_witness :
  let cb : HttpServer.HttpCallback := fun req resp => HttpResponse.setBody resp (methodString req) in
  let cb' : HttpServer.HttpCallback := fun req resp => if decide (method_ req = kInvalid) then resp else HttpResponse.setBody resp (methodString req) in
  let l := [(HttpParser.buf_of (bs "POST /a HTTP/1.1" ++ [x0d; x0a]), Timestamp.invalid); (HttpParser.buf_of [x0d; x0a], Timestamp.invalid)] in
  serve cb HttpContext.new l = serve cb' HttpContext.new l.
Proof.
  intros cb cb' l. apply (callback_sees_typed cb cb' l).
  - intros req resp [Hm _ _ _]. unfold cb, cb'. by rewrite decide_False.
  - apply Forall_cons_2; [by apply HttpParser.buf_of_ok|]. apply Forall_cons_2; [by apply HttpParser.buf_of_ok|]. apply Forall_nil_2.
Defined.

End HttpTyped.
