(* ===== verification/HttpExchange.v ===== *)
(** A whole exchange through src/networking/http/: a printed request is parsed
    back, the response is rendered to the buffer, and [HttpServer::onMessage]
    answers it. *)

From S2P Require Import Prelude Printf Timestamp StringPiece StdMap Buffer Http HttpParser.

Module HttpExchange.
Import HttpRequest HttpContext HttpParser.

(** ** Printing a request *)

Definition crlf : list byte := Buffer.kCRLF.

Definition print_method (m : Method) : list byte := methodString (HttpRequest.mk m kUnknown [] [] Timestamp.invalid []).
Definition print_version (v : Version) : list byte := bs "HTTP/1." ++ match v with kHttp11 => bs "1" | _ => bs "0" end.
Definition print_header (h : list byte * list byte) : list byte := h.1 ++ bs ": " ++ h.2 ++ crlf.

Record message := msg {
  m_method : Method;
  m_path : list byte;
  m_query : list byte;
  m_version : Version;
  m_headers : list (list byte * list byte);
}.

Definition request_line (q : message) : list byte :=
  print_method (m_method q) ++ bs " " ++ (m_path q ++ m_query q) ++ bs " " ++ print_version (m_version q).
Definition print (q : message) : list byte :=
  request_line q ++ crlf ++ mjoin (map print_header (m_headers q)) ++ crlf.

(** The request it stands for. *)
Definition denotes (q : message) (rt : Timestamp.t) : HttpRequest.t :=
  HttpRequest.mk (m_method q) (m_version q) (m_path q) (m_query q) rt
    (foldl (fun m h => StdMap.set h.1 h.2 m) [] (m_headers q)).

Definition without (cs l : list byte) : Prop := Forall (fun b => b ∉ cs) l.

Record header_ok (h : list byte * list byte) : Prop := {
  ho_field : without [x3a; x0d] h.1;
  ho_value : without [x0d] h.2;
  ho_left : skip_space h.2 = h.2;
  ho_right : trim_right h.2 = h.2;
}.

Record message_ok (q : message) : Prop := {
  mo_method : m_method q <> kInvalid;
  mo_path : without [x20; x3f; x0d] (m_path q);
  mo_query : m_query q = [] \/ exists rest, m_query q = x3f :: rest /\ without [x20; x0d] rest;
  mo_version : m_version q <> kUnknown;
  mo_headers : Forall header_ok (m_headers q);
}.

(** Decidable facts on literals, by computation. *)
Ltac compute_prop := unfold without; apply (bool_decide_unpack _); vm_compute; exact I.

Lemma without_sub cs ds l : ds ⊆ cs -> without cs l -> without ds l.
Proof. intros Hs Hl. eapply Forall_impl; [exact Hl|]. set_solver. Qed.

Lemma without_char cs c l : c ∈ cs -> without cs l -> Forall (fun b => is_char c b = false) l.
Proof.
  intros Hc Hl. eapply Forall_impl; [exact Hl|]. intros b Hb. unfold is_char. apply bool_decide_eq_false_2. by intros ->.
Qed.

Lemma split_line_first line rest : without [x0d] line -> split_line (line ++ crlf ++ rest) = Some (line, rest).
Proof.
  intros Hl. unfold split_line. assert (search_idx Buffer.kCRLF (line ++ crlf ++ rest) = length line) as ->.
  { apply search_idx_eq.
    - rewrite drop_app_length. apply prefixb_app.
    - intros j Hj. destruct (lookup_lt_is_Some_2 line j Hj) as [b Hb]. rewrite drop_app_le by lia.
      rewrite (drop_S _ b j) by done. cbn. rewrite bool_decide_eq_false_2; [done|].
      intros <-. pose proof (Forall_lookup_1 _ _ _ _ Hl Hb). set_solver.
    - rewrite length_app. lia. }
  rewrite bool_decide_eq_false_2 by (rewrite !length_app; cbn; lia).
  rewrite take_app_length, <- drop_drop, drop_app_length. done.
Qed.

Lemma find_char_at c l r : Forall (fun b => is_char c b = false) l -> find_idx (is_char c) (l ++ c :: r) = length l.
Proof. intros. apply find_idx_app; [done|]. unfold is_char. by apply bool_decide_eq_true_2. Qed.

(** A word ended by a separator: what the code finds, takes and goes on with. *)
Lemma word_at c l r : Forall (fun b => is_char c b = false) l ->
  find_idx (is_char c) (l ++ c :: r) = length l /\ bool_decide (length l = length (l ++ c :: r)) = false /\
  take (length l) (l ++ c :: r) = l /\ drop (S (length l)) (l ++ c :: r) = r.
Proof.
  intros H. split_and!; [by apply find_char_at| | |].
  - apply bool_decide_eq_false_2. rewrite length_app. cbn. lia.
  - apply take_app_length.
  - replace (S (length l)) with (length l + 1)%nat by lia. by rewrite <- drop_drop, drop_app_length.
Qed.

Lemma method_of_print m : m <> kInvalid ->
  method_of (print_method m) = m /\ without [x20; x0d] (print_method m).
Proof. destruct m; [done|..]; intros _; (split; [done|]); compute_prop. Qed.

Lemma processRequestLine_print r q : message_ok q -> method_ r = kInvalid -> query_ r = [] ->
  processRequestLine r (request_line q) = Ok (HttpRequest.mk (m_method q) (m_version q) (m_path q) (m_query q) (receiveTime_ r) (headers_ r), true).
Proof.
  intros [Hm Hp Hq Hv _] Hr Hrq. destruct (method_of_print _ Hm) as [Em Hw]. unfold processRequestLine, request_line.
  change (bs " ") with [x20]. cbn [app].
  destruct (word_at x20 (print_method (m_method q)) ((m_path q ++ m_query q) ++ x20 :: print_version (m_version q))) as (-> & -> & -> & ->).
  { by eapply without_char; [|exact Hw]; compute_prop. }
  unfold setMethod. rewrite assert_true by by apply bool_decide_eq_true_2. cbn [mbind res_bind]. rewrite Em.
  rewrite bool_decide_eq_false_2 by done. cbn [negb].
  destruct (word_at x20 (m_path q ++ m_query q) (print_version (m_version q))) as (-> & -> & -> & ->).
  { apply Forall_app. split; [by eapply without_char; [|exact Hp]; compute_prop|].
    destruct Hq as [->|(rest & -> & Hrest)]; [constructor|]. constructor; [done|]. by eapply without_char; [|exact Hrest]; compute_prop. }
  assert (Forall (fun b => is_char x3f b = false) (m_path q)) as Hp'.
  { by eapply without_char; [|exact Hp]; compute_prop. }
  set (r1 := HttpRequest.mk _ _ _ _ _ _).
  assert ((if negb (bool_decide (find_idx (is_char x3f) (m_path q ++ m_query q) = length (m_path q ++ m_query q)))
    then setQuery (setPath r1 (take (find_idx (is_char x3f) (m_path q ++ m_query q)) (m_path q ++ m_query q)))
           (drop (find_idx (is_char x3f) (m_path q ++ m_query q)) (m_path q ++ m_query q))
    else setPath r1 (m_path q ++ m_query q)) = setQuery (setPath r1 (m_path q)) (m_query q)) as ->.
  { destruct Hq as [->|(rest & -> & Hrest)].
    - rewrite app_nil_r, find_idx_absent by done. rewrite bool_decide_eq_true_2 by done. unfold setQuery, setPath, r1. cbn. by rewrite Hrq.
    - destruct (word_at x3f (m_path q) rest Hp') as (-> & -> & -> & _). cbn [negb]. by rewrite drop_app_length. }
  destruct (m_version q) eqn:Ev; [done|..]; done.
Qed.

Lemma addHeader_print r h : header_ok h ->
  let line := h.1 ++ bs ": " ++ h.2 in
  find_idx (is_char x3a) line = length h.1 /\ bool_decide (length h.1 = length line) = false /\
  addHeader r line (length h.1) =
    HttpRequest.mk (method_ r) (version_ r) (path_ r) (query_ r) (receiveTime_ r) (StdMap.set h.1 h.2 (headers_ r)).
Proof.
  intros [Hf Hv Hl Hr] line. unfold line. change (bs ": " ++ h.2) with (x3a :: x20 :: h.2).
  destruct (word_at x3a h.1 (x20 :: h.2)) as (H1 & H2 & H3 & H4); [by eapply without_char; [|exact Hf]; compute_prop|].
  split_and!; [done|done|]. unfold addHeader. rewrite H3, H4. cbn [skip_space]. change (isspace x20) with true. cbn iota.
  by rewrite Hl, Hr.
Qed.

Lemma headers_print rt r hs rest : Forall header_ok hs ->
  parses rt (HttpContext.mk kExpectHeaders r) (mjoin (map print_header hs) ++ crlf ++ rest)
    (Ok (true, HttpContext.mk kGotAll (HttpRequest.mk (method_ r) (version_ r) (path_ r) (query_ r) (receiveTime_ r)
      (foldl (fun m h => StdMap.set h.1 h.2 m) (headers_ r) hs)), rest)).
Proof.
  intros Hh. revert r. induction Hh as [|h hs H1 _ IH]; intros r.
  - apply parses_stop. unfold turn_spec. cbn [state_].
    change (split_line _) with (split_line ([] ++ crlf ++ rest)). rewrite split_line_first by constructor. by destruct r.
  - change (mjoin (map print_header (h :: hs))) with (print_header h ++ mjoin (map print_header hs)).
    destruct (addHeader_print r h H1) as (E1 & E2 & E3). destruct H1 as [Hf Hv _ _].
    apply (parses_more _ _ _ (HttpContext.mk kExpectHeaders (addHeader r (h.1 ++ bs ": " ++ h.2) (length h.1)))
      (mjoin (map print_header hs) ++ crlf ++ rest)); [|rewrite E3; apply IH]. unfold turn_spec. cbn [state_ request_].
    unfold print_header. rewrite <- !app_assoc.
    replace (h.1 ++ bs ": " ++ h.2 ++ crlf ++ mjoin (map print_header hs) ++ crlf ++ rest)
      with ((h.1 ++ bs ": " ++ h.2) ++ crlf ++ mjoin (map print_header hs) ++ crlf ++ rest) by by rewrite <- !app_assoc.
    rewrite split_line_first.
    + cbn zeta. by rewrite E1, E2.
    + apply Forall_app; split; [by eapply without_sub; [|exact Hf]; compute_prop|]. repeat (constructor; [compute_prop|]). exact Hv.
Qed.

Lemma request_line_no_cr q : message_ok q -> without [x0d] (request_line q).
Proof.
  intros [Hm Hp Hq Hv _]. destruct (method_of_print _ Hm) as [_ Hw]. unfold request_line, without in *.
  repeat (apply Forall_app; split).
  - by eapply without_sub; [|exact Hw]; compute_prop.
  - compute_prop.
  - by eapply without_sub; [|exact Hp]; compute_prop.
  - destruct Hq as [->|(r & -> & Hr)]; [constructor|constructor; [compute_prop|by eapply without_sub; [|exact Hr]; compute_prop]].
  - compute_prop.
  - compute_prop.
  - destruct (m_version q); compute_prop.
Qed.

Lemma parses_print rt q rest : message_ok q ->
  parses rt HttpContext.new (print q ++ rest) (Ok (true, HttpContext.mk kGotAll (denotes q rt), rest)).
Proof.
  intros Hq. unfold print. rewrite <- !app_assoc. eapply parses_more.
  - unfold turn_spec. cbn [state_ HttpContext.new]. rewrite split_line_first by by apply request_line_no_cr.
    cbn [request_]. rewrite processRequestLine_print by done. cbn [mbind res_bind]. done.
  - apply headers_print. by destruct Hq.
Qed.

(** C17: parsing inverts printing.  A request printed in the wire format and
    followed by anything is parsed in one call to the request it stands for, the
    last value of a repeated header winning, and the bytes after it are left. *)
Theorem parse_print rt q buf rest :
  message_ok q -> Buffer.wf buf -> Buffer.content buf = print q ++ rest ->
  exists buf', parseRequest HttpContext.new buf rt = Some (Ok (true, HttpContext.mk kGotAll (denotes q rt), buf')) /\
    Buffer.wf buf' /\ Buffer.content buf' = rest.
Proof.
  intros Hq Hwf Hc. pose proof (parses_print rt q rest Hq) as Hp. rewrite <- Hc in Hp.
  destruct (parseRequest_refines rt HttpContext.new buf _ Hwf ltac:(by left) Hp) as ([[[ok c] b]|] & -> & M); [|done].
  destruct M as (-> & -> & ? & ?). by exists b.
Qed.

Definition sample_request : message :=
  msg kGet (bs "/a") (bs "?b=1") kHttp11 [(bs "Host", bs "x"); (bs "Connection", bs "close")].

Lemma sample_request_ok : message_ok sample_request.
Proof.
  split; cbn; [done|compute_prop| |done|].
  - right. exists (bs "b=1"). split; [done|compute_prop].
  - repeat constructor; try done; compute_prop.
Qed.

Lemma parse_print_witness :
  exists buf', parseRequest HttpContext.new (buf_of (print sample_request ++ bs "GET")) Timestamp.invalid
    = Some (Ok (true, HttpContext.mk kGotAll (denotes sample_request Timestamp.invalid), buf')) /\
    Buffer.wf buf' /\ Buffer.content buf' = bs "GET".
Proof.
  destruct (buf_of_ok (print sample_request ++ bs "GET")) as [Hw Hc]; [done|].
  apply (parse_print Timestamp.invalid sample_request (buf_of (print sample_request ++ bs "GET")) (bs "GET")); [apply sample_request_ok|done..].
Defined.

(** ** A rejected request line *)

Lemma second_line_asserts r line : method_ r <> kInvalid -> find_idx (is_char x20) line <> length line ->
  processRequestLine r line = Err AssertFailed.
Proof.
  intros Hm Hs. unfold processRequestLine. rewrite bool_decide_eq_false_2 by done.
  unfold setMethod. by rewrite (bool_decide_eq_false_2 (method_ r = kInvalid)) by done.
Qed.

Lemma processRequestLine_space r line r' ok : processRequestLine r line = Ok (r', ok) -> method_ r' <> method_ r ->
  find_idx (is_char x20) line <> length line.
Proof. unfold processRequestLine. case_bool_decide; [|done]. intros; by simplify_eq. Qed.

(** A request line with a known method and a malformed rest is answered
    with 400 and left in the buffer, with its method in the context; the next
    message on the connection then fails the assertion in [setMethod]. *)
Theorem rejected_line_asserts cb rt rt' line rest buf r :
  without [x0d] line -> processRequestLine HttpRequest.new line = Ok (r, false) -> method_ r <> kInvalid ->
  Buffer.wf buf -> Buffer.content buf = line ++ crlf ++ rest ->
  exists c buf1,
    HttpServer.onMessage cb HttpContext.new buf rt =
      Some (Ok (c, buf1, [HttpServer.SendText HttpServer.badRequest; HttpServer.Shutdown])) /\
    Buffer.content buf1 = Buffer.content buf /\
    forall buf2 d, Buffer.wf buf2 -> Buffer.content buf2 = Buffer.content buf1 ++ d ->
      HttpServer.onMessage cb c buf2 rt' = Some (Err AssertFailed).
Proof.
  intros Hl Hp Hm Hwf Hc. set (c := HttpContext.mk kExpectRequestLine r).
  assert (parses rt HttpContext.new (Buffer.content buf) (Ok (false, c, Buffer.content buf))) as H1.
  { apply parses_stop. unfold turn_spec. cbn [state_ HttpContext.new]. rewrite Hc, split_line_first by done.
    change (request_ HttpContext.new) with HttpRequest.new. by rewrite Hp. }
  destruct (parseRequest_refines rt HttpContext.new buf _ Hwf ltac:(by left) H1) as ([[[ok c1] b1]|] & E & M); [|done].
  destruct M as (-> & -> & Hwf1 & Hc1). exists c, b1. unfold HttpServer.onMessage. rewrite E. split_and!; [done|done|].
  intros buf2 d Hwf2 Hc2.
  assert (parses rt' c (Buffer.content buf2) (Err AssertFailed)) as H2.
  { apply parses_err. unfold turn_spec. cbn [state_ c]. rewrite Hc2, Hc1, Hc, <- !app_assoc, split_line_first by done.
    cbn [request_ c]. rewrite second_line_asserts; [done|done|by eapply processRequestLine_space; [exact Hp|]]. }
  destruct (parseRequest_refines rt' c buf2 _ Hwf2 ltac:(by left) H2) as ([[[] ]|e] & -> & M); [done..|]. cbn in M. by subst.
Qed.

Lemma rejected_line_asserts_witness :
  exists c buf1,
    HttpServer.onMessage HttpServer.defaultHttpCallback HttpContext.new (buf_of (bs "GET / HTTP/2.0" ++ crlf)) Timestamp.invalid =
      Some (Ok (c, buf1, [HttpServer.SendText HttpServer.badRequest; HttpServer.Shutdown])) /\
    HttpServer.onMessage HttpServer.defaultHttpCallback c (buf_of (bs "GET / HTTP/2.0" ++ crlf ++ bs "x")) Timestamp.invalid = Some (Err AssertFailed).
Proof.
  destruct (buf_of_ok (bs "GET / HTTP/2.0" ++ crlf)) as [Hw Hc]; [done|].
  destruct (buf_of_ok (bs "GET / HTTP/2.0" ++ crlf ++ bs "x")) as [Hw2 Hc2]; [done|].
  destruct (rejected_line_asserts HttpServer.defaultHttpCallback Timestamp.invalid Timestamp.invalid (bs "GET / HTTP/2.0") []
    (buf_of (bs "GET / HTTP/2.0" ++ crlf)) (HttpRequest.mk kGet kUnknown (bs "/") [] Timestamp.invalid []))
    as (c & b1 & E & Hb & H2); [compute_prop|reflexivity|done|done|by rewrite Hc|].
  exists c, b1. split; [exact E|]. apply (H2 _ (bs "x")); [done|]. by rewrite Hb, Hc, Hc2.
Defined.

End HttpExchange.
