(* ===== verification/HttpAnswer.v ===== *)
(** The answering half of src/networking/http/: the bytes
    [HttpResponse::appendToBuffer] produces, and the answer of
    [HttpServer::onMessage] to a complete request. *)

From S2P Require Import Prelude Printf Timestamp StringPiece StdMap Buffer Http HttpParser HttpExchange.

Module HttpAnswer.
Import HttpResponse.

(** ** The wire format of a response *)

Definition render_header (h : list byte * list byte) : list byte := h.1 ++ bs ": " ++ h.2 ++ crlf.

Definition render (r : HttpResponse.t) : list byte :=
  bs "HTTP/1.1 " ++ dec (code (statusCode_ r)) ++ bs " " ++ statusMessage_ r ++ crlf ++
  (if closeConnection_ r then bs "Connection: close" ++ crlf
   else bs "Content-Length: " ++ dec (zlen (body_ r)) ++ crlf ++ bs "Connection: Keep-Alive" ++ crlf) ++
  mjoin (map render_header (headers_ r)) ++ crlf ++ body_ r.

(** Every string fits an [int], and the body's length fits the 32-byte line. *)
Record response_ok (r : HttpResponse.t) : Prop := {
  ro_message : zlen (statusMessage_ r) <= int_max;
  ro_headers : Forall (fun h => zlen h.1 <= int_max /\ zlen h.2 <= int_max) (headers_ r);
  ro_body : zlen (body_ r) <= int_max;
}.

(** An append extends the readable bytes, and grows the buffer by no more. *)
Definition extends (b : Buffer.t) (d : list byte) (r : res Buffer.t) : Prop :=
  exists b', r = Ok b' /\ Buffer.wf b' /\ Buffer.content b' = Buffer.content b ++ d /\ Buffer.size b' <= Buffer.size b + zlen d.

Lemma append_extends b d : Buffer.wf b -> Buffer.size b + zlen d <= Buffer.max_size -> extends b d (Buffer.append b d).
Proof. intros Hw Hs. destruct (Buffer.append_ok b d Hw Hs) as (b' & ? & ? & ? & _ & _ & ?). by exists b'. Qed.

Lemma extends_bind b d e k :
  (forall b', Buffer.wf b' -> Buffer.size b' <= Buffer.size b + zlen d -> extends b' e (k b')) ->
  forall m, extends b d m -> extends b (d ++ e) (m ≫= k).
Proof.
  intros Hk m (b1 & -> & Hw1 & Hc1 & Hs1). cbn [mbind res_bind].
  destruct (Hk b1 Hw1 Hs1) as (b2 & -> & Hw2 & Hc2 & Hs2). exists b2. split_and!; [done|done| |].
  - by rewrite Hc2, Hc1, <- app_assoc.
  - rewrite zlen_app. lia.
Qed.

Lemma as_string_small s : zlen s <= int_max -> StringPiece.as_string (StringPiece.StringPiece_string s) = Ok s.
Proof.
  intros Hs. apply StringPiece.denotes_text. split; [|by exists []; rewrite app_nil_r].
  cbn. apply i32_small. pose proof (zlen_nonneg s). unfold in_int, int_min. lia.
Qed.

Lemma append_string_extends b s : Buffer.wf b -> zlen s <= int_max -> Buffer.size b + zlen s <= Buffer.max_size ->
  extends b s (append_string b s).
Proof. intros. unfold append_string. rewrite as_string_small by done. by apply append_extends. Qed.

Definition no_nul (s : list byte) : Prop := Forall (fun b => is_char x00 b = false) s.

Lemma append_cstr_extends b s : Buffer.wf b -> no_nul s -> zlen s <= int_max -> Buffer.size b + zlen s <= Buffer.max_size ->
  extends b s (append_cstr b s).
Proof.
  intros Hw Hn Hl Hs. unfold append_cstr, StringPiece.StringPiece_cstr, StringPiece.strlen.
  rewrite find_idx_app by done. rewrite decide_True by (rewrite length_app; cbn; lia). cbn [mbind res_bind].
  rewrite (StringPiece.denotes_text _ s); [by apply append_extends|]. split; cbn.
  - fold (zlen s). apply i32_small. pose proof (zlen_nonneg s). unfold in_int, int_min. lia.
  - by eexists.
Qed.

Lemma no_nul_dec n : 0 <= n -> no_nul (dec n).
Proof.
  intros Hn. unfold dec. case_match; zbool; [lia|]. eapply Forall_impl; [by apply dec_pos_digits|].
  cbn. intros b Hb. unfold is_char. apply bool_decide_eq_false_2. by intros ->.
Qed.

Lemma no_nul_app s t : no_nul s -> no_nul t -> no_nul (s ++ t).
Proof. intros. by apply Forall_app. Qed.

#[local] Hint Resolve no_nul_app no_nul_dec : core.
Ltac literal := unfold no_nul; apply (bool_decide_unpack _); vm_compute; exact I.

Lemma headers_extends hs b : Buffer.wf b -> Forall (fun h => zlen h.1 <= int_max /\ zlen h.2 <= int_max) hs ->
  Buffer.size b + zlen (mjoin (map render_header hs)) <= Buffer.max_size ->
  extends b (mjoin (map render_header hs)) (append_headers b hs).
Proof.
  intros Hw Hh. revert b Hw. induction Hh as [|[k v] hs [Hk Hv] _ IH]; intros b Hw Hs.
  { exists b. cbn. rewrite app_nil_r. split_and!; try done. pose proof (zlen_nonneg (@nil byte)). lia. }
  change (mjoin (map render_header ((k, v) :: hs))) with (render_header (k, v) ++ mjoin (map render_header hs)) in *.
  change (render_header (k, v)) with (k ++ bs ": " ++ v ++ crlf) in *. set (tl := mjoin (map render_header hs)) in *.
  rewrite <- !app_assoc in *. rewrite !zlen_app in Hs.
  pose proof (zlen_nonneg k). pose proof (zlen_nonneg v). pose proof (zlen_nonneg tl).
  change (zlen (bs ": ")) with 2 in *. change (zlen crlf) with 2 in *. cbn [append_headers].
  eapply extends_bind; [|apply append_string_extends; [done|done|lia]]. intros b1 Hw1 Hs1.
  eapply extends_bind; [|apply append_cstr_extends; [done|literal|done|change (zlen (bs ": ")) with 2; lia]]. intros b2 Hw2 Hs2.
  change (zlen (bs ": ")) with 2 in *.
  eapply extends_bind; [|apply append_string_extends; [done|done|lia]]. intros b3 Hw3 Hs3.
  eapply extends_bind; [|apply append_cstr_extends; [done|literal|done|change (zlen crlf) with 2; lia]]. intros b4 Hw4 Hs4.
  change (zlen crlf) with 2 in *. apply IH; [done|]. lia.
Qed.

(** ** The status line and the length line fit the 32-byte array *)

Lemma status_line_ok s : snprintf 32 (bs "HTTP/1.1 " ++ dec (code s) ++ bs " ") = bs "HTTP/1.1 " ++ dec (code s) ++ bs " ".
Proof. by destruct s; vm_compute. Qed.

Lemma length_line_ok n : 0 <= n <= int_max ->
  snprintf 32 (bs "Content-Length: " ++ dec n ++ crlf) = bs "Content-Length: " ++ dec n ++ crlf.
Proof.
  intros Hn. unfold snprintf. apply take_ge. unfold dec, int_max in *. case_match; zbool; [lia|].
  pose proof (length_dec_pos n 10 ltac:(lia) ltac:(change (Z.of_nat 10) with 10; lia)).
  rewrite !length_app. change (length (bs "Content-Length: ")) with 16%nat. change (length crlf) with 2%nat. lia.
Qed.

Lemma dec_len n : 0 <= n <= int_max -> zlen (dec n) <= int_max.
Proof.
  intros Hn. unfold dec, int_max, zlen in *. case_match; zbool; [lia|].
  pose proof (length_dec_pos n 10 ltac:(lia) ltac:(change (Z.of_nat 10) with 10; lia)). lia.
Qed.

(** The text of the connection lines, and its two ways. *)
Definition connection_lines (r : HttpResponse.t) : list byte :=
  if closeConnection_ r then bs "Connection: close" ++ crlf
  else bs "Content-Length: " ++ dec (zlen (body_ r)) ++ crlf ++ bs "Connection: Keep-Alive" ++ crlf.

Lemma connection_extends r b : Buffer.wf b -> zlen (body_ r) <= int_max ->
  Buffer.size b + zlen (connection_lines r) <= Buffer.max_size ->
  extends b (connection_lines r)
    (if closeConnection_ r then append_cstr b (bs "Connection: close" ++ crlf)
     else output ← append_cstr b (snprintf 32 (bs "Content-Length: " ++ dec (zlen (body_ r)) ++ crlf));
          append_cstr output (bs "Connection: Keep-Alive" ++ crlf)).
Proof.
  intros Hw Hb Hs. unfold connection_lines in *. pose proof (zlen_nonneg (body_ r)). destruct (closeConnection_ r).
  - apply append_cstr_extends; [done|literal|done|done].
  - rewrite length_line_ok by done. pose proof (dec_len (zlen (body_ r)) ltac:(done)).
    replace (bs "Content-Length: " ++ dec (zlen (body_ r)) ++ crlf ++ bs "Connection: Keep-Alive" ++ crlf)
      with ((bs "Content-Length: " ++ dec (zlen (body_ r)) ++ crlf) ++ bs "Connection: Keep-Alive" ++ crlf) in *
      by by rewrite <- !app_assoc.
    rewrite zlen_app in Hs. pose proof (zlen_nonneg (bs "Connection: Keep-Alive" ++ crlf)).
    apply extends_bind.
    + intros b1 Hw1 Hs1. apply append_cstr_extends; [done|literal|done|lia].
    + apply append_cstr_extends; [done| | |lia].
      * repeat apply no_nul_app; [literal|by apply no_nul_dec|literal].
      * rewrite !zlen_app. change (zlen (bs "Content-Length: ")) with 16. change (zlen crlf) with 2.
        unfold dec, zlen, int_max in *. case_match; zbool; [lia|].
        pose proof (length_dec_pos (Z.of_nat (length (body_ r))) 10 ltac:(lia) ltac:(change (Z.of_nat 10) with 10; lia)). lia.
Qed.

Lemma appendToBuffer_extends r b : Buffer.wf b -> response_ok r -> Buffer.size b + zlen (render r) <= Buffer.max_size ->
  extends b (render r) (appendToBuffer r b).
Proof.
  intros Hw [Hm Hh Hb] Hs.
  assert (render r = (bs "HTTP/1.1 " ++ dec (code (statusCode_ r)) ++ bs " ") ++ statusMessage_ r ++ crlf ++ connection_lines r ++
    mjoin (map render_header (headers_ r)) ++ crlf ++ body_ r) as E by (unfold render, connection_lines; by rewrite <- !app_assoc).
  rewrite E in *. clear E. unfold appendToBuffer. rewrite status_line_ok.
  set (st := bs "HTTP/1.1 " ++ _) in *. set (hs := mjoin _) in *. set (cn := connection_lines r) in *.
  assert (no_nul st /\ zlen st <= int_max) as [Hn Hl] by (unfold st; destruct (statusCode_ r); (split; [literal|done])).
  clearbody st. rewrite !zlen_app in Hs.
  pose proof (zlen_nonneg st). pose proof (zlen_nonneg (statusMessage_ r)). pose proof (zlen_nonneg cn).
  pose proof (zlen_nonneg hs). pose proof (zlen_nonneg (body_ r)). change (zlen crlf) with 2 in *.
  eapply extends_bind; [|apply append_cstr_extends; [done|done|done|lia]]. intros b1 Hw1 Hs1.
  eapply extends_bind; [|apply append_string_extends; [done|done|lia]]. intros b2 Hw2 Hs2.
  eapply extends_bind; [|apply append_cstr_extends; [done|literal|done|change (zlen crlf) with 2; lia]]. intros b3 Hw3 Hs3. change (zlen crlf) with 2 in Hs3.
  eapply extends_bind; [|apply connection_extends; [done|done|fold cn; lia]]. intros b4 Hw4 Hs4. fold cn in Hs4.
  eapply extends_bind; [|apply headers_extends; [done|done|fold hs; lia]]. intros b5 Hw5 Hs5. fold hs in Hs5.
  eapply extends_bind; [|apply append_cstr_extends; [done|literal|done|change (zlen crlf) with 2; lia]]. intros b6 Hw6 Hs6. change (zlen crlf) with 2 in Hs6.
  apply append_string_extends; [done|done|lia].
Qed.

(** ** The answer to a complete request *)

Definition wants_close (q : HttpExchange.message) : bool :=
  let connection := match StdMap.find (bs "Connection") (foldl (fun m h => StdMap.set h.1 h.2 m) [] (HttpExchange.m_headers q)) with
                    | Some v => v | None => [] end in
  bool_decide (connection = bs "close") ||
  (bool_decide (HttpExchange.m_version q = HttpRequest.kHttp10) && negb (bool_decide (connection = bs "Keep-Alive"))).

(** What the server makes of a request. *)
Lemma onRequest_answers cb rt q :
  let resp := cb (HttpExchange.denotes q rt) (HttpResponse.new (wants_close q)) in
  response_ok resp -> zlen (render resp) <= Buffer.max_size - 1032 ->
  HttpServer.onRequest cb (HttpExchange.denotes q rt) =
    Ok (HttpServer.Send (render resp) :: if closeConnection_ resp then [HttpServer.Shutdown] else []).
Proof.
  intros resp Hr Hl. unfold HttpServer.onRequest.
  unfold HttpRequest.getHeader. cbn [HttpRequest.headers_ HttpRequest.version_ HttpExchange.denotes].
  fold (wants_close q). fold resp.
  destruct (Buffer.new_ok Buffer.kInitialSize) as (b0 & -> & Hw0 & Hc0 & Hwr & Hr0); [done..|]. cbn [mbind res_bind].
  destruct (appendToBuffer_extends resp b0 Hw0 Hr) as (b1 & -> & Hw1 & Hc1 & _).
  { rewrite Buffer.writableBytes_wf in Hwr by done. pose proof (Buffer.zlen_content b0 Hw0) as Hz. rewrite Hc0 in Hz.
    unfold zlen in Hz. cbn [length] in Hz. unfold Buffer.kInitialSize, Buffer.kCheapPrepend in *. lia. }
  cbn [mbind res_bind]. by rewrite Hc1, Hc0.
Qed.

(** A buffer that starts with a printed request is answered once: the
    callback's response, in the wire format, then a shutdown exactly when the
    response closes the connection, which it does by default for
    [Connection: close] and for HTTP/1.0 without [Keep-Alive]; the context is
    reset and the bytes behind the request stay in the buffer. *)
Theorem onMessage_answers cb rt q buf rest :
  HttpExchange.message_ok q -> Buffer.wf buf -> Buffer.content buf = HttpExchange.print q ++ rest ->
  let resp := cb (HttpExchange.denotes q rt) (HttpResponse.new (wants_close q)) in
  response_ok resp -> zlen (render resp) <= Buffer.max_size - 1032 ->
  exists buf', HttpServer.onMessage cb HttpContext.new buf rt =
      Some (Ok (HttpContext.new, buf', HttpServer.Send (render resp) :: if closeConnection_ resp then [HttpServer.Shutdown] else [])) /\
    Buffer.wf buf' /\ Buffer.content buf' = rest.
Proof.
  intros Hq Hwf Hc resp Hr Hl. pose proof (HttpExchange.parses_print rt q rest Hq) as Hp. rewrite <- Hc in Hp.
  destruct (HttpParser.parseRequest_refines rt HttpContext.new buf _ Hwf ltac:(by left) Hp) as ([[[ok c] b]|] & E & M); [|done].
  destruct M as (-> & -> & Hwf' & Hc'). exists b. split; [|done]. unfold HttpServer.onMessage. rewrite E. cbn [mbind res_bind app].
  change (HttpContext.gotAll _) with true. cbn iota. cbn [HttpContext.request_]. by rewrite onRequest_answers.
Qed.

Lemma onMessage_answers_witness :
  let cb : HttpServer.HttpCallback := fun req resp => setBody (setStatusMessage (setStatusCode resp k200Ok) (bs "OK")) (HttpRequest.path_ req) in
  exists buf', HttpServer.onMessage cb HttpContext.new (HttpParser.buf_of (HttpExchange.print HttpExchange.sample_request)) Timestamp.invalid
    = Some (Ok (HttpContext.new, buf',
        [HttpServer.Send (bs "HTTP/1.1 200 OK" ++ crlf ++ bs "Connection: close" ++ crlf ++ crlf ++ bs "/a"); HttpServer.Shutdown])) /\
    Buffer.content buf' = [].
Proof.
  intros cb. destruct (HttpParser.buf_of_ok (HttpExchange.print HttpExchange.sample_request)) as [Hw Hc]; [done|].
  destruct (onMessage_answers cb Timestamp.invalid HttpExchange.sample_request
    (HttpParser.buf_of (HttpExchange.print HttpExchange.sample_request)) []) as (b & E & _ & Hb).
  - apply HttpExchange.sample_request_ok.
  - exact Hw.
  - by rewrite app_nil_r.
  - split; [by vm_compute|constructor|by vm_compute].
  - by vm_compute.
  - exists b. split; [exact E|exact Hb].
Defined.

End HttpAnswer.
