(* ===== verification/Inspector.v ===== *)
(** The inspector (src/networking/inspect/Inspector.h, Inspector.cpp): commands
    registered by module and name, and the HTTP requests that reach them.

    A command's callback is a function of the method and the arguments; an empty
    [std::function] is [None]. *)

From S2P Require Import Prelude StringPiece StdMap Timestamp Buffer Http.

Module Inspector.

Definition slash : byte := x2f.

(** [str.find('/', start)] *)
Definition find_from (str : list byte) (start : nat) : option nat :=
  let i := (start + find_idx (is_char slash) (drop start str))%nat in
  if decide (i < length str)%nat then Some i else None.

(** The loop of [split], from [start] and the next slash; every turn moves
    [start] past one. *)
Fixpoint split_loop (fuel : nat) (str : list byte) (start : nat) (pos : option nat) (result : list (list byte)) : list (list byte) :=
  match fuel, pos with
  | S fuel, Some pos =>
      let result := if decide (start < pos)%nat then result ++ [take (pos - start) (drop start str)] else result in
      let start := S pos in
      split_loop fuel str start (find_from str start) result
  | _, _ => if decide (start < length str)%nat then result ++ [drop start str] else result
  end.
Definition split (str : list byte) : list (list byte) := split_loop (length str) str 0 (find_from str 0) [].

Definition Callback : Type := HttpRequest.Method -> list (list byte) -> list byte.
Abbreviation CommandList := (list (list byte * option Callback)).
Abbreviation HelpList := (list (list byte * list byte)).

Record t := mk {
  modules_ : list (list byte * CommandList);
  helps_ : list (list byte * HelpList);
}.
Definition new : t := mk [] [].

(** [m[k]], which makes an empty entry. *)
Definition at_ {V} (m : list (list byte * list V)) (k : list byte) : list V :=
  match StdMap.find k m with Some v => v | None => [] end.

Definition add (s : t) (module command : list byte) (cb : option Callback) (help : list byte) : t :=
  mk (StdMap.set module (StdMap.set command cb (at_ (modules_ s) module)) (modules_ s))
     (StdMap.set module (StdMap.set command help (at_ (helps_ s) module)) (helps_ s)).

Definition remove (s : t) (module command : list byte) : t :=
  match StdMap.find module (modules_ s) with
  | Some commands =>
      mk (StdMap.set module (StdMap.erase command commands) (modules_ s))
         (StdMap.set module (StdMap.erase command (at_ (helps_ s) module)) (helps_ s))
  | None => s
  end.

(** A line of the index. *)
Definition help_line (module : list byte) (it : list byte * list byte) : list byte :=
  let len := zlen module + zlen it.1 in
  bs "/" ++ module ++ bs "/" ++ it.1 ++ replicate (Z.to_nat (if 25 <=? len then 1 else 25 - len)) x20 ++ it.2 ++ [x0a].
Definition index (s : t) : list byte := concat (map (fun h => concat (map (help_line h.1) h.2)) (helps_ s)).

Definition answer (resp : HttpResponse.t) (contentType body : list byte) : HttpResponse.t :=
  HttpResponse.setBody (HttpResponse.setContentType (HttpResponse.setStatusMessage
    (HttpResponse.setStatusCode resp HttpResponse.k200Ok) (bs "OK")) contentType) body.

(** [onRequest]; the bytes of the icon are a parameter. *)
Definition onRequest (favicon : list byte) (s : t) (req : HttpRequest.t) (resp : HttpResponse.t) : HttpResponse.t :=
  if bool_decide (HttpRequest.path_ req = bs "/") then answer resp (bs "text/plain") (index s)
  else
    let ok :=
      match split (HttpRequest.path_ req) with
      | [] => None
      | [module] => if bool_decide (module = bs "favicon.ico") then Some (answer resp (bs "image/png") favicon) else None
      | module :: command :: args =>
          match StdMap.find module (modules_ s) with
          | Some commList =>
              match StdMap.find command commList with
              | Some (Some cb) => Some (answer resp (bs "text/plain") (cb (HttpRequest.method_ req) args))
              | _ => None
              end
          | None => None
          end
      end in
    match ok with
    | Some resp => resp
    | None => HttpResponse.setStatusMessage (HttpResponse.setStatusCode resp HttpResponse.k404NotFound) (bs "Not Found")
    end.

(** ** Splitting paths *)

(** The parts between slashes, without the empty ones. *)
Fixpoint parts (str : list byte) : list (list byte) :=
  match str with
  | [] => [[]]
  | b :: str =>
      if bool_decide (b = slash) then [] :: parts str
      else match parts str with p :: ps => (b :: p) :: ps | [] => [[b]] end
  end.
Definition segments (str : list byte) : list (list byte) := filter (fun p => p <> []) (parts str).

Lemma parts_plain p : slash ∉ p -> parts p = [p].
Proof.
  induction p as [|b p IH]; intros Hp; [done|]. apply not_elem_of_cons in Hp as [Hb Hp]. cbn.
  rewrite bool_decide_false by done. by rewrite IH.
Qed.
Lemma parts_slash p str : slash ∉ p -> parts (p ++ slash :: str) = p :: parts str.
Proof.
  induction p as [|b p IH]; intros Hp; cbn.
  - by rewrite bool_decide_true.
  - apply not_elem_of_cons in Hp as [Hb Hp]. rewrite bool_decide_false by done. by rewrite IH.
Qed.

(** The text from [start] up to a slash, or to the end. *)
Lemma find_from_spec str start :
  (start <= length str)%nat ->
  match find_from str start with
  | Some pos => (start <= pos < length str)%nat /\
      exists p, drop start str = p ++ slash :: drop (S pos) str /\ slash ∉ p /\ p = take (pos - start) (drop start str)
  | None => slash ∉ drop start str
  end.
Proof.
  intros Hs. unfold find_from. set (r := drop start str). set (i := find_idx (is_char slash) r).
  assert (Hlen : length r = (length str - start)%nat) by apply length_drop.
  assert (Hbefore : slash ∉ take i r).
  { intros [k Hk]%list_elem_of_lookup. apply lookup_take_Some in Hk as [Hk Hl].
    pose proof (find_idx_before (is_char slash) r k slash Hl Hk) as Hf. unfold is_char in Hf. by rewrite bool_decide_true in Hf. }
  case_decide as Hi.
  - split; [lia|]. exists (take i r). replace (start + i - start)%nat with i by lia. split; [|done].
    destruct (find_idx_found (is_char slash) r) as (x & Hx & Hc); [fold i; lia|]. fold i in Hx.
    unfold is_char in Hc. apply bool_decide_eq_true in Hc as ->.
    rewrite <- (take_drop i r) at 1. f_equal. rewrite (drop_S r slash i Hx). f_equal.
    unfold r. rewrite drop_drop. f_equal. lia.
  - pose proof (find_idx_le (is_char slash) r). fold i in H. rewrite take_ge in Hbefore by lia. done.
Qed.

Lemma split_loop_spec fuel str start result :
  (start <= length str)%nat -> (length str - start <= fuel)%nat ->
  split_loop fuel str start (find_from str start) result = result ++ segments (drop start str).
Proof.
  revert start result. induction fuel as [|fuel IH]; intros start result Hs Hf.
  - assert (start = length str) as -> by lia. cbn.
    replace (find_from str (length str)) with (@None nat).
    2:{ unfold find_from. rewrite drop_all. cbn. by rewrite decide_False by lia. }
    rewrite decide_False by lia. unfold segments. rewrite drop_all. cbn. by rewrite app_nil_r.
  - pose proof (find_from_spec str start Hs) as Hfind. destruct (find_from str start) as [pos|] eqn:Ef; cbn.
    + destruct Hfind as (Hp & p & Ed & Hn & Et). rewrite IH by lia. rewrite Ed. unfold segments. rewrite parts_slash by done.
      rewrite <- Ed, <- Et. assert (Hl : length p = (pos - start)%nat) by (rewrite Et, length_take, length_drop; lia).
      case_decide.
      * rewrite filter_cons_True by (by intros ->; cbn in Hl; lia). by rewrite <- app_assoc.
      * assert (p = []) as -> by (apply length_zero_iff_nil; lia). by rewrite filter_cons_False by naive_solver.
    + unfold segments. rewrite parts_plain by done. case_decide.
      * rewrite filter_cons_True; [done|]. intros E%(f_equal length). rewrite length_drop in E. cbn in E. lia.
      * rewrite drop_ge by lia. by rewrite filter_cons_False, filter_nil, app_nil_r by naive_solver.
Qed.

Lemma split_segments str : split str = segments str.
Proof. unfold split. rewrite split_loop_spec by lia. done. Qed.

(** The path of a list of segments. *)
Definition join (segs : list (list byte)) : list byte := concat (map (cons slash) segs).
Definition segment (p : list byte) : Prop := p <> [] /\ slash ∉ p.

Lemma parts_join p segs : slash ∉ p -> Forall segment segs -> parts (p ++ join segs) = p :: segs.
Proof.
  intros Hp Hs. revert p Hp. induction Hs as [|q segs [Hq Hq'] Hs IH]; intros p Hp; cbn.
  - rewrite app_nil_r. by apply parts_plain.
  - rewrite parts_slash by done. by rewrite IH.
Qed.

Lemma split_join segs : Forall segment segs -> split (join segs) = segs.
Proof.
  intros Hs. rewrite split_segments. unfold segments. change (join segs) with ([] ++ join segs).
  rewrite parts_join by (done || by apply not_elem_of_nil).
  rewrite filter_cons_False by naive_solver. induction Hs as [|q segs [Hq Hq'] Hs IH]; [done|].
  rewrite filter_cons_True by done. by rewrite IH.
Qed.

(** ** The registry *)

Inductive op := Add (module command : list byte) (cb : option Callback) (help : list byte) | Remove (module command : list byte).
Definition apply_op (s : t) (o : op) : t := match o with Add m c cb help => add s m c cb help | Remove m c => remove s m c end.
Definition run_ops (l : list op) : t := foldl apply_op new l.

(** What is registered under a module and a command: what the last operation on
    them left. *)
Definition spec : Type := list byte -> list byte -> option (option Callback * list byte).
Definition spec_op (f : spec) (o : op) : spec := fun m' c' =>
  match o with
  | Add m c cb help => if decide (m' = m /\ c' = c) then Some (cb, help) else f m' c'
  | Remove m c => if decide (m' = m /\ c' = c) then None else f m' c'
  end.
Definition spec_ops (l : list op) : spec := foldl spec_op (fun _ _ => None) l.

Definition nested {V} (m : list (list byte * list (list byte * V))) : Prop :=
  StdMap.sorted m /\ forall k l, StdMap.find k m = Some l -> StdMap.sorted l.
Definition find2 {V} (m : list (list byte * list (list byte * V))) (k c : list byte) : option V := StdMap.find c (at_ m k).

Lemma at_sorted {V} (m : list (list byte * list (list byte * V))) k : nested m -> StdMap.sorted (at_ m k).
Proof. intros [_ Hm]. unfold at_. destruct (StdMap.find k m) eqn:E; [by eapply Hm|constructor]. Qed.

Lemma nested_set {V} (m : list (list byte * list (list byte * V))) k l :
  nested m -> StdMap.sorted l -> nested (StdMap.set k l m) /\
  (forall k' c, find2 (StdMap.set k l m) k' c = if decide (k' = k) then StdMap.find c l else find2 m k' c).
Proof.
  intros [Hs Hm] Hl. split; [split; [by apply StdMap.set_sorted|]|].
  - intros k' l'. destruct (decide (k' = k)) as [->|Hne].
    + rewrite StdMap.find_set_eq. by intros [= <-].
    + rewrite StdMap.find_set_ne by done. apply Hm.
  - intros k' c. unfold find2, at_. case_decide as Hk; [subst; by rewrite StdMap.find_set_eq|by rewrite StdMap.find_set_ne].
Qed.

Record good (s : t) (f : spec) : Prop := {
  g_modules : nested (modules_ s);
  g_helps : nested (helps_ s);
  g_cb m c : find2 (modules_ s) m c = fst <$> f m c;
  g_help m c : find2 (helps_ s) m c = snd <$> f m c;
}.

Lemma add_good s f m c cb help : good s f -> good (add s m c cb help) (spec_op f (Add m c cb help)).
Proof.
  intros [G1 G2 G3 G4]. unfold add.
  destruct (nested_set (modules_ s) m (StdMap.set c cb (at_ (modules_ s) m)) G1) as [N1 F1]; [by apply StdMap.set_sorted, at_sorted|].
  destruct (nested_set (helps_ s) m (StdMap.set c help (at_ (helps_ s) m)) G2) as [N2 F2]; [by apply StdMap.set_sorted, at_sorted|].
  split; cbn; [done|done| |]; intros m' c'; rewrite ?F1, ?F2; (destruct (decide (m' = m)) as [->|Hm];
    [destruct (decide (c' = c)) as [->|Hc];
      [rewrite StdMap.find_set_eq, decide_True by done; done
      |rewrite StdMap.find_set_ne, decide_False by (try apply at_sorted; naive_solver)]
    |rewrite decide_False by naive_solver]); by (apply G3 || apply G4).
Qed.

Lemma find2_erase {V} (m : list (list byte * list (list byte * V))) k c c' : nested m ->
  StdMap.find c' (StdMap.erase c (at_ m k)) = if decide (c' = c) then None else find2 m k c'.
Proof.
  intros Hm. pose proof (at_sorted m k Hm). case_decide as Hc; [subst; by apply StdMap.find_erase_eq|by apply StdMap.find_erase_ne].
Qed.

Lemma remove_good s f m c : good s f -> good (remove s m c) (spec_op f (Remove m c)).
Proof.
  intros [G1 G2 G3 G4]. unfold remove. destruct (StdMap.find m (modules_ s)) as [l|] eqn:El.
  - assert (l = at_ (modules_ s) m) as -> by (unfold at_; by rewrite El).
    destruct (nested_set (modules_ s) m (StdMap.erase c (at_ (modules_ s) m)) G1) as [N1 F1]; [by apply StdMap.erase_sorted, at_sorted|].
    destruct (nested_set (helps_ s) m (StdMap.erase c (at_ (helps_ s) m)) G2) as [N2 F2]; [by apply StdMap.erase_sorted, at_sorted|].
    split; cbn; [done|done| |]; intros m' c'; rewrite ?F1, ?F2; (destruct (decide (m' = m)) as [->|Hm];
      [rewrite find2_erase by done; destruct (decide (c' = c)) as [->|Hc];
        [by rewrite decide_True|rewrite decide_False by naive_solver]
      |rewrite decide_False by naive_solver]); by (apply G3 || apply G4).
  - assert (Hnone : forall c', f m c' = None).
    { intros c'. specialize (G3 m c'). unfold find2, at_ in G3. rewrite El in G3. cbn in G3. by destruct (f m c'). }
    split; try done; intros m' c'; cbn; (case_decide as Hmc; [destruct Hmc as [-> ->]; rewrite ?G3, ?G4, Hnone; done|by (apply G3 || apply G4)]).
Qed.

Lemma run_ops_good l : good (run_ops l) (spec_ops l).
Proof.
  unfold run_ops, spec_ops.
  assert (H0 : good new (fun _ _ => None)) by (split; [split; [constructor|done]..|done|done]).
  revert H0. generalize new (fun _ _ : list byte => @None (option Callback * list byte)).
  induction l as [|o l IH]; intros s f G; [done|]. cbn. apply IH. destruct o; [by apply add_good|by apply remove_good].
Qed.

(** The answer to the path of a command. *)
Lemma onRequest_command favicon l module command args req resp :
  Forall segment (module :: command :: args) -> HttpRequest.path_ req = join (module :: command :: args) ->
  onRequest favicon (run_ops l) req resp =
    match spec_ops l module command with
    | Some (Some cb, _) => answer resp (bs "text/plain") (cb (HttpRequest.method_ req) args)
    | _ => HttpResponse.setStatusMessage (HttpResponse.setStatusCode resp HttpResponse.k404NotFound) (bs "Not Found")
    end.
Proof.
  intros Hs Hp. destruct (run_ops_good l) as [G1 G2 G3 G4].
  unfold onRequest. rewrite Hp, split_join by done. rewrite bool_decide_false.
  2:{ inversion Hs as [|? ? [Hm _] _]; subst. destruct module as [|b m]; [done|]. cbn. intros [=]. }
  specialize (G3 module command). unfold find2, at_ in G3. destruct (StdMap.find module _) as [cl|]; cbn in G3.
  - rewrite G3. destruct (spec_ops l module command) as [[[cb|] help]|]; done.
  - by destruct (spec_ops l module command).
Qed.

(** The commands and their help, in the order of the two maps. *)
Definition rows (helps : list (list byte * HelpList)) : list (list byte * list byte * list byte) :=
  concat (map (fun h => map (fun it => ((h.1, it.1), it.2)) h.2) helps).

Lemma rows_elem helps m c help : ((m, c), help) ∈ rows helps <-> exists hl, (m, hl) ∈ helps /\ (c, help) ∈ hl.
Proof.
  unfold rows. rewrite list_elem_of_In, in_concat. split.
  - intros (l & (h & <- & Hh%list_elem_of_In)%in_map_iff & ([c' help'] & [= <- <- <-] & Hi%list_elem_of_In)%in_map_iff).
    exists h.2. by destruct h.
  - intros (hl & Hm%list_elem_of_In & Hc%list_elem_of_In). exists (map (fun it => ((m, it.1), it.2)) hl). split.
    + apply in_map_iff. by exists (m, hl).
    + apply in_map_iff. by exists (c, help).
Qed.

Lemma row_sorted m (hl : HelpList) : StdMap.sorted hl -> StdMap.sorted (map (fun it => ((m, it.1), it.2)) hl).
Proof.
  induction 1 as [|c help hl Hb Hs IH]; cbn; [constructor|]. constructor; [|done]. apply Forall_forall. intros q Hq.
  apply list_elem_of_In, in_map_iff in Hq as ([c' h'] & <- & Hi%list_elem_of_In). eapply Forall_forall in Hb; [|exact Hi].
  cbn in *. rewrite Hb. by destruct (StringPiece.lex m m <? 0).
Qed.

Lemma rows_sorted helps : nested helps -> StdMap.sorted (rows helps).
Proof.
  intros [Hs Hn]. assert (forall m hl, (m, hl) ∈ helps -> StdMap.sorted hl) as Hl.
  { intros m hl Hin. apply (Hn m). by apply StdMap.find_elem. }
  clear Hn. induction Hs as [|m hl helps Hb Hs IH]; [constructor|]. change (rows _) with (map (fun it => ((m, it.1), it.2)) hl ++ rows helps).
  apply StdMap.sorted_app; [apply row_sorted, (Hl m); by left|apply IH; intros m' hl' ?; apply (Hl m'); by right|].
  intros p [[m' c'] h'] Hp (hl' & Hm & _)%rows_elem. apply list_elem_of_In, in_map_iff in Hp as (it & <- & _).
  eapply Forall_forall in Hb; [|exact Hm]. cbn in *. by rewrite Hb.
Qed.

(** A line of the index: the path of the command, at least one space and more up
    to a width of 27 characters, and the help. *)
Definition index_line (r : list byte * list byte * list byte) : list byte :=
  let path := join [r.1.1; r.1.2] in path ++ replicate (1 `max` (27 - length path)) x20 ++ r.2 ++ [x0a].

Lemma help_line_row m it : help_line m it = index_line ((m, it.1), it.2).
Proof.
  unfold help_line, index_line, join. cbn [map concat fst snd]. rewrite app_nil_r. cbn [app]. rewrite <- app_assoc. cbn [app].
  change slash with x2f. do 2 f_equal. do 3 f_equal. f_equal. cbn. rewrite length_app. cbn. unfold zlen.
  destruct (Z.leb_spec 25 (Z.of_nat (length m) + Z.of_nat (length it.1))); lia.
Qed.

Lemma index_rows s : index s = concat (map index_line (rows (helps_ s))).
Proof.
  unfold index, rows. induction (helps_ s) as [|h hs IH]; [done|]. cbn [map concat]. rewrite map_app, concat_app, <- IH, map_map. f_equal.
  f_equal. apply map_ext. intros it. apply help_line_row.
Qed.

(** The rows are what is registered. *)
Lemma rows_registered l m c help : ((m, c), help) ∈ rows (helps_ (run_ops l)) <-> exists cb, spec_ops l m c = Some (cb, help).
Proof.
  destruct (run_ops_good l) as [G1 G2 G3 G4]. specialize (G4 m c). destruct G2 as [S1 S2]. unfold find2, at_ in G4. rewrite rows_elem. split.
  - intros (hl & Hm & Hc). apply StdMap.find_elem in Hm; [|done]. rewrite Hm in G4.
    apply StdMap.find_elem in Hc; [|by eapply S2]. rewrite Hc in G4. destruct (spec_ops l m c) as [[cb h]|]; [|done].
    cbn in G4. injection G4 as ->. by exists cb.
  - intros [cb E]. rewrite E in G4. destruct (StdMap.find m (helps_ (run_ops l))) as [hl|] eqn:Eh; [|done].
    exists hl. split; [by apply StdMap.find_elem|]. apply StdMap.find_elem; [by eapply S2|done].
Qed.

Definition not_found (resp : HttpResponse.t) : HttpResponse.t :=
  HttpResponse.setStatusMessage (HttpResponse.setStatusCode resp HttpResponse.k404NotFound) (bs "Not Found").

(** C19: every request is routed.  After any sequence of registrations and
    removals, a request for "/" is answered by an index with one line, of path
    and help, for each command registered and no other, in order; one for the
    icon by the icon; and any other path goes by its parts between slashes that
    are not empty: a first part that is a module and a second that is a command
    last registered with a callback are answered with 200 and what the callback
    returns on the method and exactly the other parts, and everything else with
    404. *)
Theorem requests_routed favicon l req resp :
  exists table : list (list byte * list byte * list byte),
    StdMap.sorted table /\ (forall m c help, ((m, c), help) ∈ table <-> exists cb, spec_ops l m c = Some (cb, help)) /\
    onRequest favicon (run_ops l) req resp =
      if decide (HttpRequest.path_ req = bs "/") then answer resp (bs "text/plain") (concat (map index_line table))
      else match segments (HttpRequest.path_ req) with
           | [part] => if decide (part = bs "favicon.ico") then answer resp (bs "image/png") favicon else not_found resp
           | module :: command :: args =>
               match spec_ops l module command with
               | Some (Some cb, _) => answer resp (bs "text/plain") (cb (HttpRequest.method_ req) args)
               | _ => not_found resp
               end
           | [] => not_found resp
           end.
Proof.
  destruct (run_ops_good l) as [G1 G2 G3 G4]. exists (rows (helps_ (run_ops l))). split_and!.
  - by apply rows_sorted.
  - intros. apply rows_registered.
  - unfold onRequest. rewrite split_segments, index_rows. destruct (decide (HttpRequest.path_ req = bs "/")) as [E|E].
    { by rewrite bool_decide_true. }
    rewrite bool_decide_false by done. destruct (segments (HttpRequest.path_ req)) as [|module [|command args]]; [done| |].
    + case_decide; [by rewrite bool_decide_true|by rewrite bool_decide_false].
    + specialize (G3 module command). unfold find2, at_ in G3. destruct (StdMap.find module _) as [cl|]; cbn in G3.
      * rewrite G3. destruct (spec_ops l module command) as [[[cb|] help]|]; done.
      * by destruct (spec_ops l module command).
Qed.

Definition sample_ops : list op :=
  [Add (bs "proc") (bs "echo") (Some (fun _ args => concat args)) (bs "echo"); Add (bs "sys") (bs "gone") None (bs "x"); Remove (bs "sys") (bs "gone")].
Definition sample_req : HttpRequest.t := HttpRequest.setPath HttpRequest.new (bs "/proc/echo/a/bc").

(** A command that joins its arguments, asked for, and the index. *)
Example requests_routed_sample :
  HttpResponse.body_ (onRequest [] (run_ops sample_ops) sample_req (HttpResponse.new false)) = bs "abc" /\
  HttpResponse.body_ (onRequest [] (run_ops sample_ops) (HttpRequest.setPath HttpRequest.new (bs "/")) (HttpResponse.new false)) =
    bs "/proc/echo                 echo" ++ [x0a].
Proof. split; reflexivity. Qed.

End Inspector.
