(* ===== verification/Channel.v ===== *)
(** Channels (src/networking/Channel.h, src/networking/Channel.cpp): a file
    descriptor, the events of interest on it and the dispatch of the events that
    occurred.

    Channels are shared between their owner, the poller and the loop, so they
    live in a heap and a [Channel *] is its key in the heap.  The bits of
    [events_] and [revents_] are those of <poll.h>. *)

From S2P Require Import Prelude Printf.

Module Channel.

Definition POLLIN : Z := 1.
Definition POLLPRI : Z := 2.
Definition POLLOUT : Z := 4.
Definition POLLERR : Z := 8.
Definition POLLHUP : Z := 16.
Definition POLLNVAL : Z := 32.
Definition POLLRDHUP : Z := 8192.

Definition kNoneEvent : Z := 0.
Definition kReadEvent : Z := Z.lor POLLIN POLLPRI.
Definition kWriteEvent : Z := POLLOUT.

(** A callback member that is set names what it runs. *)
Inductive callback := ReadCallback | WriteCallback | CloseCallback | ErrorCallback.
#[global] Instance callback_eq_dec : EqDecision callback.
Proof. solve_decision. Defined.

Record t := mk {
  fd_ : Z;
  events_ : Z;
  revents_ : Z;
  index_ : Z;
  logHup_ : bool;
  tied_ : bool;
  eventHandling_ : bool;
  addedToLoop_ : bool;
  callbacks_ : list callback;
}.

Definition new (fd : Z) : t := mk fd 0 0 (-1) true false false false [].

Definition set_events (c : t) (e : Z) : t :=
  mk (fd_ c) e (revents_ c) (index_ c) (logHup_ c) (tied_ c) (eventHandling_ c) (addedToLoop_ c) (callbacks_ c).
Definition set_revents (c : t) (r : Z) : t :=
  mk (fd_ c) (events_ c) r (index_ c) (logHup_ c) (tied_ c) (eventHandling_ c) (addedToLoop_ c) (callbacks_ c).
Definition set_index (c : t) (i : Z) : t :=
  mk (fd_ c) (events_ c) (revents_ c) i (logHup_ c) (tied_ c) (eventHandling_ c) (addedToLoop_ c) (callbacks_ c).
Definition set_added (c : t) (b : bool) : t :=
  mk (fd_ c) (events_ c) (revents_ c) (index_ c) (logHup_ c) (tied_ c) (eventHandling_ c) b (callbacks_ c).
Definition set_handling (c : t) (b : bool) : t :=
  mk (fd_ c) (events_ c) (revents_ c) (index_ c) (logHup_ c) (tied_ c) b (addedToLoop_ c) (callbacks_ c).
Definition setCallback (c : t) (cb : callback) : t :=
  mk (fd_ c) (events_ c) (revents_ c) (index_ c) (logHup_ c) (tied_ c) (eventHandling_ c) (addedToLoop_ c) (cb :: callbacks_ c).
Definition doNotLogHup (c : t) : t :=
  mk (fd_ c) (events_ c) (revents_ c) (index_ c) false (tied_ c) (eventHandling_ c) (addedToLoop_ c) (callbacks_ c).
Definition tie (c : t) : t :=
  mk (fd_ c) (events_ c) (revents_ c) (index_ c) (logHup_ c) true (eventHandling_ c) (addedToLoop_ c) (callbacks_ c).

Definition isNoneEvent (c : t) : bool := events_ c =? kNoneEvent.
Definition isWriting (c : t) : bool := negb (Z.land (events_ c) kWriteEvent =? 0).
Definition isReading (c : t) : bool := negb (Z.land (events_ c) kReadEvent =? 0).

(** The new events of the five operations; each is followed by [update]. *)
Inductive interest_op := EnableReading | DisableReading | EnableWriting | DisableWriting | DisableAll.
Definition new_events (o : interest_op) (events : Z) : Z :=
  match o with
  | EnableReading => Z.lor events kReadEvent
  | DisableReading => Z.land events (Z.lnot kReadEvent)
  | EnableWriting => Z.lor events kWriteEvent
  | DisableWriting => Z.land events (Z.lnot kWriteEvent)
  | DisableAll => kNoneEvent
  end.

(** [Channel::~Channel] *)
Definition destroy (c : t) (inLoopThread hasChannel : bool) : res unit :=
  assert! negb (eventHandling_ c);
  assert! negb (addedToLoop_ c);
  if inLoopThread then assert! negb hasChannel; Ok tt else Ok tt.

Definition has (bits : Z) (ev : Z) : bool := negb (Z.land ev bits =? 0).

(** Which callbacks [handleEventWithGuard] runs on [revents_], in order. *)
Definition dispatch (c : t) : list callback :=
  let r := revents_ c in
  let run cb := if bool_decide (cb ∈ callbacks_ c) then [cb] else [] in
  (if has POLLHUP r && negb (has POLLIN r) then run CloseCallback else []) ++
  (if has (Z.lor POLLERR POLLNVAL) r then run ErrorCallback else []) ++
  (if has (Z.lor (Z.lor POLLIN POLLPRI) POLLRDHUP) r then run ReadCallback else []) ++
  (if has POLLOUT r then run WriteCallback else []).

(** [handleEventWithGuard] over the state [W] the callbacks change: [self]
    updates the channel in it.  Nothing a callback can reach assigns [revents_]
    or a callback member, so the tests all read the values at entry. *)
Fixpoint run_callbacks {W} (call : callback -> W -> res W) (l : list callback) (w : W) : res W :=
  match l with [] => Ok w | cb :: l => w ← call cb w; run_callbacks call l w end.
Definition handleEventWithGuard {W} (self : (t -> t) -> W -> res W) (call : callback -> W -> res W) (c : t) (w : W) : res W :=
  w ← self (fun c => set_handling c true) w;
  w ← run_callbacks call (dispatch c) w;
  self (fun c => set_handling c false) w.

(** [handleEvent]: nothing when the channel is tied and its owner is gone. *)
Definition handleEvent {W} (self : (t -> t) -> W -> res W) (call : callback -> W -> res W) (c : t) (owner_alive : bool) (w : W) : res W :=
  if tied_ c && negb owner_alive then Ok w else handleEventWithGuard self call c w.

Definition eventsToString (fd ev : Z) : list byte :=
  dec fd ++ bs ": "
  ++ (if has POLLIN ev then bs "IN " else []) ++ (if has POLLPRI ev then bs "PRI " else [])
  ++ (if has POLLOUT ev then bs "OUT " else []) ++ (if has POLLHUP ev then bs "HUP " else [])
  ++ (if has POLLRDHUP ev then bs "RDHUP " else []) ++ (if has POLLERR ev then bs "ERR " else [])
  ++ (if has POLLNVAL ev then bs "NVAL " else []).
Definition reventsToString (c : t) : list byte := eventsToString (fd_ c) (revents_ c).
Definition eventsToString_ (c : t) : list byte := eventsToString (fd_ c) (events_ c).

(** Channels and the pointers to them. *)
Abbreviation heap := (gmap Z t).
Definition deref (h : heap) (p : Z) : res t := match h !! p with Some c => Ok c | None => Err Undefined end.

(** ** Interest bits *)

Lemma new_events_reading o ev :
  isReading (set_events (new 0) (new_events o ev)) =
  match o with EnableReading => true | DisableReading | DisableAll => false | _ => isReading (set_events (new 0) ev) end.
Proof.
  unfold isReading. cbn [events_ set_events]. destruct o; cbn [new_events].
  - rewrite Z.land_lor_distr_l, Z.land_diag. zbool. intros E. apply Z.lor_eq_0_iff in E as [_ E]. done.
  - rewrite <- Z.land_assoc, (Z.land_comm (Z.lnot _)), Z.land_lnot_diag, Z.land_0_r. done.
  - rewrite Z.land_lor_distr_l. change (Z.land kWriteEvent kReadEvent) with 0. by rewrite Z.lor_0_r.
  - rewrite <- Z.land_assoc. change (Z.land (Z.lnot kWriteEvent) kReadEvent) with kReadEvent. done.
  - done.
Qed.

Lemma new_events_writing o ev :
  isWriting (set_events (new 0) (new_events o ev)) =
  match o with EnableWriting => true | DisableWriting | DisableAll => false | _ => isWriting (set_events (new 0) ev) end.
Proof.
  unfold isWriting. cbn [events_ set_events]. destruct o; cbn [new_events].
  - rewrite Z.land_lor_distr_l. change (Z.land kReadEvent kWriteEvent) with 0. by rewrite Z.lor_0_r.
  - rewrite <- Z.land_assoc. change (Z.land (Z.lnot kReadEvent) kWriteEvent) with kWriteEvent. done.
  - rewrite Z.land_lor_distr_l, Z.land_diag. zbool. intros E. apply Z.lor_eq_0_iff in E as [_ E]. done.
  - rewrite <- Z.land_assoc, (Z.land_comm (Z.lnot _)), Z.land_lnot_diag, Z.land_0_r. done.
  - done.
Qed.

End Channel.
