(* ===== verification/Poller.v ===== *)
(** The two pollers (src/networking/Poller.h, Poller.cpp,
    src/networking/poller/): the interface [Poller], its implementations on
    epoll(7) and poll(2), and the abstract registration map both implement.

    epoll's kernel object is a parameter with the laws epoll_ctl(2) documents;
    [LOG_SYSFATAL] ends the program. *)

From S2P Require Import Prelude Channel.

(** [Poller]: the virtual functions of the base class, on the thread [tid], and
    the base class's members. *)
Class Poller (P : Type) := {
  channels_ : P -> gmap Z Z;
  owner_tid : P -> Z;
  updateChannel : P -> Z -> Channel.heap -> Z -> res (P * Channel.heap);
  removeChannel : P -> Z -> Channel.heap -> Z -> res (P * Channel.heap);
}.

(** [assertInLoopThread] aborts through [LOG_FATAL] on another thread. *)
Definition assertInLoopThread (owner tid : Z) : res unit := if tid =? owner then Ok tt else Err Fatal.

Lemma assertInLoopThread_self owner : assertInLoopThread owner owner = Ok tt.
Proof. unfold assertInLoopThread. by rewrite Z.eqb_refl. Qed.

Definition hasChannel {P} `{Poller P} (p : P) (tid : Z) (h : Channel.heap) (c : Z) : res bool :=
  _ ← assertInLoopThread (owner_tid p) tid;
  ch ← Channel.deref h c;
  Ok (bool_decide (channels_ p !! Channel.fd_ ch = Some c)).

(** ** What a poller promises

    [rep p h A]: the poller [p] with the channels [h] implements the map [A] of
    descriptors to their channel and its events at the last update. *)

(** A channel comes in fresh and with some interest, and is not updated from no
    interest to no interest: on the other uses the two pollers differ. *)
Definition update_allowed (A : gmap Z (Z * Z)) (c : Z) (ch : Channel.t) : Prop :=
  (A !! Channel.fd_ ch = None /\ Channel.events_ ch <> 0 /\ Channel.index_ ch = -1) \/
  exists ev, A !! Channel.fd_ ch = Some (c, ev) /\ (ev <> 0 \/ Channel.events_ ch <> 0).

(** The kernel is asked for the events of every channel that wants any. *)
Definition wanted (A : gmap Z (Z * Z)) : gmap Z Z := omap (fun p => if p.2 =? 0 then None else Some p.2) A.

(** The channels, all but what the poller keeps in [index_]. *)
Definition strip (c : Channel.t) : Channel.t := Channel.set_index c (-1).

Lemma strip_insert (h : Channel.heap) c ch ch' : h !! c = Some ch -> strip ch' = strip ch -> strip <$> <[c := ch']> h = strip <$> h.
Proof. intros Hc E. rewrite fmap_insert, E. apply insert_id. by rewrite lookup_fmap, Hc. Qed.

Lemma strip_lookup (h h' : Channel.heap) c ch : strip <$> h' = strip <$> h -> h !! c = Some ch ->
  exists ch', h' !! c = Some ch' /\ strip ch' = strip ch.
Proof.
  intros E Hc. assert ((strip <$> h') !! c = Some (strip ch)) as El by by rewrite E, lookup_fmap, Hc.
  rewrite lookup_fmap in El. destruct (h' !! c) as [ch'|]; [|done]. cbn in El. exists ch'. split; [done|congruence].
Qed.

Lemma strip_same ch ch' : strip ch' = strip ch -> Channel.fd_ ch' = Channel.fd_ ch /\ Channel.events_ ch' = Channel.events_ ch /\
  Channel.addedToLoop_ ch' = Channel.addedToLoop_ ch /\ Channel.eventHandling_ ch' = Channel.eventHandling_ ch.
Proof. destruct ch, ch'. unfold strip. cbn. intros E. by injection E. Qed.

(** The poller touches no channel but the one it is given and registered ones. *)
Definition untouched (A : gmap Z (Z * Z)) (c : Z) (h h' : Channel.heap) : Prop :=
  forall c', c' <> c -> (forall fd ev, A !! fd <> Some (c', ev)) -> h' !! c' = h !! c'.

Lemma untouched_insert A c (h : Channel.heap) ch : untouched A c h (<[c := ch]> h).
Proof. intros c' Hc _. by apply lookup_insert_ne. Qed.
Lemma untouched_same A c h : untouched A c h h.
Proof. done. Qed.

Class PollerSpec (P : Type) `{Poller P} := {
  rep : P -> Channel.heap -> gmap Z (Z * Z) -> Prop;
  (* what the kernel watches, by descriptor *)
  watched : P -> gmap Z Z;
  rep_watched p h A : rep p h A -> watched p = wanted A;
  rep_channels p h A : rep p h A -> channels_ p = fst <$> A;
  rep_live p h A fd c ev : rep p h A -> A !! fd = Some (c, ev) -> exists ch, h !! c = Some ch /\ Channel.fd_ ch = fd;
  rep_fields p h A c ch ch' : rep p h A -> h !! c = Some ch ->
    Channel.fd_ ch' = Channel.fd_ ch -> Channel.index_ ch' = Channel.index_ ch -> rep p (<[c := ch']> h) A;
  rep_new p h A c ch : rep p h A -> h !! c = None -> rep p (<[c := ch]> h) A;
  rep_delete p h A c : rep p h A -> (forall fd ev, A !! fd <> Some (c, ev)) -> rep p (delete c h) A;
  update_ok p h A c ch : rep p h A -> h !! c = Some ch -> 0 <= Channel.fd_ ch -> 0 <= Channel.events_ ch < 2 ^ 15 ->
    Z.of_nat (size A) < int_max -> update_allowed A c ch ->
    exists p' h', updateChannel p (owner_tid p) h c = Ok (p', h') /\ owner_tid p' = owner_tid p /\
      strip <$> h' = strip <$> h /\ untouched A c h h' /\ rep p' h' (<[Channel.fd_ ch := (c, Channel.events_ ch)]> A);
  remove_ok p h A c ch : rep p h A -> h !! c = Some ch -> Channel.events_ ch = 0 -> A !! Channel.fd_ ch = Some (c, 0) ->
    exists p' h', removeChannel p (owner_tid p) h c = Ok (p', h') /\ owner_tid p' = owner_tid p /\
      strip <$> h' = strip <$> h /\ untouched A c h h' /\ rep p' h' (delete (Channel.fd_ ch) A);
}.

(** What any successful operation does to the members, whatever the state: the
    map follows the call, and channels change in [index_] only. *)
Class PollerFrame (P : Type) `{Poller P} := {
  update_frame p tid h c p' h' : updateChannel p tid h c = Ok (p', h') ->
    exists ch, h !! c = Some ch /\ strip <$> h' = strip <$> h /\ tid = owner_tid p /\ owner_tid p' = owner_tid p /\
      (channels_ p !! Channel.fd_ ch = None \/ channels_ p !! Channel.fd_ ch = Some c) /\
      channels_ p' = <[Channel.fd_ ch := c]> (channels_ p);
  remove_frame p tid h c p' h' : removeChannel p tid h c = Ok (p', h') ->
    exists ch, h !! c = Some ch /\ strip <$> h' = strip <$> h /\ tid = owner_tid p /\ owner_tid p' = owner_tid p /\
      channels_ p !! Channel.fd_ ch = Some c /\ channels_ p' = delete (Channel.fd_ ch) (channels_ p);
}.

Lemma assertInLoopThread_Ok owner tid : assertInLoopThread owner tid = Ok tt -> tid = owner.
Proof. unfold assertInLoopThread. destruct (tid =? owner) eqn:E; [|done]. by zbool. Qed.

(** ** Channel operations through the loop

    [Channel::update] and [Channel::remove]: the loop forwards to its poller. *)
Section Client.
Context {P : Type} `{Poller P}.

Definition Channel_update (p : P) (tid : Z) (h : Channel.heap) (c : Z) : res (P * Channel.heap) :=
  ch ← Channel.deref h c;
  updateChannel p tid (<[c := Channel.set_added ch true]> h) c.

Definition Channel_interest (p : P) (tid : Z) (h : Channel.heap) (c : Z) (o : Channel.interest_op) : res (P * Channel.heap) :=
  ch ← Channel.deref h c;
  Channel_update p tid (<[c := Channel.set_events ch (Channel.new_events o (Channel.events_ ch))]> h) c.

Definition Channel_remove (p : P) (tid : Z) (h : Channel.heap) (c : Z) : res (P * Channel.heap) :=
  ch ← Channel.deref h c;
  assert! Channel.isNoneEvent ch;
  removeChannel p tid (<[c := Channel.set_added ch false]> h) c.

End Client.
