(* ===== verification/EPollPoller.v ===== *)
(** The poller on epoll(7) (src/networking/poller/EPollPoller.cpp), as an
    implementation of the [Poller] interface. *)

From S2P Require Import Prelude Timestamp Channel Poller.

Inductive ctl := EPOLL_CTL_ADD | EPOLL_CTL_DEL | EPOLL_CTL_MOD.

(** The kernel's side: [epoll_ctl] on an epoll object, with the laws of its
    manual page on descriptors that are open: ADD registers an absent
    descriptor, MOD changes a present one, DEL removes a present one. *)
Class Epoll (K : Type) := {
  epoll_ctl : K -> ctl -> Z -> Z * Z -> K * Z;
  epoll_set : K -> gmap Z (Z * Z);
  epoll_create1 : K;
  epoll_create_empty : epoll_set epoll_create1 = ∅;
  ctl_add k fd ev : epoll_set k !! fd = None ->
    exists k', epoll_ctl k EPOLL_CTL_ADD fd ev = (k', 0) /\ epoll_set k' = <[fd := ev]> (epoll_set k);
  ctl_mod k fd ev : is_Some (epoll_set k !! fd) ->
    exists k', epoll_ctl k EPOLL_CTL_MOD fd ev = (k', 0) /\ epoll_set k' = <[fd := ev]> (epoll_set k);
  ctl_del k fd ev : is_Some (epoll_set k !! fd) ->
    exists k', epoll_ctl k EPOLL_CTL_DEL fd ev = (k', 0) /\ epoll_set k' = delete fd (epoll_set k);
}.

Module EPollPoller.
Section EPoll.
Context {K : Type} `{Epoll K}.

Definition kNew : Z := -1.
Definition kAdded : Z := 1.
Definition kDeleted : Z := 2.
Definition kInitEventListSize : Z := 16.

Record t := mk {
  epoll_ : K;             (* the object behind [epollfd_] *)
  chans_ : gmap Z Z;      (* [Poller::channels_] *)
  owner_ : Z;             (* the thread of [ownerLoop_] *)
  events_size_ : Z;       (* [events_.size()] *)
}.

Definition new (owner : Z) : t := mk epoll_create1 ∅ owner kInitEventListSize.

(** [update]: a failing [EPOLL_CTL_DEL] is only logged. *)
Definition update (p : t) (operation : ctl) (ptr : Z) (channel : Channel.t) : res t :=
  let '(k, r) := epoll_ctl (epoll_ p) operation (Channel.fd_ channel) (Channel.events_ channel, ptr) in
  if r <? 0 then
    match operation with EPOLL_CTL_DEL => Ok (mk k (chans_ p) (owner_ p) (events_size_ p)) | _ => Err Fatal end
  else Ok (mk k (chans_ p) (owner_ p) (events_size_ p)).

Definition with_chans (p : t) (m : gmap Z Z) : t := mk (epoll_ p) m (owner_ p) (events_size_ p).

Definition updateChannel (p : t) (tid : Z) (h : Channel.heap) (c : Z) : res (t * Channel.heap) :=
  _ ← assertInLoopThread (owner_ p) tid;
  ch ← Channel.deref h c;
  let index := Channel.index_ ch in
  let fd := Channel.fd_ ch in
  if (index =? kNew) || (index =? kDeleted) then
    p ← (if index =? kNew then
           assert! bool_decide (chans_ p !! fd = None);
           Ok (with_chans p (<[fd := c]> (chans_ p)))
         else
           assert! negb (bool_decide (chans_ p !! fd = None));
           assert! bool_decide (chans_ p !! fd = Some c);
           Ok p);
    let ch := Channel.set_index ch kAdded in
    p ← update p EPOLL_CTL_ADD c ch;
    Ok (p, <[c := ch]> h)
  else
    assert! negb (bool_decide (chans_ p !! fd = None));
    assert! bool_decide (chans_ p !! fd = Some c);
    assert! (index =? kAdded);
    if Channel.isNoneEvent ch then
      p ← update p EPOLL_CTL_DEL c ch;
      Ok (p, <[c := Channel.set_index ch kDeleted]> h)
    else
      p ← update p EPOLL_CTL_MOD c ch;
      Ok (p, h).

Definition removeChannel (p : t) (tid : Z) (h : Channel.heap) (c : Z) : res (t * Channel.heap) :=
  _ ← assertInLoopThread (owner_ p) tid;
  ch ← Channel.deref h c;
  let fd := Channel.fd_ ch in
  assert! negb (bool_decide (chans_ p !! fd = None));
  assert! bool_decide (chans_ p !! fd = Some c);
  assert! Channel.isNoneEvent ch;
  let index := Channel.index_ ch in
  assert! (index =? kAdded) || (index =? kDeleted);
  let p := with_chans p (delete fd (chans_ p)) in
  p ← (if index =? kAdded then update p EPOLL_CTL_DEL c ch else Ok p);
  Ok (p, <[c := Channel.set_index ch kNew]> h).

#[global] Instance EPoll_Poller : Poller t := {|
  Poller.channels_ := chans_;
  Poller.owner_tid := owner_;
  Poller.updateChannel := updateChannel;
  Poller.removeChannel := removeChannel;
|}.

(** [fillActiveChannels]: [events] is the part of [events_] the kernel filled,
    a channel pointer and the bits that occurred each. *)
Fixpoint fill (p : t) (h : Channel.heap) (events : list (Z * Z)) (active : list Z) : res (Channel.heap * list Z) :=
  match events with
  | [] => Ok (h, active)
  | (c, revents) :: events =>
      ch ← Channel.deref h c;
      assert! negb (bool_decide (chans_ p !! Channel.fd_ ch = None));
      assert! bool_decide (chans_ p !! Channel.fd_ ch = Some c);
      fill p (<[c := Channel.set_revents ch revents]> h) events (active ++ [c])
  end.
Definition fillActiveChannels (p : t) (h : Channel.heap) (events : list (Z * Z)) (active : list Z) : res (Channel.heap * list Z) :=
  assert! zlen events <=? events_size_ p;
  fill p h events active.

(** [poll]: what [epoll_wait] returned, at most [events_.size()] events or an
    errno; a negative count is logged and yields no channel. *)
Definition poll (p : t) (h : Channel.heap) (active : list Z) (wait : option (list (Z * Z))) : res (t * Channel.heap * list Z) :=
  match wait with
  | Some ((_ :: _) as events) =>
      '(h, active) ← fillActiveChannels p h events active;
      Ok (if zlen events =? events_size_ p
          then mk (epoll_ p) (chans_ p) (owner_ p) (events_size_ p * 2) else p, h, active)
  | Some [] | None => Ok (p, h, active)
  end.

(** ** The representation *)

Record erep (p : t) (h : Channel.heap) (A : gmap Z (Z * Z)) : Prop := {
  er_channels : chans_ p = fst <$> A;
  er_kernel : epoll_set (epoll_ p) = omap (fun q => if q.2 =? 0 then None else Some (q.2, q.1)) A;
  er_in fd c ev : A !! fd = Some (c, ev) -> exists ch, h !! c = Some ch /\ Channel.fd_ ch = fd /\
    Channel.index_ ch = if ev =? 0 then kDeleted else kAdded;
}.

(** A change of [h] at [c] to a channel with the same descriptor, and of [A] at
    that descriptor, keeps the part about the other channels. *)
Lemma er_change p h A c ch ch' q :
  erep p h A -> h !! c = Some ch -> Channel.fd_ ch' = Channel.fd_ ch ->
  match q with Some ev => Channel.index_ ch' = if ev =? 0 then kDeleted else kAdded | None => True end ->
  forall fd c1 ev, partial_alter (fun _ => (fun ev => (c, ev)) <$> q) (Channel.fd_ ch) A !! fd = Some (c1, ev) ->
  exists ch1, <[c := ch']> h !! c1 = Some ch1 /\ Channel.fd_ ch1 = fd /\ Channel.index_ ch1 = if ev =? 0 then kDeleted else kAdded.
Proof.
  intros Hr Hc Hfd Hi fd c1 ev H1. destruct (decide (fd = Channel.fd_ ch)) as [->|Hne].
  - rewrite lookup_partial_alter_eq in H1. destruct q as [ev'|]; [|done]. cbn in H1. simplify_eq.
    exists ch'. by rewrite lookup_insert_eq.
  - rewrite lookup_partial_alter_ne in H1 by done. destruct (er_in _ _ _ Hr _ _ _ H1) as (ch1 & Hc1 & ? & ?).
    exists ch1. rewrite lookup_insert_ne; [done|]. intros <-. simplify_eq.
Qed.


Definition kset (A : gmap Z (Z * Z)) : gmap Z (Z * Z) := omap (fun q => if q.2 =? 0 then None else Some (q.2, q.1)) A.

Lemma kset_lookup A fd : kset A !! fd = q ← A !! fd; if q.2 =? 0 then None else Some (q.2, q.1).
Proof. unfold kset. apply lookup_omap. Qed.

Lemma kset_insert A fd c ev : kset (<[fd := (c, ev)]> A) = if ev =? 0 then delete fd (kset A) else <[fd := (ev, c)]> (kset A).
Proof. unfold kset. rewrite omap_insert. cbn. by destruct (ev =? 0). Qed.

Lemma update_add p k' c ch : epoll_ctl (epoll_ p) EPOLL_CTL_ADD (Channel.fd_ ch) (Channel.events_ ch, c) = (k', 0) ->
  update p EPOLL_CTL_ADD c ch = Ok (mk k' (chans_ p) (owner_ p) (events_size_ p)).
Proof. intros E. unfold update. by rewrite E. Qed.
Lemma update_mod p k' c ch : epoll_ctl (epoll_ p) EPOLL_CTL_MOD (Channel.fd_ ch) (Channel.events_ ch, c) = (k', 0) ->
  update p EPOLL_CTL_MOD c ch = Ok (mk k' (chans_ p) (owner_ p) (events_size_ p)).
Proof. intros E. unfold update. by rewrite E. Qed.
Lemma update_del p k' c ch : epoll_ctl (epoll_ p) EPOLL_CTL_DEL (Channel.fd_ ch) (Channel.events_ ch, c) = (k', 0) ->
  update p EPOLL_CTL_DEL c ch = Ok (mk k' (chans_ p) (owner_ p) (events_size_ p)).
Proof. intros E. unfold update. by rewrite E. Qed.

Lemma in_kset A fd c ev : A !! fd = Some (c, ev) -> ev <> 0 -> is_Some (kset A !! fd).
Proof. intros HA He%Z.eqb_neq. rewrite kset_lookup, HA. cbn. rewrite He. by eexists. Qed.

(** The representation after an update of channel [c] to [ch'] with events [ev]. *)
Lemma erep_update p k' h A c ch ch' ev :
  erep p h A -> h !! c = Some ch -> Channel.fd_ ch' = Channel.fd_ ch ->
  Channel.index_ ch' = (if ev =? 0 then kDeleted else kAdded) ->
  epoll_set k' = kset (<[Channel.fd_ ch := (c, ev)]> A) ->
  erep (mk k' (<[Channel.fd_ ch := c]> (chans_ p)) (owner_ p) (events_size_ p)) (<[c := ch']> h) (<[Channel.fd_ ch := (c, ev)]> A).
Proof.
  intros Hr Hc Hfd Hi Hk. split; [|done|exact (er_change p h A c ch ch' (Some ev) Hr Hc Hfd Hi)]. cbn [chans_]. by rewrite fmap_insert, (er_channels _ _ _ Hr).
Qed.

(** A channel seen for the first time: [EPOLL_CTL_ADD]. *)
Lemma epoll_update_new p h A c ch :
  erep p h A -> h !! c = Some ch -> A !! Channel.fd_ ch = None -> Channel.events_ ch <> 0 -> Channel.index_ ch = kNew ->
  exists p' h', updateChannel p (owner_ p) h c = Ok (p', h') /\ owner_ p' = owner_ p /\
    strip <$> h' = strip <$> h /\ untouched A c h h' /\ erep p' h' (<[Channel.fd_ ch := (c, Channel.events_ ch)]> A).
Proof.
  intros Hr Hc HA He Hi. unfold updateChannel, Channel.deref. rewrite assertInLoopThread_self, Hc. cbn [mbind res_bind].
  destruct (Hr) as [Hch Hk _]. fold (kset A) in Hk. rewrite Hi.
  change ((kNew =? kNew) || (kNew =? kDeleted)) with true. change (kNew =? kNew) with true. cbn iota.
  rewrite assert_true by (apply bool_decide_eq_true_2; by rewrite Hch, lookup_fmap, HA). cbn [mbind res_bind].
  destruct (ctl_add (epoll_ p) (Channel.fd_ ch) (Channel.events_ ch, c)) as (k' & E & Hk'); [by rewrite Hk, kset_lookup, HA|].
  rewrite (update_add _ k') by done. cbn [mbind res_bind]. eexists _, _. split_and!; [done|done|by apply (strip_insert h c ch)|apply untouched_insert|].
  apply (erep_update p k' h A c ch); [done|done|done| |].
  - cbn. by case_match; zbool.
  - rewrite kset_insert, Hk', Hk. by case_match; zbool.
Qed.

(** A channel back from [kDeleted]: [EPOLL_CTL_ADD] again. *)
Lemma update_deleted p h A c ch :
  erep p h A -> h !! c = Some ch -> A !! Channel.fd_ ch = Some (c, 0) -> Channel.events_ ch <> 0 ->
  exists p' h', updateChannel p (owner_ p) h c = Ok (p', h') /\ owner_ p' = owner_ p /\
    strip <$> h' = strip <$> h /\ untouched A c h h' /\ erep p' h' (<[Channel.fd_ ch := (c, Channel.events_ ch)]> A).
Proof.
  intros Hr Hc HA He. unfold updateChannel, Channel.deref. rewrite assertInLoopThread_self, Hc. cbn [mbind res_bind].
  destruct (Hr) as [Hch Hk Hin]. fold (kset A) in Hk. destruct (Hin _ _ _ HA) as (ch' & Hc' & _ & Hi). simplify_eq.
  assert (chans_ p !! Channel.fd_ ch = Some c) as Hpc by by rewrite Hch, lookup_fmap, HA.
  change (if 0 =? 0 then kDeleted else kAdded) with kDeleted in Hi. rewrite Hi, !Hpc. change ((kDeleted =? kNew) || (kDeleted =? kDeleted)) with true. change (kDeleted =? kNew) with false. cbn iota.
  rewrite !assert_true by (zbool; done). cbn [mbind res_bind].
  destruct (ctl_add (epoll_ p) (Channel.fd_ ch) (Channel.events_ ch, c)) as (k' & E & Hk'); [by rewrite Hk, kset_lookup, HA|].
  rewrite (update_add _ k') by done. cbn [mbind res_bind]. eexists _, _. split_and!; [done|done|by apply (strip_insert h c ch)|apply untouched_insert|].
  rewrite <- (insert_id (chans_ p) _ _ Hpc). apply (erep_update p k' h A c ch); [done|done|done| |].
  - cbn. by case_match; zbool.
  - rewrite kset_insert, Hk', Hk. by case_match; zbool.
Qed.

(** A channel in the kernel's set: [EPOLL_CTL_MOD], or [EPOLL_CTL_DEL] when no
    interest is left. *)
Lemma update_added p h A c ch ev :
  erep p h A -> h !! c = Some ch -> A !! Channel.fd_ ch = Some (c, ev) -> ev <> 0 ->
  exists p' h', updateChannel p (owner_ p) h c = Ok (p', h') /\ owner_ p' = owner_ p /\
    strip <$> h' = strip <$> h /\ untouched A c h h' /\ erep p' h' (<[Channel.fd_ ch := (c, Channel.events_ ch)]> A).
Proof.
  intros Hr Hc HA He. unfold updateChannel, Channel.deref. rewrite assertInLoopThread_self, Hc. cbn [mbind res_bind].
  destruct (Hr) as [Hch Hk Hin]. fold (kset A) in Hk. destruct (Hin _ _ _ HA) as (ch' & Hc' & _ & Hi). simplify_eq.
  assert (chans_ p !! Channel.fd_ ch = Some c) as Hpc by by rewrite Hch, lookup_fmap, HA.
  pose proof (in_kset _ _ _ _ HA He) as Hs. rewrite <- Hk in Hs. apply Z.eqb_neq in He. rewrite He in Hi.
  rewrite Hi, !Hpc. change ((kAdded =? kNew) || (kAdded =? kDeleted)) with false. cbn iota. rewrite !assert_true by (zbool; done).
  unfold Channel.isNoneEvent, Channel.kNoneEvent. destruct (Channel.events_ ch =? 0) eqn:En; zbool.
  - destruct (ctl_del (epoll_ p) (Channel.fd_ ch) (Channel.events_ ch, c) Hs) as (k' & E & Hk').
    rewrite (update_del _ k') by done. cbn [mbind res_bind]. eexists _, _. split_and!; [done|done|by apply (strip_insert h c ch)|apply untouched_insert|].
    rewrite <- (insert_id (chans_ p) _ _ Hpc). apply (erep_update p k' h A c ch); [done|done|done| |].
    + cbn. by rewrite En.
    + by rewrite kset_insert, Hk', Hk, En.
  - destruct (ctl_mod (epoll_ p) (Channel.fd_ ch) (Channel.events_ ch, c) Hs) as (k' & E & Hk').
    rewrite (update_mod _ k') by done. cbn [mbind res_bind]. eexists _, _. split_and!; [done|done|done|apply untouched_same|].
    rewrite <- (insert_id (chans_ p) _ _ Hpc). rewrite <- (insert_id h c ch Hc) at 1.
    apply (erep_update p k' h A c ch); [done|done|done| |].
    + rewrite Hi. by case_match; zbool.
    + rewrite kset_insert, Hk', Hk. by case_match; zbool.
Qed.

Lemma updateChannel_ok p h A c ch :
  erep p h A -> h !! c = Some ch -> update_allowed A c ch ->
  exists p' h', updateChannel p (owner_ p) h c = Ok (p', h') /\ owner_ p' = owner_ p /\
    strip <$> h' = strip <$> h /\ untouched A c h h' /\ erep p' h' (<[Channel.fd_ ch := (c, Channel.events_ ch)]> A).
Proof.
  intros Hr Hc [(HA & He & Hi)|(ev & HA & Hev)]; [by apply epoll_update_new|].
  destruct (decide (ev = 0)) as [->|]; [|by eapply update_added]. destruct Hev; [done|]. by apply update_deleted.
Qed.

Lemma epoll_remove_ok p h A c ch :
  erep p h A -> h !! c = Some ch -> Channel.events_ ch = 0 -> A !! Channel.fd_ ch = Some (c, 0) ->
  exists p' h', removeChannel p (owner_ p) h c = Ok (p', h') /\ owner_ p' = owner_ p /\
    strip <$> h' = strip <$> h /\ untouched A c h h' /\ erep p' h' (delete (Channel.fd_ ch) A).
Proof.
  intros Hr Hc He HA. unfold removeChannel, Channel.deref. rewrite assertInLoopThread_self, Hc. cbn [mbind res_bind].
  destruct (Hr) as [Hch Hk Hin]. destruct (Hin _ _ _ HA) as (ch' & Hc' & _ & Hi). simplify_eq.
  assert (chans_ p !! Channel.fd_ ch = Some c) as Hpc by by rewrite Hch, lookup_fmap, HA.
  change (if 0 =? 0 then kDeleted else kAdded) with kDeleted in Hi. rewrite Hi, !Hpc. unfold Channel.isNoneEvent. rewrite He. cbn [Z.eqb]. rewrite !assert_true by (zbool; done).
  change (kDeleted =? kAdded) with false. cbn [mbind res_bind]. eexists _, _. split_and!; [done|done|by apply (strip_insert h c ch)|apply untouched_insert|].
  split; [| |exact (er_change p h A c ch (Channel.set_index ch kNew) None Hr Hc eq_refl I)].
  - cbn. by rewrite fmap_delete, Hch.
  - cbn [epoll_ with_chans]. rewrite Hk, omap_delete. symmetry. apply delete_id. by rewrite lookup_omap, HA.
Qed.

#[global] Program Instance EPoll_PollerSpec : PollerSpec t := {|
  rep := erep;
  watched p := fst <$> epoll_set (epoll_ p);
|}.
Next Obligation.
  intros p h A Hr. cbn beta. rewrite (er_kernel _ _ _ Hr). unfold wanted. apply map_eq. intros fd.
  rewrite lookup_fmap, !lookup_omap. destruct (A !! fd) as [[c ev]|]; cbn; [|done]. by destruct (ev =? 0).
Qed.
Next Obligation. intros p h A Hr. apply (er_channels _ _ _ Hr). Qed.
Next Obligation. intros p h A fd c ev Hr HA. destruct (er_in _ _ _ Hr _ _ _ HA) as (ch & ? & ? & _). by exists ch. Qed.
Next Obligation.
  intros p h A c ch ch' [H1 H2 H3] Hc Hfd Hi. split; [done|done|].
  intros fd c1 ev HA. destruct (H3 _ _ _ HA) as (ch1 & Hc1 & ? & ?). destruct (decide (c1 = c)) as [->|].
  - exists ch'. rewrite lookup_insert_eq. simplify_eq. split_and!; [done|done|congruence].
  - exists ch1. by rewrite lookup_insert_ne.
Qed.
Next Obligation.
  intros p h A c ch [H1 H2 H3] Hc. split; [done|done|]. intros fd c1 ev HA. destruct (H3 _ _ _ HA) as (ch1 & Hc1 & ? & ?).
  exists ch1. rewrite lookup_insert_ne; [done|congruence].
Qed.
Next Obligation.
  intros p h A c [H1 H2 H3] Hc. split; [done|done|]. intros fd c1 ev HA. destruct (H3 _ _ _ HA) as (ch1 & Hc1 & ? & ?).
  exists ch1. rewrite lookup_delete_ne; [done|]. intros <-. by apply (Hc fd ev).
Qed.
Next Obligation. intros. by apply updateChannel_ok. Qed.
Next Obligation. intros. by apply epoll_remove_ok. Qed.

Lemma update_chans p o c ch p' : update p o c ch = Ok p' -> chans_ p' = chans_ p /\ owner_ p' = owner_ p.
Proof. unfold update. destruct (epoll_ctl _ _ _ _) as [k r]. repeat case_match; intros E; by res_inv. Qed.

#[global] Program Instance EPoll_PollerFrame : PollerFrame t.
Next Obligation.
  intros p tid h c p' h' E. cbn in E. unfold updateChannel, Channel.deref in E.
  apply res_bind_Ok in E as ([] & Ht%assertInLoopThread_Ok & E). destruct (h !! c) as [ch|] eqn:Hc; [|done]. cbn [mbind res_bind] in E.
  exists ch. cbn. case_match.
  - apply res_bind_Ok in E as (p1 & E1 & E). apply res_bind_Ok in E as (p2 & [E2 Eo]%update_chans & E). res_inv. rewrite E2, Eo.
    split_and!; [done|by apply (strip_insert h c ch)|done|..]; case_match; res_inv; zbool; try done; [by left|by right|]. by rewrite insert_id.
  - res_inv. zbool. case_match; apply res_bind_Ok in E as (p1 & [E1 Eo]%update_chans & E); res_inv; rewrite E1, Eo;
      (split_and!; [done|try done; by apply (strip_insert h c ch)|done|done|by right|by rewrite insert_id]).
Qed.
Next Obligation.
  intros p tid h c p' h' E. cbn in E. unfold removeChannel, Channel.deref in E.
  apply res_bind_Ok in E as ([] & Ht%assertInLoopThread_Ok & E). destruct (h !! c) as [ch|] eqn:Hc; [|done]. cbn [mbind res_bind] in E.
  exists ch. cbn. apply assert_Ok in E as [_ E]. apply assert_Ok in E as [Ein%bool_decide_eq_true E].
  apply assert_Ok in E as [_ E]. apply assert_Ok in E as [_ E]. apply res_bind_Ok in E as (p1 & E1 & E). injection E as <- <-.
  split_and!; [done|by apply (strip_insert h c ch)|done|..]; case_match; res_inv; try done; apply update_chans in E1 as [E1 Eo]; by rewrite ?E1, ?Eo.
Qed.

Lemma epoll_new_rep owner h : rep (new owner) h ∅.
Proof.
  split; cbn; [by rewrite fmap_empty|by rewrite epoll_create_empty, omap_empty|done].
Qed.

End EPoll.
End EPollPoller.
