(* ===== verification/PollPoller.v ===== *)
(** The poller on poll(2) (src/networking/poller/PollPoller.cpp), as an
    implementation of the [Poller] interface: an array of [pollfd]s in which a
    channel's [index_] is its position, and a channel without interest has its
    descriptor [fd] replaced by [-fd-1]. *)

From S2P Require Import Prelude Channel Poller.

Module PollPoller.

Record pollfd := mk_pfd { pfd_fd : Z; pfd_events : Z; pfd_revents : Z }.

Record t := mk {
  pollfds_ : list pollfd;
  chans_ : gmap Z Z;      (* [Poller::channels_] *)
  owner_ : Z;             (* the thread of [ownerLoop_] *)
}.

Definition new (owner : Z) : t := mk [] ∅ owner.

Definition updateChannel (p : t) (tid : Z) (h : Channel.heap) (c : Z) : res (t * Channel.heap) :=
  _ ← assertInLoopThread (owner_ p) tid;
  ch ← Channel.deref h c;
  let fd := Channel.fd_ ch in
  if Channel.index_ ch <? 0 then
    assert! bool_decide (chans_ p !! fd = None);
    let pfd := mk_pfd fd (swrap 16 (Channel.events_ ch)) 0 in
    let pollfds := pollfds_ p ++ [pfd] in
    let idx := i32 (zlen pollfds) - 1 in
    Ok (mk pollfds (<[pfd_fd pfd := c]> (chans_ p)) (owner_ p), <[c := Channel.set_index ch idx]> h)
  else
    assert! negb (bool_decide (chans_ p !! fd = None));
    assert! bool_decide (chans_ p !! fd = Some c);
    let idx := Channel.index_ ch in
    assert! (0 <=? idx) && (idx <? i32 (zlen (pollfds_ p)));
    match pollfds_ p !! Z.to_nat idx with
    | None => Err Undefined
    | Some pfd =>
        assert! (pfd_fd pfd =? fd) || (pfd_fd pfd =? - fd - 1);
        let pfd := mk_pfd (if Channel.isNoneEvent ch then - fd - 1 else fd) (swrap 16 (Channel.events_ ch)) 0 in
        Ok (mk (<[Z.to_nat idx := pfd]> (pollfds_ p)) (chans_ p) (owner_ p), h)
    end.

Definition removeChannel (p : t) (tid : Z) (h : Channel.heap) (c : Z) : res (t * Channel.heap) :=
  _ ← assertInLoopThread (owner_ p) tid;
  ch ← Channel.deref h c;
  let fd := Channel.fd_ ch in
  assert! negb (bool_decide (chans_ p !! fd = None));
  assert! bool_decide (chans_ p !! fd = Some c);
  assert! Channel.isNoneEvent ch;
  let idx := Channel.index_ ch in
  assert! (0 <=? idx) && (idx <? i32 (zlen (pollfds_ p)));
  match pollfds_ p !! Z.to_nat idx, last (pollfds_ p) with
  | Some pfd, Some back =>
      assert! (pfd_fd pfd =? - fd - 1) && (pfd_events pfd =? Channel.events_ ch);
      let chans := delete fd (chans_ p) in
      let n := length (pollfds_ p) in
      if idx =? Z.of_nat n - 1 then Ok (mk (take (n - 1) (pollfds_ p)) chans (owner_ p), h)
      else
        (* the element at the end goes to [idx] *)
        let channelAtEnd := pfd_fd back in
        let swapped := <[(n - 1)%nat := pfd]> (<[Z.to_nat idx := back]> (pollfds_ p)) in
        let channelAtEnd := if channelAtEnd <? 0 then - channelAtEnd - 1 else channelAtEnd in
        match chans !! channelAtEnd with
        | None => Err Undefined
        | Some e =>
            ech ← Channel.deref h e;
            Ok (mk (take (n - 1) swapped) chans (owner_ p), <[e := Channel.set_index ech idx]> h)
        end
  | _, _ => Err Undefined
  end.

#[global] Instance Poll_Poller : Poller t := {|
  Poller.channels_ := chans_;
  Poller.owner_tid := owner_;
  Poller.updateChannel := updateChannel;
  Poller.removeChannel := removeChannel;
|}.

(** [fillActiveChannels]: the descriptors with events, at most [numEvents];
    [pollfds] is the array with the [revents] the kernel stored. *)
Fixpoint fill (p : t) (h : Channel.heap) (pollfds : list pollfd) (numEvents : Z) (active : list Z) : res (Channel.heap * list Z) :=
  match pollfds with
  | [] => Ok (h, active)
  | pfd :: pollfds =>
      if negb (0 <? numEvents) then Ok (h, active)
      else if 0 <? pfd_revents pfd then
        match chans_ p !! pfd_fd pfd with
        | None => Err AssertFailed
        | Some c =>
            ch ← Channel.deref h c;
            assert! Channel.fd_ ch =? pfd_fd pfd;
            fill p (<[c := Channel.set_revents ch (pfd_revents pfd)]> h) pollfds (numEvents - 1) (active ++ [c])
        end
      else fill p h pollfds numEvents active
  end.
Definition fillActiveChannels (p : t) (h : Channel.heap) (numEvents : Z) (active : list Z) : res (Channel.heap * list Z) :=
  fill p h (pollfds_ p) numEvents active.

(** [poll]: the [revents] the kernel stored and its return value. *)
Definition poll (p : t) (h : Channel.heap) (active : list Z) (revents : list Z) (numEvents : Z) : res (t * Channel.heap * list Z) :=
  let p := mk (zip_with (fun pfd r => mk_pfd (pfd_fd pfd) (pfd_events pfd) r) (pollfds_ p) revents) (chans_ p) (owner_ p) in
  if 0 <? numEvents then
    '(h, active) ← fillActiveChannels p h numEvents active;
    Ok (p, h, active)
  else Ok (p, h, active).

(** ** The representation *)

(** The descriptor field for a channel's events. *)
Definition slot_fd (fd ev : Z) : Z := if ev =? 0 then - fd - 1 else fd.

(** Channel [c] of the registration [fd, ev] sits at position [i]. *)
Definition placed (p : t) (h : Channel.heap) (fd c ev : Z) (i : nat) : Prop :=
  0 <= fd /\ 0 <= ev < 2 ^ 15 /\
  (exists ch, h !! c = Some ch /\ Channel.fd_ ch = fd /\ Channel.index_ ch = Z.of_nat i) /\
  exists r, pollfds_ p !! i = Some (mk_pfd (slot_fd fd ev) ev r).

Record prep (p : t) (h : Channel.heap) (A : gmap Z (Z * Z)) : Prop := {
  pr_channels : chans_ p = fst <$> A;
  pr_size : length (pollfds_ p) = size A;
  pr_small : zlen (pollfds_ p) <= int_max;
  pr_in fd c ev : A !! fd = Some (c, ev) -> exists i, placed p h fd c ev i;
  pr_slot i pfd : pollfds_ p !! i = Some pfd -> exists fd c ev, A !! fd = Some (c, ev) /\ placed p h fd c ev i;
}.

Lemma slot_fd_inj fd ev fd' ev' : 0 <= fd -> 0 <= fd' -> slot_fd fd ev = slot_fd fd' ev' -> fd = fd'.
Proof. unfold slot_fd. intros. repeat case_match; lia. Qed.

(** Two registrations never share a position, nor a channel. *)
Lemma placed_fd p h fd c ev fd' c' ev' i : placed p h fd c ev i -> placed p h fd' c' ev' i -> fd = fd' /\ ev = ev'.
Proof.
  intros (? & ? & _ & r & H1) (? & ? & _ & r' & H2). rewrite H1 in H2. injection H2 as E -> _. split; [|done].
  by eapply slot_fd_inj.
Qed.

(** What the kernel is asked: entries with a non-negative descriptor. *)
Fixpoint asked (l : list pollfd) : gmap Z Z :=
  match l with
  | [] => ∅
  | pfd :: l => if 0 <=? pfd_fd pfd then <[pfd_fd pfd := pfd_events pfd]> (asked l) else asked l
  end.

Lemma asked_none l fd : (forall i pfd, l !! i = Some pfd -> 0 <= pfd_fd pfd -> pfd_fd pfd <> fd) -> asked l !! fd = None.
Proof.
  induction l as [|pfd l IH]; intros Hno; cbn [asked]; [apply lookup_empty|].
  assert (asked l !! fd = None) as E by (apply IH; intros i; apply (Hno (S i))).
  case_match; zbool; [|done]. rewrite lookup_insert_ne; [done|]. by apply (Hno 0%nat pfd).
Qed.

Lemma asked_some l i pfd :
  (forall i j a b, l !! i = Some a -> l !! j = Some b -> pfd_fd a = pfd_fd b -> i = j) ->
  l !! i = Some pfd -> 0 <= pfd_fd pfd -> asked l !! pfd_fd pfd = Some (pfd_events pfd).
Proof.
  revert i. induction l as [|a l IH]; intros i Hu Hi Hp; [done|]. cbn [asked]. destruct i as [|i].
  - cbn in Hi. simplify_eq. case_match; zbool; [|lia]. by rewrite lookup_insert_eq.
  - cbn in Hi. assert (asked l !! pfd_fd pfd = Some (pfd_events pfd)) as E.
    { eapply IH; [|exact Hi|done]. intros i' j' a' b' Ha Hb Hab. pose proof (Hu (S i') (S j') a' b' Ha Hb Hab). lia. }
    case_match; [|done]. rewrite lookup_insert_ne; [done|]. intros Ea. by pose proof (Hu 0%nat (S i) a pfd eq_refl Hi Ea).
Qed.

Lemma slots_unique p h A : prep p h A ->
  forall i j a b, pollfds_ p !! i = Some a -> pollfds_ p !! j = Some b -> pfd_fd a = pfd_fd b -> i = j.
Proof.
  intros Hr i j a b Ha Hb Hab.
  destruct (pr_slot _ _ _ Hr _ _ Ha) as (f1 & c1 & e1 & A1 & P1), (pr_slot _ _ _ Hr _ _ Hb) as (f2 & c2 & e2 & A2 & P2).
  destruct P1 as (? & _ & (ch1 & Hc1 & _ & Hi1) & r1 & E1), P2 as (? & _ & (ch2 & Hc2 & _ & Hi2) & r2 & E2).
  rewrite Ha in E1. rewrite Hb in E2. injection E1 as ->. injection E2 as ->. cbn in Hab.
  apply slot_fd_inj in Hab as ->; [|done..]. rewrite A1 in A2. simplify_eq. lia.
Qed.

Lemma asked_wanted p h A : prep p h A -> asked (pollfds_ p) = wanted A.
Proof.
  intros Hr. apply map_eq. intros fd. unfold wanted. rewrite lookup_omap.
  assert (forall i pfd, pollfds_ p !! i = Some pfd -> 0 <= pfd_fd pfd -> pfd_fd pfd = fd ->
    exists c ev, A !! fd = Some (c, ev) /\ ev <> 0) as Hslot.
  { intros i pfd Hi Hp <-. destruct (pr_slot _ _ _ Hr i pfd Hi) as (fd1 & c & ev & HA & Hf & _ & _ & r & E).
    rewrite Hi in E. injection E as ->. cbn in *. unfold slot_fd in *. case_match; zbool; [lia|]. by exists c, ev. }
  destruct (A !! fd) as [[c ev]|] eqn:EA; cbn [mbind option_bind snd].
  - destruct (pr_in _ _ _ Hr fd c ev EA) as (i & Hf & Hev & _ & r & Hi). destruct (ev =? 0) eqn:Ez; zbool.
    + apply asked_none. intros j pfd Hj Hp E. destruct (Hslot j pfd Hj Hp E) as (c' & ev' & EA' & ?). simplify_eq.
    + pose proof (asked_some (pollfds_ p) i _ (slots_unique _ _ _ Hr) Hi) as Hs. cbn in Hs. unfold slot_fd in Hs.
      apply Z.eqb_neq in Ez. rewrite Ez in Hs. by apply Hs.
  - apply asked_none. intros j pfd Hj Hp E. by destruct (Hslot j pfd Hj Hp E) as (? & ? & ? & _).
Qed.

(** ** The operations keep it *)


Lemma i32_count n : 0 <= n <= int_max -> i32 n = n.
Proof. intros. apply i32_small. unfold in_int, int_min, int_max in *. lia. Qed.

Lemma i16_events ev : 0 <= ev < 2 ^ 15 -> swrap 16 ev = ev.
Proof. intros. apply swrap_small; [lia|]. change (2 ^ (16 - 1)) with (2 ^ 15). lia. Qed.

(** A registration keeps its place when its channel and its slot stay. *)
Lemma placed_frame p p' h h' fd c ev i :
  placed p h fd c ev i -> h' !! c = h !! c -> pollfds_ p' !! i = pollfds_ p !! i -> placed p' h' fd c ev i.
Proof. intros (? & ? & (ch & Hc & ?) & r & Hi) Hh Hp. split_and!; [done|lia|lia| |exists r; congruence]. exists ch. by rewrite Hh. Qed.

Lemma poll_update_new p h A c ch :
  prep p h A -> h !! c = Some ch -> 0 <= Channel.fd_ ch -> 0 <= Channel.events_ ch < 2 ^ 15 -> Z.of_nat (size A) < int_max ->
  A !! Channel.fd_ ch = None -> Channel.events_ ch <> 0 -> Channel.index_ ch = -1 ->
  exists p' h', updateChannel p (owner_ p) h c = Ok (p', h') /\ owner_ p' = owner_ p /\
    strip <$> h' = strip <$> h /\ untouched A c h h' /\ prep p' h' (<[Channel.fd_ ch := (c, Channel.events_ ch)]> A).
Proof.
  intros Hr Hc Hfd Hev Hsz HA He Hi. unfold updateChannel, Channel.deref. rewrite assertInLoopThread_self, Hc. cbn [mbind res_bind].
  rewrite Hi. change (-1 <? 0) with true. cbn iota.
  rewrite assert_true by (apply bool_decide_eq_true_2; by rewrite (pr_channels _ _ _ Hr), lookup_fmap, HA).
  eexists _, _. split_and!; [done|done|by apply (strip_insert h c ch)|apply untouched_insert|]. cbn [pfd_fd].
  pose proof (pr_size _ _ _ Hr) as Hs. rewrite i16_events by done.
  set (p' := mk _ _ _). set (ch' := Channel.set_index ch _).
  assert (Channel.index_ ch' = Z.of_nat (length (pollfds_ p))) as Hi'.
  { unfold ch'. cbn. unfold zlen. rewrite length_app. cbn. rewrite i32_count by lia. lia. }
  assert (placed p' (<[c := ch']> h) (Channel.fd_ ch) c (Channel.events_ ch) (length (pollfds_ p))) as Hnew.
  { split_and!; [done|lia|lia|exists ch'; by rewrite lookup_insert_eq|]. exists 0. cbn. rewrite lookup_app_r, Nat.sub_diag by lia.
    unfold slot_fd. cbn. do 2 f_equal. by case_match; zbool. }
  assert (forall fd1 c1 ev1 i1, A !! fd1 = Some (c1, ev1) -> placed p h fd1 c1 ev1 i1 -> placed p' (<[c := ch']> h) fd1 c1 ev1 i1) as Hold.
  { intros fd1 c1 ev1 i1 H1 P1. apply (placed_frame _ _ _ _ _ _ _ _ P1).
    - apply lookup_insert_ne. intros <-. destruct P1 as (_ & _ & (ch1 & Hc1 & Hf1 & _) & _). congruence.
    - destruct P1 as (_ & _ & _ & r & E). cbn. apply lookup_app_l. by apply lookup_lt_Some in E. }
  split.
  - cbn. by rewrite fmap_insert, (pr_channels _ _ _ Hr).
  - cbn. rewrite length_app, map_size_insert_None by done. cbn. lia.
  - cbn. rewrite zlen_app. unfold zlen. cbn. lia.
  - intros fd1 c1 ev1 H1. destruct (decide (fd1 = Channel.fd_ ch)) as [->|]; [rewrite lookup_insert_eq in H1|rewrite lookup_insert_ne in H1 by done].
    + simplify_eq. by eexists.
    + destruct (pr_in _ _ _ Hr _ _ _ H1) as [i1 P1]. exists i1. by apply Hold.
  - intros i1 pfd H1. cbn in H1. apply lookup_app_Some in H1 as [H1|[Hge H1]].
    + destruct (pr_slot _ _ _ Hr _ _ H1) as (fd1 & c1 & ev1 & HA1 & P1). exists fd1, c1, ev1.
      rewrite lookup_insert_ne by congruence. split; [done|by apply Hold].
    + apply list_lookup_singleton_Some in H1 as [H0 _]. replace i1 with (length (pollfds_ p)) by lia.
      exists (Channel.fd_ ch), c, (Channel.events_ ch). by rewrite lookup_insert_eq.
Qed.

Lemma update_old p h A c ch ev :
  prep p h A -> h !! c = Some ch -> 0 <= Channel.events_ ch < 2 ^ 15 -> A !! Channel.fd_ ch = Some (c, ev) ->
  exists p' h', updateChannel p (owner_ p) h c = Ok (p', h') /\ owner_ p' = owner_ p /\
    strip <$> h' = strip <$> h /\ untouched A c h h' /\ prep p' h' (<[Channel.fd_ ch := (c, Channel.events_ ch)]> A).
Proof.
  intros Hr Hc Hev HA. destruct (pr_in _ _ _ Hr _ _ _ HA) as [i Hp]. destruct (Hp) as (Hfd & _ & (ch' & Hc' & _ & Hi) & r & Hs).
  rewrite Hc in Hc'. injection Hc' as <-. unfold updateChannel, Channel.deref. rewrite assertInLoopThread_self, Hc. cbn [mbind res_bind].
  pose proof (lookup_lt_Some _ _ _ Hs) as Hlt. pose proof (pr_small _ _ _ Hr) as Hsm. rewrite Hi. case_match; zbool; [lia|].
  assert (chans_ p !! Channel.fd_ ch = Some c) as Hpc by by rewrite (pr_channels _ _ _ Hr), lookup_fmap, HA.
  rewrite !Hpc, i32_count by (pose proof (zlen_nonneg (pollfds_ p)); lia). rewrite !assert_true by (zbool; unfold zlen; done || lia).
  rewrite Nat2Z.id, Hs, assert_true by (cbn; unfold slot_fd; zbool; case_match; lia). rewrite i16_events by done.
  eexists _, _. split_and!; [done|done|done|apply untouched_same|]. set (p' := mk _ _ _).
  assert (placed p' h (Channel.fd_ ch) c (Channel.events_ ch) i) as Hnew.
  { split_and!; [done|lia|lia|by exists ch|]. exists 0. cbn. by rewrite list_lookup_insert_eq by done. }
  assert (forall fd1 c1 ev1 i1, A !! fd1 = Some (c1, ev1) -> fd1 <> Channel.fd_ ch -> placed p h fd1 c1 ev1 i1 -> placed p' h fd1 c1 ev1 i1) as Hold.
  { intros fd1 c1 ev1 i1 H1 Hne P1. apply (placed_frame _ _ _ _ _ _ _ _ P1); [done|]. cbn. apply list_lookup_insert_ne.
    intros <-. apply Hne. by destruct (placed_fd _ _ _ _ _ _ _ _ _ P1 Hp). }
  split.
  - cbn. rewrite fmap_insert, <- (pr_channels _ _ _ Hr). by rewrite insert_id.
  - cbn. rewrite length_insert, map_size_insert_Some by by eexists. apply (pr_size _ _ _ Hr).
  - cbn. unfold zlen in *. by rewrite length_insert.
  - intros fd1 c1 ev1 H1. destruct (decide (fd1 = Channel.fd_ ch)) as [->|]; [rewrite lookup_insert_eq in H1|rewrite lookup_insert_ne in H1 by done].
    + simplify_eq. by eexists.
    + destruct (pr_in _ _ _ Hr _ _ _ H1) as [i1 P1]. exists i1. by apply Hold.
  - intros i1 pfd H1. cbn in H1. destruct (decide (i1 = i)) as [->|Hne].
    + exists (Channel.fd_ ch), c, (Channel.events_ ch). by rewrite lookup_insert_eq.
    + rewrite list_lookup_insert_ne in H1 by done. destruct (pr_slot _ _ _ Hr _ _ H1) as (fd1 & c1 & ev1 & HA1 & P1).
      exists fd1, c1, ev1. assert (fd1 <> Channel.fd_ ch) as Hf.
      { intros ->. rewrite HA in HA1. injection HA1 as -> ->. destruct P1 as (_ & _ & (ch1 & Hc1 & _ & Hi1) & _). simplify_eq. lia. }
      rewrite lookup_insert_ne by done. split; [done|by apply Hold].
Qed.

(** Taking a registration out: the others are placed in the new state, each
    slot of which is one of theirs. *)
Lemma prep_delete p p' h h' A c fd q :
  prep p h A -> A !! fd = Some (c, q) -> chans_ p' = delete fd (chans_ p) -> length (pollfds_ p') = (length (pollfds_ p) - 1)%nat ->
  (forall fd1 c1 ev1, A !! fd1 = Some (c1, ev1) -> fd1 <> fd -> exists i1, placed p' h' fd1 c1 ev1 i1) ->
  (forall i1 pfd, pollfds_ p' !! i1 = Some pfd -> exists fd1 c1 ev1, A !! fd1 = Some (c1, ev1) /\ fd1 <> fd /\ placed p' h' fd1 c1 ev1 i1) ->
  prep p' h' (delete fd A).
Proof.
  intros Hr HA Hch Hlen Hin Hslot. split.
  - by rewrite fmap_delete, Hch, (pr_channels _ _ _ Hr).
  - rewrite Hlen, map_size_delete_Some by by eexists. rewrite (pr_size _ _ _ Hr). lia.
  - pose proof (pr_small _ _ _ Hr). unfold zlen in *. lia.
  - intros fd1 c1 ev1 H1. apply lookup_delete_Some in H1 as [? H1]. by apply Hin.
  - intros i1 pfd H1. destruct (Hslot i1 pfd H1) as (fd1 & c1 & ev1 & ? & ? & ?). exists fd1, c1, ev1.
    by rewrite lookup_delete_ne.
Qed.

(** Distinct registrations are at distinct places. *)
Lemma placed_ne p h fd c ev fd' c' ev' i i' : placed p h fd c ev i -> placed p h fd' c' ev' i' -> fd <> fd' -> i <> i'.
Proof. intros P1 P2 Hne ->. apply Hne. by destruct (placed_fd _ _ _ _ _ _ _ _ _ P1 P2). Qed.

(** The last entry goes. *)
Lemma prep_pop p h A c fd i :
  prep p h A -> A !! fd = Some (c, 0) -> placed p h fd c 0 i -> i = (length (pollfds_ p) - 1)%nat ->
  prep (mk (take (length (pollfds_ p) - 1) (pollfds_ p)) (delete fd (chans_ p)) (owner_ p)) h (delete fd A).
Proof.
  intros Hr HA Hp Hi. set (p' := mk _ _ _).
  assert (forall fd1 c1 ev1 i1, placed p h fd1 c1 ev1 i1 -> fd1 <> fd -> placed p' h fd1 c1 ev1 i1) as Hold.
  { intros fd1 c1 ev1 i1 P1 Hne. apply (placed_frame _ _ _ _ _ _ _ _ P1); [done|]. cbn. apply lookup_take_lt.
    pose proof (placed_ne _ _ _ _ _ _ _ _ _ _ P1 Hp Hne). destruct P1 as (_ & _ & _ & r & E). apply lookup_lt_Some in E. lia. }
  apply (prep_delete p p' h h A c fd 0 Hr HA); [done|cbn; rewrite length_take; lia| |].
  - intros fd1 c1 ev1 H1 Hne. destruct (pr_in _ _ _ Hr _ _ _ H1) as [i1 P1]. exists i1. by apply Hold.
  - intros i1 pfd H1. cbn in H1. apply lookup_take_Some in H1 as [H1 Hlt].
    destruct (pr_slot _ _ _ Hr _ _ H1) as (fd1 & c1 & ev1 & HA1 & P1). exists fd1, c1, ev1.
    assert (fd1 <> fd) as Hne. { intros ->. rewrite HA in HA1. injection HA1 as <- <-. destruct Hp as (_ & _ & (? & ? & _ & ?) & _), P1 as (_ & _ & (? & ? & _ & ?) & _). simplify_eq. lia. }
    split_and!; [done|done|by apply Hold].
Qed.

(** The last entry moves to the place of the removed one, its channel with it. *)
Lemma prep_move p h A c fd i fe ce ee ech back pfd :
  prep p h A -> A !! fd = Some (c, 0) -> placed p h fd c 0 i ->
  A !! fe = Some (ce, ee) -> placed p h fe ce ee (length (pollfds_ p) - 1) -> fe <> fd -> h !! ce = Some ech ->
  pollfds_ p !! (length (pollfds_ p) - 1)%nat = Some back ->
  let n := length (pollfds_ p) in
  prep (mk (take (n - 1) (<[(n - 1)%nat := pfd]> (<[i := back]> (pollfds_ p)))) (delete fd (chans_ p)) (owner_ p))
    (<[ce := Channel.set_index ech (Z.of_nat i)]> h) (delete fd A).
Proof.
  intros Hr HA Hp HAe Pe Hfe Hce Hback n. set (p' := mk _ _ _). set (h' := <[ce := _]> h).
  pose proof (placed_ne _ _ _ _ _ _ _ _ _ _ Pe Hp Hfe) as Hni. fold n in Hni, Hback, Pe.
  assert (i < n)%nat as Hin by (destruct Hp as (_ & _ & _ & r & E); by apply lookup_lt_Some in E).
  assert (placed p' h' fe ce ee i) as Pe'.
  { destruct (Pe) as (? & ? & (ch & Hc & Hf & _) & r & E). split_and!; [done|lia|lia| |].
    - exists (Channel.set_index ech (Z.of_nat i)). unfold h'. rewrite lookup_insert_eq. simplify_eq. done.
    - exists r. cbn. rewrite lookup_take_lt, list_lookup_insert_ne, list_lookup_insert_eq by lia. congruence. }
  assert (forall fd1 c1 ev1 i1, A !! fd1 = Some (c1, ev1) -> placed p h fd1 c1 ev1 i1 -> fd1 <> fd -> fd1 <> fe -> placed p' h' fd1 c1 ev1 i1) as Hold.
  { intros fd1 c1 ev1 i1 H1 P1 Hne Hne'. pose proof (placed_ne _ _ _ _ _ _ _ _ _ _ P1 Hp Hne).
    pose proof (placed_ne _ _ _ _ _ _ _ _ _ _ P1 Pe Hne'). apply (placed_frame _ _ _ _ _ _ _ _ P1).
    - apply lookup_insert_ne. intros <-. destruct P1 as (_ & _ & (? & Hc1 & ? & _) & _), Pe as (_ & _ & (? & ? & ? & _) & _). simplify_eq.
    - destruct P1 as (_ & _ & _ & r & E). apply lookup_lt_Some in E. fold n in E. cbn.
      rewrite lookup_take_lt, !list_lookup_insert_ne by lia. done. }
  apply (prep_delete p p' h h' A c fd 0 Hr HA); [done|cbn; rewrite length_take, !length_insert; fold n; lia| |].
  - intros fd1 c1 ev1 H1 Hne. destruct (decide (fd1 = fe)) as [->|]; [rewrite HAe in H1; simplify_eq; by exists i|].
    destruct (pr_in _ _ _ Hr _ _ _ H1) as [i1 P1]. exists i1. by apply Hold.
  - intros i1 pfd1 H1. cbn in H1. apply lookup_take_Some in H1 as [H1 Hlt]. rewrite list_lookup_insert_ne in H1 by lia.
    destruct (decide (i1 = i)) as [->|Hne1]; [by exists fe, ce, ee|]. rewrite list_lookup_insert_ne in H1 by done.
    destruct (pr_slot _ _ _ Hr _ _ H1) as (fd1 & c1 & ev1 & HA1 & P1). exists fd1, c1, ev1.
    assert (fd1 <> fd) as Hne.
    { intros ->. rewrite HA in HA1. injection HA1 as <- <-. destruct Hp as (_ & _ & (? & ? & _ & ?) & _), P1 as (_ & _ & (? & ? & _ & ?) & _). simplify_eq. lia. }
    assert (fd1 <> fe) as Hne'.
    { intros ->. rewrite HAe in HA1. injection HA1 as <- <-. destruct Pe as (_ & _ & (? & ? & _ & ?) & _), P1 as (_ & _ & (? & ? & _ & ?) & _). simplify_eq. lia. }
    split_and!; [done|done|by apply Hold].
Qed.

Lemma poll_remove_ok p h A c ch :
  prep p h A -> h !! c = Some ch -> Channel.events_ ch = 0 -> A !! Channel.fd_ ch = Some (c, 0) ->
  exists p' h', removeChannel p (owner_ p) h c = Ok (p', h') /\ owner_ p' = owner_ p /\
    strip <$> h' = strip <$> h /\ untouched A c h h' /\ prep p' h' (delete (Channel.fd_ ch) A).
Proof.
  intros Hr Hc He HA. destruct (pr_in _ _ _ Hr _ _ _ HA) as [i Hp]. destruct (Hp) as (Hfd & _ & (ch' & Hc' & _ & Hi) & r & Hs).
  rewrite Hc in Hc'. injection Hc' as <-. unfold removeChannel, Channel.deref. rewrite assertInLoopThread_self, Hc. cbn [mbind res_bind].
  pose proof (lookup_lt_Some _ _ _ Hs) as Hlt. pose proof (pr_small _ _ _ Hr) as Hsm. pose proof (zlen_nonneg (pollfds_ p)).
  assert (chans_ p !! Channel.fd_ ch = Some c) as Hpc by by rewrite (pr_channels _ _ _ Hr), lookup_fmap, HA.
  rewrite Hi, !Hpc. unfold Channel.isNoneEvent. rewrite He, i32_count by lia. change (0 =? Channel.kNoneEvent) with true.
  rewrite !assert_true by (zbool; unfold zlen; done || lia). rewrite Nat2Z.id, Hs.
  destruct (lookup_lt_is_Some_2 (pollfds_ p) (length (pollfds_ p) - 1)) as [back Hback]; [lia|].
  assert (last (pollfds_ p) = Some back) as -> by (rewrite last_lookup; by replace (Nat.pred (length (pollfds_ p))) with (length (pollfds_ p) - 1)%nat by lia).
  rewrite assert_true by (cbn; unfold slot_fd; cbn; zbool; lia). case_match; zbool.
  - eexists _, _. split_and!; [done|done|done|apply untouched_same|]. apply (prep_pop _ _ _ c _ i); [done|done|done|lia].
  - destruct (pr_slot _ _ _ Hr _ _ Hback) as (fe & ce & ee & HAe & Pe). destruct (Pe) as (Hfe & _ & (ech & Hce & Hfce & Hie) & re & E).
    rewrite Hback in E. injection E as ->. cbn [pfd_fd].
    assert ((if slot_fd fe ee <? 0 then - slot_fd fe ee - 1 else slot_fd fe ee) = fe) as -> by (unfold slot_fd; repeat case_match; zbool; lia).
    assert (fe <> Channel.fd_ ch) as Hne. { intros ->. rewrite HA in HAe. injection HAe as <- <-. simplify_eq. lia. }
    rewrite lookup_delete_ne, (pr_channels _ _ _ Hr), lookup_fmap, HAe by done. cbn [fmap option_fmap option_map fst].
    rewrite Hce. cbn [mbind res_bind]. eexists _, _. split_and!; [done|done|by apply (strip_insert h ce ech)| |].
    { intros c' Hc' Hno. apply lookup_insert_ne. intros <-. by destruct (Hno fe ee). }
    rewrite <- (pr_channels _ _ _ Hr). by apply (prep_move _ _ _ c _ i fe ce ee).
Qed.

#[global] Program Instance Poll_PollerSpec : PollerSpec t := {|
  rep := prep;
  watched p := asked (pollfds_ p);
|}.
Next Obligation. intros p h A Hr. by eapply asked_wanted. Qed.
Next Obligation. intros p h A Hr. apply (pr_channels _ _ _ Hr). Qed.
Next Obligation. intros p h A fd c ev Hr HA. destruct (pr_in _ _ _ Hr _ _ _ HA) as (i & _ & _ & (ch & ? & ? & _) & _). by exists ch. Qed.
Next Obligation.
  intros p h A c ch ch' Hr Hc Hfd Hi.
  assert (forall fd1 c1 ev1 i1, placed p h fd1 c1 ev1 i1 -> placed p (<[c := ch']> h) fd1 c1 ev1 i1) as Hold.
  { intros fd1 c1 ev1 i1 (? & ? & (ch1 & Hc1 & ? & ?) & ?). split_and!; [done|lia|lia| |done]. destruct (decide (c1 = c)) as [->|].
    - exists ch'. rewrite lookup_insert_eq. simplify_eq. split_and!; [done|done|congruence].
    - exists ch1. by rewrite lookup_insert_ne. }
  destruct Hr as [H1 H2 H3 H4 H5]. split; [done|done|done| |].
  - intros fd1 c1 ev1 HA. destruct (H4 _ _ _ HA) as [i1 P1]. exists i1. by apply Hold.
  - intros i1 pfd Hpf. destruct (H5 _ _ Hpf) as (fd1 & c1 & ev1 & ? & ?). exists fd1, c1, ev1. split; [done|by apply Hold].
Qed.
Next Obligation.
  intros p h A c ch [H1 H2 H3 H4 H5] Hc.
  assert (forall fd1 c1 ev1 i1, placed p h fd1 c1 ev1 i1 -> placed p (<[c := ch]> h) fd1 c1 ev1 i1) as Hold.
  { intros fd1 c1 ev1 i1 (? & ? & (ch1 & Hc1 & ? & ?) & ?). split_and!; [done|lia|lia| |done]. exists ch1. rewrite lookup_insert_ne; [done|congruence]. }
  split; [done|done|done| |].
  - intros fd1 c1 ev1 HA. destruct (H4 _ _ _ HA) as [i1 P1]. exists i1. by apply Hold.
  - intros i1 pfd Hpf. destruct (H5 _ _ Hpf) as (fd1 & c1 & ev1 & ? & ?). exists fd1, c1, ev1. split; [done|by apply Hold].
Qed.
Next Obligation.
  intros p h A c [H1 H2 H3 H4 H5] Hc.
  assert (forall fd1 c1 ev1 i1, A !! fd1 = Some (c1, ev1) -> placed p h fd1 c1 ev1 i1 -> placed p (delete c h) fd1 c1 ev1 i1) as Hold.
  { intros fd1 c1 ev1 i1 HA (? & ? & (ch1 & Hc1 & ? & ?) & ?). split_and!; [done|lia|lia| |done]. exists ch1. rewrite lookup_delete_ne; [done|].
    intros <-. by apply (Hc fd1 ev1). }
  split; [done|done|done| |].
  - intros fd1 c1 ev1 HA. destruct (H4 _ _ _ HA) as [i1 P1]. exists i1. by apply Hold.
  - intros i1 pfd Hpf. destruct (H5 _ _ Hpf) as (fd1 & c1 & ev1 & ? & ?). exists fd1, c1, ev1. split; [done|by apply Hold].
Qed.
Next Obligation.
  intros p h A c ch Hr Hc Hfd Hev Hsz [(HA & He & Hi)|(ev & HA & _)]; [by apply poll_update_new|by eapply update_old].
Qed.
Next Obligation. intros. by apply poll_remove_ok. Qed.

#[global] Program Instance Poll_PollerFrame : PollerFrame t.
Next Obligation.
  intros p tid h c p' h' E. cbn in E. unfold updateChannel, Channel.deref in E.
  apply res_bind_Ok in E as ([] & Ht%assertInLoopThread_Ok & E). destruct (h !! c) as [ch|] eqn:Hc; [|done]. cbn [mbind res_bind] in E.
  exists ch. cbn. destruct (Channel.index_ ch <? 0).
  - apply assert_Ok in E as [Ein%bool_decide_eq_true E]. injection E as <- <-. cbn.
    split_and!; [done|by apply (strip_insert h c ch)|done|done|by left|done].
  - apply assert_Ok in E as [_ E]. apply assert_Ok in E as [Ein%bool_decide_eq_true E]. apply assert_Ok in E as [_ E].
    destruct (pollfds_ p !! _) as [pfd|]; [|done]. apply assert_Ok in E as [_ E]. injection E as <- <-. cbn.
    split_and!; [done..|by right|by rewrite insert_id].
Qed.
Next Obligation.
  intros p tid h c p' h' E. cbn in E. unfold removeChannel, Channel.deref in E.
  apply res_bind_Ok in E as ([] & Ht%assertInLoopThread_Ok & E). destruct (h !! c) as [ch|] eqn:Hc; [|done]. cbn [mbind res_bind] in E.
  exists ch. cbn. apply assert_Ok in E as [_ E]. apply assert_Ok in E as [Ein%bool_decide_eq_true E].
  apply assert_Ok in E as [_ E]. apply assert_Ok in E as [_ E].
  destruct (pollfds_ p !! _) as [pfd|], (last (pollfds_ p)) as [back|]; [|done..]. apply assert_Ok in E as [_ E].
  destruct (Channel.index_ ch =? _); [injection E as <- <-; by split_and!|].
  destruct (delete _ _ !! _) as [e|]; [|done]. destruct (h !! e) as [ech|] eqn:He; [|done]. cbn [mbind res_bind] in E.
  injection E as <- <-. cbn. split_and!; [done|by apply (strip_insert h e ech)|done..].
Qed.

Lemma poll_new_rep owner h : rep (new owner) h ∅.
Proof. split; cbn; [by rewrite fmap_empty|by rewrite map_size_empty|rewrite zlen_nil; unfold int_max; lia|done|done]. Qed.

End PollPoller.
