(* ===== verification/Interest.v ===== *)
(** Channels and pollers together: whatever sequence of interest changes and
    removals the program makes, the kernel is asked for exactly the events of
    the registered channels, on either poller. *)

From S2P Require Import Prelude Channel Poller EPollPoller PollPoller.

Module Interest.

(** What a program does to channels. *)
Inductive op := OpInterest (c : Z) (o : Channel.interest_op) | OpRemove (c : Z).

Definition run_op {P} `{Poller P} (p : P) (h : Channel.heap) (o : op) : res (P * Channel.heap) :=
  match o with
  | OpInterest c o => Channel_interest p (owner_tid p) h c o
  | OpRemove c => Channel_remove p (owner_tid p) h c
  end.
Fixpoint run_ops {P} `{Poller P} (p : P) (h : Channel.heap) (os : list op) : res (P * Channel.heap) :=
  match os with [] => Ok (p, h) | o :: os => '(p, h) ← run_op p h o; run_ops p h os end.

(** The abstract state: for each channel its descriptor, events and whether it
    was ever registered; for each descriptor the registered channel. *)
Record state := mk { chans : gmap Z (Z * Z * bool); regs : gmap Z (Z * Z) }.

Definition spec_op (s : state) (o : op) : option state :=
  match o with
  | OpInterest c o =>
      '(fd, ev, fresh) ← chans s !! c;
      let ev' := Channel.new_events o ev in
      let s' := mk (<[c := (fd, ev', false)]> (chans s)) (<[fd := (c, ev')]> (regs s)) in
      match regs s !! fd with
      | None => if fresh && negb (ev' =? 0) && (Z.of_nat (size (regs s)) <? int_max) then Some s' else None
      | Some (c', ev0) => if (c' =? c) && (negb (ev0 =? 0) || negb (ev' =? 0)) && (Z.of_nat (size (regs s)) <? int_max) then Some s' else None
      end
  | OpRemove c =>
      '(fd, ev, fresh) ← chans s !! c;
      if (ev =? 0) && bool_decide (regs s !! fd = Some (c, 0)) then Some (mk (chans s) (delete fd (regs s))) else None
  end.
Fixpoint spec_ops (s : state) (os : list op) : option state :=
  match os with [] => Some s | o :: os => s ← spec_op s o; spec_ops s os end.

(** A heap of channels shows the abstract channels. *)
Record shows (h : Channel.heap) (s : state) : Prop := {
  sh_chan c fd ev fresh : chans s !! c = Some (fd, ev, fresh) -> exists ch, h !! c = Some ch /\
    Channel.fd_ ch = fd /\ Channel.events_ ch = ev /\ (fresh = true -> Channel.index_ ch = -1);
  sh_range c fd ev fresh : chans s !! c = Some (fd, ev, fresh) -> 0 <= fd /\ 0 <= ev < 8;
  sh_fresh fd c ev : regs s !! fd = Some (c, ev) -> exists ev', chans s !! c = Some (fd, ev', false);
}.

Lemma new_events_range o ev : 0 <= ev < 8 -> 0 <= Channel.new_events o ev < 8.
Proof.
  intros Hev. assert (ev ∈ seqZ 0 8) as Hin by (apply elem_of_seqZ; lia). clear Hev.
  let l := eval vm_compute in (seqZ 0 8) in change (seqZ 0 8) with l in Hin.
  rewrite !elem_of_cons in Hin. destruct_or! Hin; [subst; destruct o; vm_compute; split; done..|by apply elem_of_nil in Hin].
Qed.

(** After an operation on channel [c], which it leaves registered or removed. *)
Lemma shows_step h h' s s' c ch1 fd ev fresh ev' :
  shows h s -> chans s !! c = Some (fd, ev, fresh) -> Channel.fd_ ch1 = fd -> Channel.events_ ch1 = ev' -> 0 <= ev' < 8 ->
  strip <$> h' = strip <$> <[c := ch1]> h -> untouched (regs s) c (<[c := ch1]> h) h' ->
  chans s' = <[c := (fd, ev', false)]> (chans s) ->
  (forall fd0 c0 ev0, regs s' !! fd0 = Some (c0, ev0) -> (fd0 = fd /\ c0 = c) \/ regs s !! fd0 = Some (c0, ev0)) -> shows h' s'.
Proof.
  intros [S1 S2 S3] Hc Hf He Hr Hst Hun Hch Hreg. split.
  - intros c0 fd0 ev0 fr0 Hc0. rewrite Hch in Hc0. destruct (decide (c0 = c)) as [->|Hne].
    + rewrite lookup_insert_eq in Hc0. simplify_eq. destruct (strip_lookup _ _ c ch1 Hst) as (ch' & Hc' & Es); [apply lookup_insert_eq|].
      destruct (strip_same _ _ Es) as (E1 & E2 & _). exists ch'. by split_and!.
    + rewrite lookup_insert_ne in Hc0 by done. destruct (S1 _ _ _ _ Hc0) as (ch & Hcc & Hf0 & He0 & Hi).
      destruct (strip_lookup _ _ c0 ch Hst) as (ch' & Hc' & Es); [by rewrite lookup_insert_ne|].
      destruct (strip_same _ _ Es) as (E1 & E2 & _). exists ch'. split_and!; [done|congruence|congruence|]. intros ->.
      rewrite <- (Hi eq_refl). rewrite Hun, lookup_insert_ne, Hcc in Hc'; [by injection Hc' as <-|done..|].
      intros fd1 ev1 HA. destruct (S3 _ _ _ HA) as [? ?]. congruence.
  - intros c0 fd0 ev0 fr0 Hc0. rewrite Hch in Hc0. destruct (decide (c0 = c)) as [->|].
    + rewrite lookup_insert_eq in Hc0. simplify_eq. by destruct (S2 _ _ _ _ Hc).
    + rewrite lookup_insert_ne in Hc0 by done. by eapply S2.
  - intros fd0 c0 ev0 HA. rewrite Hch. destruct (Hreg _ _ _ HA) as [[-> ->]|HA']; [rewrite lookup_insert_eq; by eexists|].
    destruct (S3 _ _ _ HA') as [ev1 Hc1]. destruct (decide (c0 = c)) as [->|].
    + rewrite lookup_insert_eq. simplify_eq. by eexists.
    + rewrite lookup_insert_ne by done. by eexists.
Qed.

(** ** One channel of a client

    What a component that owns a channel relies on. *)
Section Client.
Context {P : Type} {HP : Poller P} {HS : PollerSpec P}.

(** The channel [c] is registered under its descriptor with its events. *)
Record registered (p : P) (h : Channel.heap) (A : gmap Z (Z * Z)) (c : Z) (ch : Channel.t) : Prop := {
  g_rep : rep p h A;
  g_ch : h !! c = Some ch;
  g_fd : 0 <= Channel.fd_ ch;
  g_events : 0 <= Channel.events_ ch < 8;
  g_reg : A !! Channel.fd_ ch = Some (c, Channel.events_ ch);
  g_size : Z.of_nat (size A) < int_max;
}.

Lemma interest_updates p h A c ch o :
  rep p h A -> h !! c = Some ch -> 0 <= Channel.fd_ ch -> 0 <= Channel.events_ ch < 8 -> Z.of_nat (size A) < int_max ->
  let ev' := Channel.new_events o (Channel.events_ ch) in
  update_allowed A c (Channel.set_events ch ev') ->
  exists p' h' ch', Channel_interest p (owner_tid p) h c o = Ok (p', h') /\ owner_tid p' = owner_tid p /\
    rep p' h' (<[Channel.fd_ ch := (c, ev')]> A) /\ h' !! c = Some ch' /\
    strip ch' = strip (Channel.set_added (Channel.set_events ch ev') true) /\
    strip <$> h' = strip <$> <[c := Channel.set_added (Channel.set_events ch ev') true]> h.
Proof.
  intros Hr Hc Hf He Hs ev' Hal. pose proof (new_events_range o _ He) as Hr8. fold ev' in Hr8.
  set (ch1 := Channel.set_added (Channel.set_events ch ev') true).
  assert (rep p (<[c := ch1]> h) A) as Hr1 by by apply (rep_fields _ _ _ _ ch).
  destruct (update_ok p (<[c := ch1]> h) A c ch1 Hr1) as (p' & h' & E & Eo & Est & _ & Hr');
    [apply lookup_insert_eq|done|change (Channel.events_ ch1) with ev'; lia|done|exact Hal|].
  destruct (strip_lookup _ _ c ch1 Est) as (ch' & Hc' & Es); [apply lookup_insert_eq|].
  exists p', h', ch'. split_and!; try done. unfold Channel_interest, Channel_update, Channel.deref. rewrite Hc. cbn [mbind res_bind].
  rewrite lookup_insert_eq. cbn [mbind res_bind]. rewrite insert_insert_eq. exact E.
Qed.

(** A change of interest of a registered channel. *)
Lemma interest_registered p h A c ch o : registered p h A c ch ->
  let ev' := Channel.new_events o (Channel.events_ ch) in
  Channel.events_ ch <> 0 \/ ev' <> 0 ->
  exists p' h' ch', Channel_interest p (owner_tid p) h c o = Ok (p', h') /\ owner_tid p' = owner_tid p /\
    registered p' h' (<[Channel.fd_ ch := (c, ev')]> A) c ch' /\ Channel.fd_ ch' = Channel.fd_ ch /\ Channel.events_ ch' = ev' /\
    strip ch' = strip (Channel.set_added (Channel.set_events ch ev') true).
Proof.
  intros [Hr Hc Hf He HA Hs] ev' Hne. destruct (interest_updates p h A c ch o) as (p' & h' & ch' & E & Eo & Hr' & Hc' & Es & _); try done.
  { right. by exists (Channel.events_ ch). }
  destruct (strip_same _ _ Es) as (E1 & E2 & _). exists p', h', ch'. split_and!; try done. cbn in E1, E2. split; rewrite ?E1, ?E2; try done.
  - by apply new_events_range.
  - by rewrite lookup_insert_eq.
  - rewrite map_size_insert_Some; [done|]. by eexists.
Qed.

(** The first registration of a channel. *)
Lemma interest_fresh p h A c ch o :
  rep p h A -> h !! c = Some ch -> 0 <= Channel.fd_ ch -> Channel.events_ ch = 0 -> Channel.index_ ch = -1 ->
  A !! Channel.fd_ ch = None -> Z.of_nat (size A) + 1 < int_max -> Channel.new_events o 0 <> 0 ->
  let ev' := Channel.new_events o 0 in
  exists p' h' ch', Channel_interest p (owner_tid p) h c o = Ok (p', h') /\ owner_tid p' = owner_tid p /\
    registered p' h' (<[Channel.fd_ ch := (c, ev')]> A) c ch' /\ Channel.fd_ ch' = Channel.fd_ ch /\ Channel.events_ ch' = ev' /\
    strip ch' = strip (Channel.set_added (Channel.set_events ch ev') true).
Proof.
  intros Hr Hc Hf He Hi HA Hs Hne ev'. destruct (interest_updates p h A c ch o) as (p' & h' & ch' & E & Eo & Hr' & Hc' & Es & _); rewrite ?He; try done; [lia| |].
  { left. by split_and!. }
  rewrite He in Hr', Es. fold ev' in Hr', Es. destruct (strip_same _ _ Es) as (E1 & E2 & _). exists p', h', ch'. split_and!; try done.
  cbn in E1, E2. split; rewrite ?E1, ?E2; try done.
  - apply new_events_range. lia.
  - by rewrite lookup_insert_eq.
  - rewrite map_size_insert_None by done. lia.
Qed.

(** A registered channel without interest leaves. *)
Lemma remove_registered p h A c ch : registered p h A c ch -> Channel.events_ ch = 0 ->
  exists p' h' ch', Channel_remove p (owner_tid p) h c = Ok (p', h') /\ owner_tid p' = owner_tid p /\
    rep p' h' (delete (Channel.fd_ ch) A) /\ h' !! c = Some ch' /\ strip ch' = strip (Channel.set_added ch false).
Proof.
  intros [Hr Hc Hf He HA Hs] H0. set (ch1 := Channel.set_added ch false).
  assert (rep p (<[c := ch1]> h) A) as Hr1 by by apply (rep_fields _ _ _ _ ch).
  destruct (remove_ok p (<[c := ch1]> h) A c ch1 Hr1) as (p' & h' & E & Eo & Est & _ & Hr'); [apply lookup_insert_eq|done|by rewrite H0 in HA|].
  destruct (strip_lookup _ _ c ch1 Est) as (ch' & Hc' & Es); [apply lookup_insert_eq|].
  exists p', h', ch'. split_and!; try done. unfold Channel_remove, Channel.deref. rewrite Hc. cbn [mbind res_bind].
  rewrite assert_true by (unfold Channel.isNoneEvent; rewrite H0; done). exact E.
Qed.

End Client.

Section Refine.
Context {P : Type} {HP : Poller P} {HS : PollerSpec P}.

Lemma interest_refines p h s c o s' :
  rep p h (regs s) -> shows h s -> spec_op s (OpInterest c o) = Some s' ->
  exists p' h', Channel_interest p (owner_tid p) h c o = Ok (p', h') /\ owner_tid p' = owner_tid p /\ rep p' h' (regs s') /\ shows h' s'.
Proof.
  intros Hr Hs Ho. cbn [spec_op] in Ho. apply bind_Some in Ho as ([[fd ev] fresh] & Hc & Ho).
  destruct (sh_chan _ _ Hs _ _ _ _ Hc) as (ch & Hch & Hfd & Hev & Hfr), (sh_range _ _ Hs _ _ _ _ Hc) as [Hf0 He0].
  pose proof (new_events_range o ev He0) as Hr8. set (ev' := Channel.new_events o ev) in *.
  unfold Channel_interest, Channel_update, Channel.deref. rewrite Hch. cbn [mbind res_bind].
  rewrite lookup_insert_eq. cbn [mbind res_bind]. rewrite insert_insert_eq, Hev. fold ev'.
  set (ch1 := Channel.set_added (Channel.set_events ch ev') true).
  assert (rep p (<[c := ch1]> h) (regs s)) as Hr1 by by apply (rep_fields p h (regs s) c ch ch1).
  assert (s' = mk (<[c := (fd, ev', false)]> (chans s)) (<[fd := (c, ev')]> (regs s)) /\ update_allowed (regs s) c ch1 /\
    Z.of_nat (size (regs s)) < int_max) as (-> & Hall & Hsz).
  { unfold update_allowed. change (Channel.fd_ ch1) with (Channel.fd_ ch). change (Channel.events_ ch1) with ev'.
    change (Channel.index_ ch1) with (Channel.index_ ch). rewrite Hfd.
    destruct (regs s !! fd) as [[c' ev0]|] eqn:ER; case_match; simplify_eq; zbool; (split_and!; [done| |tauto]).
    - right. exists ev0. destruct_and!. by subst.
    - left. destruct_and!. subst. split_and!; [done|done|by apply Hfr]. }
  destruct (update_ok p (<[c := ch1]> h) (regs s) c ch1 Hr1) as (p' & h' & E & Eo & Est & Hun & Hr');
    [apply lookup_insert_eq|by rewrite <- Hfd in Hf0|change (Channel.events_ ch1) with ev'; lia|done|done|].
  exists p', h'. split_and!; [done|done|by rewrite <- Hfd|].
  apply (shows_step h h' s _ c ch1 fd ev fresh ev'); try done. cbn [regs]. intros fd0 c0 ev0 HA.
  destruct (decide (fd0 = fd)) as [->|]; [rewrite lookup_insert_eq in HA; simplify_eq; by left|].
  rewrite lookup_insert_ne in HA by done. by right.
Qed.

Lemma remove_refines p h s c s' :
  rep p h (regs s) -> shows h s -> spec_op s (OpRemove c) = Some s' ->
  exists p' h', Channel_remove p (owner_tid p) h c = Ok (p', h') /\ owner_tid p' = owner_tid p /\ rep p' h' (regs s') /\ shows h' s'.
Proof.
  intros Hr Hs Ho. cbn [spec_op] in Ho. apply bind_Some in Ho as ([[fd ev] fresh] & Hc & Ho).
  destruct (sh_chan _ _ Hs _ _ _ _ Hc) as (ch & Hch & Hfd & Hev & _). case_match; simplify_eq; zbool. destruct_and!. subst.
  destruct (sh_fresh _ _ Hs _ _ _ ltac:(eassumption)) as [ev1 Hc1]. rewrite Hc in Hc1. injection Hc1 as <- ->.
  unfold Channel_remove, Channel.deref. rewrite Hch. cbn [mbind res_bind]. rewrite assert_true by (by apply Z.eqb_eq).
  set (ch1 := Channel.set_added ch false).
  assert (rep p (<[c := ch1]> h) (regs s)) as Hr1 by by apply (rep_fields p h (regs s) c ch ch1).
  destruct (remove_ok p (<[c := ch1]> h) (regs s) c ch1 Hr1) as (p' & h' & E & Eo & Est & Hun & Hr'); [apply lookup_insert_eq|done|done|].
  exists p', h'. split_and!; [done|done|done|]. apply (shows_step h h' s _ c ch1 (Channel.fd_ ch) (Channel.events_ ch) false (Channel.events_ ch)); try done.
  - lia.
  - cbn [chans]. by rewrite insert_id.
  - cbn [regs]. intros fd0 c0 ev0 HA. apply lookup_delete_Some in HA as [_ HA]. by right.
Qed.

Lemma interest_ops_refines p h s os s' :
  rep p h (regs s) -> shows h s -> spec_ops s os = Some s' ->
  exists p' h', run_ops p h os = Ok (p', h') /\ rep p' h' (regs s') /\ shows h' s'.
Proof.
  revert p h s. induction os as [|o os IH]; intros p h s Hr Hs Ho; cbn [spec_ops run_ops] in *; [simplify_eq; by eauto|].
  apply bind_Some in Ho as (s1 & Ho & Hos).
  assert (exists p' h', run_op p h o = Ok (p', h') /\ owner_tid p' = owner_tid p /\ rep p' h' (regs s1) /\ shows h' s1) as (p1 & h1 & -> & _ & Hr1 & Hs1)
    by (destruct o; [by eapply interest_refines|by eapply remove_refines]).
  cbn [mbind res_bind]. by eapply IH.
Qed.

End Refine.

(** C6: on both pollers every permitted sequence of interest changes and
    removals succeeds, and leaves the kernel watching exactly the descriptors of
    the registered channels that want events, for the events they want. *)
Theorem pollers_watch_interest {K} `{Epoll K} owner h s os s' :
  shows h s -> regs s = ∅ -> spec_ops s os = Some s' ->
  exists pe he pp hp,
    run_ops (EPollPoller.new (K := K) owner) h os = Ok (pe, he) /\ run_ops (PollPoller.new owner) h os = Ok (pp, hp) /\
    watched pe = wanted (regs s') /\ watched pp = wanted (regs s') /\
    channels_ pe = fst <$> regs s' /\ channels_ pp = fst <$> regs s' /\ shows he s' /\ shows hp s'.
Proof.
  intros Hs HA Ho.
  destruct (interest_ops_refines (EPollPoller.new (K := K) owner) h s os s') as (pe & he & Ee & Re & Se);
    [rewrite HA; apply EPollPoller.epoll_new_rep|done|done|].
  destruct (interest_ops_refines (PollPoller.new owner) h s os s') as (pp & hp & Ep & Rp & Sp);
    [rewrite HA; apply PollPoller.poll_new_rep|done|done|].
  exists pe, he, pp, hp. split_and!; try done.
  - by apply (rep_watched _ he).
  - by apply (rep_watched _ hp).
  - by apply (rep_channels _ he).
  - by apply (rep_channels _ hp).
Qed.

(** An epoll object that behaves as documented. *)
Definition map_ctl (k : gmap Z (Z * Z)) (op : ctl) (fd : Z) (ev : Z * Z) : gmap Z (Z * Z) * Z :=
  match op, k !! fd with
  | EPOLL_CTL_ADD, None => (<[fd := ev]> k, 0)
  | EPOLL_CTL_MOD, Some _ => (<[fd := ev]> k, 0)
  | EPOLL_CTL_DEL, Some _ => (delete fd k, 0)
  | _, _ => (k, -1)
  end.
#[global] Program Instance map_epoll : Epoll (gmap Z (Z * Z)) :=
  {| epoll_ctl := map_ctl; epoll_set k := k; epoll_create1 := ∅ |}.
Next Obligation. done. Qed.
Next Obligation. intros k fd ev E. unfold map_ctl. cbn in E. rewrite E. by eexists. Qed.
Next Obligation. intros k fd ev [x E]. unfold map_ctl. cbn in E. rewrite E. by eexists. Qed.
Next Obligation. intros k fd ev [x E]. unfold map_ctl. cbn in E. rewrite E. by eexists. Qed.

Definition sample_heap : Channel.heap := {[ 10 := Channel.new 3; 11 := Channel.new 4; 12 := Channel.new 5 ]}.
Definition sample_state : state := mk {[ 10 := (3, 0, true); 11 := (4, 0, true); 12 := (5, 0, true) ]} ∅.
Definition sample_ops : list op :=
  [OpInterest 10 Channel.EnableReading; OpInterest 11 Channel.EnableReading; OpInterest 12 Channel.EnableWriting;
   OpInterest 11 Channel.EnableWriting; OpInterest 10 Channel.DisableAll; OpRemove 10; OpInterest 12 Channel.DisableAll].

Lemma pollers_watch_interest_witness :
  exists pe he pp hp,
    run_ops (EPollPoller.new (K := gmap Z (Z * Z)) 1) sample_heap sample_ops = Ok (pe, he) /\ run_ops (PollPoller.new 1) sample_heap sample_ops = Ok (pp, hp) /\
    watched pe = {[ 4 := 7 ]} /\ watched pp = {[ 4 := 7 ]}.
Proof.
  destruct (pollers_watch_interest (K := gmap Z (Z * Z)) 1 sample_heap sample_state sample_ops
    (mk {[ 10 := (3, 0, false); 11 := (4, 7, false); 12 := (5, 0, false) ]} {[ 4 := (11, 7); 5 := (12, 0) ]}))
    as (pe & he & pp & hp & E1 & E2 & W1 & W2 & _).
  - split.
    + intros c fd ev fresh Hc. unfold sample_state, sample_heap in *. cbn [chans] in Hc.
      repeat (apply lookup_insert_Some in Hc as [[<- [= <- <- <-]]|[? Hc]]; [eexists; split_and!; [vm_compute; reflexivity|done..]|]).
      apply lookup_singleton_Some in Hc as [<- [= <- <- <-]]. eexists; split_and!; [vm_compute; reflexivity|done..].
    + intros c fd ev fresh Hc. unfold sample_state in Hc. cbn [chans] in Hc.
      repeat (apply lookup_insert_Some in Hc as [[<- [= <- <- <-]]|[? Hc]]; [lia|]).
      apply lookup_singleton_Some in Hc as [<- [= <- <- <-]]. lia.
    + done.
  - done.
  - vm_compute. reflexivity.
  - exists pe, he, pp, hp. split_and!; [exact E1|exact E2|rewrite W1; vm_compute; reflexivity|rewrite W2; vm_compute; reflexivity].
Defined.

End Interest.
