(* ===== verification/TimerQueue.v ===== *)
(** Timers (src/networking/Timer.h, Timer.cpp, TimerId.h, TimerQueue.h,
    TimerQueue.cpp).

    Timers are heap objects; a [Timer *] is an address.  [new] returns an
    address that is not in use, which is an argument.  A time is its count of
    microseconds.  An interval is a [double]: a parameter type with the test
    [interval > 0.0] and the conversion of [interval * 1000000] to [int64_t]
    that [addTime] makes.  [Timestamp::now()] is an argument.  Running a callback
    is an argument of [handleRead], since callbacks add and cancel timers. *)

From S2P Require Import Prelude Timestamp StdMap Poller.

Module TimerQueue.
(** [Entry] and [ActiveTimer]; a [std::set] of them is its sorted elements. *)
Abbreviation Entry := (Z * Z)%type.

Section Timers.
Context {double : Type} (positive : double -> bool) (to_micros : double -> Z).

Record Timer := mk_timer { expiration_ : Z; interval_ : double; repeat_ : bool; sequence_ : Z }.

Record TimerId := mk_id { timer_ : Z; id_sequence_ : Z }.

(** [Timer::restart] *)
Definition restart (tm : Timer) (now : Z) : res Timer :=
  e ← (if repeat_ tm then check_int64 (now + to_micros (interval_ tm)) else Ok 0);
  Ok (mk_timer e (interval_ tm) (repeat_ tm) (sequence_ tm)).

Record t := mk {
  heap_ : gmap Z Timer;                (* the live [Timer] objects *)
  numCreated_ : Z;                     (* [Timer::s_numCreated_] *)
  owner_ : Z;                          (* the thread of [loop_] *)
  timers_ : list (Entry * unit);
  activeTimers_ : list (Entry * unit);
  callingExpiredTimers_ : bool;
  cancelingTimers_ : list (Entry * unit);
  armed_ : option Z;                   (* what the timerfd was last set to *)
}.

Definition new (owner : Z) : t := mk ∅ 0 owner [] [] false [] None.

Definition with_heap (q : t) (h : gmap Z Timer) : t :=
  mk h (numCreated_ q) (owner_ q) (timers_ q) (activeTimers_ q) (callingExpiredTimers_ q) (cancelingTimers_ q) (armed_ q).
Definition with_sets (q : t) (timers active : list (Entry * unit)) : t :=
  mk (heap_ q) (numCreated_ q) (owner_ q) timers active (callingExpiredTimers_ q) (cancelingTimers_ q) (armed_ q).
Definition with_armed (q : t) (a : option Z) : t :=
  mk (heap_ q) (numCreated_ q) (owner_ q) (timers_ q) (activeTimers_ q) (callingExpiredTimers_ q) (cancelingTimers_ q) a.

Definition deref (q : t) (p : Z) : res Timer := match heap_ q !! p with Some tm => Ok tm | None => Err Undefined end.

Definition timespec : Type := Z * Z.
Definition howMuchTimeFromNow (when now : Z) : res timespec :=
  microseconds ← check_int64 (when - now);
  let microseconds := if microseconds <? 100 then 100 else microseconds in
  Ok (microseconds `quot` Timestamp.kMicroSecondsPerSecond,
      (microseconds `rem` Timestamp.kMicroSecondsPerSecond) * 1000).

(** [resetTimerfd]: the kernel object is set to the expiration. *)
Definition resetTimerfd (q : t) (expiration now : Z) : res t :=
  _ ← howMuchTimeFromNow expiration now;
  Ok (with_armed q (Some expiration)).

(** [new Timer(cb, when, interval)] at address [p]. *)
Definition new_timer (q : t) (p when : Z) (interval : double) : t :=
  let n := numCreated_ q + 1 in
  mk (<[p := mk_timer when interval (positive interval) n]> (heap_ q)) n (owner_ q) (timers_ q) (activeTimers_ q)
     (callingExpiredTimers_ q) (cancelingTimers_ q) (armed_ q).

Definition insert (q : t) (tid : Z) (p : Z) : res (t * bool) :=
  _ ← assertInLoopThread (owner_ q) tid;
  assert! zlen (timers_ q) =? zlen (activeTimers_ q);
  tm ← deref q p;
  let when := expiration_ tm in
  let earliestChanged := match timers_ q with [] => true | ((first, _), _) :: _ => when <? first end in
  assert! bool_decide (StdMap.find (when, p) (timers_ q) = None);
  assert! bool_decide (StdMap.find (p, sequence_ tm) (activeTimers_ q) = None);
  Ok (with_sets q (StdMap.set (when, p) tt (timers_ q)) (StdMap.set (p, sequence_ tm) tt (activeTimers_ q)), earliestChanged).

Definition addTimerInLoop (q : t) (tid : Z) (p : Z) (now : Z) : res t :=
  _ ← assertInLoopThread (owner_ q) tid;
  '(q, earliestChanged) ← insert q tid p;
  if (earliestChanged : bool) then tm ← deref q p; resetTimerfd q (expiration_ tm) now else Ok q.

Definition cancelInLoop (q : t) (tid : Z) (timerId : TimerId) : res t :=
  _ ← assertInLoopThread (owner_ q) tid;
  assert! zlen (timers_ q) =? zlen (activeTimers_ q);
  let timer := (timer_ timerId, id_sequence_ timerId) in
  match StdMap.find timer (activeTimers_ q) with
  | None => Ok q
  | Some _ =>
      tm ← deref q (timer_ timerId);
      let entry := (expiration_ tm, timer_ timerId) in
      assert! bool_decide (StdMap.find entry (timers_ q) = Some tt);
      Ok (with_heap (with_sets q (StdMap.erase entry (timers_ q)) (StdMap.erase timer (activeTimers_ q)))
                    (delete (timer_ timerId) (heap_ q)))
  end.

Definition UINTPTR_MAX : Z := 2 ^ 64 - 1.

Fixpoint erase_active (q : t) (expired : list Entry) (active : list (Entry * unit)) : res (list (Entry * unit)) :=
  match expired with
  | [] => Ok active
  | (_, p) :: expired =>
      tm ← deref q p;
      assert! bool_decide (StdMap.find (p, sequence_ tm) active = Some tt);
      erase_active q expired (StdMap.erase (p, sequence_ tm) active)
  end.

Definition getExpired (q : t) (now : Z) : res (list Entry * t) :=
  assert! zlen (timers_ q) =? zlen (activeTimers_ q);
  let sentry := (now, UINTPTR_MAX) in
  let '(before, from_end) := StdMap.lower_bound sentry (timers_ q) in
  assert! match from_end with [] => true | ((first, _), _) :: _ => now <? first end;
  let expired := map fst before in
  active ← erase_active q expired (activeTimers_ q);
  let q := with_sets q from_end active in
  assert! zlen (timers_ q) =? zlen (activeTimers_ q);
  Ok (expired, q).

Fixpoint reset_loop (q : t) (tid : Z) (expired : list Entry) (now : Z) : res t :=
  match expired with
  | [] => Ok q
  | (_, p) :: expired =>
      tm ← deref q p;
      q ← (if repeat_ tm && bool_decide (StdMap.find (p, sequence_ tm) (cancelingTimers_ q) = None) then
             tm ← restart tm now;
             '(q, changed) ← insert (with_heap q (<[p := tm]> (heap_ q))) tid p;
             Ok q
           else Ok (with_heap q (delete p (heap_ q))));
      reset_loop q tid expired now
  end.

(** [clock] is [Timestamp::now()] inside [resetTimerfd]. *)
Definition reset (q : t) (tid : Z) (expired : list Entry) (now clock : Z) : res t :=
  q ← reset_loop q tid expired now;
  nextExpire ← (match timers_ q with [] => Ok 0 | ((_, p), _) :: _ => expiration_ <$> deref q p end);
  if 0 <? nextExpire then resetTimerfd q nextExpire clock else Ok q.

Fixpoint run_all (run : Z -> t -> res t) (expired : list Entry) (q : t) : res t :=
  match expired with
  | [] => Ok q
  | (_, p) :: expired => _ ← deref q p; q ← run p q; run_all run expired q
  end.

(** The timerfd fired: reading it disarms it. *)
Definition handleRead (run : Z -> t -> res t) (q : t) (tid : Z) (now clock : Z) : res t :=
  _ ← assertInLoopThread (owner_ q) tid;
  let q := with_armed q None in
  '(expired, q) ← getExpired q now;
  let q := mk (heap_ q) (numCreated_ q) (owner_ q) (timers_ q) (activeTimers_ q) true [] (armed_ q) in
  q ← run_all run expired q;
  let q := mk (heap_ q) (numCreated_ q) (owner_ q) (timers_ q) (activeTimers_ q) false (cancelingTimers_ q) (armed_ q) in
  reset q tid expired now clock.

End Timers.
End TimerQueue.
