(* ===== verification/TimerFacts.v ===== *)
(** The timer queue of src/networking/TimerQueue.cpp against a map of active
    timers: its two ordered sets always describe the same timers, expiry takes
    exactly the timers that are due, and the timerfd is never set later than
    the earliest timer. *)

From Stdlib Require Import Sorting.Sorted.
From S2P Require Import Prelude Timestamp StdMap Poller TimerQueue.

Module TimerFacts.
Import TimerQueue.
Section Facts.
Context {double : Type} (positive : double -> bool) (to_micros : double -> Z).
Abbreviation queue := (@TimerQueue.t double).

(** ** The abstraction: active timers, by address, with expiration and sequence *)

Abbreviation active := (gmap Z (Z * Z)).
Definition entry_of (x : Z * (Z * Z)) : Entry := (x.2.1, x.1).
Definition active_of (x : Z * (Z * Z)) : Entry := (x.1, x.2.2).

(** The keys of a set are the images of the active timers. *)
Definition lists (f : Z * (Z * Z) -> Entry) (s : list (Entry * unit)) (M : active) : Prop :=
  StdMap.sorted s /\ map fst s ≡ₚ map f (map_to_list M).

Record rep (q : queue) (M : active) : Prop := {
  r_timers : lists entry_of (timers_ q) M;
  r_active : lists active_of (activeTimers_ q) M;
  r_heap p e s : M !! p = Some (e, s) -> exists tm, heap_ q !! p = Some tm /\ expiration_ tm = e /\ sequence_ tm = s;
  r_addr p e s : M !! p = Some (e, s) -> 0 <= p < UINTPTR_MAX;
}.

Lemma elem_of_lists f s M k : lists f s M -> k ∈ map fst s <-> exists p e n, M !! p = Some (e, n) /\ k = f (p, (e, n)).
Proof.
  intros [_ Hp]. rewrite Hp, list_elem_of_fmap. split.
  - intros ([p [e n]] & -> & Hx%elem_of_map_to_list). by exists p, e, n.
  - intros (p & e & n & HM & ->). exists (p, (e, n)). split; [done|by apply elem_of_map_to_list].
Qed.

Lemma length_lists f s M : lists f s M -> length s = size M.
Proof. intros [_ Hp]. rewrite <- length_map_to_list, <- (length_map f), <- Hp. by rewrite length_map. Qed.

Lemma lists_empty f : lists f [] ∅.
Proof. split; [constructor|]. by rewrite map_to_list_empty. Qed.

Lemma lists_set f s M p e n : lists f s M -> M !! p = None -> StdMap.find (f (p, (e, n))) s = None ->
  lists f (StdMap.set (f (p, (e, n))) tt s) (<[p := (e, n)]> M).
Proof.
  intros [Hs Hp] HM Hf. split; [by apply StdMap.set_sorted|].
  rewrite (StdMap.set_perm _ _ _ Hf), map_to_list_insert by done. cbn. by rewrite Hp.
Qed.

Lemma lists_erase f s M p e n : lists f s M -> M !! p = Some (e, n) -> StdMap.find (f (p, (e, n))) s = Some tt ->
  lists f (StdMap.erase (f (p, (e, n))) s) (delete p M).
Proof.
  intros [Hs Hp] HM Hf. split; [by apply StdMap.erase_sorted|].
  apply (Permutation_cons_inv (a := f (p, (e, n)))).
  change (f (p, (e, n)) :: map fst (StdMap.erase (f (p, (e, n))) s)) with (map fst ((f (p, (e, n)), tt) :: StdMap.erase (f (p, (e, n))) s)).
  rewrite (StdMap.erase_perm _ _ _ Hf), Hp. by rewrite <- (map_to_list_delete M p (e, n)).
Qed.

Lemma find_in f s M p e n : lists f s M -> M !! p = Some (e, n) -> StdMap.find (f (p, (e, n))) s = Some tt.
Proof. intros Hl HM. apply StdMap.find_key; [apply Hl|]. apply (elem_of_lists _ _ _ _ Hl). by exists p, e, n. Qed.

Lemma find_entry_none s M p e : lists entry_of s M -> M !! p = None -> StdMap.find (e, p) s = None.
Proof.
  intros Hl HM. apply StdMap.find_no_key; [apply Hl|]. rewrite (elem_of_lists _ _ _ _ Hl).
  intros (p' & e' & n & HM' & E). unfold entry_of in E. cbn in E. simplify_eq.
Qed.

Lemma find_active_none s M p n : lists active_of s M -> (forall e, M !! p <> Some (e, n)) -> StdMap.find (p, n) s = None.
Proof.
  intros Hl HM. apply StdMap.find_no_key; [apply Hl|]. rewrite (elem_of_lists _ _ _ _ Hl).
  intros (p' & e' & n' & HM' & E). unfold active_of in E. cbn in E. simplify_eq. by apply (HM e').
Qed.

Lemma rep_sizes q M : rep q M -> (zlen (timers_ q) =? zlen (activeTimers_ q)) = true.
Proof. intros [H1 H2 _ _]. unfold zlen. rewrite (length_lists _ _ _ H1), (length_lists _ _ _ H2). apply Z.eqb_refl. Qed.


(** The head of [timers_] is the earliest timer. *)
Lemma head_earliest q M e p r : rep q M -> timers_ q = ((e, p), tt) :: r ->
  (exists n, M !! p = Some (e, n)) /\ forall p' e' n', M !! p' = Some (e', n') -> e <= e'.
Proof.
  intros Hr Ht. pose proof (r_timers _ _ Hr) as Hl. split.
  - assert ((e, p) ∈ map fst (timers_ q)) as Hin by (rewrite Ht; left).
    apply (elem_of_lists _ _ _ _ Hl) in Hin as (p' & e' & n & HM & E). unfold entry_of in E. cbn in E. simplify_eq. by exists n.
  - intros p' e' n' HM. pose proof (find_in _ _ _ _ _ _ Hl HM) as Hf. apply StdMap.find_elem in Hf; [|apply Hl].
    rewrite Ht in Hf. apply elem_of_cons in Hf as [Heq|Hin]; [unfold entry_of in Heq; cbn in Heq; simplify_eq; lia|].
    destruct Hl as [Hs _]. rewrite Ht in Hs. pose proof (StdMap.sorted_head _ _ _ _ Hs Hin) as Hlt. cbn in Hlt. zbool. lia.
Qed.

(** ** Insertion *)

Lemma insert_ok q M p tm :
  rep q M -> heap_ q !! p = Some tm -> M !! p = None -> 0 <= p < UINTPTR_MAX ->
  exists changed, insert q (owner_ q) p =
    Ok (with_sets q (StdMap.set (expiration_ tm, p) tt (timers_ q)) (StdMap.set (p, sequence_ tm) tt (activeTimers_ q)), changed) /\
    (changed = true <-> forall p' e' n', M !! p' = Some (e', n') -> expiration_ tm < e') /\
    rep (with_sets q (StdMap.set (expiration_ tm, p) tt (timers_ q)) (StdMap.set (p, sequence_ tm) tt (activeTimers_ q)))
      (<[p := (expiration_ tm, sequence_ tm)]> M).
Proof.
  intros Hr Hp HM Ha. pose proof (r_timers _ _ Hr) as Ht. pose proof (r_active _ _ Hr) as Hac.
  assert (StdMap.find (expiration_ tm, p) (timers_ q) = None) as F1 by by eapply find_entry_none.
  assert (StdMap.find (p, sequence_ tm) (activeTimers_ q) = None) as F2 by (eapply find_active_none; [done|by intros; rewrite HM]).
  eexists. split; [|split].
  - unfold insert, deref. rewrite assertInLoopThread_self, (rep_sizes _ _ Hr), Hp. cbn [mbind res_bind].
    rewrite !assert_true by (try apply bool_decide_eq_true_2; done). done.
  - destruct (timers_ q) as [|[[e p'] []] r] eqn:E.
    + split; [|done]. intros _ p' e' n' HM'. apply (length_lists _ _ _) in Ht. cbn in Ht. symmetry in Ht.
      apply map_size_empty_inv in Ht. subst. by rewrite lookup_empty in HM'.
    + destruct (head_earliest _ _ _ _ _ Hr E) as [[n Hn] Hmin]. zbool. split.
      * intros Hlt p1 e1 n1 H1. pose proof (Hmin _ _ _ H1). lia.
      * intros Hall. by eapply Hall.
  - split; cbn.
    + by apply (lists_set entry_of _ _ p (expiration_ tm) (sequence_ tm)).
    + by apply (lists_set active_of _ _ p (expiration_ tm) (sequence_ tm)).
    + intros p1 e1 n1 H1. destruct (decide (p1 = p)) as [->|].
      * rewrite lookup_insert_eq in H1. simplify_eq. by exists tm.
      * rewrite lookup_insert_ne in H1 by done. by apply (r_heap _ _ Hr).
    + intros p1 e1 n1 H1. destruct (decide (p1 = p)) as [->|]; [done|]. rewrite lookup_insert_ne in H1 by done. exact (r_addr _ _ Hr _ _ _ H1).
Qed.

(** ** Cancellation *)

(** A timer identifier names an active timer when its sequence matches. *)
Definition names (id : TimerId) (M : active) : Prop := exists e, M !! timer_ id = Some (e, id_sequence_ id).

Lemma cancel_ok q M id : rep q M ->
  exists q', cancelInLoop q (owner_ q) id = Ok q' /\ armed_ q' = armed_ q /\ owner_ q' = owner_ q /\ cancelingTimers_ q' = cancelingTimers_ q /\
    ((names id M /\ rep q' (delete (timer_ id) M) /\ heap_ q' = delete (timer_ id) (heap_ q)) \/ (~ names id M /\ q' = q)).
Proof.
  intros Hr. pose proof (r_timers _ _ Hr) as Ht. pose proof (r_active _ _ Hr) as Hac. unfold cancelInLoop.
  rewrite assertInLoopThread_self, (rep_sizes _ _ Hr). cbn [mbind res_bind]. rewrite assert_true by done.
  destruct (StdMap.find (timer_ id, id_sequence_ id) (activeTimers_ q)) as [[]|] eqn:Ef.
  - apply StdMap.find_key in Ef as Hin; [|apply Hac]. apply (elem_of_lists _ _ _ _ Hac) in Hin as (p & e & n & HM & E).
    unfold active_of in E. cbn in E. injection E as <- <-. destruct (r_heap _ _ Hr _ _ _ HM) as (tm & Hp & He & Hn).
    unfold deref. rewrite Hp. cbn [mbind res_bind]. pose proof (find_in _ _ _ _ _ _ Ht HM) as F. unfold entry_of in F. cbn in F.
    rewrite He, F, assert_true by done. eexists. split_and!; [done..|]. left. split_and!; [by exists e| |done]. split; cbn.
    + by apply (lists_erase entry_of _ _ (timer_ id) e (id_sequence_ id)).
    + by apply (lists_erase active_of _ _ (timer_ id) e (id_sequence_ id)).
    + intros p1 e1 n1 [Hne H1]%lookup_delete_Some. rewrite lookup_delete_ne by done. by apply (r_heap _ _ Hr).
    + intros p1 e1 n1 [Hne H1]%lookup_delete_Some. exact (r_addr _ _ Hr _ _ _ H1).
  - exists q. split_and!; try done. right. split; [|done]. intros [e HM].
    pose proof (find_in _ _ _ _ _ _ Hac HM) as F. unfold active_of in F. cbn in F. congruence.
Qed.

(** ** Expiry *)

(** The timers still active after the addresses of [l] are taken out. *)
Definition take_out (l : list Entry) (M : active) : active := foldl (fun M x => delete x.2 M) M l.

Lemma take_out_lookup l M p : take_out l M !! p = if decide (p ∈ map snd l) then None else M !! p.
Proof.
  revert M. induction l as [|[e p'] l IH]; intros M; cbn [take_out foldl map snd]; [done|].
  unfold take_out in IH. rewrite IH. destruct (decide (p ∈ map snd l)) as [H|H].
  - rewrite decide_True; [done|]. by apply elem_of_cons; right.
  - destruct (decide (p = p')) as [->|].
    + rewrite lookup_delete_eq, decide_True; [done|]. by apply elem_of_cons; left.
    + rewrite lookup_delete_ne, decide_False by (try done; rewrite elem_of_cons; tauto). done.
Qed.

Lemma erase_active_ok (q : queue) l s M :
  lists active_of s M -> NoDup (map snd l) ->
  (forall e p, (e, p) ∈ l -> exists n tm, M !! p = Some (e, n) /\ heap_ q !! p = Some tm /\ sequence_ tm = n) ->
  exists s', erase_active q l s = Ok s' /\ lists active_of s' (take_out l M).
Proof.
  revert s M. induction l as [|[e p] l IH]; intros s M Hl Hnd Hin; cbn [erase_active take_out foldl]; [by eauto|].
  destruct (Hin e p) as (n & tm & HM & Hp & Hn); [left|]. cbn [map snd] in Hnd. apply NoDup_cons in Hnd as [Hni Hnd].
  unfold deref. rewrite Hp. cbn [mbind res_bind]. pose proof (find_in _ _ _ _ _ _ Hl HM) as F. unfold active_of in F. cbn in F.
  rewrite Hn, F, assert_true by done. apply IH; [|done|].
  - by apply (lists_erase active_of _ _ _ e n).
  - intros e' p' Hin'. destruct (Hin e' p') as (n' & tm' & HM' & ?); [by right|]. exists n', tm'. split; [|done].
    rewrite lookup_delete_ne; [done|]. intros <-. apply Hni. apply list_elem_of_fmap. by exists (e', p).
Qed.

(** The entries before the sentry are those that are due. *)
Lemma sentry_due e p now : 0 <= p < UINTPTR_MAX -> ltb (e, p) (now, UINTPTR_MAX) = (e <=? now).
Proof.
  intros Hp. cbn. destruct (e <=? now) eqn:E; zbool.
  - destruct (decide (e = now)) as [->|]; [right; split; [|lia]; lia|left; lia].
  - split; [lia|]. left. lia.
Qed.

Lemma lists_addr f s M (P : Z -> Prop) : lists f s M -> (forall p e n, M !! p = Some (e, n) -> P p) ->
  forall k, k ∈ map fst s -> exists p e n, k = f (p, (e, n)) /\ M !! p = Some (e, n) /\ P p.
Proof. intros Hl HP k Hk. apply (elem_of_lists _ _ _ _ Hl) in Hk as (p & e & n & HM & ->). exists p, e, n. eauto. Qed.

Lemma filter_map {A B} (f : A -> B) (P : B -> Prop) `{!forall b, Decision (P b)} l : filter P (map f l) = map f (filter (fun a => P (f a)) l).
Proof.
  induction l as [|a l IH]; [done|]. cbn [map]. destruct (decide (P (f a))).
  - rewrite !filter_cons_True by done. cbn [map]. by rewrite IH.
  - by rewrite !filter_cons_False.
Qed.

Lemma map_to_list_filter (P : Z * (Z * Z) -> Prop) `{!forall x, Decision (P x)} (M : active) :
  map_to_list (filter P M) ≡ₚ filter P (map_to_list M).
Proof.
  apply NoDup_Permutation; [apply NoDup_map_to_list|apply NoDup_filter, NoDup_map_to_list|].
  intros [p x]. rewrite elem_of_map_to_list, map_lookup_filter_Some, list_elem_of_filter, elem_of_map_to_list. tauto.
Qed.

(** What is due, and what stays. *)
Definition due (now : Z) (M : active) : active := filter (fun x => x.2.1 <= now) M.
Definition not_due (now : Z) (M : active) : active := filter (fun x => now < x.2.1) M.

Lemma filter_keys (P : Entry -> Prop) `{!forall k, Decision (P k)} (c : list (Entry * unit)) :
  Forall (fun x => P x.1) c -> filter P (map fst c) = map fst c.
Proof. induction 1 as [|x c Hx _ IH]; [done|]. cbn [map]. rewrite filter_cons_True by done. by rewrite IH. Qed.
Lemma filter_no_keys (P : Entry -> Prop) `{!forall k, Decision (P k)} (c : list (Entry * unit)) :
  Forall (fun x => ~ P x.1) c -> filter P (map fst c) = [].
Proof. induction 1 as [|x c Hx _ IH]; [done|]. cbn [map]. by rewrite filter_cons_False. Qed.

Lemma lists_suffix now a b M : lists entry_of (a ++ b) M ->
  Forall (fun x : Entry * unit => x.1.1 <= now) a -> Forall (fun x : Entry * unit => now < x.1.1) b ->
  lists entry_of b (not_due now M) /\ map fst a ≡ₚ map entry_of (map_to_list (due now M)).
Proof.
  intros [Hs Hp] Ha Hb.
  rewrite map_app in Hp. split; [split|].
  - by apply StdMap.sorted_app_r in Hs.
  - assert (filter (fun k : Entry => now < k.1) (map fst a ++ map fst b) = map fst b) as <-.
    { rewrite filter_app, (filter_keys _ b), (filter_no_keys _ a); [done|eapply Forall_impl; [exact Ha|cbn; lia]|done]. }
    rewrite Hp, filter_map. apply Permutation_map. unfold not_due. by rewrite map_to_list_filter.
  - assert (filter (fun k : Entry => k.1 <= now) (map fst a ++ map fst b) = map fst a) as <-.
    { rewrite filter_app, (filter_keys _ a), (filter_no_keys _ b); [by rewrite app_nil_r|eapply Forall_impl; [exact Hb|cbn; lia]|done]. }
    rewrite Hp, filter_map. apply Permutation_map. unfold due. by rewrite map_to_list_filter.
Qed.

Lemma due_split now M p : M !! p = None \/ (exists e n, M !! p = Some (e, n) /\
  ((e <= now /\ due now M !! p = Some (e, n) /\ not_due now M !! p = None) \/ (now < e /\ due now M !! p = None /\ not_due now M !! p = Some (e, n)))).
Proof.
  destruct (M !! p) as [[e n]|] eqn:E; [right|by left]. exists e, n. split; [done|]. unfold due, not_due.
  destruct (decide (e <= now)); [left|right]; (split_and!; [lia|..]).
  - by apply map_lookup_filter_Some_2.
  - apply map_lookup_filter_None_2. right. intros x Hx. rewrite E in Hx. simplify_eq. cbn. lia.
  - apply map_lookup_filter_None_2. right. intros x Hx. rewrite E in Hx. simplify_eq. cbn. lia.
  - apply map_lookup_filter_Some_2; [done|cbn; lia].
Qed.

Definition by_time (l : list Entry) : Prop := StronglySorted (fun x y => x.1 <= y.1) l.

Lemma sorted_by_time (a b : list (Entry * unit)) : StdMap.sorted (a ++ b) -> by_time (map fst a).
Proof.
  induction a as [|[[e p] []] a IH]; cbn; [constructor|]. inversion 1 as [|? ? ? Hb Hs]; subst. constructor; [by apply IH|].
  apply Forall_forall. intros k Hk. apply list_elem_of_fmap in Hk as ([[e' p'] u] & -> & Hx).
  eapply Forall_forall in Hb; [|apply elem_of_app; left; exact Hx]. cbn in *. zbool. lia.
Qed.

Lemma getExpired_ok (q : queue) M now : rep q M ->
  exists expired ts ac, getExpired q now = Ok (expired, with_sets q ts ac) /\ rep (with_sets q ts ac) (not_due now M) /\
    expired ≡ₚ map entry_of (map_to_list (due now M)) /\ by_time expired.
Proof.
  intros Hr. pose proof (r_timers _ _ Hr) as Ht. pose proof (r_active _ _ Hr) as Hac. unfold getExpired.
  rewrite (rep_sizes _ _ Hr), assert_true by done.
  pose proof (StdMap.lower_bound_app (now, UINTPTR_MAX) (timers_ q)) as Happ.
  pose proof (StdMap.lower_bound_before (now, UINTPTR_MAX) (timers_ q)) as Hbef.
  pose proof (StdMap.lower_bound_after (now, UINTPTR_MAX) (timers_ q) (proj1 Ht)) as Haft.
  destruct (StdMap.lower_bound (now, UINTPTR_MAX) (timers_ q)) as [a b]. cbn [fst snd] in *. rewrite <- Happ in Ht.
  pose proof (lists_addr _ _ _ _ Ht (r_addr _ _ Hr)) as Haddr.
  assert (Forall (fun x : Entry * unit => x.1.1 <= now) a) as Ha.
  { apply Forall_forall. intros [[e p] u] Hx. eapply Forall_forall in Hbef; [|exact Hx]. cbn [fst] in *.
    destruct (Haddr (e, p)) as (p' & e' & n & E & _ & Hp); [rewrite map_app; apply elem_of_app; left; apply list_elem_of_fmap; by exists ((e, p), u)|].
    unfold entry_of in E. cbn in E. simplify_eq. rewrite sentry_due in Hbef by done. by zbool. }
  assert (Forall (fun x : Entry * unit => now < x.1.1) b) as Hb.
  { apply Forall_forall. intros [[e p] u] Hx. eapply Forall_forall in Haft; [|exact Hx]. cbn [fst] in *.
    destruct (Haddr (e, p)) as (p' & e' & n & E & _ & Hp); [rewrite map_app; apply elem_of_app; right; apply list_elem_of_fmap; by exists ((e, p), u)|].
    unfold entry_of in E. cbn in E. simplify_eq. rewrite sentry_due in Haft by done. by zbool. }
  destruct (lists_suffix now a b M Ht Ha Hb) as [Hlb Hla].
  rewrite assert_true by (destruct b as [|[[e p] u] b]; [done|]; apply Forall_cons in Hb as [Hb _]; cbn in Hb; by apply Z.ltb_lt).
  assert (NoDup (map snd (map fst a))) as Hnd.
  { rewrite Hla, map_map. apply NoDup_fst_map_to_list. }
  destruct (erase_active_ok q (map fst a) (activeTimers_ q) M Hac Hnd) as (ac & E & Hac').
  { intros e p Hin. rewrite Hla in Hin. apply list_elem_of_fmap in Hin as ([p' [e' n]] & Eq & Hin%elem_of_map_to_list). unfold entry_of in Eq.
    cbn in Eq. simplify_eq. apply map_lookup_filter_Some in Hin as [HM _]. destruct (r_heap _ _ Hr _ _ _ HM) as (tm & ? & ? & ?). by exists n, tm. }
  assert (take_out (map fst a) M = not_due now M) as Eo.
  { apply map_eq. intros p. rewrite take_out_lookup. assert (p ∈ map snd (map fst a) <-> is_Some (due now M !! p)) as Hd.
    { rewrite Hla, map_map, list_elem_of_fmap. split.
      - intros ([p' x] & -> & Hin%elem_of_map_to_list). by exists x.
      - intros [x Hx]. exists (p, x). split; [done|by apply elem_of_map_to_list]. }
    destruct (due_split now M p) as [HM|(e & n & HM & [(_ & H1 & H2)|(_ & H1 & H2)])].
    - rewrite HM. transitivity (@None (Z * Z)); [by case_decide|]. symmetry. apply map_lookup_filter_None_2. by left.
    - rewrite decide_True by (apply Hd; by eexists). done.
    - rewrite decide_False by (rewrite Hd, H1; by intros [? ?]). by rewrite HM. }
  rewrite E. cbn [mbind res_bind]. rewrite Eo in Hac'.
  assert (rep (with_sets q b ac) (not_due now M)) as Hr'.
  { split; cbn; [done|done|..]; intros p e n [HM _]%map_lookup_filter_Some; [by apply (r_heap _ _ Hr)|exact (r_addr _ _ Hr _ _ _ HM)]. }
  rewrite (rep_sizes _ _ Hr'), assert_true by done. exists (map fst a), b, ac. split_and!; [done|done|done|].
  eapply sorted_by_time. exact (proj1 Ht).
Qed.

(** ** The invariant, with the timers whose callbacks are being run

    [X] holds the expired timers of the [handleRead] in progress: they are live
    and in neither set.  Every live timer is active or in [X]: none leaks. *)

(** Intervals that keep the next expiration in range. *)
Definition small_interval (tm : Timer) : Prop := repeat_ tm = true -> 0 <= to_micros (interval_ tm) < 2 ^ 61.

Record inv (q : queue) (M : active) (X : gmap Z Timer) : Prop := {
  i_rep : rep q M;
  i_exp p tm : X !! p = Some tm -> heap_ q !! p = Some tm /\ M !! p = None /\ 0 <= p < UINTPTR_MAX;
  i_live p tm : heap_ q !! p = Some tm -> is_Some (M !! p) \/ is_Some (X !! p);
  i_cancel : cancelingTimers_ q = [];
  i_int : map_Forall (fun _ tm => small_interval tm) (heap_ q);
}.

(** The parts of the state the invariant reads. *)
Lemma inv_ext q q' M X : inv q M X -> heap_ q' = heap_ q -> timers_ q' = timers_ q -> activeTimers_ q' = activeTimers_ q ->
  cancelingTimers_ q' = cancelingTimers_ q -> inv q' M X.
Proof.
  intros [[R1 R2 R3 R4] H2 H3 H4 H5] E1 E2 E3 E4. split; rewrite ?E1, ?E4; try done. split; rewrite ?E1, ?E2, ?E3; done.
Qed.

Lemma resetTimerfd_ok (q : queue) e now : - 2 ^ 62 < e < 2 ^ 62 -> - 2 ^ 62 < now < 2 ^ 62 -> resetTimerfd q e now = Ok (with_armed q (Some e)).
Proof.
  intros. unfold resetTimerfd, howMuchTimeFromNow. rewrite check_int64_ok by (unfold in_int64; lia). done.
Qed.

(** Adding a timer object that is not in the queue. *)
Lemma add_made q M X p tm clock :
  inv q M X -> heap_ q !! p = None -> 0 <= p < UINTPTR_MAX -> 0 < expiration_ tm < 2 ^ 62 -> 0 <= clock < 2 ^ 62 -> small_interval tm ->
  exists q', addTimerInLoop (with_heap q (<[p := tm]> (heap_ q))) (owner_ q) p clock = Ok q' /\ owner_ q' = owner_ q /\
    inv q' (<[p := (expiration_ tm, sequence_ tm)]> M) X /\ heap_ q' = <[p := tm]> (heap_ q) /\ numCreated_ q' = numCreated_ q /\
    armed_ q' = (if decide (map_Forall (fun _ x => expiration_ tm < x.1) M) then Some (expiration_ tm) else armed_ q).
Proof.
  intros [Hr Hx Hlive Hcan Hint] Hp Ha Hw Hc Hiv. set (q1 := with_heap q (<[p := tm]> (heap_ q))).
  assert (M !! p = None) as HM.
  { destruct (M !! p) as [[e n]|] eqn:E; [|done]. destruct (r_heap _ _ Hr _ _ _ E) as (? & ? & _). congruence. }
  assert (rep q1 M) as Hr1.
  { destruct Hr as [R1 R2 R3 R4]. split; try done. intros p' e n H1. cbn. rewrite lookup_insert_ne by congruence. by apply R3. }
  destruct (insert_ok q1 M p tm Hr1) as (changed & E & Hch & Hr2); [apply lookup_insert_eq|done|done|].
  set (q2 := with_sets _ _ _) in *.
  assert (inv q2 (<[p := (expiration_ tm, sequence_ tm)]> M) X) as Hi.
  { split; [done| | |done|by apply map_Forall_insert_2].
    - intros p' tm' H1. destruct (Hx _ _ H1) as (? & ? & ?). assert (p' <> p) by congruence. cbn. rewrite !lookup_insert_ne by done. done.
    - intros p' tm' H1. cbn in H1. destruct (decide (p' = p)) as [->|]; [left; rewrite lookup_insert_eq; by eexists|].
      rewrite lookup_insert_ne in H1 by done. rewrite lookup_insert_ne by done. by eapply Hlive. }
  unfold addTimerInLoop. rewrite assertInLoopThread_self. cbn [mbind res_bind]. change (owner_ q) with (owner_ q1). rewrite E. cbn [mbind res_bind].
  assert (changed = bool_decide (map_Forall (fun _ x => expiration_ tm < x.1) M)) as ->.
  { apply eq_bool_prop_intro. rewrite bool_decide_spec. rewrite Is_true_true, Hch. split.
    - intros Hall i [e n] HM'. by eapply Hall.
    - intros Hall p' e' n' HM'. apply (Hall p' _ HM'). }
  case_bool_decide as Hd.
  - unfold deref. cbn [heap_ q2 with_sets q1 with_heap]. rewrite lookup_insert_eq. cbn [mbind res_bind].
    rewrite resetTimerfd_ok by lia. eexists; split_and!; [done|done|by eapply inv_ext|done|done|]. by rewrite decide_True.
  - exists q2. split_and!; [done|done|done|done|done|]. by rewrite decide_False.
Qed.

(** Making a timer at a free address and adding it. *)
Lemma add_ok q M X p when iv clock :
  inv q M X -> heap_ q !! p = None -> 0 <= p < UINTPTR_MAX -> 0 < when < 2 ^ 62 -> 0 <= clock < 2 ^ 62 ->
  (positive iv = true -> 0 <= to_micros iv < 2 ^ 61) ->
  exists q', addTimerInLoop (new_timer positive q p when iv) (owner_ q) p clock = Ok q' /\ owner_ q' = owner_ q /\
    inv q' (<[p := (when, numCreated_ q + 1)]> M) X /\
    armed_ q' = (if decide (map_Forall (fun _ x => when < x.1) M) then Some when else armed_ q).
Proof.
  intros Hi Hp Ha Hw Hc Hiv. set (q0 := mk (heap_ q) (numCreated_ q + 1) (owner_ q) (timers_ q) (activeTimers_ q) (callingExpiredTimers_ q) (cancelingTimers_ q) (armed_ q)).
  assert (inv q0 M X) as Hi0 by by eapply inv_ext.
  destruct (add_made q0 M X p (mk_timer when iv (positive iv) (numCreated_ q + 1)) clock Hi0) as (q' & ? & ? & ? & _ & _ & ?); try done. by exists q'.
Qed.

Lemma cancel_inv q M X id : inv q M X ->
  exists q' M', cancelInLoop q (owner_ q) id = Ok q' /\ owner_ q' = owner_ q /\ armed_ q' = armed_ q /\ inv q' M' X /\
    M' ⊆ M /\ ((names id M /\ M' = delete (timer_ id) M) \/ (~ names id M /\ M' = M)).
Proof.
  intros [Hr Hx Hlive Hcan Hint]. destruct (cancel_ok q M id Hr) as (q' & E & Ea & Eo & Ec & [(Hn & Hr' & Hh)|(Hn & ->)]).
  - exists q', (delete (timer_ id) M). split_and!; try done; [|apply delete_subseteq|by left]. split; [done| | |congruence|rewrite Hh; by apply map_Forall_delete].
    + intros p tm H1. destruct (Hx _ _ H1) as (? & HM & ?). destruct Hn as [e Hn]. rewrite Hh, !lookup_delete_ne by congruence. done.
    + intros p tm. rewrite Hh. intros [Hne H1]%lookup_delete_Some. rewrite lookup_delete_ne by done. by eapply Hlive.
  - exists q, M. split_and!; try done. by right.
Qed.

(** ** Rearming *)

(** What [reset] makes of the expired timers: the repeating ones are due again
    one interval after [now]. *)
Definition again (now : Z) (tm : Timer) : option (Z * Z) :=
  if repeat_ tm then Some (now + to_micros (interval_ tm), sequence_ tm) else None.
Definition rearm (now : Z) (X : gmap Z Timer) : active := omap (again now) X.

Definition repeats_ok (now : Z) (X : gmap Z Timer) : Prop :=
  map_Forall (fun _ tm => small_interval tm) X /\ 0 < now < 2 ^ 61.

Lemma rearm_step now X M p tm : X !! p = Some tm -> M !! p = None ->
  rearm now X ∪ M = rearm now (delete p X) ∪ match again now tm with Some x => <[p := x]> M | None => M end.
Proof.
  intros HX HM. unfold rearm. rewrite <- (insert_delete_id X p tm HX) at 1. rewrite omap_insert.
  assert (omap (again now) (delete p X) !! p = None) as Hn by by rewrite lookup_omap, lookup_delete_eq.
  destruct (again now tm) as [x|].
  - by rewrite <- insert_union_l, insert_union_r.
  - by rewrite delete_id.
Qed.

(** One expired timer: rearmed and back in the sets, or freed. *)
Lemma reset_step q M X p tm now : inv q M X -> X !! p = Some tm -> repeats_ok now X ->
  exists q', (if repeat_ tm && bool_decide (StdMap.find (p, sequence_ tm) (cancelingTimers_ q) = None) then
      tm ← restart to_micros tm now; '(q, changed) ← insert (with_heap q (<[p := tm]> (heap_ q))) (owner_ q) p; Ok q
    else Ok (with_heap q (delete p (heap_ q)))) = Ok q' /\ owner_ q' = owner_ q /\ armed_ q' = armed_ q /\
    inv q' (match again now tm with Some x => <[p := x]> M | None => M end) (delete p X).
Proof.
  intros [Hr Hx Hlive Hcan Hint] HX [Hrep Hnow]. destruct (Hx _ _ HX) as (Hp & HM & Ha). rewrite Hcan. unfold again.
  rewrite (bool_decide_eq_true_2 (StdMap.find _ [] = None)) by done. rewrite andb_true_r. destruct (repeat_ tm) eqn:Er.
  - unfold restart. rewrite Er. pose proof (Hrep _ _ HX Er). rewrite check_int64_ok by (unfold in_int64; lia). cbn [mbind res_bind].
    set (tm' := mk_timer _ _ _ _). set (q1 := with_heap q (<[p := tm']> (heap_ q))).
    assert (rep q1 M) as Hr1.
    { destruct Hr as [R1 R2 R3 R4]. split; try done. intros p' e n H1. cbn. rewrite lookup_insert_ne by congruence. by apply R3. }
    destruct (insert_ok q1 M p tm' Hr1) as (changed & E & _ & Hr2); [apply lookup_insert_eq|done|done|].
    change (owner_ q) with (owner_ q1). rewrite E. cbn [mbind res_bind]. eexists; split_and!; [done..|]. split; [done| | |done|apply map_Forall_insert_2; [intros _; done|done]].
    + intros p' t' [Hne H1]%lookup_delete_Some. destruct (Hx _ _ H1) as (? & ? & ?). cbn. by rewrite !lookup_insert_ne.
    + intros p' t' H1. cbn in H1. destruct (decide (p' = p)) as [->|]; [left; rewrite lookup_insert_eq; by eexists|].
      rewrite lookup_insert_ne in H1 by done. rewrite lookup_insert_ne, lookup_delete_ne by done. by eapply Hlive.
  - eexists; split_and!; [done..|]. split; [| | |done|by apply map_Forall_delete].
    + destruct Hr as [R1 R2 R3 R4]. split; try done. intros p' e n H1. cbn. rewrite lookup_delete_ne by congruence. by apply R3.
    + intros p' t' [Hne H1]%lookup_delete_Some. destruct (Hx _ _ H1) as (? & ? & ?). cbn. by rewrite lookup_delete_ne.
    + intros p' t' H1. cbn in H1. apply lookup_delete_Some in H1 as [Hne H1]. rewrite lookup_delete_ne by done. by eapply Hlive.
Qed.

Lemma reset_loop_ok expired q M X now : inv q M X -> NoDup (map snd expired) ->
  (forall p, p ∈ map snd expired <-> is_Some (X !! p)) -> repeats_ok now X ->
  exists q', reset_loop to_micros q (owner_ q) expired now = Ok q' /\ owner_ q' = owner_ q /\ armed_ q' = armed_ q /\ inv q' (rearm now X ∪ M) ∅.
Proof.
  revert q M X. induction expired as [|[e p] expired IH]; intros q M X Hi Hnd Hdom Hok; cbn [reset_loop].
  - assert (X = ∅) as ->. { apply map_eq. intros p. rewrite lookup_empty. destruct (X !! p) eqn:E; [|done].
      pose proof (proj2 (Hdom p) ltac:(by eexists)) as Hin. by apply elem_of_nil in Hin. }
    exists q. unfold rearm. rewrite omap_empty, map_empty_union. done.
  - cbn [map snd] in *. apply NoDup_cons in Hnd as [Hni Hnd]. destruct (proj1 (Hdom p)) as [tm HX]; [left|].
    destruct (i_exp _ _ _ Hi _ _ HX) as (Hp & HM & _). unfold deref at 1. rewrite Hp. cbn [mbind res_bind].
    destruct (reset_step q M X p tm now Hi HX Hok) as (q1 & -> & Eo & Ea & Hi1). cbn [mbind res_bind]. rewrite <- Eo.
    destruct (IH q1 _ _ Hi1 Hnd) as (q' & E & Eo' & Ea' & Hi').
    + intros p'. rewrite lookup_delete_is_Some, <- Hdom, elem_of_cons. split; [|by intros [? [->|?]]]. intros Hin. split; [by intros <-|by right].
    + split; [|apply Hok]. apply map_Forall_delete, Hok.
    + exists q'. split_and!; [done|congruence|congruence|]. by rewrite (rearm_step now X M p tm).
Qed.

(** Times a timerfd can be set to. *)
Definition in_time (M : active) : Prop := map_Forall (fun _ x => 0 < x.1 < 2 ^ 62) M.

Lemma in_time_subseteq M M' : M' ⊆ M -> in_time M -> in_time M'.
Proof. intros Hs Ht i x Hx. eapply Ht. by eapply lookup_weaken. Qed.

(** The timerfd is set to a time no later than any active timer. *)
Definition armed_ok (q : queue) (M : active) : Prop :=
  forall p e n, M !! p = Some (e, n) -> exists a, armed_ q = Some a /\ a <= e.

(** The timerfd is set to the expiration of the earliest timer, if there is one. *)
Definition armed_next (q : queue) (M : active) : Prop :=
  M <> ∅ -> exists p e n, M !! p = Some (e, n) /\ armed_ q = Some e /\ map_Forall (fun _ x => e <= x.1) M.

Lemma armed_next_ok q M : armed_next q M -> armed_ok q M.
Proof.
  intros Ha p e n HM. destruct Ha as (p1 & e1 & n1 & _ & Ea & Hmin); [by intros ->|]. exists e1. split; [done|]. by apply (Hmin _ _ HM).
Qed.

Lemma reset_ok expired q M X now clock : inv q M X -> NoDup (map snd expired) ->
  (forall p, p ∈ map snd expired <-> is_Some (X !! p)) -> repeats_ok now X -> in_time M -> 0 <= clock < 2 ^ 62 ->
  exists q', reset to_micros q (owner_ q) expired now clock = Ok q' /\ owner_ q' = owner_ q /\
    inv q' (rearm now X ∪ M) ∅ /\ in_time (rearm now X ∪ M) /\ armed_next q' (rearm now X ∪ M).
Proof.
  intros Hi Hnd Hdom Hok Ht Hc. destruct (reset_loop_ok expired q M X now Hi Hnd Hdom Hok) as (q1 & E & Eo & Ea & Hi1).
  assert (in_time (rearm now X ∪ M)) as Ht'.
  { intros p x [HX|[_ HM]]%lookup_union_Some_raw; [|by eapply Ht]. unfold rearm in HX. rewrite lookup_omap in HX.
    apply bind_Some in HX as (tm & HX & Hag). unfold again in Hag. destruct (repeat_ tm) eqn:Er; [|done]. simplify_eq.
    destruct Hok as [Hrep Hnow]. pose proof (Hrep _ _ HX Er). cbn. lia. }
  unfold reset. rewrite E. cbn [mbind res_bind]. destruct (timers_ q1) as [|[[e p] []] r] eqn:Etm.
  - cbn [mbind res_bind]. exists q1. split_and!; [done|done|done|done|]. intros Hne.
    pose proof (length_lists _ _ _ (r_timers _ _ (i_rep _ _ _ Hi1))) as Hl. rewrite Etm in Hl. cbn in Hl. symmetry in Hl.
    by apply map_size_empty_inv in Hl.
  - destruct (head_earliest _ _ _ _ _ (i_rep _ _ _ Hi1) Etm) as [[n Hn] Hmin].
    destruct (r_heap _ _ (i_rep _ _ _ Hi1) _ _ _ Hn) as (tm & Hp & He & _). unfold deref. rewrite Hp. cbn [fmap res_fmap mbind res_bind].
    rewrite He. pose proof (Ht' _ _ Hn) as Hb. cbn in Hb. case_match; zbool; [|lia]. rewrite resetTimerfd_ok by lia.
    eexists. split_and!; [done|done|by eapply inv_ext|done|]. intros _. exists p, e, n. split_and!; [done|done|]. intros p' [e' n'] HM. by eapply Hmin.
Qed.

(** ** A timer interrupt *)

(** What callbacks may do: anything that keeps the queue consistent. *)
Definition keeps (run : Z -> queue -> res queue) : Prop :=
  forall p q M X, inv q M X -> in_time M ->
  exists q' M', run p q = Ok q' /\ owner_ q' = owner_ q /\ inv q' M' X /\ in_time M'.

Lemma run_all_ok run expired q M X : keeps run -> inv q M X -> in_time M -> (forall p, p ∈ map snd expired -> is_Some (X !! p)) ->
  exists q' M', run_all run expired q = Ok q' /\ owner_ q' = owner_ q /\ inv q' M' X /\ in_time M'.
Proof.
  intros Hk. revert q M. induction expired as [|[e p] expired IH]; intros q M Hi Ht Hx; cbn [run_all]; [by eauto 6|].
  destruct (Hx p) as [tm HX]; [left|]. destruct (i_exp _ _ _ Hi _ _ HX) as (Hp & _). unfold deref. rewrite Hp. cbn [mbind res_bind].
  destruct (Hk p q M X Hi Ht) as (q1 & M1 & -> & Eo & Hi1 & Ht1). cbn [mbind res_bind].
  destruct (IH q1 M1 Hi1 Ht1) as (q2 & M2 & ? & ? & ? & ?); [intros p' Hp'; apply Hx; by right|].
  exists q2, M2. split_and!; [done|congruence|done|done].
Qed.

(** The timer objects that are due. *)
Definition due_timers (now : Z) (q : queue) (M : active) : gmap Z Timer := filter (fun x => is_Some (due now M !! x.1)) (heap_ q).

Lemma due_timers_lookup now q M p : inv q M ∅ -> is_Some (due_timers now q M !! p) <-> is_Some (due now M !! p).
Proof.
  intros Hi. unfold due_timers. split.
  - intros [tm Ht]. by apply map_lookup_filter_Some in Ht as [_ ?].
  - intros [[e n] Hd]. pose proof Hd as Hd'. apply map_lookup_filter_Some in Hd' as [HM _].
    destruct (r_heap _ _ (i_rep _ _ _ Hi) _ _ _ HM) as (tm & Hp & _). exists tm. apply map_lookup_filter_Some_2; [done|]. cbn. rewrite Hd. by eexists.
Qed.

(** Expiry moves the due timers from the sets to [X]. *)
Lemma expire_inv q M now : inv q M ∅ ->
  exists expired ts ac, getExpired q now = Ok (expired, with_sets q ts ac) /\ by_time expired /\
    expired ≡ₚ map entry_of (map_to_list (due now M)) /\ NoDup (map snd expired) /\
    (forall p, p ∈ map snd expired <-> is_Some (due_timers now q M !! p)) /\
    inv (with_sets q ts ac) (not_due now M) (due_timers now q M).
Proof.
  intros Hi. destruct (getExpired_ok q M now (i_rep _ _ _ Hi)) as (expired & ts & ac & E & Hr & Hp & Hs).
  exists expired, ts, ac. split_and!; [done|done|done| | |].
  - rewrite Hp, map_map. apply NoDup_fst_map_to_list.
  - intros p. rewrite due_timers_lookup, Hp, map_map, list_elem_of_fmap by done. split.
    + intros ([p' x] & -> & Hx%elem_of_map_to_list). by exists x.
    + intros [x Hx]. exists (p, x). split; [done|by apply elem_of_map_to_list].
  - split; [done| | |by destruct Hi|by destruct Hi].
    + intros p tm [Hh [[e n] Hd]]%map_lookup_filter_Some. cbn in Hd. split; [done|].
      destruct (due_split now M p) as [HM|(e' & n' & HM & [(_ & _ & H2)|(_ & H1 & _)])]; [| |congruence].
      * apply map_lookup_filter_Some in Hd as [? _]. congruence.
      * split; [done|exact (r_addr _ _ (i_rep _ _ _ Hi) _ _ _ HM)].
    + intros p tm Hh. cbn in Hh. destruct (i_live _ _ _ Hi _ _ Hh) as [[[e n] HM]|[? Hx]]; [|by rewrite lookup_empty in Hx].
      destruct (due_split now M p) as [HM'|(e' & n' & HM' & [(_ & H1 & _)|(_ & _ & H2)])]; [congruence| |left; by eexists].
      right. apply due_timers_lookup; [done|by eexists].
Qed.

Lemma handleRead_ok run q M now clock :
  inv q M ∅ -> in_time M -> keeps run -> 0 < now < 2 ^ 61 -> 0 <= clock < 2 ^ 62 ->
  exists q' expired q0 q1 M1,
    handleRead to_micros run q (owner_ q) now clock = Ok q' /\ owner_ q' = owner_ q /\
    expired ≡ₚ map entry_of (map_to_list (due now M)) /\ by_time expired /\
    inv q0 (not_due now M) (due_timers now q M) /\ run_all run expired q0 = Ok q1 /\ inv q1 M1 (due_timers now q M) /\
    inv q' (rearm now (due_timers now q M) ∪ M1) ∅ /\ in_time (rearm now (due_timers now q M) ∪ M1) /\
    armed_next q' (rearm now (due_timers now q M) ∪ M1).
Proof.
  intros Hi Ht Hk Hnow Hc. set (q0 := with_armed q None). assert (inv q0 M ∅) as Hi0 by by eapply inv_ext.
  destruct (expire_inv q0 M now Hi0) as (expired & ts & ac & E & Hs & Hp & Hnd & Hdom & Hi1).
  change (due_timers now q0 M) with (due_timers now q M) in *. set (X := due_timers now q M) in *.
  set (q1 := mk (heap_ q) (numCreated_ q) (owner_ q) ts ac true [] (armed_ q0)).
  assert (inv q1 (not_due now M) X) as Hi1' by (eapply inv_ext; [exact Hi1|done..|symmetry; apply (i_cancel _ _ _ Hi1)]).
  assert (in_time (not_due now M)) as Ht1 by (intros p x [HM _]%map_lookup_filter_Some; by eapply Ht).
  destruct (run_all_ok run expired q1 _ X Hk Hi1' Ht1) as (q2 & M1 & E2 & Eo2 & Hi2 & Ht2); [intros; by apply Hdom|].
  set (q3 := mk (heap_ q2) (numCreated_ q2) (owner_ q2) (timers_ q2) (activeTimers_ q2) false (cancelingTimers_ q2) (armed_ q2)).
  assert (inv q3 M1 X) as Hi3 by by eapply inv_ext.
  destruct (reset_ok expired q3 M1 X now clock Hi3 Hnd Hdom) as (q4 & E4 & Eo4 & Hi4 & Ht4 & Ha4); [|done|done|].
  { split; [|done]. intros p tm [Hh _]%map_lookup_filter_Some. exact (i_int _ _ _ Hi _ _ Hh). }
  exists q4, expired, q1, q2, M1. split_and!; try done; [|by rewrite Eo4; exact Eo2].
  unfold handleRead. rewrite assertInLoopThread_self. cbn [mbind res_bind]. fold q0. rewrite E. cbn [mbind res_bind].
  change (run_all run expired _) with (run_all run expired q1). rewrite E2. cbn [mbind res_bind]. fold q3.
  rewrite <- (Eo2 : owner_ q2 = owner_ q). exact E4.
Qed.

(** C13: a timer interrupt runs the callbacks of exactly the timers that are
    due, each once and in order of expiration, takes them out of the queue, and
    afterwards rearms the repeating ones one interval after [now] and frees the
    others; whatever the callbacks added and cancelled meanwhile ([M1]) stays.
    No assertion fails, and the timerfd is left set to the expiration of the
    earliest timer there is. *)
Theorem handleRead_runs_due run q M now clock :
  inv q M ∅ -> in_time M -> keeps run -> 0 < now < 2 ^ 61 -> 0 <= clock < 2 ^ 62 ->
  exists q' expired q0 q1 M1,
    handleRead to_micros run q (owner_ q) now clock = Ok q' /\
    expired ≡ₚ map entry_of (map_to_list (due now M)) /\ by_time expired /\
    inv q0 (not_due now M) (due_timers now q M) /\ run_all run expired q0 = Ok q1 /\ inv q1 M1 (due_timers now q M) /\
    inv q' (rearm now (due_timers now q M) ∪ M1) ∅ /\ armed_next q' (rearm now (due_timers now q M) ∪ M1).
Proof.
  intros Hi Ht Hk Hn Hc. destruct (handleRead_ok run q M now clock Hi Ht Hk Hn Hc) as (q' & ex & q0 & q1 & M1 & ? & _ & ? & ? & ? & ? & ? & ? & _ & ?).
  by exists q', ex, q0, q1, M1.
Qed.

(** A repeating timer that cancels itself from its own callback is rearmed
    all the same: the interrupt leaves it active, whatever the callbacks do. *)
Theorem cancel_in_callback_ignored run q M now clock p e n tm :
  inv q M ∅ -> in_time M -> keeps run -> 0 < now < 2 ^ 61 -> 0 <= clock < 2 ^ 62 ->
  M !! p = Some (e, n) -> e <= now -> heap_ q !! p = Some tm -> repeat_ tm = true ->
  exists q' M', handleRead to_micros run q (owner_ q) now clock = Ok q' /\ inv q' M' ∅ /\
    M' !! p = Some (now + to_micros (interval_ tm), n).
Proof.
  intros Hi Ht Hk Hn Hc HM He Hp Hrep. destruct (handleRead_ok run q M now clock Hi Ht Hk Hn Hc) as (q' & ex & q0 & q1 & M1 & E & _ & _ & _ & _ & _ & _ & Hi' & _).
  exists q', (rearm now (due_timers now q M) ∪ M1). split_and!; [done|done|]. apply lookup_union_Some_l. unfold rearm. rewrite lookup_omap.
  assert (due_timers now q M !! p = Some tm) as ->.
  { apply map_lookup_filter_Some_2; [done|]. cbn. destruct (due_split now M p) as [?|(e' & n' & HM' & [(_ & H1 & _)|(Hlt & _)])]; [congruence|by eexists|].
    rewrite HM in HM'. simplify_eq. lia. }
  cbn. unfold again. rewrite Hrep. destruct (r_heap _ _ (i_rep _ _ _ Hi) _ _ _ HM) as (tm' & Hp' & _ & <-). by simplify_eq.
Qed.

(** ** Every history *)

(** What the loop thread does to the queue. *)
Inductive step : queue -> queue -> Prop :=
  | step_add q p when iv clock q' :
      heap_ q !! p = None -> 0 <= p < UINTPTR_MAX -> 0 < when < 2 ^ 62 -> 0 <= clock < 2 ^ 62 ->
      (positive iv = true -> 0 <= to_micros iv < 2 ^ 61) ->
      addTimerInLoop (new_timer positive q p when iv) (owner_ q) p clock = Ok q' -> step q q'
  | step_cancel q id q' : cancelInLoop q (owner_ q) id = Ok q' -> step q q'
  | step_fire q run now clock q' :
      keeps run -> 0 < now < 2 ^ 61 -> 0 <= clock < 2 ^ 62 ->
      handleRead to_micros run q (owner_ q) now clock = Ok q' -> step q q'.

Definition consistent (q : queue) (M : active) : Prop := inv q M ∅ /\ in_time M /\ armed_ok q M.

Lemma new_consistent owner : consistent (new owner) ∅.
Proof.
  split; [|split; [apply map_Forall_empty|by intros p e n HM; rewrite lookup_empty in HM]].
  split; [|done|done|done|apply map_Forall_empty]. split; [apply lists_empty|apply lists_empty|done|done].
Qed.

(** An insertion arms the timerfd if it must. *)
Lemma add_armed q q' M p e n : armed_ok q M ->
  armed_ q' = (if decide (map_Forall (fun _ x => e < x.1) M) then Some e else armed_ q) -> armed_ok q' (<[p := (e, n)]> M).
Proof.
  intros Ha Earm p' e' n' HM'. rewrite Earm.
  destruct (decide (p' = p)) as [->|Hne]; [rewrite lookup_insert_eq in HM'|rewrite lookup_insert_ne in HM' by done].
  - simplify_eq. case_decide as Hd; [exists e'; split; [done|lia]|].
    apply map_not_Forall in Hd as (p1 & [e1 n1] & HM1 & Hlt); [|apply _]. destruct (Ha _ _ _ HM1) as (a & -> & ?). exists a. cbn in Hlt. split; [done|lia].
  - case_decide as Hd; [exists e; split; [done|]; pose proof (Hd _ _ HM') as Hl; cbn in Hl; lia|by apply (Ha p' e' n')].
Qed.

Lemma step_consistent q q' M : consistent q M -> step q q' -> exists M', consistent q' M'.
Proof.
  intros (Hi & Ht & Ha) Hs. destruct Hs as [q p when iv clock q' H1 H2 H3 H4 H5 E|q id q' E|q run now clock q' H1 H2 H3 E].
  - destruct (add_ok q M ∅ p when iv clock Hi H1 H2 H3 H4 H5) as (q2 & E2 & _ & Hi2 & Earm). rewrite E in E2. simplify_eq.
    eexists. split; [exact Hi2|]. split; [by apply map_Forall_insert_2|by apply (add_armed q)].
  - destruct (cancel_inv q M ∅ id Hi) as (q2 & M2 & E2 & _ & Earm & Hi2 & Hsub & _). rewrite E in E2. simplify_eq.
    exists M2. split; [done|]. split; [by eapply in_time_subseteq|]. intros p e n HM. rewrite Earm. apply (Ha p e n). by eapply lookup_weaken.
  - destruct (handleRead_ok run q M now clock Hi Ht H1 H2 H3) as (q2 & ex & q0 & q1 & M1 & E2 & _ & _ & _ & _ & _ & _ & Hi2 & Ht2 & Ha2).
    rewrite E in E2. simplify_eq. eexists. split; [exact Hi2|]. split; [done|by apply armed_next_ok].
Qed.

(** C5: after any history of additions, cancellations and interrupts the two
    ordered sets hold the same timers, every live timer object is one of them
    and conversely (nothing leaks, nothing dangles), and the timerfd is set to a
    time no later than the earliest of them, so no timer is missed. *)
Theorem reachable_consistent owner q : rtc step (new owner) q -> exists M, consistent q M.
Proof.
  intros H. assert (exists M, consistent (new owner) M) as H0 by (eexists; apply new_consistent).
  induction H as [q|q q1 q2 Hs _ IH]; [done|]. apply IH. destruct H0 as [M HM]. by eapply step_consistent.
Qed.

End Facts.

(** Microseconds as intervals, and a queue with one repeating timer. *)
Definition one_timer : @TimerQueue.t Z :=
  mk {[ 5 := mk_timer 1000 300 true 1 ]} 1 7 [((1000, 5), tt)] [((5, 1), tt)] false [] (Some 1000).

Lemma one_timer_steps : rtc (step (Z.ltb 0) id) (new 7) one_timer.
Proof.
  eapply rtc_l; [|apply rtc_refl]. eapply (step_add (Z.ltb 0) id (new 7) 5 1000 300 0); [done|unfold UINTPTR_MAX; lia|lia|lia|cbn; lia|].
  vm_compute. reflexivity.
Qed.

Lemma reachable_consistent_witness : exists M, consistent id one_timer M.
Proof. apply (reachable_consistent (Z.ltb 0) id 7). apply one_timer_steps. Defined.

Lemma one_timer_inv : inv id one_timer {[ 5 := (1000, 1) ]} ∅.
Proof.
  split; [|done| |done|].
  - split; cbn.
    + split; [repeat constructor|]. by rewrite map_to_list_singleton.
    + split; [repeat constructor|]. by rewrite map_to_list_singleton.
    + intros p e n [<- [= <- <-]]%lookup_singleton_Some. rewrite lookup_singleton_eq. by eexists.
    + intros p e n [<- _]%lookup_singleton_Some. unfold UINTPTR_MAX. lia.
  - intros p tm. cbn. intros [<- _]%lookup_singleton_Some. left. rewrite lookup_singleton_eq. by eexists.
  - intros p tm. cbn. intros [<- <-]%lookup_singleton_Some. unfold small_interval, id. cbn. lia.
Qed.

Lemma one_timer_in_time : in_time {[ 5 := (1000, 1) ]}.
Proof. intros p x [<- <-]%lookup_singleton_Some. cbn. lia. Qed.

(** The callback that cancels its own timer. *)
Definition cancel_self (p : Z) (q : @TimerQueue.t Z) : res (@TimerQueue.t Z) := cancelInLoop q (owner_ q) (mk_id p 1).

Lemma cancel_self_keeps : keeps id cancel_self.
Proof.
  intros p q M X Hi Ht. destruct (cancel_inv id q M X (mk_id p 1) Hi) as (q' & M' & E & ? & _ & ? & Hsub & _).
  exists q', M'. split_and!; [done|done|done|by eapply in_time_subseteq].
Qed.

Lemma handleRead_runs_due_witness :
  exists q' expired q0 q1 M1,
    handleRead id cancel_self one_timer 7 2000 2000 = Ok q' /\
    expired ≡ₚ map entry_of (map_to_list (due 2000 {[ 5 := (1000, 1) ]})) /\ by_time expired /\
    inv id q0 (not_due 2000 {[ 5 := (1000, 1) ]}) (due_timers 2000 one_timer {[ 5 := (1000, 1) ]}) /\ run_all cancel_self expired q0 = Ok q1 /\
    inv id q1 M1 (due_timers 2000 one_timer {[ 5 := (1000, 1) ]}) /\
    inv id q' (rearm id 2000 (due_timers 2000 one_timer {[ 5 := (1000, 1) ]}) ∪ M1) ∅ /\
    armed_next q' (rearm id 2000 (due_timers 2000 one_timer {[ 5 := (1000, 1) ]}) ∪ M1).
Proof.
  apply (handleRead_runs_due id cancel_self one_timer {[ 5 := (1000, 1) ]} 2000 2000);
    [apply one_timer_inv|apply one_timer_in_time|apply cancel_self_keeps|lia|lia].
Defined.

Lemma cancel_in_callback_ignored_witness :
  exists q' M', handleRead id cancel_self one_timer 7 2000 2000 = Ok q' /\ inv id q' M' ∅ /\ M' !! 5 = Some (2300, 1).
Proof.
  apply (cancel_in_callback_ignored id cancel_self one_timer {[ 5 := (1000, 1) ]} 2000 2000 5 1000 1 (mk_timer 1000 300 true 1));
    [apply one_timer_inv|apply one_timer_in_time|apply cancel_self_keeps|lia|lia|apply lookup_singleton_eq|lia|done|done].
Defined.

End TimerFacts.
