(* ===== verification/LoopTimers.v ===== *)
(** Timers across threads (src/networking/TimerQueue.cpp: addTimer, cancel and
    the destructor; src/networking/EventLoop.cpp: runAt, runAfter, runEvery and
    cancel): any thread may ask for a timer or cancel one, and the loop's thread
    does it.

    What a thread asks for from outside is queued in the loop, which runs its
    functors in order ([LoopFacts.functors_fifo]).  A [Timer] is made by the
    calling thread; until its functor has run it is in [made], afterwards in the
    heap of the queue.  [addTimer] reads the timer's sequence after [runInLoop],
    a step of its own. *)

From Stdlib Require Import Sorting.Sorted.
From S2P Require Import Prelude Timestamp StdMap Poller TimerQueue TimerFacts.

Module LoopTimers.
Import TimerQueue TimerFacts.
Section Timers.
Context {double : Type} (positive : double -> bool) (to_micros : double -> Z).
Abbreviation queue := (@TimerQueue.t double).

(** The functors of [addTimer] and [cancel]. *)
Inductive job := AddInLoop (p : Z) | CancelInLoop (timerId : TimerId).

Record world := mk_world {
  queue_ : queue;
  made : gmap Z (@Timer double);
  pending : list job;
  adding : gmap Z Z;             (* threads inside [addTimer], with their timer *)
}.

Definition with_queue (w : world) (q : queue) : world := mk_world q (made w) (pending w) (adding w).

(** A functor runs on the loop's thread. *)
Definition run_job (w : world) (tid : Z) (j : job) (clock : Z) : res world :=
  match j with
  | AddInLoop p =>
      match made w !! p with
      | None => Err Undefined
      | Some tm =>
          q ← addTimerInLoop (with_heap (queue_ w) (<[p := tm]> (heap_ (queue_ w)))) tid p clock;
          Ok (mk_world q (delete p (made w)) (pending w) (adding w))
      end
  | CancelInLoop timerId => q ← cancelInLoop (queue_ w) tid timerId; Ok (with_queue w q)
  end.

Definition runInLoop (w : world) (tid : Z) (j : job) (clock : Z) : res world :=
  if tid =? owner_ (queue_ w) then run_job w tid j clock else Ok (mk_world (queue_ w) (made w) (pending w ++ [j]) (adding w)).

(** [addTimer] up to and with [runInLoop]; [new] returns [p]. *)
Definition addTimer (w : world) (tid p when : Z) (interval : double) (clock : Z) : res world :=
  let q := queue_ w in
  let n := numCreated_ q + 1 in
  let q := mk (heap_ q) n (owner_ q) (timers_ q) (activeTimers_ q) (callingExpiredTimers_ q) (cancelingTimers_ q) (armed_ q) in
  let timer := mk_timer when interval (positive interval) n in
  runInLoop (mk_world q (<[p := timer]> (made w)) (pending w) (<[tid := p]> (adding w))) tid (AddInLoop p) clock.

(** The rest of it: [timer->sequence()] is read, and the id returned. *)
Definition addTimer_return (w : world) (tid : Z) : res (TimerId * world) :=
  match adding w !! tid with
  | None => Err Undefined
  | Some p =>
      match made w !! p, heap_ (queue_ w) !! p with
      | Some timer, _ | None, Some timer =>
          Ok (mk_id p (sequence_ timer), mk_world (queue_ w) (made w) (pending w) (delete tid (adding w)))
      | None, None => Err Undefined
      end
  end.

Definition cancel (w : world) (tid : Z) (timerId : TimerId) (clock : Z) : res world := runInLoop w tid (CancelInLoop timerId) clock.

(** [EventLoop]'s interface; [now] is [Timestamp::now()] and [zero] is 0.0. *)
Definition runAt (zero : double) (w : world) (tid p time clock : Z) : res world := addTimer w tid p time zero clock.
Definition runAfter (zero : double) (w : world) (tid p : Z) (delay : double) (now clock : Z) : res world :=
  time ← check_int64 (now + to_micros delay); runAt zero w tid p time clock.
Definition runEvery (w : world) (tid p : Z) (interval : double) (now clock : Z) : res world :=
  time ← check_int64 (now + to_micros interval); addTimer w tid p time interval clock.

(** The loop of the destructor, over [timers_]: each timer is deleted. *)
Fixpoint delete_timers (h : gmap Z (@Timer double)) (l : list (Entry * unit)) : res (gmap Z (@Timer double)) :=
  match l with
  | [] => Ok h
  | ((_, p), _) :: l => match h !! p with None => Err Undefined | Some _ => delete_timers (delete p h) l end
  end.

(** ** What threads do *)

Inductive op :=
  | Call (tid p when : Z) (interval : double) (clock : Z)        (* [addTimer] *)
  | Return (tid : Z)
  | Cancel (tid : Z) (timerId : TimerId) (clock : Z)
  | RunPending (clock : Z)                                       (* the loop runs its next functor *)
  | Interrupt (run : Z -> queue -> res queue) (now clock : Z).   (* the timerfd fires *)

Definition step (w : world) (o : op) : res world :=
  let loop := owner_ (queue_ w) in
  match o with
  | Call tid p when interval clock => addTimer w tid p when interval clock
  | Return tid => '(_, w) ← addTimer_return w tid; Ok w
  | Cancel tid timerId clock => cancel w tid timerId clock
  | RunPending clock =>
      match pending w with
      | [] => Ok w
      | j :: js => run_job (mk_world (queue_ w) (made w) js (adding w)) loop j clock
      end
  | Interrupt run now clock => q ← handleRead to_micros run (queue_ w) loop now clock; Ok (with_queue w q)
  end.

(** A callback leaves the timers that are not in the queue yet alone: what it
    makes is at other addresses. *)
Definition leaves (run : Z -> queue -> res queue) (m : gmap Z (@Timer double)) : Prop :=
  forall p q q', run p q = Ok q' -> heap_ q ##ₘ m -> heap_ q' ##ₘ m.

Definition enabled (w : world) (o : op) : Prop :=
  let loop := owner_ (queue_ w) in
  match o with
  | Call tid p when interval clock => adding w !! tid = None /\ made w !! p = None /\ heap_ (queue_ w) !! p = None /\ 0 <= p < UINTPTR_MAX /\
      0 < when < 2 ^ 62 /\ 0 <= clock < 2 ^ 62 /\ (positive interval = true -> 0 <= to_micros interval < 2 ^ 61)
  | Return tid => is_Some (adding w !! tid)
  | Cancel tid _ clock => adding w !! tid = None /\ 0 <= clock < 2 ^ 62
  | RunPending clock => adding w !! loop = None /\ 0 <= clock < 2 ^ 62
  | Interrupt run now clock => adding w !! loop = None /\ keeps to_micros run /\ leaves run (made w) /\ 0 < now < 2 ^ 61 /\ 0 <= clock < 2 ^ 62
  end.

Definition new_world (owner : Z) : world := mk_world (new owner) ∅ [] ∅.
Inductive reachable (owner : Z) : world -> Prop :=
  | reachable_new : reachable owner (new_world owner)
  | reachable_step w o w' : reachable owner w -> enabled w o -> step w o = Ok w' -> reachable owner w'.

(** ** The invariant *)

Definition adds (l : list job) : list Z := omap (fun j => match j with AddInLoop p => Some p | CancelInLoop _ => None end) l.
Definition timer_ok (p : Z) (tm : @Timer double) : Prop := 0 <= p < UINTPTR_MAX /\ 0 < expiration_ tm < 2 ^ 62 /\ small_interval to_micros tm.

Record good (w : world) (M : gmap Z (Z * Z)) : Prop := {
  g_consistent : consistent to_micros (queue_ w) M;
  g_apart : heap_ (queue_ w) ##ₘ made w;
  g_made : map_Forall timer_ok (made w);
  g_once : NoDup (adds (pending w));
  g_queued p : p ∈ adds (pending w) <-> is_Some (made w !! p);
  g_own p : adding w !! owner_ (queue_ w) = Some p -> is_Some (heap_ (queue_ w) !! p);
}.

Lemma queue_add_good q M m p tm clock :
  consistent to_micros q M -> heap_ q ##ₘ m -> m !! p = Some tm -> timer_ok p tm -> 0 <= clock < 2 ^ 62 ->
  exists q' M', addTimerInLoop (with_heap q (<[p := tm]> (heap_ q))) (owner_ q) p clock = Ok q' /\ consistent to_micros q' M' /\
    owner_ q' = owner_ q /\ heap_ q' = <[p := tm]> (heap_ q) /\ heap_ q' ##ₘ delete p m.
Proof.
  intros (Hi & Ht & Ha) Hd Hm (Hp & He & Hs) Hc. assert (heap_ q !! p = None) as Hn by by eapply map_disjoint_Some_r.
  destruct (add_made to_micros q M ∅ p tm clock Hi Hn Hp He Hc Hs) as (q' & E & Eo & Hi' & Hh & _ & Earm).
  eexists q', _. split_and!; [exact E| |done|done|].
  - split; [exact Hi'|]. split; [by apply map_Forall_insert_2|by apply (add_armed q)].
  - rewrite Hh. apply map_disjoint_insert_l_2; [apply lookup_delete_eq|]. by apply map_disjoint_delete_r.
Qed.

Lemma cancel_good q M m id : consistent to_micros q M -> heap_ q ##ₘ m ->
  exists q' M', cancelInLoop q (owner_ q) id = Ok q' /\ consistent to_micros q' M' /\ owner_ q' = owner_ q /\ heap_ q' ##ₘ m.
Proof.
  intros (Hi & Ht & Ha) Hd. destruct (cancel_inv to_micros q M ∅ id Hi) as (q' & M' & E & Eo & Earm & Hi' & Hsub & _).
  exists q', M'. split_and!; [done| |done|].
  - split; [done|]. split; [by eapply in_time_subseteq|]. intros p e n HM. rewrite Earm. apply (Ha p e n). by eapply lookup_weaken.
  - apply map_disjoint_spec. intros p tm tm' H1 H2. destruct (i_live _ _ _ _ Hi' _ _ H1) as [[[e n] HM]|[? HX]]; [|by rewrite lookup_empty in HX].
    destruct (r_heap _ _ (i_rep _ _ _ _ Hi) p e n) as (tm1 & H3 & _); [by eapply lookup_weaken|]. by eapply map_disjoint_spec.
Qed.

Lemma run_all_leaves run m expired q q' : leaves run m -> run_all run expired q = Ok q' -> heap_ q ##ₘ m -> heap_ q' ##ₘ m.
Proof.
  intros Hl. revert q. induction expired as [|[e p] expired IH]; intros q E Hd; cbn [run_all] in E; res_inv; [done|].
  eapply IH; [exact E|]. by eapply Hl.
Qed.

Lemma interrupt_good q M m run now clock : consistent to_micros q M -> heap_ q ##ₘ m -> keeps to_micros run -> leaves run m ->
  0 < now < 2 ^ 61 -> 0 <= clock < 2 ^ 62 ->
  exists q' M', handleRead to_micros run q (owner_ q) now clock = Ok q' /\ consistent to_micros q' M' /\ owner_ q' = owner_ q /\ heap_ q' ##ₘ m.
Proof.
  intros (Hi & Ht & Ha) Hd Hk Hl Hn Hc.
  destruct (handleRead_ok to_micros run q M now clock Hi Ht Hk Hn Hc) as (q' & ex & q0 & q1 & M1 & E & Eo & _ & _ & Hi0 & E1 & Hi1 & Hi' & Ht' & Ha').
  eexists q', _. split_and!; [done|by split_and!; [..|apply armed_next_ok]|done|].
  assert (forall p, is_Some (due_timers now q M !! p) -> m !! p = None) as Hdue.
  { intros p [tm [Hh _]%map_lookup_filter_Some]. by eapply map_disjoint_Some_l. }
  assert (heap_ q0 ##ₘ m) as Hd0.
  { apply map_disjoint_spec. intros p tm tm' H1 H2. destruct (i_live _ _ _ _ Hi0 _ _ H1) as [[[e n] [HM _]%map_lookup_filter_Some]|HX].
    - destruct (r_heap _ _ (i_rep _ _ _ _ Hi) p e n HM) as (tm1 & H3 & _). by apply (proj1 (map_disjoint_spec _ _) Hd p tm1 tm').
    - rewrite Hdue in H2 by done. done. }
  pose proof (run_all_leaves run m ex q0 q1 Hl E1 Hd0) as Hd1.
  apply map_disjoint_spec. intros p tm tm' H1 H2. destruct (i_live _ _ _ _ Hi' _ _ H1) as [[[e n] HM]|[? HX]]; [|by rewrite lookup_empty in HX].
  apply lookup_union_Some_raw in HM as [HM|[_ HM]].
  - unfold rearm in HM. rewrite lookup_omap in HM. apply bind_Some in HM as (tm1 & HX & _). by rewrite Hdue in H2 by by eexists.
  - destruct (r_heap _ _ (i_rep _ _ _ _ Hi1) p e n HM) as (tm1 & H3 & _). by apply (proj1 (map_disjoint_spec _ _) Hd1 p tm1 tm').
Qed.

Lemma adds_snoc l j : adds (l ++ [j]) = adds l ++ adds [j].
Proof. unfold adds. by rewrite omap_app. Qed.

(** The loop's thread runs the functor of a timer in [made]; [l] are the
    functors still queued. *)
Lemma run_add_good w M l p clock :
  consistent to_micros (queue_ w) M -> heap_ (queue_ w) ##ₘ made w -> map_Forall timer_ok (made w) -> pending w = l ->
  NoDup (p :: adds l) -> (forall p', p' ∈ p :: adds l <-> is_Some (made w !! p')) -> 0 <= clock < 2 ^ 62 ->
  (forall p', adding w !! owner_ (queue_ w) = Some p' -> p' = p \/ is_Some (heap_ (queue_ w) !! p')) ->
  exists w' M', run_job w (owner_ (queue_ w)) (AddInLoop p) clock = Ok w' /\ good w' M'.
Proof.
  intros Hc Hd Hok Hp [Hni Hnd]%NoDup_cons Hdom Hclk Hown. destruct (proj1 (Hdom p)) as [tm Htm]; [left|]. cbn [run_job]. rewrite Htm.
  destruct (queue_add_good (queue_ w) M (made w) p tm clock Hc Hd Htm (Hok _ _ Htm) Hclk) as (q' & M' & E & Hc' & Eo & Hh & Hd'). rewrite E. cbn [mbind res_bind].
  eexists _, M'. split; [done|]. split; cbn [queue_ made pending adding].
  - done.
  - done.
  - by apply map_Forall_delete.
  - by rewrite Hp.
  - intros p'. rewrite Hp. destruct (decide (p' = p)) as [->|Hne].
    + rewrite lookup_delete_eq. split; [done|by intros [? ?]].
    + rewrite lookup_delete_ne, <- Hdom, elem_of_cons by done. tauto.
  - intros p' Ha. rewrite Eo in Ha. rewrite Hh. destruct (Hown p' Ha) as [->|H1]; [rewrite lookup_insert_eq; by eexists|].
    destruct (decide (p' = p)) as [->|]; [rewrite lookup_insert_eq; by eexists|]. by rewrite lookup_insert_ne.
Qed.

Lemma call_good w M tid p when interval clock : good w M -> enabled w (Call tid p when interval clock) ->
  exists w' M', addTimer w tid p when interval clock = Ok w' /\ good w' M'.
Proof.
  intros [Hc Hd Hok Hnd Hdom Hown] (Ha & Hm & Hh & Hp & Hw & Hclk & Hiv). unfold addTimer. set (q := mk _ _ _ _ _ _ _ _). set (tm := mk_timer _ _ _ _).
  assert (consistent to_micros q M) as Hc1.
  { destruct Hc as (Hi & Ht & Har). split; [|done]. by eapply inv_ext. }
  assert (heap_ q ##ₘ <[p := tm]> (made w)) as Hd1 by (by apply map_disjoint_insert_r_2).
  assert (map_Forall timer_ok (<[p := tm]> (made w))) as Hok1 by (by apply map_Forall_insert_2).
  assert (p ∉ adds (pending w)) as Hni by (rewrite Hdom, Hm; by intros [? ?]).
  assert (forall p', p' = p \/ p' ∈ adds (pending w) <-> is_Some (<[p := tm]> (made w) !! p')) as Hdom1.
  { intros p'. destruct (decide (p' = p)) as [->|]; [rewrite lookup_insert_eq; naive_solver|]. rewrite lookup_insert_ne, Hdom by done. tauto. }
  unfold runInLoop. cbn [queue_]. destruct (Z.eqb_spec tid (owner_ q)) as [->|Hne].
  - apply (run_add_good (mk_world q (<[p := tm]> (made w)) (pending w) (<[owner_ q := p]> (adding w))) M (pending w)); try done; cbn [made queue_ adding].
    + by constructor.
    + intros p'. rewrite elem_of_cons. apply Hdom1.
    + intros p'. rewrite lookup_insert_eq. intros [= ->]. by left.
  - eexists _, M. split; [done|]. split; cbn [queue_ made pending adding]; try done.
    + rewrite adds_snoc. cbn. apply NoDup_app. split_and!; [done| |by repeat constructor; set_solver]. intros x Hx ->%list_elem_of_singleton. done.
    + intros p'. rewrite adds_snoc, elem_of_app. cbn. rewrite list_elem_of_singleton, <- Hdom1. tauto.
    + intros p'. rewrite lookup_insert_ne by done. apply Hown.
Qed.

(** A step of a good world succeeds, unless it reads a timer that is gone. *)
Definition reads_gone (w : world) (o : op) : Prop :=
  exists tid p, o = Return tid /\ tid <> owner_ (queue_ w) /\ adding w !! tid = Some p /\ made w !! p = None /\ heap_ (queue_ w) !! p = None.

Lemma step_good w M o : good w M -> enabled w o ->
  (exists w' M', step w o = Ok w' /\ good w' M') \/ (step w o = Err Undefined /\ reads_gone w o).
Proof.
  intros G He. pose proof G as [Hc Hd Hok Hnd Hdom Hown]. destruct o as [tid p when iv clock|tid|tid id clock|clock|run now clock]; cbn [step].
  - left. by apply (call_good w M).
  - destruct He as [p Hp]. unfold addTimer_return. rewrite Hp.
    set (w1 := mk_world (queue_ w) (made w) (pending w) (delete tid (adding w))). assert (good w1 M) as G1.
    { split; cbn [queue_ made pending adding w1]; try done. intros p' H1. apply Hown. by apply lookup_delete_Some in H1 as [_ ?]. }
    destruct (made w !! p) as [tm|] eqn:Em; [left; by exists w1, M|]. destruct (heap_ (queue_ w) !! p) as [tm|] eqn:Eh; [left; by exists w1, M|].
    right. split; [done|]. exists tid, p. split_and!; try done. intros ->. destruct (Hown p Hp) as [? ?]. congruence.
  - left. destruct He as [Ha Hclk]. unfold cancel, runInLoop. destruct (Z.eqb_spec tid (owner_ (queue_ w))) as [->|Hne].
    + cbn [run_job]. destruct (cancel_good (queue_ w) M (made w) id Hc Hd) as (q' & M' & E & Hc' & Eo & Hd'). rewrite E. cbn [mbind res_bind].
      eexists _, M'. split; [done|]. split; cbn; try done. intros p. rewrite Eo, Ha. done.
    + eexists _, M. split; [done|]. split; cbn [queue_ made pending adding]; try done; intros; rewrite adds_snoc, app_nil_r; done.
  - left. destruct He as [Ha Hclk]. destruct (pending w) as [|[p|id] js] eqn:Ep.
    + exists w, M. split; [done|]. split; rewrite ?Ep; done.
    + apply (run_add_good (mk_world (queue_ w) (made w) js (adding w)) M js); try done. cbn. rewrite Ha. done.
    + cbn [run_job queue_]. destruct (cancel_good (queue_ w) M (made w) id Hc Hd) as (q' & M' & E & Hc' & Eo & Hd'). rewrite E. cbn [mbind res_bind].
      eexists _, M'. split; [done|]. split; cbn; try done. intros p. rewrite Eo, Ha. done.
  - left. destruct He as (Ha & Hk & Hl & Hn & Hclk).
    destruct (interrupt_good (queue_ w) M (made w) run now clock Hc Hd Hk Hl Hn Hclk) as (q' & M' & E & Hc' & Eo & Hd'). rewrite E. cbn [mbind res_bind].
    eexists _, M'. split; [done|]. split; cbn; try done. intros p. rewrite Eo, Ha. done.
Qed.

Lemma reachable_good owner w : reachable owner w -> exists M, good w M.
Proof.
  induction 1 as [|w o w' _ [M G] He E].
  - exists ∅. split; cbn.
    + apply new_consistent.
    + apply map_disjoint_empty_r.
    + apply map_Forall_empty.
    + constructor.
    + intros p. rewrite lookup_empty. split; [by intros ?%elem_of_nil|by intros [? ?]].
    + done.
  - destruct (step_good w M o G He) as [(w1 & M1 & E1 & G1)|[E1 _]]; [|congruence]. rewrite E in E1. injection E1 as <-. by exists M1.
Qed.

(** The destructor's loop frees every timer of the queue, once. *)
Lemma delete_timers_ok l h M : lists entry_of l M -> (forall p, is_Some (M !! p) <-> is_Some (h !! p)) -> delete_timers h l = Ok ∅.
Proof.
  revert h M. induction l as [|[[e p] []] l IH]; intros h M Hl Hh; cbn [delete_timers].
  - f_equal. apply map_eq. intros p. rewrite lookup_empty. destruct (h !! p) eqn:E; [|done].
    destruct (proj2 (Hh p)) as [[e n] HM]; [by eexists|]. pose proof (find_in _ _ _ _ _ _ Hl HM). done.
  - assert ((e, p) ∈ map fst (((e, p), tt) :: l)) as Hin by left.
    apply (elem_of_lists _ _ _ _ Hl) in Hin as (p' & e' & n & HM & Ee). unfold entry_of in Ee. cbn in Ee. injection Ee as <- <-.
    destruct (proj1 (Hh p)) as [tm Ep]; [by eexists|]. rewrite Ep. apply (IH _ (delete p M)).
    + pose proof (lists_erase entry_of _ M p e n Hl HM (find_in _ _ _ _ _ _ Hl HM)) as Hl'.
      change (entry_of (p, (e, n))) with (e, p) in Hl'. cbn [StdMap.erase] in Hl'. by rewrite !ltb_irrefl in Hl'.
    + intros p'. destruct (decide (p' = p)) as [->|]; [rewrite !lookup_delete_eq; by split; intros [? ?]|]. rewrite !lookup_delete_ne by done. apply Hh.
Qed.

(** C30: asking for timers from any thread.  Whatever calls of [addTimer] and
    [cancel] by any threads, functors run by the loop and timer interrupts have
    happened, in any interleaving: the queue is consistent, and the timers made
    but not in it are exactly those whose functor is queued, once each, so none
    is forgotten and none is added twice; whatever happens next succeeds, with
    one exception, when [addTimer] on another thread reads the sequence of a
    timer that has expired and is deleted; and the destructor frees each timer of
    the queue once and leaves none. *)
Theorem timers_across_threads owner w :
  reachable owner w ->
  exists M, consistent to_micros (queue_ w) M /\
    NoDup (adds (pending w)) /\ (forall p, p ∈ adds (pending w) <-> is_Some (made w !! p)) /\ heap_ (queue_ w) ##ₘ made w /\
    (forall o, enabled w o -> (exists w', step w o = Ok w') \/ (step w o = Err Undefined /\ reads_gone w o)) /\
    delete_timers (heap_ (queue_ w)) (timers_ (queue_ w)) = Ok ∅.
Proof.
  intros Hr. destruct (reachable_good owner w Hr) as [M G]. exists M. pose proof G as [Hc Hd Hok Hnd Hdom Hown]. split_and!; try done.
  - intros o He. destruct (step_good w M o G He) as [(w' & M' & ? & _)|?]; [left; by exists w'|by right].
  - destruct Hc as (Hi & _). apply (delete_timers_ok _ _ M); [apply (i_rep _ _ _ _ Hi)|]. intros p. split.
    + intros [[e n] HM]. destruct (r_heap _ _ (i_rep _ _ _ _ Hi) p e n HM) as (tm & ? & _). by exists tm.
    + intros [tm Ht]. destruct (i_live _ _ _ _ Hi _ _ Ht) as [?|[? HX]]; [done|by rewrite lookup_empty in HX].
Qed.

End Timers.

(** A timer asked for by thread 2 of the loop on thread 1, which then adds it and
    runs it while thread 2 is still in [addTimer]. *)
Definition race : list (@op Z) :=
  [Call 2 5 1000 0 500; RunPending 600; Interrupt (fun _ q => Ok q) 1000 1001].
Fixpoint run_ops (w : @world Z) (l : list op) : res world :=
  match l with [] => Ok w | o :: l => w ← step (Z.ltb 0) id w o; run_ops w l end.

Lemma idle_keeps : keeps id (fun _ q => Ok q).
Proof. intros p q M X Hi Ht. by exists q, M. Qed.

Lemma race_reachable : exists w, run_ops (new_world 1) race = Ok w /\ reachable (Z.ltb 0) id 1 w /\
  enabled (Z.ltb 0) id w (Return 2) /\ step (Z.ltb 0) id w (Return 2) = Err Undefined.
Proof.
  assert (exists w1, step (Z.ltb 0) id (new_world 1) (Call 2 5 1000 0 500) = Ok w1 /\ reachable (Z.ltb 0) id 1 w1 /\
    w1 = mk_world (mk ∅ 1 1 [] [] false [] None) {[ 5 := mk_timer 1000 0 false 1 ]} [AddInLoop 5] {[ 2 := 5 ]}) as (w1 & E1 & R1 & W1).
  { eexists. split; [done|]. split; [|done]. eapply (reachable_step _ _ _ (new_world 1) (Call 2 5 1000 0 500)); [constructor| |done].
    cbn. unfold UINTPTR_MAX. split_and!; try done; lia. }
  assert (exists w2, step (Z.ltb 0) id w1 (RunPending 600) = Ok w2 /\ reachable (Z.ltb 0) id 1 w2 /\
    w2 = mk_world (mk {[ 5 := mk_timer 1000 0 false 1 ]} 1 1 [((1000, 5), tt)] [((5, 1), tt)] false [] (Some 1000)) ∅ [] {[ 2 := 5 ]}) as (w2 & E2 & R2 & W2).
  { subst w1. eexists. split; [vm_compute; reflexivity|]. split; [|done]. eapply (reachable_step _ _ _ _ (RunPending 600)); [exact R1| |by vm_compute].
    cbn. split; [done|lia]. }
  eexists. cbn [run_ops race]. rewrite E1. cbn [mbind res_bind]. rewrite E2. cbn [mbind res_bind]. subst w2.
  split; [vm_compute; reflexivity|]. split; [|split; [by eexists|by vm_compute]].
  eapply (reachable_step _ _ _ _ (Interrupt (fun _ q => Ok q) 1000 1001)); [exact R2| |by vm_compute].
  cbn. split_and!; try done; [apply idle_keeps|by intros ? ? ? [= <-]|lia..].
Qed.

(** [addTimer] may read a timer that is gone: the exception above happens. *)
Theorem addTimer_reads_freed :
  exists w, reachable (Z.ltb 0) id 1 w /\ enabled (Z.ltb 0) id w (Return 2) /\ step (Z.ltb 0) id w (Return 2) = Err Undefined.
Proof. destruct race_reachable as (w & _ & ? & ? & ?). by exists w. Qed.

Lemma timers_across_threads_witness :
  exists w M, run_ops (new_world 1) race = Ok w /\ consistent id (queue_ w) M /\
    NoDup (adds (pending w)) /\ (forall p, p ∈ adds (pending w) <-> is_Some (made w !! p)) /\ heap_ (queue_ w) ##ₘ made w /\
    (forall o, enabled (Z.ltb 0) id w o -> (exists w', step (Z.ltb 0) id w o = Ok w') \/ (step (Z.ltb 0) id w o = Err Undefined /\ reads_gone w o)) /\
    delete_timers (heap_ (queue_ w)) (timers_ (queue_ w)) = Ok ∅.
Proof.
  destruct race_reachable as (w & E & R & _). destruct (timers_across_threads (Z.ltb 0) id 1 w R) as (M & H). by exists w, M.
Defined.

End LoopTimers.
