(* ===== verification/EventLoop.v ===== *)
(** The event loop (src/networking/EventLoop.h, src/networking/EventLoop.cpp):
    one thread polls, dispatches the active channels and runs the functors that
    any thread queued.

    The other threads interleave with the loop between any two accesses of
    shared data, so the loop is a transition system: [loop] is cut at its
    accesses to [quit_] and [pendingFunctors_] and at its calls of handlers and
    functors, [queueInLoop] and [quit] between the store and the wakeup.  The
    handlers and functors themselves are program code: inside one, the loop's
    thread makes any calls of the loop's interface, in any order.

    The eventfd is its counter: a write adds one (and fails on the full counter),
    a read resets it.  [poll] is either poller's, by what it returns: registered
    channels, each once, with the events that occurred. *)

From S2P Require Import Prelude Channel Poller.

Module EventLoop.

(** A thread that stored and has not looked at waking the loop yet. *)
Inductive stage := Queued | Quitting.
#[global] Instance stage_eq_dec : EqDecision stage.
Proof. solve_decision. Defined.

(** Where the loop's thread is. *)
Inductive pc {Functor : Type} :=
  | Outside                                (* not in [loop] *)
  | AtTest                                 (* at the loop's condition *)
  | AtPoll                                 (* at the call of [poll] *)
  | AtDispatch (rest : list Z)             (* in the loop over [activeChannels_] *)
  | InHandler (rest : list Z)              (* in a channel's handler *)
  | AtSwap                                 (* in [doPendingFunctors], before the swap *)
  | AtCalls (functors : list Functor)      (* in its loop over [functors] *)
  | InFunctor (functors : list Functor).   (* in a functor *)
Arguments pc : clear implicits.

Section Loop.
Context {P : Type} {HP : Poller P} {Functor : Type}.

Record t := mk {
  poller_ : P;
  heap : Channel.heap;
  looping_ : bool;
  quit_ : bool;
  eventHandling_ : bool;
  callingPendingFunctors_ : bool;
  iteration_ : Z;
  threadId_ : Z;
  wakeupFd_ : Z;                           (* the eventfd's counter *)
  wakeupChannel_ : Z;
  activeChannels_ : list Z;
  currentActiveChannel : option Z;
  pendingFunctors_ : list Functor;
  at_ : pc Functor;
  threads : gmap Z stage;
}.

Definition with_channels (s : t) (p : P) (h : Channel.heap) : t :=
  mk p h (looping_ s) (quit_ s) (eventHandling_ s) (callingPendingFunctors_ s) (iteration_ s) (threadId_ s) (wakeupFd_ s)
     (wakeupChannel_ s) (activeChannels_ s) (currentActiveChannel s) (pendingFunctors_ s) (at_ s) (threads s).
Definition with_looping (s : t) (looping quit : bool) : t :=
  mk (poller_ s) (heap s) looping quit (eventHandling_ s) (callingPendingFunctors_ s) (iteration_ s) (threadId_ s) (wakeupFd_ s)
     (wakeupChannel_ s) (activeChannels_ s) (currentActiveChannel s) (pendingFunctors_ s) (at_ s) (threads s).
Definition with_active (s : t) (handling : bool) (active : list Z) (current : option Z) : t :=
  mk (poller_ s) (heap s) (looping_ s) (quit_ s) handling (callingPendingFunctors_ s) (iteration_ s) (threadId_ s) (wakeupFd_ s)
     (wakeupChannel_ s) active current (pendingFunctors_ s) (at_ s) (threads s).
Definition with_pending (s : t) (calling : bool) (pending : list Functor) : t :=
  mk (poller_ s) (heap s) (looping_ s) (quit_ s) (eventHandling_ s) calling (iteration_ s) (threadId_ s) (wakeupFd_ s)
     (wakeupChannel_ s) (activeChannels_ s) (currentActiveChannel s) pending (at_ s) (threads s).
Definition with_eventfd (s : t) (n : Z) : t :=
  mk (poller_ s) (heap s) (looping_ s) (quit_ s) (eventHandling_ s) (callingPendingFunctors_ s) (iteration_ s) (threadId_ s) n
     (wakeupChannel_ s) (activeChannels_ s) (currentActiveChannel s) (pendingFunctors_ s) (at_ s) (threads s).
Definition count_iteration (s : t) : t :=
  mk (poller_ s) (heap s) (looping_ s) (quit_ s) (eventHandling_ s) (callingPendingFunctors_ s) (iteration_ s + 1) (threadId_ s) (wakeupFd_ s)
     (wakeupChannel_ s) (activeChannels_ s) (currentActiveChannel s) (pendingFunctors_ s) (at_ s) (threads s).
Definition goto (s : t) (p : pc Functor) : t :=
  mk (poller_ s) (heap s) (looping_ s) (quit_ s) (eventHandling_ s) (callingPendingFunctors_ s) (iteration_ s) (threadId_ s) (wakeupFd_ s)
     (wakeupChannel_ s) (activeChannels_ s) (currentActiveChannel s) (pendingFunctors_ s) p (threads s).
Definition with_threads (s : t) (m : gmap Z stage) : t :=
  mk (poller_ s) (heap s) (looping_ s) (quit_ s) (eventHandling_ s) (callingPendingFunctors_ s) (iteration_ s) (threadId_ s) (wakeupFd_ s)
     (wakeupChannel_ s) (activeChannels_ s) (currentActiveChannel s) (pendingFunctors_ s) (at_ s) m.

Definition isInLoopThread (s : t) (tid : Z) : bool := threadId_ s =? tid.

(** The constructor on thread [tid], with the new poller, and the wakeup channel
    at address [w] for the eventfd [fd]; [other] tells whether this thread has a
    loop already.  The timer queue's channel is one of the channels of [h].
    [currentActiveChannel] is left unset by the code and only looked at while
    events are handled, when the loop has set it: here it starts as [None]. *)
Definition new (p : P) (h : Channel.heap) (tid w fd : Z) (other : bool) : res t :=
  if other then Err Fatal else
  '(p, h) ← Channel_interest p tid (<[w := Channel.setCallback (Channel.new fd) Channel.ReadCallback]> h) w Channel.EnableReading;
  Ok (mk p h false false false false 0 tid 0 w [] None [] Outside ∅).

(** The destructor: the wakeup channel leaves the poller. *)
Definition destroy (s : t) (tid : Z) : res t :=
  '(p, h) ← Channel_interest (poller_ s) tid (heap s) (wakeupChannel_ s) Channel.DisableAll;
  '(p, h) ← Channel_remove p tid h (wakeupChannel_ s);
  Ok (with_channels s p h).

Definition wakeup (s : t) : t := if wakeupFd_ s <? 2 ^ 64 - 2 then with_eventfd s (wakeupFd_ s + 1) else s.
Definition handleRead (s : t) : t := with_eventfd s 0.

(** [queueInLoop]: the store under the mutex, and what follows. *)
Definition queueInLoop_store (s : t) (cb : Functor) : t := with_pending s (callingPendingFunctors_ s) (pendingFunctors_ s ++ [cb]).
Definition queueInLoop_wake (s : t) (tid : Z) : t :=
  if negb (isInLoopThread s tid) || callingPendingFunctors_ s then wakeup s else s.
(** Both in one piece, and [runInLoop]: [call] runs a functor on the spot. *)
Definition queueInLoop (s : t) (tid : Z) (cb : Functor) : t := queueInLoop_wake (queueInLoop_store s cb) tid.
Definition runInLoop (call : Functor -> t -> res t) (s : t) (tid : Z) (cb : Functor) : res t :=
  if isInLoopThread s tid then call cb s else Ok (queueInLoop s tid cb).

Definition quit_store (s : t) : t := with_looping s (looping_ s) true.
Definition quit_wake (s : t) (tid : Z) : t := if negb (isInLoopThread s tid) then wakeup s else s.
Definition queueSize (s : t) : Z := zlen (pendingFunctors_ s).

Definition updateChannel (s : t) (tid : Z) (c : Z) : res t :=
  _ ← assertInLoopThread (threadId_ s) tid;
  '(p, h) ← Poller.updateChannel (poller_ s) tid (heap s) c;
  Ok (with_channels s p h).

Definition removeChannel (s : t) (tid : Z) (c : Z) : res t :=
  _ ← assertInLoopThread (threadId_ s) tid;
  assert! negb (eventHandling_ s) || bool_decide (currentActiveChannel s = Some c) || negb (bool_decide (c ∈ activeChannels_ s));
  '(p, h) ← Poller.removeChannel (poller_ s) tid (heap s) c;
  Ok (with_channels s p h).

Definition hasChannel (s : t) (tid : Z) (c : Z) : res bool :=
  _ ← assertInLoopThread (threadId_ s) tid;
  Poller.hasChannel (poller_ s) tid (heap s) c.

(** [Channel]'s calls into the loop, and its destructor. *)
Definition change_interest (s : t) (tid : Z) (c : Z) (o : Channel.interest_op) : res t :=
  ch ← Channel.deref (heap s) c;
  let ch := Channel.set_added (Channel.set_events ch (Channel.new_events o (Channel.events_ ch))) true in
  updateChannel (with_channels s (poller_ s) (<[c := ch]> (heap s))) tid c.
Definition remove (s : t) (tid : Z) (c : Z) : res t :=
  ch ← Channel.deref (heap s) c;
  assert! Channel.isNoneEvent ch;
  removeChannel (with_channels s (poller_ s) (<[c := Channel.set_added ch false]> (heap s))) tid c.
Definition delete_channel (s : t) (tid : Z) (c : Z) : res t :=
  ch ← Channel.deref (heap s) c;
  has ← (if isInLoopThread s tid then hasChannel s tid c else Ok false);
  _ ← Channel.destroy ch (isInLoopThread s tid) has;
  Ok (with_channels s (poller_ s) (delete c (heap s))).

(** ** [loop], statement by statement *)

Definition loop_enter (s : t) (tid : Z) : res t :=
  assert! negb (looping_ s);
  _ ← assertInLoopThread (threadId_ s) tid;
  Ok (goto (with_looping s true false) AtTest).

Definition loop_test (s : t) : t :=
  if quit_ s then goto (with_looping s false (quit_ s)) Outside
  else goto (with_active s (eventHandling_ s) [] (currentActiveChannel s)) AtPoll.

Fixpoint store_revents (h : Channel.heap) (active : list (Z * Z)) : res Channel.heap :=
  match active with
  | [] => Ok h
  | (c, revents) :: active => ch ← Channel.deref h c; store_revents (<[c := Channel.set_revents ch revents]> h) active
  end.

Definition loop_poll (s : t) (active : list (Z * Z)) : res t :=
  h ← store_revents (heap s) active;
  let s := count_iteration (with_channels s (poller_ s) h) in
  Ok (goto (with_active s true (map fst active) (currentActiveChannel s)) (AtDispatch (map fst active))).

(** One turn of the loop over the active channels: [handleEvent] up to the
    handler.  At the end the loop goes on to [doPendingFunctors]. *)
Definition loop_dispatch (s : t) (rest : list Z) (owner_alive : bool) : res t :=
  match rest with
  | [] => Ok (goto (with_pending (with_active s false (activeChannels_ s) None) true (pendingFunctors_ s)) AtSwap)
  | c :: rest =>
      ch ← Channel.deref (heap s) c;
      let s := with_active s (eventHandling_ s) (activeChannels_ s) (Some c) in
      if Channel.tied_ ch && negb owner_alive then Ok (goto s (AtDispatch rest))
      else Ok (goto (with_channels s (poller_ s) (<[c := Channel.set_handling ch true]> (heap s))) (InHandler rest))
  end.

Definition handler_returns (s : t) (rest : list Z) : res t :=
  match currentActiveChannel s with
  | None => Err Undefined
  | Some c =>
      ch ← Channel.deref (heap s) c;
      Ok (goto (with_channels s (poller_ s) (<[c := Channel.set_handling ch false]> (heap s))) (AtDispatch rest))
  end.

Definition swap_pending (s : t) : t := goto (with_pending s (callingPendingFunctors_ s) []) (AtCalls (pendingFunctors_ s)).

Definition call_next (s : t) (functors : list Functor) : t :=
  match functors with
  | [] => goto (with_pending s false (pendingFunctors_ s)) AtTest
  | _ :: functors => goto s (InFunctor functors)
  end.

(** ** The transition system *)

Inductive action :=
  | Enter                                  (* the owner calls [loop] *)
  | Advance (owner_alive : bool)           (* the loop's next statement *)
  | PollReturns (active : list (Z * Z))
  | Returns                                (* a handler or functor returns *)
  | Queue (tid : Z) (f : Functor)          (* [queueInLoop] *)
  | Quit (tid : Z)                         (* [quit] *)
  | Wake (tid : Z)                         (* the rest of either *)
  | ReadEventfd                            (* [EventLoop::handleRead] *)
  | Interest (c : Z) (o : Channel.interest_op)
  | Remove (c : Z)
  | NewChannel (c fd : Z)
  | DeleteChannel (tid c : Z).

(** The loop's thread runs program code, not the loop's own. *)
Definition in_program (s : t) : bool :=
  match at_ s with Outside | InHandler _ | InFunctor _ => true | _ => false end && bool_decide (threads s !! threadId_ s = None).

Definition may_act (s : t) (tid : Z) : bool := if isInLoopThread s tid then in_program s else bool_decide (threads s !! tid = None).

Definition registered (s : t) (c : Z) : bool :=
  match heap s !! c with Some ch => bool_decide (channels_ (poller_ s) !! Channel.fd_ ch = Some c) | None => false end.

Definition enabled (s : t) (a : action) : bool :=
  match a with
  | Enter => in_program s
  | Advance _ => match at_ s with AtTest | AtDispatch _ | AtSwap | AtCalls _ => true | _ => false end
  | PollReturns active =>
      match at_ s with AtPoll => true | _ => false end && bool_decide (NoDup (map fst active)) && forallb (registered s) (map fst active)
  | Returns => match at_ s with InHandler _ | InFunctor _ => true | _ => false end && in_program s
  | Queue tid _ | Quit tid => may_act s tid
  | Wake tid => bool_decide (is_Some (threads s !! tid))
  | ReadEventfd => match at_ s with InHandler _ => true | _ => false end && in_program s
  | Interest c _ | Remove c => in_program s
  | NewChannel c _ => bool_decide (heap s !! c = None)
  | DeleteChannel tid c => may_act s tid
  end.

Definition step (s : t) (a : action) : res t :=
  match a with
  | Enter => loop_enter s (threadId_ s)
  | Advance alive =>
      match at_ s with
      | AtTest => Ok (loop_test s)
      | AtDispatch rest => loop_dispatch s rest alive
      | AtSwap => Ok (swap_pending s)
      | AtCalls functors => Ok (call_next s functors)
      | _ => Ok s
      end
  | PollReturns active => loop_poll s active
  | Returns =>
      match at_ s with
      | InHandler rest => handler_returns s rest
      | InFunctor functors => Ok (goto s (AtCalls functors))
      | _ => Ok s
      end
  | Queue tid f => Ok (with_threads (queueInLoop_store s f) (<[tid := Queued]> (threads s)))
  | Quit tid => Ok (with_threads (quit_store s) (<[tid := Quitting]> (threads s)))
  | Wake tid =>
      let s' := match threads s !! tid with Some Queued => queueInLoop_wake s tid | _ => quit_wake s tid end in
      Ok (with_threads s' (delete tid (threads s)))
  | ReadEventfd => Ok (handleRead s)
  | Interest c o => change_interest s (threadId_ s) c o
  | Remove c => remove s (threadId_ s) c
  | NewChannel c fd => Ok (with_channels s (poller_ s) (<[c := Channel.new fd]> (heap s)))
  | DeleteChannel tid c => delete_channel s tid c
  end.

End Loop.
Arguments t P Functor : clear implicits.
Arguments action Functor : clear implicits.
End EventLoop.
