(* ===== verification/LoopFacts.v ===== *)
(** The event loop of src/networking/EventLoop.cpp under any interleaving of
    threads: queued functors run once each in the order they were queued, the
    loop never blocks in poll with work to do and no wakeup on its way, and it
    never touches a channel that is gone. *)

From S2P Require Import Prelude Channel Poller EPollPoller PollPoller EventLoop.

Module LoopFacts.
Import EventLoop.
Section Facts.
Context {P : Type} {HP : Poller P} {HF : PollerFrame P} {Functor : Type}.
Abbreviation loop_state := (EventLoop.t P Functor).
Implicit Types (s : loop_state).

(** Registered channels are live objects that know they are registered. *)
Definition live (p : P) (h : Channel.heap) : Prop :=
  forall fd c, channels_ p !! fd = Some c -> exists ch, h !! c = Some ch /\ Channel.fd_ ch = fd /\ Channel.addedToLoop_ ch = true.

(** What a step queues, and what it starts to run. *)
Definition queues (a : action Functor) : list Functor := match a with Queue _ f => [f] | _ => [] end.
Definition calls (s : loop_state) (a : action Functor) : list Functor :=
  match a, at_ s with Advance _, AtCalls (f :: _) => [f] | _, _ => [] end.
(** Whether functors are pending that the owner queued before it called [loop]. *)
Definition early (s : loop_state) (a : action Functor) (e : bool) : bool :=
  match a, at_ s with
  | Queue tid _, Outside => e || (tid =? threadId_ s)
  | Advance _, AtSwap => false
  | _, _ => e
  end.

(** The reachable states, with the functors queued and started so far. *)
Inductive reachable : loop_state -> list Functor -> list Functor -> bool -> Prop :=
  | reach_new p h tid w fd s : live p h -> h !! w = None -> new p h tid w fd false = Ok s -> reachable s [] [] false
  | reach_step s queued ran e a s' : reachable s queued ran e -> enabled s a = true -> step s a = Ok s' ->
      reachable s' (queued ++ queues a) (ran ++ calls s a) (early s a e).

(** ** Channels *)

Definition in_rest (s : loop_state) : list Z := match at_ s with AtDispatch l | InHandler l => l | _ => [] end.

Record safe (s : loop_state) : Prop := {
  s_live : live (poller_ s) (heap s);
  s_rest c : c ∈ in_rest s -> exists fd, channels_ (poller_ s) !! fd = Some c;
  s_active : (in_rest s) ⊆ (activeChannels_ s);
  s_nodup : NoDup (in_rest s);
  s_handling : match at_ s with AtDispatch _ | InHandler _ => eventHandling_ s = true | _ => eventHandling_ s = false end;
  s_looping : looping_ s = match at_ s with Outside => false | _ => true end;
  s_current : match at_ s with
    | InHandler l => exists c ch, currentActiveChannel s = Some c /\ (c ∉ l) /\ heap s !! c = Some ch /\ Channel.eventHandling_ ch = true
    | _ => True end;
}.

(** A heap that differs in fields no invariant reads. *)
Lemma live_update p h c ch ch' : live p h -> h !! c = Some ch ->
  Channel.fd_ ch' = Channel.fd_ ch -> Channel.addedToLoop_ ch' = Channel.addedToLoop_ ch -> live p (<[c := ch']> h).
Proof.
  intros Hl Hc Hf Ha fd c1 H1. destruct (Hl _ _ H1) as (ch1 & Hc1 & Hf1 & Ha1). destruct (decide (c1 = c)) as [->|].
  - exists ch'. rewrite lookup_insert_eq. simplify_eq. split_and!; [done|done|congruence].
  - exists ch1. by rewrite lookup_insert_ne.
Qed.

(** The poller's operations keep live channels live. *)
Lemma live_interest p h c ch ch1 p' h' tid : live p h -> h !! c = Some ch ->
  Channel.fd_ ch1 = Channel.fd_ ch -> Channel.addedToLoop_ ch1 = true ->
  Poller.updateChannel p tid (<[c := ch1]> h) c = Ok (p', h') -> live p' h'.
Proof.
  intros Hl Hc Hf1 Ha1 E. apply update_frame in E as (ch' & Hc1 & Hst & _ & _ & Hpre & Hch). rewrite lookup_insert_eq in Hc1. injection Hc1 as <-.
  intros fd c1 H1. rewrite Hch, Hf1 in H1.
  assert (exists ch2, <[c := ch1]> h !! c1 = Some ch2 /\ Channel.fd_ ch2 = fd /\ Channel.addedToLoop_ ch2 = true) as (ch2 & Hc2 & Hf & Ha).
  { destruct (decide (c1 = c)) as [->|Hne].
    - exists ch1. rewrite lookup_insert_eq. split_and!; [done| |done].
      destruct (decide (fd = Channel.fd_ ch)) as [->|]; [done|]. rewrite lookup_insert_ne in H1 by done.
      destruct (Hl _ _ H1) as (? & ? & ? & _). by simplify_eq.
    - destruct (decide (fd = Channel.fd_ ch)) as [->|]; [rewrite lookup_insert_eq in H1; congruence|].
      rewrite !lookup_insert_ne in H1 by done. destruct (Hl _ _ H1) as (ch2 & ? & ? & ?). exists ch2. by rewrite lookup_insert_ne. }
  destruct (strip_lookup _ _ _ _ Hst Hc2) as (ch3 & Hc3 & (E1 & _ & E2 & _)%strip_same). exists ch3. split_and!; [done|congruence..].
Qed.

Lemma live_remove p h c ch ch1 p' h' tid : live p h -> h !! c = Some ch -> Channel.fd_ ch1 = Channel.fd_ ch ->
  Poller.removeChannel p tid (<[c := ch1]> h) c = Ok (p', h') -> live p' h'.
Proof.
  intros Hl Hc Hf1 E. apply remove_frame in E as (ch' & Hc1 & Hst & _ & _ & Hpre & Hch). rewrite lookup_insert_eq in Hc1. injection Hc1 as <-.
  intros fd c1 H1. rewrite Hch, Hf1 in H1. apply lookup_delete_Some in H1 as [Hne H1]. destruct (Hl _ _ H1) as (ch2 & Hc2 & Hf & Ha).
  destruct (decide (c1 = c)) as [->|]; [simplify_eq|].
  destruct (strip_lookup _ _ c1 ch2 Hst) as (ch3 & Hc3 & (E1 & _ & E2 & _)%strip_same); [by rewrite lookup_insert_ne|].
  exists ch3. split_and!; [done|congruence..].
Qed.

(** The part of a heap change that [s_current] needs. *)
Definition keeps_handling (h h' : Channel.heap) : Prop := forall c ch,
  h !! c = Some ch -> Channel.eventHandling_ ch = true -> exists ch', h' !! c = Some ch' /\ Channel.eventHandling_ ch' = true.

Lemma keeps_handling_insert h c ch ch' : h !! c = Some ch -> Channel.eventHandling_ ch' = Channel.eventHandling_ ch -> keeps_handling h (<[c := ch']> h).
Proof.
  intros Hc He c1 ch1 Hc1 He1. destruct (decide (c1 = c)) as [->|].
  - exists ch'. rewrite lookup_insert_eq. simplify_eq. split; [done|congruence].
  - exists ch1. by rewrite lookup_insert_ne.
Qed.
Lemma keeps_handling_strip h h' : strip <$> h' = strip <$> h -> keeps_handling h h'.
Proof. intros Hst c ch Hc He. destruct (strip_lookup _ _ _ _ Hst Hc) as (ch' & ? & (_ & _ & _ & E)%strip_same). exists ch'. split; [done|congruence]. Qed.
Lemma keeps_handling_trans h1 h2 h3 : keeps_handling h1 h2 -> keeps_handling h2 h3 -> keeps_handling h1 h3.
Proof. intros K1 K2 c ch Hc He. destruct (K1 _ _ Hc He) as (ch' & ? & ?). by eapply K2. Qed.

(** After a change of the channels and the poller. *)
Lemma safe_channels s p' h' : safe s -> live p' h' ->
  (forall c fd, c ∈ in_rest s -> channels_ (poller_ s) !! fd = Some c -> channels_ p' !! fd = Some c) ->
  keeps_handling (heap s) h' -> safe (with_channels s p' h').
Proof.
  intros Hs Hl Hr Hh. split; [done|..|exact (s_active _ Hs)|exact (s_nodup _ Hs)|exact (s_handling _ Hs)|exact (s_looping _ Hs)|].
  - intros c Hc. destruct (s_rest _ Hs c Hc) as [fd Hfd]. exists fd. by apply Hr.
  - pose proof (s_current _ Hs) as Hc. cbn in *. destruct (at_ s); try done. destruct Hc as (c & ch & E & Hn & Hch & He).
    destruct (Hh _ _ Hch He) as (ch' & ? & ?). by exists c, ch'.
Qed.

Lemma change_interest_safe s c o s' : safe s -> change_interest s (threadId_ s) c o = Ok s' -> safe s'.
Proof.
  intros Hs E. unfold change_interest, Channel.deref in E. destruct (heap s !! c) as [ch|] eqn:Hc; [|done]. cbn [mbind res_bind] in E.
  set (ch1 := Channel.set_added _ true) in E. unfold updateChannel in E. apply res_bind_Ok in E as ([] & _ & E).
  apply res_bind_Ok in E as ([p' h'] & E & E'). injection E' as <-. cbn in E.
  change (safe (with_channels s p' h')). pose proof (update_frame _ _ _ _ _ _ E) as (ch' & Hc1 & Hst & _ & _ & Hpre & Hch).
  rewrite lookup_insert_eq in Hc1. injection Hc1 as <-. apply safe_channels; [done|..].
  - by apply (live_interest _ _ _ ch ch1 _ _ _ (s_live _ Hs) Hc eq_refl eq_refl E).
  - intros c1 fd _ H1. rewrite Hch. destruct (decide (fd = Channel.fd_ ch1)) as [->|]; [rewrite lookup_insert_eq; destruct Hpre; congruence|].
    by rewrite lookup_insert_ne.
  - eapply keeps_handling_trans; [by apply (keeps_handling_insert _ c ch ch1)|by apply keeps_handling_strip].
Qed.

Lemma remove_safe s c s' : safe s -> in_program s = true -> remove s (threadId_ s) c = Ok s' -> safe s'.
Proof.
  intros Hs Hp E. unfold remove, Channel.deref in E. destruct (heap s !! c) as [ch|] eqn:Hc; [|done]. cbn [mbind res_bind] in E.
  apply assert_Ok in E as [_ E]. set (ch1 := Channel.set_added _ false) in E. unfold removeChannel in E. apply res_bind_Ok in E as ([] & _ & E).
  apply assert_Ok in E as [Hguard E]. apply res_bind_Ok in E as ([p' h'] & E & E'). injection E' as <-. cbn in E, Hguard.
  change (safe (with_channels s p' h')). pose proof (remove_frame _ _ _ _ _ _ E) as (ch' & Hc1 & Hst & _ & _ & Hpre & Hch).
  rewrite lookup_insert_eq in Hc1. injection Hc1 as <-. apply safe_channels; [done|..].
  - by apply (live_remove _ _ _ ch ch1 _ _ _ (s_live _ Hs) Hc eq_refl E).
  - intros c1 fd Hin H1. rewrite Hch. apply lookup_delete_Some. split; [|done]. intros <-. rewrite H1 in Hpre. injection Hpre as ->.
    pose proof (s_active _ Hs _ Hin) as Hact. pose proof (s_handling _ Hs) as Hh. pose proof (s_current _ Hs) as Hcur.
    unfold in_rest in Hin. unfold in_program in Hp. destruct (at_ s); try by apply elem_of_nil in Hin. { done. }
    destruct Hcur as (c0 & ch0 & Ecur & Hni & _). rewrite Hh in Hguard. zbool. destruct_or! Hguard; [done|congruence|done].
  - eapply keeps_handling_trans; [by apply (keeps_handling_insert _ c ch ch1)|by apply keeps_handling_strip].
Qed.

Lemma delete_safe s tid c s' : safe s -> delete_channel s tid c = Ok s' -> safe s'.
Proof.
  intros Hs E. unfold delete_channel, Channel.deref in E. destruct (heap s !! c) as [ch|] eqn:Hc; [|done]. cbn [mbind res_bind] in E.
  apply res_bind_Ok in E as (has & _ & E). apply res_bind_Ok in E as ([] & E & E'). injection E' as <-. unfold Channel.destroy in E.
  apply assert_Ok in E as [He E]. apply assert_Ok in E as [Ha _]. zbool. apply safe_channels; [done|..|done|].
  - intros fd c1 H1. destruct (s_live _ Hs _ _ H1) as (ch1 & Hc1 & ? & ?). exists ch1. split_and!; [|done..].
    rewrite lookup_delete_ne; [done|]. intros <-. congruence.
  - intros c1 ch1 Hc1 He1. exists ch1. split; [|done]. rewrite lookup_delete_ne; [done|]. intros <-. congruence.
Qed.

Lemma store_revents_live p h active h' : live p h -> store_revents h active = Ok h' -> live p h'.
Proof.
  revert h. induction active as [|[c r] active IH]; intros h Hl E; cbn in E; [by injection E as <-|].
  unfold Channel.deref in E. destruct (h !! c) as [ch|] eqn:Hc; [|done]. cbn [mbind res_bind] in E. eapply IH; [|done]. by apply (live_update p h c ch).
Qed.

(** Steps that leave the channels alone and the loop's thread outside the dispatch. *)
Lemma safe_elsewhere s : live (poller_ s) (heap s) -> eventHandling_ s = false ->
  match at_ s with AtDispatch _ | InHandler _ => False | Outside => looping_ s = false | _ => looping_ s = true end -> safe s.
Proof.
  intros Hl He Ha. unfold in_rest. split; [done|..]; unfold in_rest; destruct (at_ s); try done; try (intros ? Hc; by apply elem_of_nil in Hc); by constructor.
Qed.

Lemma registered_spec s c : registered s c = true -> exists ch, heap s !! c = Some ch /\ channels_ (poller_ s) !! Channel.fd_ ch = Some c.
Proof. unfold registered. destruct (heap s !! c) as [ch|]; [|done]. intros ?%bool_decide_eq_true. by exists ch. Qed.

Lemma loop_poll_safe s active s' : safe s -> at_ s = AtPoll -> NoDup (map fst active) -> forallb (registered s) (map fst active) = true ->
  loop_poll s active = Ok s' -> safe s'.
Proof.
  intros Hs Hat Hnd Hreg E. unfold loop_poll in E. apply res_bind_Ok in E as (h' & E & E'). injection E' as <-. split; cbn; try done.
  - by apply (store_revents_live _ _ _ _ (s_live _ Hs) E).
  - intros c Hc. apply forallb_forall with (x := c) in Hreg; [|by apply list_elem_of_In]. apply registered_spec in Hreg as (ch & _ & ?). by eexists.
  - pose proof (s_looping _ Hs) as Hl. by rewrite Hat in Hl.
Qed.

Lemma loop_dispatch_safe s rest alive s' : safe s -> at_ s = AtDispatch rest -> loop_dispatch s rest alive = Ok s' -> safe s'.
Proof.
  intros Hs Hat E. destruct rest as [|c rest]; cbn in E.
  - injection E as <-. pose proof (s_looping _ Hs) as Hl. rewrite Hat in Hl. apply safe_elsewhere; [apply Hs|done|done].
  - unfold Channel.deref in E. destruct (heap s !! c) as [ch|] eqn:Hc; [|done]. cbn [mbind res_bind] in E.
    pose proof (s_rest _ Hs) as H1. pose proof (s_active _ Hs) as H2. pose proof (s_nodup _ Hs) as H3. pose proof (s_handling _ Hs) as H4. pose proof (s_looping _ Hs) as H5.
    unfold in_rest in *. rewrite Hat in *. apply NoDup_cons in H3 as [Hni H3].
    destruct (_ && _); injection E as <-; (split; cbn; [|set_solver|set_solver|done|done|done|]); try apply Hs; try done.
    + apply (live_update _ _ c ch); [apply Hs|done..].
    + eexists c, _. rewrite lookup_insert_eq. by split_and!.
Qed.

Lemma handler_returns_safe s rest s' : safe s -> at_ s = InHandler rest -> handler_returns s rest = Ok s' -> safe s'.
Proof.
  intros Hs Hat E. unfold handler_returns in E. destruct (currentActiveChannel s) as [c|]; [|done].
  unfold Channel.deref in E. destruct (heap s !! c) as [ch|] eqn:Hc; [|done]. cbn [mbind res_bind] in E. injection E as <-.
  pose proof (s_rest _ Hs) as H1. pose proof (s_active _ Hs) as H2. pose proof (s_nodup _ Hs) as H3. pose proof (s_handling _ Hs) as H4. pose proof (s_looping _ Hs) as H5.
  unfold in_rest in *. rewrite Hat in *. split; cbn; try done. apply (live_update _ _ c ch); [apply Hs|done..].
Qed.

(** Steps that change none of what [safe] reads. *)
Lemma safe_same s s' : safe s -> poller_ s' = poller_ s -> heap s' = heap s -> at_ s' = at_ s -> activeChannels_ s' = activeChannels_ s ->
  eventHandling_ s' = eventHandling_ s -> currentActiveChannel s' = currentActiveChannel s -> looping_ s' = looping_ s -> safe s'.
Proof.
  intros [H1 H2 H3 H4 H5 H6 H7] E1 E2 E3 E4 E5 E6 E7. unfold in_rest in *. split; unfold in_rest; rewrite ?E1, ?E2, ?E3, ?E4, ?E5, ?E6, ?E7; done.
Qed.

Lemma wakeup_same s : wakeup s = with_eventfd s (wakeupFd_ (wakeup s)).
Proof. unfold wakeup. case_match; [done|]. by destruct s. Qed.
Lemma queueInLoop_wake_same s tid : queueInLoop_wake s tid = with_eventfd s (wakeupFd_ (queueInLoop_wake s tid)).
Proof. unfold queueInLoop_wake. case_match; [apply wakeup_same|by destruct s]. Qed.
Lemma quit_wake_same s tid : quit_wake s tid = with_eventfd s (wakeupFd_ (quit_wake s tid)).
Proof. unfold quit_wake. case_match; [apply wakeup_same|by destruct s]. Qed.

Lemma step_safe s a s' : safe s -> enabled s a = true -> step s a = Ok s' -> safe s'.
Proof.
  intros Hs Hen E. destruct a as [|alive|active| |tid f|tid|tid| |c o|c|c fd|tid c]; cbn [enabled step] in *.
  - unfold loop_enter in E. rewrite assertInLoopThread_self in E. apply assert_Ok in E as [El E]. injection E as <-. zbool.
    pose proof (s_handling _ Hs) as Hh. pose proof (s_looping _ Hs) as Hl. rewrite El in Hl. apply safe_elsewhere; [apply Hs| |done]. cbn. by destruct (at_ s).
  - destruct (at_ s) as [| | |rest|rest| |fs|fs] eqn:Hat; try done.
    + injection E as <-. unfold loop_test. pose proof (s_handling _ Hs) as Hh. pose proof (s_looping _ Hs) as Hl. rewrite Hat in Hh, Hl. case_match; apply safe_elsewhere; try done; apply Hs.
    + by apply (loop_dispatch_safe s rest alive).
    + injection E as <-. pose proof (s_handling _ Hs) as Hh. pose proof (s_looping _ Hs) as Hl. rewrite Hat in Hh, Hl. apply safe_elsewhere; try done; apply Hs.
    + injection E as <-. pose proof (s_handling _ Hs) as Hh. pose proof (s_looping _ Hs) as Hl. rewrite Hat in Hh, Hl. unfold call_next. case_match; apply safe_elsewhere; try done; apply Hs.
  - zbool. destruct_and!. apply (loop_poll_safe s active); try done. by destruct (at_ s).
  - destruct (at_ s) as [| | |rest|rest| |fs|fs] eqn:Hat; try done; [by apply (handler_returns_safe s rest)|].
    injection E as <-. pose proof (s_handling _ Hs) as Hh. pose proof (s_looping _ Hs) as Hl. rewrite Hat in Hh, Hl. apply safe_elsewhere; try done; apply Hs.
  - injection E as <-. by apply (safe_same s).
  - injection E as <-. by apply (safe_same s).
  - injection E as <-. apply (safe_same s); [done|..]; (destruct (threads s !! tid) as [[]|]; [rewrite queueInLoop_wake_same|rewrite quit_wake_same..]; done).
  - injection E as <-. by apply (safe_same s).
  - by apply (change_interest_safe s c o).
  - by apply (remove_safe s c).
  - injection E as <-. zbool. apply safe_channels; [done| |done|].
    + intros fd1 c1 H1. destruct (s_live _ Hs _ _ H1) as (ch1 & Hc1 & ? & ?). exists ch1. split_and!; [|done..]. rewrite lookup_insert_ne; [done|congruence].
    + intros c1 ch1 Hc1 He1. exists ch1. split; [|done]. rewrite lookup_insert_ne; [done|congruence].
  - by apply (delete_safe s tid c).
Qed.

Lemma new_spec p h tid w fd s : live p h -> h !! w = None -> new p h tid w fd false = Ok s ->
  live (poller_ s) (heap s) /\ looping_ s = false /\ eventHandling_ s = false /\ callingPendingFunctors_ s = false /\
  wakeupFd_ s = 0 /\ pendingFunctors_ s = [] /\ at_ s = Outside /\ threads s = ∅.
Proof.
  intros Hl Hw E. unfold new in E. apply res_bind_Ok in E as ([p' h'] & E & E'). injection E' as <-. cbn. split_and!; try done.
  unfold Channel_interest, Channel_update, Channel.deref in E. rewrite lookup_insert_eq in E. cbn [mbind res_bind] in E.
  rewrite lookup_insert_eq in E. cbn [mbind res_bind] in E. rewrite insert_insert_eq in E.
  eapply (live_interest p (<[w := Channel.setCallback (Channel.new fd) Channel.ReadCallback]> h) w); [|apply lookup_insert_eq|..|exact E]; [|done..].
  intros fd1 c1 H1. destruct (Hl _ _ H1) as (ch1 & Hc1 & ? & ?). exists ch1. split_and!; [|done..]. rewrite lookup_insert_ne; [done|congruence].
Qed.

Lemma reachable_safe s queued ran e : reachable s queued ran e -> safe s.
Proof.
  induction 1 as [p h tid w fd s Hl Hw E|s queued ran e a s' _ IH Hen E]; [|by eapply step_safe].
  destruct (new_spec _ _ _ _ _ _ Hl Hw E) as (? & ? & ? & _ & _ & _ & Hat & _). apply safe_elsewhere; [done|done|by rewrite Hat].
Qed.

Lemma store_revents_ok p h active : live p h -> Forall (fun c => exists fd, channels_ p !! fd = Some c) (map fst active) ->
  exists h', store_revents h active = Ok h'.
Proof.
  revert h. induction active as [|[c r] active IH]; intros h Hl Hf; cbn; [by eexists|].
  apply Forall_cons in Hf as [[fd Hc] Hf]. cbn in Hc. destruct (Hl _ _ Hc) as (ch & Hch & ? & ?). unfold Channel.deref. rewrite Hch. cbn [mbind res_bind].
  apply IH; [|done]. by apply (live_update p h c ch).
Qed.

(** The loop's own statements succeed. *)
Lemma own_steps_succeed s queued ran e a : reachable s queued ran e -> enabled s a = true ->
  match a with Advance _ | PollReturns _ | Returns => True | _ => False end -> exists s', step s a = Ok s'.
Proof.
  intros Hr%reachable_safe Hen Ha. destruct a as [|alive|active| | | | | | | | |]; try done; cbn [enabled step] in *.
  - destruct (at_ s) as [| | |rest|rest| |fs|fs] eqn:Hat; try by eexists. destruct rest as [|c rest]; cbn; [by eexists|].
    destruct (s_rest _ Hr c) as [fd Hc]; [unfold in_rest; rewrite Hat; by left|]. destruct (s_live _ Hr _ _ Hc) as (ch & Hch & _).
    unfold Channel.deref. rewrite Hch. cbn [mbind res_bind]. destruct (_ && _); by eexists.
  - zbool. destruct_and!. unfold loop_poll. destruct (store_revents_ok (poller_ s) (heap s) active) as [h' E]; [apply Hr| |].
    + apply Forall_forall. intros c Hc. match goal with F : forallb _ _ = true |- _ => apply forallb_forall with (x := c) in F; [|by apply list_elem_of_In]; apply registered_spec in F as (ch & _ & F) end. by eexists.
    + rewrite E. by eexists.
  - pose proof (s_current _ Hr) as Hc. destruct (at_ s) as [| | |rest|rest| |fs|fs]; try by eexists.
    destruct Hc as (c & ch & Ec & _ & Hch & _). unfold handler_returns, Channel.deref. rewrite Ec, Hch. by eexists.
Qed.

(** ** Functors *)

Definition in_flight (s : loop_state) : list Functor := match at_ s with AtCalls l | InFunctor l => l | _ => [] end.

Lemma channels_step_same s a s' : enabled s a = true -> step s a = Ok s' ->
  match a with Interest _ _ | Remove _ | NewChannel _ _ | DeleteChannel _ _ => s' = with_channels s (poller_ s') (heap s') | _ => True end.
Proof.
  intros _ E. destruct a as [| | | | | | | |c o|c|c fd|tid c]; try done; cbn [step] in E.
  - unfold change_interest, updateChannel in E. res_inv. destruct a1. by res_inv.
  - unfold remove, removeChannel in E. res_inv. destruct a1. by res_inv.
  - by injection E as <-.
  - unfold delete_channel in E. by res_inv.
Qed.

Lemma wake_step_same s tid s' : step s (Wake tid) = Ok s' -> exists n, s' = with_threads (with_eventfd s n) (delete tid (threads s)) /\
  n = wakeupFd_ (match threads s !! tid with Some Queued => queueInLoop_wake s tid | _ => quit_wake s tid end).
Proof.
  cbn [step]. intros [= <-]. eexists. split; [|done]. f_equal. destruct (threads s !! tid) as [[]|]; [apply queueInLoop_wake_same|apply quit_wake_same..].
Qed.

(** Nothing is lost, run twice or reordered. *)
Lemma step_fifo s a s' queued ran : safe s -> queued = ran ++ in_flight s ++ pendingFunctors_ s -> enabled s a = true -> step s a = Ok s' ->
  queued ++ queues a = (ran ++ calls s a) ++ in_flight s' ++ pendingFunctors_ s'.
Proof.
  intros Hs -> Hen E. pose proof (channels_step_same s a s' Hen E) as Hch. pose proof (s_looping _ Hs) as Hl. unfold calls, in_flight.
  destruct a as [|alive|active| |tid f|tid|tid| |c o|c|c fd|tid c]; cbn [queues]; cbn [enabled step] in Hen;
    try (rewrite Hch; cbn; by rewrite !app_nil_r); try (apply wake_step_same in E as (n & -> & _); cbn; by rewrite !app_nil_r); cbn [step] in E.
  - unfold loop_enter in E. rewrite assertInLoopThread_self in E. apply assert_Ok in E as [El E]. injection E as <-. zbool.
    destruct (at_ s); cbn; rewrite ?app_nil_r; congruence.
  - destruct (at_ s) as [| | |rest|rest| |fs|fs] eqn:Hat; try done.
    + injection E as <-. unfold loop_test. destruct (quit_ s); cbn; by rewrite !app_nil_r.
    + unfold loop_dispatch in E. destruct rest; res_inv; [cbn; by rewrite !app_nil_r|]. destruct (_ && _); res_inv; cbn; by rewrite !app_nil_r.
    + injection E as <-. cbn. by rewrite !app_nil_r.
    + injection E as <-. destruct fs; cbn; rewrite !app_nil_r; [done|]. by rewrite <- app_assoc.
  - unfold loop_poll in E. res_inv. zbool. destruct (at_ s); cbn in *; destruct_and?; try done. by rewrite !app_nil_r.
  - destruct (at_ s) as [| | |rest|rest| |fs|fs] eqn:Hat; try done; [|injection E as <-; cbn; by rewrite !app_nil_r].
    unfold handler_returns in E. destruct (currentActiveChannel s); [|done]. res_inv. cbn. by rewrite !app_nil_r.
  - injection E as <-. cbn. by rewrite app_nil_r, <- !app_assoc.
  - injection E as <-. cbn. by rewrite !app_nil_r.
  - injection E as <-. cbn. by rewrite !app_nil_r.
Qed.

Lemma reachable_fifo s queued ran e : reachable s queued ran e -> queued = ran ++ in_flight s ++ pendingFunctors_ s.
Proof.
  induction 1 as [p h tid w fd s Hl Hw E|s queued ran e a s' Hr IH Hen E].
  - destruct (new_spec _ _ _ _ _ _ Hl Hw E) as (_ & _ & _ & _ & _ & Hp & Hat & _). unfold in_flight. by rewrite Hat, Hp.
  - by apply (step_fifo s a s'); [eapply reachable_safe|..].
Qed.

(** ** Wakeups *)

(** The poll returns at once, or a thread is about to make it. *)
Definition awake (s : loop_state) (g : stage) : Prop :=
  0 < wakeupFd_ s \/ exists tid, threads s !! tid = Some g /\ (tid <> threadId_ s \/ (g = Queued /\ callingPendingFunctors_ s = true)).

Record wakes (s : loop_state) (e : bool) : Prop := {
  w_fd : 0 <= wakeupFd_ s;
  w_calling : callingPendingFunctors_ s = match at_ s with AtSwap | AtCalls _ | InFunctor _ => true | _ => false end;
  w_own : match at_ s with Outside | InHandler _ | InFunctor _ => True | _ => threads s !! threadId_ s = None end;
  w_pending : match at_ s with AtDispatch _ | InHandler _ | AtSwap => True
    | _ => e = false -> pendingFunctors_ s <> [] -> awake s Queued end;
  w_quit : match at_ s with AtPoll => quit_ s = true -> awake s Quitting | _ => True end;
}.

Lemma wakeup_pos s : 0 <= wakeupFd_ s -> 0 < wakeupFd_ (wakeup s).
Proof. intros Hfd. unfold wakeup. case_match; zbool; cbn; lia. Qed.

Lemma wake_grows s tid s' : 0 <= wakeupFd_ s -> step s (Wake tid) = Ok s' -> wakeupFd_ s <= wakeupFd_ s'.
Proof.
  intros Hfd (n & -> & ->)%wake_step_same. cbn. pose proof (wakeup_pos s Hfd). unfold wakeup in *.
  destruct (threads s !! tid) as [[]|]; unfold queueInLoop_wake, quit_wake, wakeup; repeat case_match; zbool; cbn in *; lia.
Qed.

(** Waking threads keep what is awake awake. *)
Lemma awake_wake s tid g s' : 0 <= wakeupFd_ s -> awake s g -> step s (Wake tid) = Ok s' -> awake s' g.
Proof.
  intros Hfd Ha E. pose proof (wake_grows s tid s' Hfd E) as Hg. destruct Ha as [Ha|(tid0 & Ht & Hc)]; [left; lia|].
  apply wake_step_same in E as (n & -> & ->). cbn in Hg. destruct (decide (tid0 = tid)) as [->|Hne].
  - left. cbn. rewrite Ht. unfold queueInLoop_wake, quit_wake, isInLoopThread. destruct g; destruct Hc as [Hc|[Hg0 Hc]]; try done.
    + replace (threadId_ s =? tid) with false by (symmetry; zbool; congruence). by apply wakeup_pos.
    + rewrite Hc, orb_true_r. by apply wakeup_pos.
    + replace (threadId_ s =? tid) with false by (symmetry; zbool; congruence). by apply wakeup_pos.
  - right. exists tid0. cbn. by rewrite lookup_delete_ne.
Qed.

Lemma awake_same s s' g : wakeupFd_ s' = wakeupFd_ s -> threads s' = threads s -> threadId_ s' = threadId_ s ->
  callingPendingFunctors_ s' = callingPendingFunctors_ s -> awake s g -> awake s' g.
Proof. unfold awake. by intros -> -> -> ->. Qed.

Lemma awake_stage s s' tid g g' : threads s !! tid = None -> wakeupFd_ s' = wakeupFd_ s -> threads s' = <[tid := g']> (threads s) ->
  threadId_ s' = threadId_ s -> callingPendingFunctors_ s' = callingPendingFunctors_ s -> awake s g -> awake s' g.
Proof.
  unfold awake. intros Hn -> -> -> -> [Ha|(tid0 & Ht & Hc)]; [by left|right]. exists tid0. rewrite lookup_insert_ne; [done|congruence].
Qed.

Lemma in_program_idle s : in_program s = true -> threads s !! threadId_ s = None.
Proof. unfold in_program. intros. zbool. by destruct_and!. Qed.
Lemma may_act_idle s tid : may_act s tid = true -> threads s !! tid = None.
Proof.
  unfold may_act, isInLoopThread. destruct (threadId_ s =? tid) eqn:E; zbool; [|done]. subst. apply in_program_idle.
Qed.
Lemma may_act_other s tid : may_act s tid = true -> match at_ s with Outside | InHandler _ | InFunctor _ => True | _ => tid <> threadId_ s end.
Proof.
  unfold may_act, isInLoopThread, in_program. destruct (threadId_ s =? tid) eqn:E; zbool; destruct (at_ s); cbn; try done; intros Hp; try (by destruct Hp); congruence.
Qed.

(** A thread stored: nothing else changes for the loop. *)
Lemma queue_wakes s tid f e : wakes s e -> may_act s tid = true ->
  wakes (with_threads (queueInLoop_store s f) (<[tid := Queued]> (threads s))) (early s (Queue tid f) e).
Proof.
  intros [H1 H2 H3 H4 H5] Hm. pose proof (may_act_idle _ _ Hm) as Hi. pose proof (may_act_other _ _ Hm) as Ho.
  assert (tid <> threadId_ s \/ callingPendingFunctors_ s = true -> awake (with_threads (queueInLoop_store s f) (<[tid := Queued]> (threads s))) Queued) as Haw.
  { intros Hc. right. exists tid. cbn. rewrite lookup_insert_eq. split; [done|]. destruct Hc; [by left|by right]. }
  split; cbn in *; [done|done|..].
  - destruct (at_ s); try done; by rewrite lookup_insert_ne.
  - unfold early. destruct (at_ s); try done; intros He _; apply Haw; try (by left); [|by right].
    apply orb_false_iff in He as [_ He]. left. by zbool.
  - destruct (at_ s); try done. intros Hq. by eapply awake_stage; [..|exact (H5 Hq)].
Qed.

Lemma quit_wakes s tid e : wakes s e -> may_act s tid = true -> wakes (with_threads (quit_store s) (<[tid := Quitting]> (threads s))) e.
Proof.
  intros [H1 H2 H3 H4 H5] Hm. pose proof (may_act_idle _ _ Hm) as Hi. pose proof (may_act_other _ _ Hm) as Ho.
  split; cbn in *; [done|done|..].
  - destruct (at_ s); try done; by rewrite lookup_insert_ne.
  - destruct (at_ s); try done; intros He Hp; by eapply awake_stage; [..|exact (H4 He Hp)].
  - destruct (at_ s); try done. intros _. right. exists tid. cbn. rewrite lookup_insert_eq. by split; [|left].
Qed.

Lemma wake_wakes s tid s' e : wakes s e -> step s (Wake tid) = Ok s' -> wakes s' e.
Proof.
  intros [H1 H2 H3 H4 H5] E. pose proof (wake_grows s tid s' H1 E) as Hg. pose proof (fun g Ha => awake_wake s tid g s' H1 Ha E) as Haw.
  apply wake_step_same in E as (n & -> & _). split; cbn in *; [lia|done|..].
  - destruct (at_ s); try done; by rewrite lookup_delete_None; right.
  - destruct (at_ s); try done; intros He Hp; by apply Haw, H4.
  - destruct (at_ s); try done. intros Hq. by apply Haw, H5.
Qed.

Lemma advance_wakes s alive s' e : safe s -> wakes s e -> enabled s (Advance alive) = true -> step s (Advance alive) = Ok s' ->
  wakes s' (early s (Advance alive) e).
Proof.
  intros Hs [H1 H2 H3 H4 H5] Hen E. cbn [enabled step] in *. unfold early.
  destruct (at_ s) as [| | |rest|rest| |fs|fs] eqn:Hat; try done.
  - injection E as <-. unfold loop_test. destruct (quit_ s) eqn:Eq; by split; cbn; rewrite ?Eq.
  - unfold loop_dispatch in E. destruct rest; res_inv; [by split|]. destruct (_ && _); res_inv; by split.
  - injection E as <-. split; cbn; try done.
  - injection E as <-. destruct fs; cbn; [|by split]. split; cbn; try done. intros He Hp. destruct (H4 He Hp) as [Ha|(tid & Ht & Hc)]; [by left|right].
    exists tid. split; [done|left]. cbn. congruence.
Qed.

Lemma step_wakes s a s' e : safe s -> wakes s e -> enabled s a = true -> step s a = Ok s' -> wakes s' (early s a e).
Proof.
  intros Hs Hw Hen E. pose proof (channels_step_same s a s' Hen E) as Hch. destruct (Hw) as [H1 H2 H3 H4 H5]. pose proof (s_looping _ Hs) as Hl.
  destruct a as [|alive|active| |tid f|tid|tid| |c o|c|c fd|tid c]; cbn [early]; cbn [enabled] in Hen;
    try (rewrite Hch; split; cbn; done).
  - cbn in E. unfold loop_enter in E. rewrite assertInLoopThread_self in E. apply assert_Ok in E as [El E]. injection E as <-. zbool.
    destruct (at_ s); try congruence. split; cbn; try done. by apply in_program_idle.
  - by apply (advance_wakes s alive).
  - cbn in E. unfold loop_poll in E. res_inv. zbool. destruct_and!. destruct (at_ s); try done; by split.
  - cbn in E. zbool. destruct_and!. destruct (at_ s) as [| | |rest|rest| |fs|fs] eqn:Hat; try done.
    + unfold handler_returns in E. destruct (currentActiveChannel s); [|done]. res_inv. split; cbn; try done. by apply in_program_idle.
    + injection E as <-. split; cbn; try done. by apply in_program_idle.
  - cbn in E. injection E as <-. by apply queue_wakes.
  - cbn in E. injection E as <-. by apply quit_wakes.
  - by apply (wake_wakes s tid).
  - cbn in E. injection E as <-. zbool. destruct_and!. destruct (at_ s) eqn:Hat; try done. split; cbn; rewrite ?Hat; done.
Qed.

Lemma reachable_wakes s queued ran e : reachable s queued ran e -> wakes s e.
Proof.
  induction 1 as [p h tid w fd s Hl Hw E|s queued ran e a s' Hr IH Hen E].
  - destruct (new_spec _ _ _ _ _ _ Hl Hw E) as (_ & _ & _ & Hc & Hf & Hp & Hat & Ht). split; rewrite ?Hat, ?Hf, ?Hp; done.
  - apply (step_wakes s a s'); try done. by eapply reachable_safe.
Qed.

(** A run of the system, for examples. *)
Fixpoint run (s : loop_state) (queued ran : list Functor) (e : bool) (l : list (action Functor)) : option (loop_state * list Functor * list Functor * bool) :=
  match l with
  | [] => Some (s, queued, ran, e)
  | a :: l => if enabled s a then match step s a with Ok s' => run s' (queued ++ queues a) (ran ++ calls s a) (early s a e) l | Err _ => None end else None
  end.

Lemma run_reachable l s queued ran e s' queued' ran' e' :
  reachable s queued ran e -> run s queued ran e l = Some (s', queued', ran', e') -> reachable s' queued' ran' e'.
Proof.
  revert s queued ran e. induction l as [|a l IH]; intros s queued ran e Hr E; cbn in E; [by simplify_eq|].
  destruct (enabled s a) eqn:Hen; [|done]. destruct (step s a) as [s1|] eqn:Est; [|done]. eapply IH; [|exact E]. by eapply reach_step.
Qed.

(** C2: Whenever the loop's thread is at poll with functors pending the eventfd
    is readable, or another thread has stored its functor and is about to write
    the eventfd, unless the loop's own thread queued functors while it was
    outside [loop] and they are pending since ([e = true]: [queueInLoop] writes
    nothing for them, see [early_functor_waits]).  When [quit] was called the
    same holds without exception. *)
Theorem no_lost_wakeup s queued ran e :
  reachable s queued ran e -> at_ s = AtPoll ->
  (e = false -> pendingFunctors_ s <> [] -> 0 < wakeupFd_ s \/ exists tid, threads s !! tid = Some Queued /\ tid <> threadId_ s) /\
  (quit_ s = true -> 0 < wakeupFd_ s \/ exists tid, threads s !! tid = Some Quitting /\ tid <> threadId_ s).
Proof.
  intros Hr Hat. apply reachable_wakes in Hr as [_ H2 _ H4 H5]. rewrite Hat in *.
  assert (forall g, awake s g -> 0 < wakeupFd_ s \/ exists tid, threads s !! tid = Some g /\ tid <> threadId_ s) as Haw.
  { intros g [Ha|(tid & Ht & [Hc|[_ Hc]])]; [by left|right; by exists tid|congruence]. }
  split; [intros He Hp; by apply Haw, H4|intros Hq; by apply Haw, H5].
Qed.

(** C14: At every moment the functors queued so far are those started, then
    those taken and not started, then those pending, in the order in which
    they were queued: each functor runs at most once and in order. *)
Theorem functors_fifo s queued ran e :
  reachable s queued ran e -> queued = ran ++ in_flight s ++ pendingFunctors_ s.
Proof. apply reachable_fifo. Qed.

(** C15: The loop's own statements always succeed: dispatching an active channel
    and returning from its handler never reach a channel that was removed or
    destroyed, whatever handlers, functors and other threads do meanwhile. *)
Theorem loop_statements_succeed s queued ran e a :
  reachable s queued ran e -> enabled s a = true ->
  match a with Advance _ | PollReturns _ | Returns => True | _ => False end -> exists s', step s a = Ok s'.
Proof. apply own_steps_succeed. Qed.

End Facts.

(** A loop on poll(2), its wakeup channel at address 100 for descriptor 5; the
    owner is thread 1. *)
Definition sample_new : res (EventLoop.t PollPoller.t nat) := new (PollPoller.new 1) ∅ 1 100 5 false.
Definition sample_run (l : list (action nat)) : option (EventLoop.t PollPoller.t nat * list nat * list nat * bool) :=
  match sample_new with Ok s => run s [] [] false l | Err _ => None end.

Lemma sample_reachable l s queued ran e : sample_run l = Some (s, queued, ran, e) -> reachable s queued ran e.
Proof.
  unfold sample_run. destruct sample_new as [s0|] eqn:E; [|done]. apply run_reachable.
  apply (reach_new (PollPoller.new 1) ∅ 1 100 5); [|done|exact E]. intros fd c Hc. cbn in Hc. by rewrite lookup_empty in Hc.
Qed.

(** Thread 2 queues a functor while the loop polls; a channel is dispatched and
    its handler queues another. *)
Definition sample_actions : list (action nat) :=
  [NewChannel 7 9; Interest 7 Channel.EnableReading; Enter; Advance true; Queue 2 70%nat; Wake 2;
   PollReturns [(100, 1); (7, 1)]; Advance true; ReadEventfd; Returns; Advance true; Queue 1 71%nat; Wake 1;
   Interest 7 Channel.DisableAll; Remove 7].
Definition polling_actions : list (action nat) := [Enter; Advance true; Queue 2 70%nat; Quit 3].

Definition no_state : EventLoop.t PollPoller.t nat := mk (PollPoller.new 1) ∅ false false false false 0 1 0 0 [] None [] Outside ∅.
Definition config (l : list (action nat)) := default (no_state, [], [], true) (sample_run l).

Lemma config_reachable l : bool_decide (is_Some (sample_run l)) = true ->
  reachable (config l).1.1.1 (config l).1.1.2 (config l).1.2 (config l).2.
Proof.
  unfold config. destruct (sample_run l) as [[[[s q] r] e]|] eqn:E; [|done]. intros _. cbn. by eapply sample_reachable.
Qed.

Lemma no_lost_wakeup_witness :
  let s := (config polling_actions).1.1.1 in
  pendingFunctors_ s = [70%nat] /\ quit_ s = true /\
  (0 < wakeupFd_ s \/ exists tid, threads s !! tid = Some Queued /\ tid <> threadId_ s).
Proof.
  intros s. split; [vm_compute; reflexivity|]. split; [vm_compute; reflexivity|].
  apply (no_lost_wakeup s (config polling_actions).1.1.2 (config polling_actions).1.2 false).
  - exact (config_reachable polling_actions eq_refl).
  - vm_compute. reflexivity.
  - reflexivity.
  - vm_compute. discriminate.
Defined.

(** The exception is real: a functor that the loop's own thread queues before
    [loop] is pending at the first poll, with nothing written to the eventfd and
    no other thread about to: it runs only once poll returns for something else. *)
Example early_functor_waits :
  let c := config [Queue 1 70%nat; Wake 1; Enter; Advance true] in
  reachable c.1.1.1 c.1.1.2 c.1.2 c.2 /\ at_ c.1.1.1 = AtPoll /\ pendingFunctors_ c.1.1.1 = [70%nat] /\ wakeupFd_ c.1.1.1 = 0 /\ threads c.1.1.1 = ∅ /\ c.2 = true.
Proof. intros c. split; [exact (config_reachable [Queue 1 70%nat; Wake 1; Enter; Advance true] eq_refl)|]. vm_compute. split_and!; reflexivity. Qed.

Lemma functors_fifo_witness :
  let c := config sample_actions in c.1.1.2 = [70; 71]%nat /\ c.1.1.2 = c.1.2 ++ in_flight c.1.1.1 ++ pendingFunctors_ c.1.1.1.
Proof.
  intros c. split; [vm_compute; reflexivity|]. apply (functors_fifo c.1.1.1 c.1.1.2 c.1.2 c.2). exact (config_reachable sample_actions eq_refl).
Defined.

Lemma loop_statements_succeed_witness :
  exists s', step (config sample_actions).1.1.1 Returns = Ok s'.
Proof.
  apply (loop_statements_succeed (config sample_actions).1.1.1 (config sample_actions).1.1.2 (config sample_actions).1.2 (config sample_actions).2).
  - exact (config_reachable sample_actions eq_refl).
  - vm_compute. reflexivity.
  - exact I.
Defined.

End LoopFacts.
