(* ===== verification/MinuteHourCounter.v ===== *)
(** Counts over the past minute and hour (src/utility/MinuteHourCounter.h): a
    queue of buckets that old data falls off.

    A [std::queue] is the list of its items, the front first.  [time(nullptr)]
    is an argument.  [last_update_time_] has no initialiser, so its first value
    is an argument of the constructor. *)

From S2P Require Import Prelude Date.

Module MinuteHourCounter.

Record ConveyorQueue := mk_queue { q : list Z; max_items_ : Z; total_sum_ : Z }.

Definition new_queue (max_items : Z) : ConveyorQueue := mk_queue [] max_items 0.

(** Signed arithmetic that leaves its type is undefined. *)
Definition check_int (z : Z) : res Z := check_ints [z] z.

(** [while (num_shifted > 0)]: one zero per unit. *)
Definition push_zeros (l : list Z) (num_shifted : Z) : list Z := l ++ replicate (Z.to_nat num_shifted) 0.

(** [while (q.size() > max_items_)]: the front falls off. *)
Fixpoint fall_off (l : list Z) (max_items total : Z) : res (list Z * Z) :=
  match l with
  | [] => Ok (l, total)
  | front :: rest =>
      if max_items <? i32 (zlen l) then total ← check_int (total - front); fall_off rest max_items total else Ok (l, total)
  end.

Definition Shift (c : ConveyorQueue) (num_shifted : Z) : res ConveyorQueue :=
  if max_items_ c <=? num_shifted then Ok (mk_queue [] (max_items_ c) 0)
  else
    '(l, total) ← fall_off (push_zeros (q c) num_shifted) (max_items_ c) (total_sum_ c);
    Ok (mk_queue l (max_items_ c) total).

(** [q.back()] of an empty queue is undefined. *)
Definition AddToBack (c : ConveyorQueue) (count : Z) : res ConveyorQueue :=
  c ← (match q c with [] => Shift c 1 | _ => Ok c end);
  match last (q c) with
  | None => Err Undefined
  | Some back =>
      back ← check_int (back + count);
      total ← check_int (total_sum_ c + count);
      Ok (mk_queue (take (length (q c) - 1) (q c) ++ [back]) (max_items_ c) total)
  end.

Definition TotalSum (c : ConveyorQueue) : Z := total_sum_ c.

Record TrailingBucketCounter := mk_counter { buckets_ : ConveyorQueue; secs_per_bucket_ : Z; last_update_time_ : Z }.

Definition new_counter (num_buckets secs_per_bucket uninitialised : Z) : TrailingBucketCounter :=
  mk_counter (new_queue num_buckets) secs_per_bucket uninitialised.

Definition Update (c : TrailingBucketCounter) (now : Z) : res TrailingBucketCounter :=
  let current_bucket := i32 now `quot` secs_per_bucket_ c in
  let last_update_bucket := i32 (last_update_time_ c) `quot` secs_per_bucket_ c in
  n ← check_int (current_bucket - last_update_bucket);
  b ← Shift (buckets_ c) n;
  Ok (mk_counter b (secs_per_bucket_ c) now).

Definition Add (c : TrailingBucketCounter) (count now : Z) : res TrailingBucketCounter :=
  c ← Update c now;
  b ← AddToBack (buckets_ c) count;
  Ok (mk_counter b (secs_per_bucket_ c) (last_update_time_ c)).

Definition TrailingCount (c : TrailingBucketCounter) (now : Z) : res (Z * TrailingBucketCounter) :=
  c ← Update c now;
  Ok (TotalSum (buckets_ c), c).

Record t := mk { minute_counts : TrailingBucketCounter; hour_counts : TrailingBucketCounter }.

Definition new (uninitialised1 uninitialised2 : Z) : t := mk (new_counter 60 1 uninitialised1) (new_counter 60 60 uninitialised2).

(** [Add], [MinuteCount] and [HourCount] at time [now]. *)
Definition add (c : t) (count now : Z) : res t :=
  mc ← Add (minute_counts c) count now;
  hc ← Add (hour_counts c) count now;
  Ok (mk mc hc).
Definition MinuteCount (c : t) (now : Z) : res (Z * t) :=
  '(n, mc) ← TrailingCount (minute_counts c) now;
  Ok (n, mk mc (hour_counts c)).
Definition HourCount (c : t) (now : Z) : res (Z * t) :=
  '(n, hc) ← TrailingCount (hour_counts c) now;
  Ok (n, mk (minute_counts c) hc).

(** ** What the counts mean

    [log] lists what was added, a bucket and a count each. *)

Definition zsum (l : list Z) : Z := foldr Z.add 0 l.
Definition bucket_sum (log : list (Z * Z)) (b : Z) : Z := zsum (map (fun e => if e.1 =? b then e.2 else 0) log).
Definition window_sum (log : list (Z * Z)) (lo hi : Z) : Z := zsum (map (fun e => if (lo <? e.1) && (e.1 <=? hi) then e.2 else 0) log).
Definition total (log : list (Z * Z)) : Z := zsum (map snd log).

Lemma zsum_app l k : zsum (l ++ k) = zsum l + zsum k.
Proof. unfold zsum. induction l as [|x l IH]; cbn; lia. Qed.

Lemma check_int_ok z : in_int z -> check_int z = Ok z.
Proof. intros Hz. apply check_ints_ok. by constructor. Qed.

(** A window is the sum of its buckets. *)
Lemma indicator_sum x v a n : 0 <= n -> zsum (map (fun b => if x =? b then v else 0) (seqZ a n)) = if (a - 1 <? x) && (x <=? a + n - 1) then v else 0.
Proof.
  intros Hn. revert a. apply (natlike_ind (fun n => forall a, zsum (map (fun b => if x =? b then v else 0) (seqZ a n)) = if (a - 1 <? x) && (x <=? a + n - 1) then v else 0)); [| |done].
  - intros a. cbn. case_match; zbool; [lia|done].
  - intros m Hm IH a. rewrite seqZ_cons by lia. cbn [map zsum foldr]. rewrite Z.pred_succ. fold (zsum (map (fun b => if x =? b then v else 0) (seqZ (Z.succ a) m))).
    rewrite IH. repeat case_match; zbool; lia.
Qed.

Lemma zsum_zip {A} (f g : A -> Z) l : zsum (map (fun x => f x + g x) l) = zsum (map f l) + zsum (map g l).
Proof. induction l as [|x l IH]; cbn [map zsum foldr]; [done|]. unfold zsum in IH. rewrite IH. lia. Qed.

Lemma buckets_window log a n : 0 <= n -> zsum (map (bucket_sum log) (seqZ a n)) = window_sum log (a - 1) (a + n - 1).
Proof.
  intros Hn. induction log as [|[x v] log IH].
  - unfold bucket_sum. cbn. induction (seqZ a n) as [|y l IH]; cbn; [done|exact IH].
  - change (window_sum ((x, v) :: log) (a - 1) (a + n - 1)) with ((if (a - 1 <? x) && (x <=? a + n - 1) then v else 0) + window_sum log (a - 1) (a + n - 1)).
    rewrite <- (indicator_sum x v a n Hn), <- IH. by rewrite <- (zsum_zip (fun b => if x =? b then v else 0) (bucket_sum log)).
Qed.

Lemma window_split log lo mid hi : lo <= mid <= hi -> window_sum log lo hi = window_sum log lo mid + window_sum log mid hi.
Proof.
  intros Hm. unfold window_sum. rewrite <- zsum_zip. f_equal. apply map_ext. intros [x v]. cbn. repeat case_match; zbool; lia.
Qed.

Definition counted (log : list (Z * Z)) : Prop := Forall (fun e => 0 <= e.2) log.

Lemma window_bounds log lo hi : counted log -> 0 <= window_sum log lo hi <= total log.
Proof.
  intros Hc. unfold window_sum, total. induction Hc as [|[x v] log Hv _ IH]; cbn [map zsum foldr]; [cbn; lia|].
  cbn in Hv. unfold zsum in IH. cbn [fst snd]. case_match; lia.
Qed.

Lemma bucket_window log b : bucket_sum log b = window_sum log (b - 1) b.
Proof. unfold bucket_sum, window_sum. f_equal. apply map_ext. intros [x v]. cbn. repeat case_match; zbool; lia. Qed.

Lemma bucket_future log b cur : Forall (fun e => e.1 <= cur) log -> cur < b -> bucket_sum log b = 0.
Proof.
  intros Hf Hb. unfold bucket_sum. induction Hf as [|[x v] log Hx _ IH]; cbn [map zsum foldr]; [done|]. unfold zsum in IH. rewrite IH. cbn in *.
  case_match; zbool; lia.
Qed.

Lemma window_zero log lo hi : (forall b, lo < b <= hi -> bucket_sum log b = 0) -> lo <= hi -> window_sum log lo hi = 0.
Proof.
  intros Hz Hle. pose proof (buckets_window log (lo + 1) (hi - lo) ltac:(lia)) as E.
  replace (lo + 1 - 1) with lo in E by lia. replace (lo + 1 + (hi - lo) - 1) with hi in E by lia. rewrite <- E. clear E.
  assert (Forall (fun b => bucket_sum log b = 0) (seqZ (lo + 1) (hi - lo))) as Hf.
  { apply Forall_forall. intros b Hb%elem_of_seqZ. apply Hz. lia. }
  induction Hf as [|b l Hb _ IH]; cbn; [done|]. unfold zsum in IH. by rewrite Hb, IH.
Qed.

(** The queue holds the sums of the last [n] buckets up to [cur]; the older ones
    of the window are zero. *)
Record holds (log : list (Z * Z)) (cur : Z) (c : ConveyorQueue) : Prop := {
  h_buckets : exists n, 0 <= n <= max_items_ c /\ q c = map (bucket_sum log) (seqZ (cur - n + 1) n) /\
    forall b, cur - max_items_ c < b <= cur - n -> bucket_sum log b = 0;
  h_total : total_sum_ c = zsum (q c);
}.

Lemma holds_window log cur c : holds log cur c -> total_sum_ c = window_sum log (cur - max_items_ c) cur.
Proof.
  intros [(n & Hn & Hq & Hz) Ht]. rewrite Ht, Hq, buckets_window by lia. replace (cur - n + 1 - 1) with (cur - n) by lia.
  replace (cur - n + 1 + n - 1) with cur by lia. rewrite (window_split log (cur - max_items_ c) (cur - n) cur) by lia.
  rewrite (window_zero log (cur - max_items_ c)); [lia|done|lia].
Qed.

Lemma holds_nonneg log cur c : counted log -> holds log cur c -> Forall (Z.le 0) (q c).
Proof.
  intros Hc [(n & _ & -> & _) _]. apply Forall_forall. intros x (b & -> & _)%list_elem_of_fmap. rewrite bucket_window. by apply window_bounds.
Qed.

Lemma zsum_nonneg l : Forall (Z.le 0) l -> 0 <= zsum l.
Proof. induction 1; unfold zsum in *; cbn; lia. Qed.

Lemma fall_off_ok l m : Forall (Z.le 0) l -> zsum l <= int_max -> zlen l <= int_max -> 0 <= m ->
  fall_off l m (zsum l) = Ok (drop (length l - Z.to_nat m) l, zsum (drop (length l - Z.to_nat m) l)).
Proof.
  intros Hf Hs Hl Hm. induction Hf as [|x l Hx Hf IH]; [done|]. pose proof (zsum_nonneg _ Hf) as Hz.
  change (zsum (x :: l)) with (x + zsum l) in *. cbn [fall_off]. rewrite i32_small by (unfold in_int, zlen, int_min in *; cbn in *; lia).
  unfold zlen in *. cbn [length] in *. destruct (m <? _) eqn:E; zbool.
  - replace (x + zsum l - x) with (zsum l) by lia. rewrite check_int_ok by (unfold in_int, int_min; lia). cbn [mbind res_bind].
    rewrite IH by lia. replace (S (length l) - Z.to_nat m)%nat with (S (length l - Z.to_nat m)) by lia. done.
  - replace (S (length l) - Z.to_nat m)%nat with 0%nat by lia. done.
Qed.

(** The conditions on what is counted. *)
Record fits (log : list (Z * Z)) (cur : Z) : Prop := {
  f_counted : counted log;
  f_total : total log <= int_max;
  f_past : Forall (fun e => e.1 <= cur) log;
}.

Lemma seqZ_app a n k : 0 <= n -> 0 <= k -> seqZ a (n + k) = seqZ a n ++ seqZ (a + n) k.
Proof. intros. by rewrite seqZ_app. Qed.

Lemma drop_seqZ a n k : 0 <= k <= n -> drop (Z.to_nat k) (seqZ a n) = seqZ (a + k) (n - k).
Proof.
  intros. replace n with (k + (n - k)) at 1 by lia. rewrite seqZ_app by lia. apply drop_app_length'. rewrite length_seqZ. lia.
Qed.

Lemma Shift_ok log cur c k : holds log cur c -> fits log cur -> 0 <= k -> max_items_ c <= 1000 ->
  exists c', Shift c k = Ok c' /\ holds log (cur + k) c' /\ max_items_ c' = max_items_ c.
Proof.
  intros Hh [Hc Ht Hp] Hk Hm. pose proof (holds_nonneg _ _ _ Hc Hh) as Hnn. pose proof (window_bounds log (cur - max_items_ c) cur Hc) as Hw.
  pose proof (holds_window _ _ _ Hh) as Hwin. destruct Hh as [(n & Hn & Hq & Hz) Hsum]. unfold Shift. destruct (_ <=? k) eqn:Ek; zbool.
  { eexists. split_and!; [done| |done]. split; cbn; [|done]. exists 0. split_and!; [lia|lia|done|]. intros b Hb. apply (bucket_future _ _ cur); [done|lia]. }
  assert (push_zeros (q c) k = map (bucket_sum log) (seqZ (cur - n + 1) (n + k))) as Epush.
  { unfold push_zeros. rewrite seqZ_app, map_app, <- Hq by lia. f_equal. replace (cur - n + 1 + n) with (cur + 1) by lia.
    apply replicate_as_Forall. rewrite length_map, length_seqZ. split; [done|]. apply Forall_forall.
    intros x (b & -> & Hb%elem_of_seqZ)%list_elem_of_fmap. symmetry. apply (bucket_future _ _ cur); [done|lia]. }
  assert (zsum (push_zeros (q c) k) = total_sum_ c) as Esum.
  { unfold push_zeros. rewrite zsum_app, Hsum. replace (zsum (replicate _ 0)) with 0; [lia|]. induction (Z.to_nat k) as [|j IH]; [done|exact IH]. }
  rewrite <- Esum, fall_off_ok; [|..|lia]; cycle 1.
  - apply Forall_app. split; [done|]. apply Forall_replicate. lia.
  - lia.
  - rewrite Epush. unfold zlen, int_max. rewrite length_map, length_seqZ. lia.
  - cbn [mbind res_bind]. eexists. split_and!; [done| |done]. split; cbn; [|done].
    rewrite Epush, length_map, length_seqZ. exists (Z.min (n + k) (max_items_ c)). split_and!; [lia|lia| |].
    + rewrite skipn_map. replace (Z.to_nat (n + k) - Z.to_nat (max_items_ c))%nat with (Z.to_nat (Z.max 0 (n + k - max_items_ c))) by lia.
      rewrite drop_seqZ by lia. f_equal. f_equal; lia.
    + intros b Hb. apply Hz. lia.
Qed.

Lemma bucket_add log cur count b : bucket_sum ((cur, count) :: log) b = (if cur =? b then count else 0) + bucket_sum log b.
Proof. done. Qed.

Lemma AddToBack_ok log cur c count : holds log cur c -> fits ((cur, count) :: log) cur -> 2 <= max_items_ c <= 1000 ->
  exists c', AddToBack c count = Ok c' /\ holds ((cur, count) :: log) cur c' /\ max_items_ c' = max_items_ c.
Proof.
  intros Hh [Hc Ht Hp] Hm. apply Forall_cons in Hc as [Hcount Hc]. cbn in Hcount. change (total ((cur, count) :: log)) with (count + total log) in Ht.
  assert (exists c1 n, (match q c with [] => Shift c 1 | _ => Ok c end) = Ok c1 /\ max_items_ c1 = max_items_ c /\ holds log cur c1 /\
    0 <= n < max_items_ c /\ q c1 = map (bucket_sum log) (seqZ (cur - n) n) ++ [bucket_sum log cur] /\
    (forall b, cur - max_items_ c < b < cur - n -> bucket_sum log b = 0)) as (c1 & n & E1 & Em & Hh1 & Hn & Hq1 & Hz1).
  { destruct (Hh) as [(n & Hn & Hq & Hz) Hsum]. destruct (decide (n = 0)) as [->|Hne].
    - rewrite seqZ_nil in Hq by lia. cbn in Hq. rewrite Hq in Hsum |- *. cbn in Hsum. unfold Shift. rewrite (proj2 (Z.leb_gt _ _)) by lia.
      rewrite Hq, Hsum. change (push_zeros [] 1) with [0]. change (fall_off [0] (max_items_ c) 0) with (if max_items_ c <? 1 then check_int (0 - 0) ≫= fall_off [] (max_items_ c) else Ok ([0], 0)).
      rewrite (proj2 (Z.ltb_ge _ _)) by lia. cbn [mbind res_bind]. eexists _, 0. split_and!; [done|done| |lia|lia| |].
      + split; cbn; [|done]. exists 1. split_and!; [lia|lia| |intros b Hb; apply Hz; lia]. replace (cur - 1 + 1) with cur by lia. rewrite seqZ_cons, seqZ_nil by lia. cbn. by rewrite Hz by lia.
      + cbn. by rewrite Hz by lia.
      + intros b Hb. apply Hz. lia.
    - assert (q c = map (bucket_sum log) (seqZ (cur - (n - 1)) (n - 1)) ++ [bucket_sum log cur]) as Eq.
      { rewrite Hq. replace n with (n - 1 + 1) at 2 by lia. rewrite seqZ_app, map_app by lia. f_equal; [do 2 f_equal; lia|].
        replace (cur - n + 1 + (n - 1)) with cur by lia. done. }
      exists c, (n - 1). split_and!; [|done|done|lia|lia|done|intros b Hb; apply Hz; lia]. destruct (q c); [|done]. symmetry in Eq. by apply app_nil in Eq as [_ ?]. }
  unfold AddToBack. rewrite E1. cbn [mbind res_bind]. rewrite Hq1, last_snoc, length_app.
  pose proof (window_bounds log (cur - 1) cur Hc) as Hb1. rewrite <- bucket_window in Hb1.
  pose proof (window_bounds log (cur - max_items_ c1) cur Hc) as Hb2. rewrite <- (holds_window _ _ _ Hh1) in Hb2.
  rewrite !check_int_ok by (unfold in_int, int_min; lia). cbn [mbind res_bind]. rewrite take_app_length' by (cbn; lia).
  eexists. split_and!; [done| |done]. split; cbn [q max_items_ total_sum_].
  - exists (n + 1). rewrite Em. split_and!; [lia|lia| |].
    + rewrite seqZ_app, map_app by lia. replace (cur - (n + 1) + 1) with (cur - n) by lia. replace (cur - n + n) with cur by lia. f_equal.
      * apply map_ext_in. intros b Hb%list_elem_of_In%elem_of_seqZ. rewrite bucket_add. replace (cur =? b) with false; [done|]. symmetry. zbool. lia.
      * rewrite seqZ_cons, seqZ_nil by lia. cbn [map]. rewrite bucket_add, Z.eqb_refl. f_equal. lia.
    + intros b Hb. rewrite bucket_add. replace (cur =? b) with false by (symmetry; zbool; lia). apply Hz1. lia.
  - rewrite (h_total _ _ _ Hh1), Hq1, !zsum_app. cbn. lia.
Qed.

(** ** The counters *)

(** A log of times, in buckets of [secs] seconds. *)
Definition in_buckets (secs : Z) (log : list (Z * Z)) : list (Z * Z) := map (fun e => (e.1 `quot` secs, e.2)) log.

Lemma in_buckets_total secs log : total (in_buckets secs log) = total log.
Proof. unfold total, in_buckets. by rewrite map_map. Qed.

(** The counter [c] has seen [log], and its last update was at [prev] or before;
    or it has not been used at all. *)
Record tracks (secs : Z) (c : TrailingBucketCounter) (log : list (Z * Z)) (prev : Z) : Prop := {
  t_secs : secs_per_bucket_ c = secs;
  t_max : max_items_ (buckets_ c) = 60;
  t_last : 0 <= i32 (last_update_time_ c);
  t_holds : holds (in_buckets secs log) (i32 (last_update_time_ c) `quot` secs) (buckets_ c);
  t_past : Forall (fun e => e.1 <= i32 (last_update_time_ c) `quot` secs) (in_buckets secs log);
  t_order : (0 <= last_update_time_ c <= prev /\ prev <= int_max) \/ (log = [] /\ q (buckets_ c) = []);
}.

Lemma holds_empty cur cur' c : holds [] cur c -> q c = [] -> holds [] cur' c.
Proof.
  intros [(n & Hn & _ & _) Ht] Hq. split; [|done]. exists 0. split_and!; [lia|lia|by rewrite Hq|done].
Qed.

Lemma i32_range z : int_min <= i32 z <= int_max.
Proof. unfold int_min, int_max, swrap. pose proof (Z.mod_pos_bound (z + 2 ^ (32 - 1)) (2 ^ 32) ltac:(lia)). lia. Qed.

Lemma quot_bounds a s : 0 <= a <= int_max -> 0 < s -> 0 <= a `quot` s <= int_max.
Proof. intros Ha Hs. rewrite Z.quot_div_nonneg by lia. split; [apply Z.div_pos; lia|]. pose proof (Z.div_le_upper_bound a s a Hs ltac:(nia)). lia. Qed.

Lemma Update_ok secs c log prev now : tracks secs c log prev -> 0 < secs -> counted log -> total log <= int_max -> 0 <= prev <= now -> now <= int_max ->
  exists c', Update c now = Ok c' /\ tracks secs c' log now /\ last_update_time_ c' = now.
Proof.
  intros [Es Em Hl Hh Hp Ho] Hs Hc Ht Hn1 Hn2. pose proof (i32_range (last_update_time_ c)) as Hr. unfold Update. rewrite Es.
  rewrite (i32_small now) by (unfold in_int, int_min; lia). set (lb := i32 (last_update_time_ c) `quot` secs) in *.
  pose proof (quot_bounds (i32 (last_update_time_ c)) secs ltac:(lia) Hs) as Hlb. fold lb in Hlb. pose proof (quot_bounds now secs ltac:(lia) Hs) as Hnb.
  rewrite check_int_ok by (unfold in_int, int_min, int_max in *; lia). cbn [mbind res_bind].
  assert (exists b, Shift (buckets_ c) (now `quot` secs - lb) = Ok b /\ holds (in_buckets secs log) (now `quot` secs) b /\ max_items_ b = 60) as (b & Eb & Hb & Emb).
  { destruct (decide (0 <= now `quot` secs - lb)) as [Hge|Hlt].
    - destruct (Shift_ok (in_buckets secs log) lb (buckets_ c) (now `quot` secs - lb)) as (b & Eb & Hb & Emb); try done; [|lia|].
      + split; [|by rewrite in_buckets_total|done]. unfold counted, in_buckets. apply Forall_map. by apply (Forall_impl _ _ _ Hc).
      + exists b. replace (lb + (now `quot` secs - lb)) with (now `quot` secs) in Hb by lia. split_and!; [done|done|congruence].
    - destruct Ho as [[Ho1 Ho2]|[-> Hq]].
      + exfalso. apply Hlt. subst lb. rewrite (i32_small (last_update_time_ c)) by (unfold in_int, int_min; lia).
        pose proof (Z.quot_le_mono (last_update_time_ c) now secs Hs ltac:(lia)). lia.
      + unfold Shift. rewrite (proj2 (Z.leb_gt _ _)) by lia. rewrite Hq. unfold push_zeros. rewrite Z2Nat.nonpos by lia. cbn.
        eexists. split_and!; [done| |done]. apply (holds_empty lb); [|done]. destruct Hh as [Hh1 Hh2]. rewrite Hq in Hh1, Hh2. by split. }
  rewrite Eb. cbn [mbind res_bind]. eexists. split_and!; [done| |done]. split; cbn; [done|done|..].
  - rewrite i32_small by (unfold in_int, int_min; lia). lia.
  - by rewrite i32_small by (unfold in_int, int_min; lia).
  - rewrite i32_small by (unfold in_int, int_min; lia). destruct Ho as [[Ho1 Ho2]|[-> Hq]]; [|by constructor].
    apply (Forall_impl _ _ _ Hp). intros e He. subst lb. rewrite (i32_small (last_update_time_ c)) in He by (unfold in_int, int_min; lia).
    pose proof (Z.quot_le_mono (last_update_time_ c) now secs Hs ltac:(lia)). lia.
  - left. lia.
Qed.

Lemma Add_ok secs c log prev count now : tracks secs c log prev -> 0 < secs -> counted log -> 0 <= count -> count + total log <= int_max ->
  0 <= prev <= now -> now <= int_max -> exists c', Add c count now = Ok c' /\ tracks secs c' ((now, count) :: log) now.
Proof.
  intros Ht Hs Hc Hcount Htot Hn1 Hn2. destruct (Update_ok secs c log prev now) as (c1 & E1 & [Es Em Hl Hh Hp Ho] & Elast); try done; [lia|].
  unfold Add. rewrite E1. cbn [mbind res_bind]. rewrite Elast in *. rewrite (i32_small now) in * by (unfold in_int, int_min; lia).
  destruct (AddToBack_ok (in_buckets secs log) (now `quot` secs) (buckets_ c1) count Hh) as (b & Eb & Hb & Emb).
  - split; [constructor; [done|]|change (count + total (in_buckets secs log) <= int_max); by rewrite in_buckets_total|constructor; [cbn; lia|done]].
    unfold in_buckets. apply Forall_map. by apply (Forall_impl _ _ _ Hc).
  - lia.
  - rewrite Eb. cbn [mbind res_bind]. eexists. split; [done|]. split; cbn; rewrite ?(i32_small now) by (unfold in_int, int_min; lia); try done; [congruence| |by left; lia].
    constructor; [cbn; lia|done].
Qed.

Lemma TrailingCount_ok secs c log prev now : tracks secs c log prev -> 0 < secs -> counted log -> total log <= int_max -> 0 <= prev <= now -> now <= int_max ->
  exists c', TrailingCount c now = Ok (window_sum (in_buckets secs log) (now `quot` secs - 60) (now `quot` secs), c') /\ tracks secs c' log now.
Proof.
  intros Ht Hs Hc Htot Hn1 Hn2. destruct (Update_ok secs c log prev now) as (c1 & E1 & Ht1 & Elast); try done.
  unfold TrailingCount. rewrite E1. cbn [mbind res_bind]. exists c1. split; [|done]. unfold TotalSum.
  rewrite (holds_window _ _ _ (t_holds _ _ _ _ Ht1)), (t_max _ _ _ _ Ht1), Elast. by rewrite i32_small by (unfold in_int, int_min; lia).
Qed.

(** ** The counter of src/networking/TcpConnection.h over time *)

Inductive op := OpAdd (count now : Z) | OpMinute (now : Z) | OpHour (now : Z).

Definition run_op (c : t) (o : op) : res (list Z * t) :=
  match o with
  | OpAdd count now => c ← add c count now; Ok ([], c)
  | OpMinute now => '(n, c) ← MinuteCount c now; Ok ([n], c)
  | OpHour now => '(n, c) ← HourCount c now; Ok ([n], c)
  end.
Fixpoint run (c : t) (os : list op) : res (list Z * t) :=
  match os with [] => Ok ([], c) | o :: os => '(r, c) ← run_op c o; '(r', c) ← run c os; Ok (r ++ r', c) end.

(** What is counted: the past 60 seconds; the current minute and the 59 before. *)
Definition past_minute (log : list (Z * Z)) (now : Z) : Z := zsum (map snd (filter (fun e => now - 60 < e.1 <= now) log)).
Definition past_hour (log : list (Z * Z)) (now : Z) : Z := zsum (map snd (filter (fun e => now / 60 - 60 < e.1 / 60 <= now / 60) log)).

Fixpoint answers (log : list (Z * Z)) (os : list op) : list Z :=
  match os with
  | [] => []
  | OpAdd count now :: os => answers ((now, count) :: log) os
  | OpMinute now :: os => past_minute log now :: answers log os
  | OpHour now :: os => past_hour log now :: answers log os
  end.

Definition time_of (o : op) : Z := match o with OpAdd _ now | OpMinute now | OpHour now => now end.
Definition count_of (o : op) : Z := match o with OpAdd count _ => count | _ => 0 end.

(** Time does not go back, counts are not negative, and all fits an [int]. *)
Fixpoint admissible (prev sum : Z) (os : list op) : Prop :=
  match os with
  | [] => True
  | o :: os => prev <= time_of o <= int_max /\ 0 <= count_of o /\ sum + count_of o <= int_max /\ admissible (time_of o) (sum + count_of o) os
  end.

Lemma window_filter log lo hi (f : Z -> Z) :
  window_sum (map (fun e => (f e.1, e.2)) log) lo hi = zsum (map snd (filter (fun e => lo < f e.1 <= hi) log)).
Proof.
  induction log as [|[x v] log IH]; [done|]. rewrite filter_cons. cbn [map fst snd].
  change (window_sum ((f x, v) :: ?l) lo hi) with ((if (lo <? f x) && (f x <=? hi) then v else 0) + window_sum l lo hi).
  rewrite IH. case_decide as D; destruct (_ && _) eqn:E; zbool; try lia; done.
Qed.

Lemma minute_window log now : Forall (fun e => 0 <= e.1) log -> window_sum (in_buckets 1 log) (now `quot` 1 - 60) (now `quot` 1) = past_minute log now.
Proof.
  intros _. unfold in_buckets, past_minute. rewrite Z.quot_1_r. erewrite map_ext; [apply (window_filter log _ _ id)|].
  intros e. cbn. by rewrite Z.quot_1_r.
Qed.

Lemma hour_window log now : Forall (fun e => 0 <= e.1) log -> 0 <= now -> window_sum (in_buckets 60 log) (now `quot` 60 - 60) (now `quot` 60) = past_hour log now.
Proof.
  intros Hf Hn. unfold in_buckets, past_hour. rewrite Z.quot_div_nonneg by lia.
  rewrite <- (window_filter log (now / 60 - 60) (now / 60) (fun x => x / 60)). f_equal. apply map_ext_in. intros e He%list_elem_of_In.
  rewrite Forall_forall in Hf. rewrite Z.quot_div_nonneg; [done|by apply Hf|lia].
Qed.

Lemma tracks_later secs c log prev now : tracks secs c log prev -> prev <= now -> now <= int_max -> tracks secs c log now.
Proof. intros [? ? ? ? ? Ho] Hle Hn. split; try done. destruct Ho as [Ho|Ho]; [left; lia|by right]. Qed.

Lemma run_answers os c log prev :
  tracks 1 (minute_counts c) log prev -> tracks 60 (hour_counts c) log prev -> counted log -> Forall (fun e => 0 <= e.1) log -> total log <= int_max ->
  0 <= prev -> admissible prev (total log) os -> exists c', run c os = Ok (answers log os, c').
Proof.
  revert c log prev. induction os as [|o os IH]; intros c log prev Hm Hh Hc Hf Ht Hp Ha; [by eexists|].
  cbn [admissible] in Ha. destruct Ha as (Hn & Hcount & Hsum & Ha). destruct o as [count now|now|now]; cbn [time_of count_of] in *; cbn [run run_op].
  - destruct (Add_ok 1 (minute_counts c) log prev count now) as (mc & E1 & Hm'); try done; try lia.
    destruct (Add_ok 60 (hour_counts c) log prev count now) as (hc & E2 & Hh'); try done; try lia.
    unfold add. rewrite E1. cbn [mbind res_bind]. rewrite E2. cbn [mbind res_bind].
    destruct (IH (mk mc hc) ((now, count) :: log) now) as [c' E]; try done.
    + by constructor.
    + constructor; [cbn; lia|done].
    + change (count + total log <= int_max). lia.
    + lia.
    + change (total ((now, count) :: log)) with (count + total log). by rewrite Z.add_comm.
    + exists c'. rewrite E. done.
  - rewrite Z.add_0_r in Ha. destruct (TrailingCount_ok 1 (minute_counts c) log prev now) as (mc & E1 & Hm'); try done; try lia.
    unfold MinuteCount. rewrite E1. cbn [mbind res_bind]. rewrite minute_window by done.
    destruct (IH (mk mc (hour_counts c)) log now) as [c' E]; try done; [apply (tracks_later _ _ _ prev); [done|lia|lia]|lia|]. exists c'. by rewrite E.
  - rewrite Z.add_0_r in Ha. destruct (TrailingCount_ok 60 (hour_counts c) log prev now) as (hc & E1 & Hh'); try done; try lia.
    unfold HourCount. rewrite E1. cbn [mbind res_bind]. rewrite hour_window by (done || lia).
    destruct (IH (mk (minute_counts c) hc) log now) as [c' E]; try done; [apply (tracks_later _ _ _ prev); [done|lia|lia]|lia|]. exists c'. by rewrite E.
Qed.

(** A counter that has counted [log] up to [prev]. *)
Record counting (c : t) (log : list (Z * Z)) (prev : Z) : Prop := {
  cg_minute : tracks 1 (minute_counts c) log prev;
  cg_hour : tracks 60 (hour_counts c) log prev;
  cg_counted : counted log;
  cg_prev : 0 <= prev;
}.

Lemma total_counted log : counted log -> 0 <= total log.
Proof. induction 1 as [|e log He _ IH]; [done|]. change (0 <= e.2 + total log). lia. Qed.

(** What [handleRead] of a connection does with its counter. *)
Lemma count_and_report c log prev count now :
  counting c log prev -> 0 <= count -> count + total log <= int_max -> prev <= now <= int_max ->
  exists c1 n1 c2 n2 c3, add c count now = Ok c1 /\ MinuteCount c1 now = Ok (n1, c2) /\ HourCount c2 now = Ok (n2, c3) /\
    counting c1 ((now, count) :: log) now /\ counting c3 ((now, count) :: log) now.
Proof.
  intros [Hm Hh Hc Hp] Hn Ht Ho.
  destruct (Add_ok 1 (minute_counts c) log prev count now) as (mc & E1 & Hm'); try done; try lia.
  destruct (Add_ok 60 (hour_counts c) log prev count now) as (hc & E2 & Hh'); try done; try lia.
  assert (counted ((now, count) :: log)) as Hc' by by constructor.
  destruct (TrailingCount_ok 1 mc ((now, count) :: log) now now) as (mc' & E3 & Hm''); try done; try lia.
  destruct (TrailingCount_ok 60 hc ((now, count) :: log) now now) as (hc' & E4 & Hh''); try done; try lia.
  eexists (mk mc hc), _, (mk mc' hc), _, (mk mc' hc'). unfold add, MinuteCount, HourCount. cbn [minute_counts hour_counts].
  rewrite E1. cbn [mbind res_bind]. rewrite E2. cbn [mbind res_bind]. rewrite E3. cbn [mbind res_bind]. rewrite E4. cbn [mbind res_bind].
  split_and!; try done; split; cbn; try done; lia.
Qed.

Lemma new_tracks secs u : 0 <= i32 u -> tracks secs (new_counter 60 secs u) [] 0.
Proof.
  intros Hu. split; cbn; try done; [|by right]. split; [|done]. exists 0. by split_and!.
Qed.

Lemma new_counting u1 u2 : 0 <= i32 u1 -> 0 <= i32 u2 -> counting (new u1 u2) [] 0.
Proof. intros. split; [by apply new_tracks..|by constructor|done]. Qed.

(** C37: From any initial value of the uninitialised [last_update_time_] with a
    non-negative [int] part, every sequence of [Add], [MinuteCount] and
    [HourCount] calls in time order, at times that fit an [int], succeeds as long
    as the counts, none negative, fit an [int] together;
    [MinuteCount] is the sum over the past 60 seconds and [HourCount] the sum
    over the current minute and the 59 before it. *)
Theorem counts_correct u1 u2 os :
  0 <= i32 u1 -> 0 <= i32 u2 -> admissible 0 0 os -> exists c', run (new u1 u2) os = Ok (answers [] os, c').
Proof.
  intros H1 H2 Ha. apply (run_answers os (new u1 u2) [] 0); try done; try (by constructor); by apply new_tracks.
Qed.

Lemma counts_correct_witness :
  exists c', run (new 12345 99) [OpAdd 5 1000; OpAdd 7 1030; OpMinute 1059; OpMinute 1060; OpHour 4600; OpHour 4620] = Ok ([12; 7; 7; 0], c').
Proof.
  apply (counts_correct 12345 99 [OpAdd 5 1000; OpAdd 7 1030; OpMinute 1059; OpMinute 1060; OpHour 4600; OpHour 4620]).
  - vm_compute. discriminate.
  - vm_compute. discriminate.
  - cbn. unfold int_max. lia.
Defined.

(** [HourCount] counts minutes and not seconds: what was added 3541 seconds ago,
    at the end of a minute, is gone at the start of the sixtieth after it. *)
Example hour_count_short :
  exists c', run (new 0 0) [OpAdd 5 1019; OpHour 4559; OpHour 4560] = Ok ([5; 0], c').
Proof. eexists. vm_compute. reflexivity. Qed.

(** From a negative [int] part the difference of the buckets can overflow. *)
Example garbage_overflows : run (new (- 2 ^ 31) 0) [OpAdd 5 1019] = Err Undefined.
Proof. vm_compute. reflexivity. Qed.

(** One bucket: the first count goes to the back of an empty queue. *)
Lemma one_bucket_undefined count : AddToBack (new_queue 1) count = Err Undefined.
Proof. done. Qed.

End MinuteHourCounter.
