(* ===== verification/TcpConnection.v ===== *)
(** A TCP connection (src/networking/TcpConnection.h,
    src/networking/TcpConnection.cpp): its state, its two buffers and its
    channel, driven by the loop's thread and used from any thread.

    The results of system calls are arguments.  The world of an operation is the
    connection, the poller and the channels, the functors it queued in the loop,
    and the trace of what the outside sees: bytes the kernel took, the shutdown
    of the write side, user callbacks.  A user callback is the list of calls of
    the connection's interface it makes; none of these runs a callback itself. *)

From S2P Require Import Prelude Buffer Channel Poller MinuteHourCounter.

Module TcpConnection.

Inductive StateE := kDisconnected | kConnecting | kConnected | kDisconnecting.
#[global] Instance StateE_eq_dec : EqDecision StateE.
Proof. solve_decision. Defined.

Record t := mk {
  loop_ : Z;                          (* the thread of the loop *)
  state_ : StateE;
  reading_ : bool;
  channel_ : Z;
  writeCompleteCallback_ : bool;      (* whether it is set *)
  highWaterMarkCallback_ : bool;
  highWaterMark_ : Z;
  inputBuffer_ : Buffer.t;
  outputBuffer_ : Buffer.t;
  bytesReceivedCounter_ : MinuteHourCounter.t;
}.

(** What is queued in the loop. *)
Inductive functor :=
  | SendInLoop (message : list byte)
  | ShutdownInLoop
  | ForceCloseInLoop
  | StartReadInLoop
  | StopReadInLoop
  | WriteComplete
  | HighWaterMark (n : Z).

(** What happens outside: [Sent] marks a message handed to [sendInLoop]. *)
Inductive event :=
  | Sent (message : list byte)
  | Taken (data : list byte)          (* the kernel took these bytes *)
  | ShutdownWrite
  | ConnectionCallback (connected : bool)
  | MessageCallback
  | CloseCallback
  | RunAfter.                         (* [forceClose] after a delay *)

(** The return value of write(2), and what it sets [errno] to. *)
Inductive write_result := Wrote (n : Z) | WriteError (errno : Z).

Definition EPIPE : Z := 32.
Definition ECONNRESET : Z := 104.
Definition EWOULDBLOCK : Z := 11.

Section Connection.
Context {P : Type} {HP : Poller P}.

Record world := mk_world {
  conn : t;
  poller : P;
  heap : Channel.heap;
  pending : list functor;
  trace : list event;
}.

Definition with_conn (w : world) (c : t) : world := mk_world c (poller w) (heap w) (pending w) (trace w).
Definition with_channels (w : world) (p : P) (h : Channel.heap) : world := mk_world (conn w) p h (pending w) (trace w).
Definition queueInLoop (w : world) (f : functor) : world := mk_world (conn w) (poller w) (heap w) (pending w ++ [f]) (trace w).
Definition happens (w : world) (e : event) : world := mk_world (conn w) (poller w) (heap w) (pending w) (trace w ++ [e]).

Definition set_state (c : t) (s : StateE) : t :=
  mk (loop_ c) s (reading_ c) (channel_ c) (writeCompleteCallback_ c) (highWaterMarkCallback_ c) (highWaterMark_ c) (inputBuffer_ c)
     (outputBuffer_ c) (bytesReceivedCounter_ c).
Definition set_reading (c : t) (b : bool) : t :=
  mk (loop_ c) (state_ c) b (channel_ c) (writeCompleteCallback_ c) (highWaterMarkCallback_ c) (highWaterMark_ c) (inputBuffer_ c)
     (outputBuffer_ c) (bytesReceivedCounter_ c).
Definition set_input (c : t) (b : Buffer.t) : t :=
  mk (loop_ c) (state_ c) (reading_ c) (channel_ c) (writeCompleteCallback_ c) (highWaterMarkCallback_ c) (highWaterMark_ c) b
     (outputBuffer_ c) (bytesReceivedCounter_ c).
Definition set_output (c : t) (b : Buffer.t) : t :=
  mk (loop_ c) (state_ c) (reading_ c) (channel_ c) (writeCompleteCallback_ c) (highWaterMarkCallback_ c) (highWaterMark_ c) (inputBuffer_ c)
     b (bytesReceivedCounter_ c).
Definition set_counter (c : t) (n : MinuteHourCounter.t) : t :=
  mk (loop_ c) (state_ c) (reading_ c) (channel_ c) (writeCompleteCallback_ c) (highWaterMarkCallback_ c) (highWaterMark_ c) (inputBuffer_ c)
     (outputBuffer_ c) n.
Definition setHighWaterMarkCallback (c : t) (highWaterMark : Z) : t :=
  mk (loop_ c) (state_ c) (reading_ c) (channel_ c) (writeCompleteCallback_ c) true highWaterMark (inputBuffer_ c)
     (outputBuffer_ c) (bytesReceivedCounter_ c).
Definition setWriteCompleteCallback (c : t) (set : bool) : t :=
  mk (loop_ c) (state_ c) (reading_ c) (channel_ c) set (highWaterMarkCallback_ c) (highWaterMark_ c) (inputBuffer_ c)
     (outputBuffer_ c) (bytesReceivedCounter_ c).

Definition setState (w : world) (s : StateE) : world := with_conn w (set_state (conn w) s).
Definition connected (c : t) : bool := bool_decide (state_ c = kConnected).
Definition disconnected (c : t) : bool := bool_decide (state_ c = kDisconnected).

(** The constructor: the channel at address [c] for [sockfd]; the values of the
    counter's uninitialised members are arguments. *)
Definition new (p : P) (h : Channel.heap) (loop c sockfd u1 u2 : Z) : res world :=
  input ← Buffer.new Buffer.kInitialSize;
  output ← Buffer.new Buffer.kInitialSize;
  let ch := Channel.setCallback (Channel.setCallback (Channel.setCallback (Channel.setCallback (Channel.new sockfd)
              Channel.ReadCallback) Channel.WriteCallback) Channel.CloseCallback) Channel.ErrorCallback in
  Ok (mk_world (mk loop kConnecting true c false false (64 * 1024 * 1024) input output (MinuteHourCounter.new u1 u2))
               p (<[c := ch]> h) [] []).

(** The destructor's assertion. *)
Definition destroy (c : t) : res unit := assert! bool_decide (state_ c = kDisconnected); Ok tt.

Definition stateToString (s : StateE) : list byte :=
  match s with
  | kDisconnected => bs "kDisconnected"
  | kConnecting => bs "kConnecting"
  | kConnected => bs "kConnected"
  | kDisconnecting => bs "kDisconnecting"
  end.

(** Calls on [channel_]. *)
Definition channel (w : world) : res Channel.t := Channel.deref (heap w) (channel_ (conn w)).
Definition interest (w : world) (tid : Z) (o : Channel.interest_op) : res world :=
  '(p, h) ← Channel_interest (poller w) tid (heap w) (channel_ (conn w)) o;
  Ok (with_channels w p h).

(** The end of [sendInLoop]: what is left goes to the output buffer. *)
Definition queue_output (w : world) (tid : Z) (ch : Channel.t) (rest : list byte) (remaining : Z) : res world :=
  let c := conn w in
  let oldLen := Buffer.readableBytes (outputBuffer_ c) in
  let w := if (highWaterMark_ c <=? u64 (oldLen + remaining)) && (oldLen <? highWaterMark_ c) && highWaterMarkCallback_ c
           then queueInLoop w (HighWaterMark (u64 (oldLen + remaining))) else w in
  out ← Buffer.append (outputBuffer_ c) rest;
  let w := with_conn w (set_output c out) in
  if negb (Channel.isWriting ch) then interest w tid Channel.EnableWriting else Ok w.

(** [sendInLoop]: [r] is what write(2) returns if it is called. *)
Definition sendInLoop (w : world) (tid : Z) (data : list byte) (r : write_result) : res world :=
  _ ← assertInLoopThread (loop_ (conn w)) tid;
  ch ← channel w;
  let w := happens w (Sent data) in
  let len := zlen data in
  let c := conn w in
  (* a disconnected connection is only logged *)
  let '(w, nwrote, remaining, faultError) :=
    if negb (Channel.isWriting ch) && (Buffer.readableBytes (outputBuffer_ c) =? 0) then
      match r with
      | Wrote n =>
          let w := happens w (Taken (take (Z.to_nat n) data)) in
          let remaining := u64 (len - n) in
          (if (remaining =? 0) && writeCompleteCallback_ c then queueInLoop w WriteComplete else w, n, remaining, false)
      | WriteError errno => (w, 0, len, negb (errno =? EWOULDBLOCK) && ((errno =? EPIPE) || (errno =? ECONNRESET)))
      end
    else (w, 0, len, false) in
  assert! remaining <=? len;
  if negb faultError && (0 <? remaining) then queue_output w tid ch (slice data nwrote remaining) remaining else Ok w.

Definition shutdownInLoop (w : world) (tid : Z) : res world :=
  _ ← assertInLoopThread (loop_ (conn w)) tid;
  ch ← channel w;
  if negb (Channel.isWriting ch) then Ok (happens w ShutdownWrite) else Ok w.

Definition startReadInLoop (w : world) (tid : Z) : res world :=
  _ ← assertInLoopThread (loop_ (conn w)) tid;
  ch ← channel w;
  if negb (reading_ (conn w)) || negb (Channel.isReading ch) then
    w ← interest w tid Channel.EnableReading;
    Ok (with_conn w (set_reading (conn w) true))
  else Ok w.

Definition stopReadInLoop (w : world) (tid : Z) : res world :=
  _ ← assertInLoopThread (loop_ (conn w)) tid;
  ch ← channel w;
  if reading_ (conn w) || Channel.isReading ch then
    w ← interest w tid Channel.DisableReading;
    Ok (with_conn w (set_reading (conn w) false))
  else Ok w.

(** [loop_->runInLoop]. *)
Definition runInLoop (w : world) (tid : Z) (f : functor) (now : world -> res world) : res world :=
  if tid =? loop_ (conn w) then now w else Ok (queueInLoop w f).

(** ** The interface *)

(** [send] of a [StringPiece], and through it of a pointer and a length. *)
Definition send (w : world) (tid : Z) (message : list byte) (r : write_result) : res world :=
  if bool_decide (state_ (conn w) = kConnected) then sendInLoop w tid message r
  else runInLoop w tid (SendInLoop message) (fun w => sendInLoop w tid message r).

(** [send] of a [Buffer]: also the buffer afterwards. *)
Definition send_buffer (w : world) (tid : Z) (message : Buffer.t) (r : write_result) : res (world * Buffer.t) :=
  if bool_decide (state_ (conn w) = kConnected) then
    if tid =? loop_ (conn w) then
      w ← sendInLoop w tid (slice (Buffer.buffer_ message) (Buffer.peek message) (Buffer.readableBytes message)) r;
      Ok (w, Buffer.retrieveAll message)
    else
      '(data, message) ← Buffer.retrieveAllAsString message;
      w ← runInLoop w tid (SendInLoop data) (fun w => sendInLoop w tid data r);
      Ok (w, message)
  else Ok (w, message).

Definition shutdown (w : world) (tid : Z) : res world :=
  if bool_decide (state_ (conn w) = kConnected) then
    runInLoop (setState w kDisconnecting) tid ShutdownInLoop (fun w => shutdownInLoop w tid)
  else Ok w.

Definition up (s : StateE) : bool := bool_decide (s = kConnected) || bool_decide (s = kDisconnecting).

(** [forceClose]: the test and what follows, which another thread's step can
    come between. *)
Definition forceClose_store (w : world) : world := queueInLoop (setState w kDisconnecting) ForceCloseInLoop.
Definition forceClose (w : world) : world := if up (state_ (conn w)) then forceClose_store w else w.

Definition forceCloseWithDelay (w : world) : world :=
  if up (state_ (conn w)) then happens (setState w kDisconnecting) RunAfter else w.

Definition startRead (w : world) (tid : Z) : res world := runInLoop w tid StartReadInLoop (fun w => startReadInLoop w tid).
Definition stopRead (w : world) (tid : Z) : res world := runInLoop w tid StopReadInLoop (fun w => stopReadInLoop w tid).

(** What a user callback does with the connection. *)
Inductive call :=
  | Send (message : list byte) (r : write_result)
  | Shutdown
  | ForceClose
  | ForceCloseWithDelay
  | StartRead
  | StopRead
  | Retrieve (n : Z).                 (* from the input buffer *)

Definition run_call (w : world) (tid : Z) (k : call) : res world :=
  match k with
  | Send message r => send w tid message r
  | Shutdown => shutdown w tid
  | ForceClose => Ok (forceClose w)
  | ForceCloseWithDelay => Ok (forceCloseWithDelay w)
  | StartRead => startRead w tid
  | StopRead => stopRead w tid
  | Retrieve n => b ← Buffer.retrieve (inputBuffer_ (conn w)) n; Ok (with_conn w (set_input (conn w) b))
  end.
Fixpoint run_calls (w : world) (tid : Z) (ks : list call) : res world :=
  match ks with [] => Ok w | k :: ks => w ← run_call w tid k; run_calls w tid ks end.

(** ** What the loop and the owner call *)

Definition connectEstablished (w : world) (tid : Z) (callback : list call) : res world :=
  _ ← assertInLoopThread (loop_ (conn w)) tid;
  assert! bool_decide (state_ (conn w) = kConnecting);
  let w := setState w kConnected in
  ch ← channel w;
  let w := with_channels w (poller w) (<[channel_ (conn w) := Channel.tie ch]> (heap w)) in
  w ← interest w tid Channel.EnableReading;
  run_calls (happens w (ConnectionCallback (connected (conn w)))) tid callback.

Definition connectDestroyed (w : world) (tid : Z) (callback : list call) : res world :=
  _ ← assertInLoopThread (loop_ (conn w)) tid;
  w ← (if bool_decide (state_ (conn w) = kConnected) then
         w ← interest (setState w kDisconnected) tid Channel.DisableAll;
         run_calls (happens w (ConnectionCallback (connected (conn w)))) tid callback
       else Ok w);
  '(p, h) ← Channel_remove (poller w) tid (heap w) (channel_ (conn w));
  Ok (with_channels w p h).

Definition handleClose (w : world) (tid : Z) (callback : list call) : res world :=
  _ ← assertInLoopThread (loop_ (conn w)) tid;
  assert! up (state_ (conn w));
  w ← interest (setState w kDisconnected) tid Channel.DisableAll;
  w ← run_calls (happens w (ConnectionCallback (connected (conn w)))) tid callback;
  Ok (happens w CloseCallback).

Definition forceCloseInLoop (w : world) (tid : Z) (callback : list call) : res world :=
  _ ← assertInLoopThread (loop_ (conn w)) tid;
  if up (state_ (conn w)) then handleClose w tid callback else Ok w.

(** [handleError] only reads the socket's error and logs it. *)
Definition handleError (w : world) : res world := Ok w.

(** The operands of the log lines: they are evaluated, which updates the counter,
    just when the level is LOG_DEBUG or below. *)
Definition report (debug : bool) (counter : MinuteHourCounter.t) (now : Z) : res MinuteHourCounter.t :=
  if debug then
    '(_, counter) ← MinuteHourCounter.MinuteCount counter now;
    '(_, counter) ← MinuteHourCounter.HourCount counter now;
    Ok counter
  else Ok counter.

Definition handleRead (w : world) (tid : Z) (readv : list Z -> Buffer.readv_result) (now : Z) (debug : bool) (callback : list call) : res world :=
  _ ← assertInLoopThread (loop_ (conn w)) tid;
  '(b, n, savedErrno) ← Buffer.readFd readv (inputBuffer_ (conn w));
  let w := with_conn w (set_input (conn w) b) in
  if 0 <? n then
    counter ← MinuteHourCounter.add (bytesReceivedCounter_ (conn w)) (i32 n) now;
    counter ← report debug counter now;
    run_calls (happens (with_conn w (set_counter (conn w) counter)) MessageCallback) tid callback
  else if n =? 0 then handleClose w tid callback
  else handleError w.

Definition handleWrite (w : world) (tid : Z) (r : write_result) : res world :=
  _ ← assertInLoopThread (loop_ (conn w)) tid;
  ch ← channel w;
  if Channel.isWriting ch then
    match r with
    | Wrote n =>
        if 0 <? n then
          let w := happens w (Taken (take (Z.to_nat n) (Buffer.content (outputBuffer_ (conn w))))) in
          out ← Buffer.retrieve (outputBuffer_ (conn w)) n;
          let w := with_conn w (set_output (conn w) out) in
          if Buffer.readableBytes out =? 0 then
            w ← interest w tid Channel.DisableWriting;
            let w := if writeCompleteCallback_ (conn w) then queueInLoop w WriteComplete else w in
            if bool_decide (state_ (conn w) = kDisconnecting) then shutdownInLoop w tid else Ok w
          else Ok w
        else Ok w
    | WriteError _ => Ok w
    end
  else Ok w.

(** The loop runs the first functor queued. *)
Definition run_functor (w : world) (tid : Z) (r : write_result) (callback : list call) : res world :=
  match pending w with
  | [] => Ok w
  | f :: fs =>
      let w := mk_world (conn w) (poller w) (heap w) fs (trace w) in
      match f with
      | SendInLoop message => sendInLoop w tid message r
      | ShutdownInLoop => shutdownInLoop w tid
      | ForceCloseInLoop => forceCloseInLoop w tid callback
      | StartReadInLoop => startReadInLoop w tid
      | StopReadInLoop => stopReadInLoop w tid
      | WriteComplete | HighWaterMark _ => run_calls w tid callback
      end
  end.

End Connection.
Arguments world P : clear implicits.
End TcpConnection.
