(* ===== verification/ConnFacts.v ===== *)
(** The connection of src/networking/TcpConnection.cpp as a byte stream: what
    the program sends reaches the kernel in order and complete, the write side
    is shut down after the data and not before, and the user's callbacks come in
    their protocol. *)

From S2P Require Import Prelude Buffer Channel Poller Interest PollPoller TcpConnection.

Module ConnFacts.
Import TcpConnection.

(** The bytes of a trace: handed to [sendInLoop], and taken by the kernel. *)
Definition sent (tr : list event) : list byte := concat (map (fun e => match e with Sent d => d | _ => [] end) tr).
Definition taken (tr : list event) : list byte := concat (map (fun e => match e with Taken d => d | _ => [] end) tr).

(** The messages one by one: handed to [sendInLoop], and on their way to it. *)
Definition messages (tr : list event) : list (list byte) := omap (fun e => match e with Sent d => Some d | _ => None end) tr.
Definition letters (l : list functor) : list (list byte) := omap (fun f => match f with SendInLoop d => Some d | _ => None end) l.

(** The list [l] is [l1] and [l2], each in its order. *)
Inductive merge {A : Type} : list A -> list A -> list A -> Prop :=
  | merge_nil : merge [] [] []
  | merge_left x l1 l2 l : merge l1 l2 l -> merge (x :: l1) l2 (x :: l)
  | merge_right x l1 l2 l : merge l1 l2 l -> merge l1 (x :: l2) (x :: l).

Arguments sent : simpl never.
Arguments taken : simpl never.

Lemma sent_snoc tr e : sent (tr ++ [e]) = sent tr ++ match e with Sent d => d | _ => [] end.
Proof. unfold sent. rewrite map_app, concat_app. cbn. by rewrite app_nil_r. Qed.
Lemma taken_snoc tr e : taken (tr ++ [e]) = taken tr ++ match e with Taken d => d | _ => [] end.
Proof. unfold taken. rewrite map_app, concat_app. cbn. by rewrite app_nil_r. Qed.

Lemma sent_messages tr : sent tr = concat (messages tr).
Proof. induction tr as [|e tr IH]; [done|]. change (sent (e :: tr)) with (match e with Sent d => d | _ => [] end ++ sent tr). rewrite IH. by destruct e. Qed.

Lemma merge_app {A} (l1 l2 l k1 k2 k : list A) : merge l1 l2 l -> merge k1 k2 k -> merge (l1 ++ k1) (l2 ++ k2) (l ++ k).
Proof. intros H Hk. induction H; [done|by constructor..]. Qed.
Lemma merge_only_left {A} (l : list A) : merge l [] l.
Proof. induction l; by constructor. Qed.
Lemma merge_only_right {A} (l : list A) : merge [] l l.
Proof. induction l; by constructor. Qed.

(** Whenever the write side was shut down, everything sent before was taken. *)
Definition fin_after_data (tr : list event) : Prop :=
  forall t1 t2, tr = t1 ++ ShutdownWrite :: t2 -> taken t1 = sent t1.

Lemma fin_snoc tr e : fin_after_data tr -> (e = ShutdownWrite -> taken tr = sent tr) -> fin_after_data (tr ++ [e]).
Proof.
  intros Hf He t1 t2 E. destruct t2 as [|x t2] using rev_ind.
  - apply app_inj_tail in E as [-> ->]. by apply He.
  - rewrite app_comm_cons, app_assoc in E. apply app_inj_tail in E as [E _]. by apply (Hf t1 t2).
Qed.

(** What write(2) may return for [len] bytes while the peer is there. *)
Definition kernel_ok (r : write_result) (len : Z) : Prop :=
  match r with Wrote n => 0 <= n <= len | WriteError e => e <> EPIPE /\ e <> ECONNRESET end.

Definition message_of (f : functor) : list byte := match f with SendInLoop d => d | _ => [] end.
Definition queued_bytes (l : list functor) : Z := zlen (concat (map message_of l)).

Section Stream.
Context {P : Type} {HP : Poller P} {HS : PollerSpec P}.
Implicit Types (w : world P).
Abbreviation out w := (outputBuffer_ (conn w)).

(** An established connection with [B] bytes of room for later messages. *)
Record streaming (w : world P) (A : gmap Z (Z * Z)) (ch : Channel.t) (B : Z) : Prop := {
  m_rep : rep (poller w) (heap w) A;
  m_owner : owner_tid (poller w) = loop_ (conn w);
  m_ch : heap w !! channel_ (conn w) = Some ch;
  m_fd : 0 <= Channel.fd_ ch;
  m_events : 0 <= Channel.events_ ch < 8;
  m_reg : A !! Channel.fd_ ch = Some (channel_ (conn w), Channel.events_ ch);
  m_size : Z.of_nat (size A) < int_max;
  m_up : up (state_ (conn w)) = true;
  m_wf : Buffer.wf (out w);
  m_budget : Buffer.size (out w) + queued_bytes (pending w) + B <= Buffer.max_size;
  m_writing : Channel.isWriting ch = negb (bool_decide (Buffer.content (out w) = []));
  m_reading : Channel.isReading ch = reading_ (conn w);
  m_bytes : sent (trace w) = taken (trace w) ++ Buffer.content (out w);
  m_fin : fin_after_data (trace w);
  m_pending : ForceCloseInLoop ∉ pending w;
}.

(** Once the program asked for it and the output is drained, the write side was
    shut down, or a functor that does it is queued. *)
Definition drains (w : world P) : Prop :=
  state_ (conn w) = kDisconnecting -> Buffer.content (out w) = [] -> ShutdownWrite ∈ trace w \/ ShutdownInLoop ∈ pending w.

(** The parts of the world a channel operation needs and keeps. *)
Record attached (w : world P) (A : gmap Z (Z * Z)) (ch : Channel.t) : Prop := {
  a_rep : rep (poller w) (heap w) A;
  a_owner : owner_tid (poller w) = loop_ (conn w);
  a_ch : heap w !! channel_ (conn w) = Some ch;
  a_fd : 0 <= Channel.fd_ ch;
  a_events : 0 <= Channel.events_ ch < 8;
  a_reg : A !! Channel.fd_ ch = Some (channel_ (conn w), Channel.events_ ch);
  a_size : Z.of_nat (size A) < int_max;
}.

Lemma streaming_attached w A ch B : streaming w A ch B -> attached w A ch.
Proof. intros []. by split. Qed.

Lemma interest_step w A ch o : attached w A ch ->
  Channel.events_ ch <> 0 \/ Channel.new_events o (Channel.events_ ch) <> 0 ->
  exists p' h' A' ch', interest w (loop_ (conn w)) o = Ok (with_channels w p' h') /\ attached (with_channels w p' h') A' ch' /\
    Channel.events_ ch' = Channel.new_events o (Channel.events_ ch).
Proof.
  intros [Hr Ho Hc Hf He HA Hs] Hne.
  destruct (Interest.interest_registered (poller w) (heap w) A (channel_ (conn w)) ch o) as (p' & h' & ch' & E & Eo & [] & E1 & E2 & _); [by split|done|].
  eexists p', h', _, ch'. split_and!; [|by split; cbn; eauto; congruence|done].
  unfold interest. by rewrite <- Ho, E.
Qed.

Lemma writing_bit o ch ch' : Channel.events_ ch' = Channel.new_events o (Channel.events_ ch) -> Channel.isWriting ch' =
  match o with Channel.EnableWriting => true | Channel.DisableWriting | Channel.DisableAll => false | _ => Channel.isWriting ch end.
Proof. intros E. unfold Channel.isWriting at 1. rewrite E. exact (Channel.new_events_writing o (Channel.events_ ch)). Qed.
Lemma reading_bit o ch ch' : Channel.events_ ch' = Channel.new_events o (Channel.events_ ch) -> Channel.isReading ch' =
  match o with Channel.EnableReading => true | Channel.DisableReading | Channel.DisableAll => false | _ => Channel.isReading ch end.
Proof. intros E. unfold Channel.isReading at 1. rewrite E. exact (Channel.new_events_reading o (Channel.events_ ch)). Qed.
Lemma writing_some ch : Channel.isWriting ch = true -> Channel.events_ ch <> 0.
Proof. unfold Channel.isWriting. intros E Z0. by rewrite Z0 in E. Qed.
Lemma reading_some ch : Channel.isReading ch = true -> Channel.events_ ch <> 0.
Proof. unfold Channel.isReading. intros E Z0. by rewrite Z0 in E. Qed.

Lemma queued_bytes_nonneg l : 0 <= queued_bytes l.
Proof. apply zlen_nonneg. Qed.
Lemma queued_bytes_app l f : queued_bytes (l ++ [f]) = queued_bytes l + zlen (message_of f).
Proof. unfold queued_bytes. rewrite map_app, concat_app, zlen_app. cbn. by rewrite app_nil_r. Qed.

(** [queue_output] on a world whose stream lacks [rest]. *)
Lemma queue_output_ok w A ch rest B :
  attached w A ch -> up (state_ (conn w)) = true -> Buffer.wf (out w) ->
  Channel.isWriting ch = negb (bool_decide (Buffer.content (out w) = [])) -> Channel.isReading ch = reading_ (conn w) ->
  sent (trace w) = taken (trace w) ++ Buffer.content (out w) ++ rest -> rest <> [] -> fin_after_data (trace w) -> ForceCloseInLoop ∉ pending w ->
  0 <= B -> Buffer.size (out w) + queued_bytes (pending w) + B + zlen rest <= Buffer.max_size ->
  exists w' A' ch', queue_output w (loop_ (conn w)) ch rest (zlen rest) = Ok w' /\ streaming w' A' ch' B /\ drains w' /\ loop_ (conn w') = loop_ (conn w).
Proof.
  intros Ha Hup Hwf Hw Hrd Hb Hrest Hfin Hpend HB Hbud. unfold queue_output.
  destruct (Buffer.append_ok (out w) rest Hwf) as (b' & Eb & Hwf' & Hc' & _ & Hfr); [pose proof (queued_bytes_nonneg (pending w)); lia|]. rewrite Eb.
  assert (Buffer.content b' <> []) as Hne. { rewrite Hc'. intros [_ ?]%app_nil. done. }
  set (w1 := if _ : bool then _ else w).
  assert (conn w1 = conn w /\ poller w1 = poller w /\ heap w1 = heap w /\ trace w1 = trace w /\
    queued_bytes (pending w1) = queued_bytes (pending w) /\ ForceCloseInLoop ∉ pending w1) as (E1 & E2 & E3 & E4 & E5 & E6).
  { unfold w1. destruct (_ && _); split_and!; try done; cbn; [rewrite queued_bytes_app; cbn; unfold zlen; cbn; lia|].
    rewrite elem_of_app, list_elem_of_singleton. intros [?|?]; done. }
  clearbody w1. cbn [mbind res_bind].
  set (w2 := with_conn w1 (set_output (conn w) b')).
  assert (attached w2 A ch) as Ha2. { destruct Ha. split; cbn; rewrite ?E2, ?E3; done. }
  assert (forall p h A' ch', attached (with_channels w2 p h) A' ch' -> Channel.isWriting ch' = true -> Channel.isReading ch' = Channel.isReading ch ->
    streaming (with_channels w2 p h) A' ch' B /\ drains (with_channels w2 p h)) as Hfinal.
  { intros p h A' ch' [] Hw' Hr'. unfold Buffer.frame in Hfr. split; [|by intros _ ?]. split; cbn in *; try done; rewrite ?E4, ?E5; try done; try lia; try congruence.
    - rewrite Hw'. symmetry. by rewrite bool_decide_eq_false_2. }
  destruct (Channel.isWriting ch) eqn:Ew; cbn [negb].
  - destruct (Hfinal (poller w2) (heap w2) A ch Ha2 Ew eq_refl) as [? ?]. exists w2, A, ch. by split_and!.
  - destruct (interest_step w2 A ch Channel.EnableWriting Ha2) as (p' & h' & A' & ch' & E & Ha' & Eev).
    { right. pose proof (writing_bit Channel.EnableWriting ch (Channel.set_events ch (Channel.new_events Channel.EnableWriting (Channel.events_ ch))) eq_refl) as Hb'. by apply writing_some in Hb'. }
    destruct (Hfinal p' h' A' ch') as [? ?]; [done|by rewrite (writing_bit _ _ _ Eev)|by rewrite (reading_bit _ _ _ Eev)|].
    exists (with_channels w2 p' h'), A', ch'. by split_and!.
Qed.

Lemma content_nil_readable b : Buffer.wf b -> (Buffer.readableBytes b =? 0) = bool_decide (Buffer.content b = []).
Proof.
  intros Hwf. rewrite Buffer.readableBytes_content by done. unfold zlen. destruct (Buffer.content b); [done|].
  rewrite bool_decide_eq_false_2 by done. zbool. cbn. lia.
Qed.

Lemma slice_from {A} (l : list A) n : 0 <= n <= zlen l -> slice l n (zlen l - n) = drop (Z.to_nat n) l.
Proof. unfold slice, zlen. intros. apply take_ge. rewrite length_drop. lia. Qed.

(** More trace, the same connection. *)
Lemma streaming_traced w A ch B tr q :
  streaming w A ch B -> sent tr = taken tr ++ Buffer.content (out w) -> fin_after_data tr ->
  ForceCloseInLoop ∉ q -> queued_bytes q = queued_bytes (pending w) -> streaming (mk_world (conn w) (poller w) (heap w) q tr) A ch B.
Proof.
  intros [] Hb Hf H3 H4. split; cbn; try done. by rewrite H4.
Qed.

Lemma drains_more w tr q : drains w -> drains (mk_world (conn w) (poller w) (heap w) (pending w ++ q) (trace w ++ tr)).
Proof. intros Hd Hs Hc. destruct (Hd Hs Hc); [left|right]; cbn; by apply elem_of_app; left. Qed.

Lemma streaming_less w A ch B B' : streaming w A ch B -> B' <= B -> streaming w A ch B'.
Proof. intros [] Hle. split; try done. lia. Qed.

(** The kernel takes all of it at once. *)
Lemma written_whole w A ch B d :
  streaming w A ch B -> Buffer.content (out w) = [] ->
  let w1 := happens (happens w (Sent d)) (Taken d) in
  let w2 := if writeCompleteCallback_ (conn w) then queueInLoop w1 WriteComplete else w1 in
  streaming w2 A ch B /\ (drains w -> drains w2).
Proof.
  intros Hm Ec w1 w2. assert (streaming w1 A ch B) as Hm1.
  { apply (streaming_traced w A ch B (trace w1) (pending w) Hm); try done; [|by repeat apply fin_snoc; try apply Hm|apply Hm].
    cbn. rewrite !sent_snoc, !taken_snoc, (m_bytes _ _ _ _ Hm), Ec, !app_nil_r. done. }
  assert (trace w1 = trace w ++ [Sent d; Taken d]) as Et by (cbn; by rewrite <- app_assoc).
  unfold w2. destruct (writeCompleteCallback_ (conn w)); split.
  - apply (streaming_traced _ _ _ _ (trace w1) (pending w ++ [WriteComplete]) Hm1); try apply Hm1.
    + rewrite elem_of_app, list_elem_of_singleton. intros [?|?]; [by apply (m_pending _ _ _ _ Hm)|done].
    + rewrite queued_bytes_app. cbn. unfold zlen. cbn. lia.
  - intros Hd. unfold queueInLoop. rewrite Et. by apply (drains_more w).
  - done.
  - intros Hd. pose proof (drains_more w [Sent d; Taken d] [] Hd) as Hd2. rewrite app_nil_r, <- Et in Hd2. exact Hd2.
Qed.

Lemma sendInLoop_ok w A ch B d r :
  streaming w A ch B -> zlen d <= B -> B <= Buffer.max_size -> kernel_ok r (zlen d) ->
  exists w' A' ch', sendInLoop w (loop_ (conn w)) d r = Ok w' /\ streaming w' A' ch' (B - zlen d) /\ (drains w -> drains w') /\ loop_ (conn w') = loop_ (conn w).
Proof.
  intros Hm Hd HB Hk. pose proof (zlen_nonneg d) as Hd0. unfold sendInLoop, channel, Channel.deref.
  rewrite assertInLoopThread_self, (m_ch _ _ _ _ Hm). cbn [mbind res_bind happens conn].
  rewrite content_nil_readable, (m_writing _ _ _ _ Hm), negb_involutive, andb_diag by apply Hm.
  assert (fin_after_data (trace w ++ [Sent d])) as Hf1 by (apply fin_snoc; [apply Hm|done]).
  assert (sent (trace w ++ [Sent d]) = taken (trace w ++ [Sent d]) ++ Buffer.content (out w) ++ d) as Hs1.
  { rewrite sent_snoc, taken_snoc, (m_bytes _ _ _ _ Hm), app_nil_r. by rewrite app_assoc. }
  assert (forall rest tr, sent tr = taken tr ++ Buffer.content (out w) ++ rest -> rest <> [] -> fin_after_data tr -> zlen rest <= zlen d ->
    exists w' A' ch', queue_output (mk_world (conn w) (poller w) (heap w) (pending w) tr) (loop_ (conn w)) ch rest (zlen rest) = Ok w' /\
      streaming w' A' ch' (B - zlen d) /\ (drains w -> drains w') /\ loop_ (conn w') = loop_ (conn w)) as Hqueue.
  { intros rest tr Hb Hr Hf Hle. destruct Hm.
    destruct (queue_output_ok (mk_world (conn w) (poller w) (heap w) (pending w) tr) A ch rest (B - zlen d)) as (w' & A' & ch' & ? & ? & ? & ?); cbn; try done; [lia|lia|]. exists w', A', ch'. by split_and!. }
  assert (d <> [] -> exists w' A' ch', queue_output (happens w (Sent d)) (loop_ (conn w)) ch d (zlen d) = Ok w' /\
    streaming w' A' ch' (B - zlen d) /\ (drains w -> drains w') /\ loop_ (conn w') = loop_ (conn w)) as Hall.
  { intros Hne. apply (Hqueue d (trace w ++ [Sent d])); done. }
  assert (d = [] -> streaming (happens w (Sent d)) A ch (B - zlen d)) as Hnone.
  { intros ->. apply (streaming_less _ _ _ B); [|lia]. apply streaming_traced; try done; try apply Hm. by rewrite Hs1, app_nil_r. }
  assert (drains w -> drains (happens w (Sent d))) as Hdr.
  { intros Hd1. pose proof (drains_more w [Sent d] [] Hd1) as Hd2. by rewrite app_nil_r in Hd2. }
  assert (Channel.isWriting ch = true -> Buffer.content (out w) <> []) as Hw1.
  { rewrite (m_writing _ _ _ _ Hm). intros E. by zbool. }
  destruct (bool_decide (Buffer.content (out w) = [])) eqn:Ec; [destruct r as [n|errno]; cbn in Hk|]; zbool.
  - rewrite u64_small by (unfold Buffer.max_size, size_max in *; lia). destruct (zlen d - n =? 0) eqn:En; zbool; cbn [negb andb].
    + rewrite assert_true by (zbool; lia). rewrite (proj2 (Z.ltb_ge _ _)) by lia.
      rewrite take_ge by (unfold zlen in *; lia). destruct (written_whole w A ch B d Hm Ec) as [W1 W2].
      eexists _, A, ch. split_and!; [done| |exact W2|by case_match]. apply (streaming_less _ _ _ B); [exact W1|lia].
    + rewrite assert_true by (zbool; lia). rewrite (proj2 (Z.ltb_lt _ _)) by lia. rewrite slice_from by lia.
      replace (zlen d - n) with (zlen (drop (Z.to_nat n) d)) by (unfold zlen in *; rewrite length_drop; lia).
      apply (Hqueue (drop (Z.to_nat n) d) ((trace w ++ [Sent d]) ++ [Taken (take (Z.to_nat n) d)])).
      * rewrite sent_snoc, taken_snoc, Hs1, Ec, !app_nil_r. cbn. by rewrite <- app_assoc, take_drop.
      * intros E. apply (f_equal length) in E. rewrite length_drop in E. unfold zlen in *. cbn in E. lia.
      * by apply fin_snoc.
      * unfold zlen. rewrite length_drop. lia.
  - destruct Hk as [Hk1 Hk2]. rewrite (proj2 (Z.eqb_neq errno EPIPE)), (proj2 (Z.eqb_neq errno ECONNRESET)), andb_false_r by done. cbn [negb andb].
    rewrite assert_true by (zbool; lia). destruct (0 <? zlen d) eqn:Ed; zbool.
    + unfold slice. cbn [Z.to_nat]. rewrite drop_0, take_ge by (unfold zlen; lia). apply Hall. clear -Ed. destruct d; [by cbn in Ed|done].
    + eexists _, A, ch. split_and!; [done| |done|done]. apply Hnone. apply length_zero_iff_nil. unfold zlen in *. lia.
  - cbn [negb andb]. rewrite assert_true by (zbool; lia). destruct (0 <? zlen d) eqn:Ed; zbool.
    + unfold slice. cbn [Z.to_nat]. rewrite drop_0, take_ge by (unfold zlen; lia). apply Hall. clear -Ed. destruct d; [by cbn in Ed|done].
    + eexists _, A, ch. split_and!; [done| |done|done]. apply Hnone. apply length_zero_iff_nil. unfold zlen in *. lia.
Qed.

Lemma shutdownInLoop_ok w A ch B : streaming w A ch B ->
  exists w', shutdownInLoop w (loop_ (conn w)) = Ok w' /\ streaming w' A ch B /\ drains w' /\ loop_ (conn w') = loop_ (conn w).
Proof.
  intros Hm. unfold shutdownInLoop, channel, Channel.deref. rewrite assertInLoopThread_self, (m_ch _ _ _ _ Hm). cbn [mbind res_bind].
  pose proof (m_writing _ _ _ _ Hm) as Hw. pose proof (m_bytes _ _ _ _ Hm) as Hb. destruct (Channel.isWriting ch); cbn [negb]; eexists; (split_and!; [done|..|done]); try done.
  - intros _ Hc. symmetry in Hw. zbool. done.
  - symmetry in Hw. zbool. rewrite Hw, app_nil_r in Hb. apply streaming_traced; try done; try apply Hm.
    + rewrite sent_snoc, taken_snoc, Hw, !app_nil_r. done.
    + apply fin_snoc; [apply Hm|done].
  - intros _ _. left. cbn. apply elem_of_app. right. by apply list_elem_of_singleton.
Qed.

(** A change of the connection's state. *)
Lemma streaming_state w A ch B s : streaming w A ch B -> up s = true -> streaming (setState w s) A ch B.
Proof. intros [] Hs. by split. Qed.

(** A change of the channel's interest that keeps the stream. *)
Lemma streaming_interest w A ch B o c p h A' ch' : streaming w A ch B -> attached (with_channels w p h) A' ch' ->
  channel_ c = channel_ (conn w) -> loop_ c = loop_ (conn w) -> state_ c = state_ (conn w) -> outputBuffer_ c = out w ->
  Channel.events_ ch' = Channel.new_events o (Channel.events_ ch) ->
  Channel.isWriting ch' = Channel.isWriting ch -> reading_ c = Channel.isReading ch' -> streaming (with_conn (with_channels w p h) c) A' ch' B.
Proof.
  intros [] [] E1 E2 E3 E4 _ Hw Hr. split; cbn in *; rewrite ?E1, ?E2, ?E3, ?E4; try done. by rewrite Hw.
Qed.

Lemma startReadInLoop_ok w A ch B : streaming w A ch B ->
  exists w' A' ch', startReadInLoop w (loop_ (conn w)) = Ok w' /\ streaming w' A' ch' B /\ (drains w -> drains w') /\ loop_ (conn w') = loop_ (conn w).
Proof.
  intros Hm. unfold startReadInLoop, channel, Channel.deref. rewrite assertInLoopThread_self, (m_ch _ _ _ _ Hm). cbn [mbind res_bind].
  rewrite (m_reading _ _ _ _ Hm), orb_diag. destruct (reading_ (conn w)) eqn:Er; cbn [negb]; [by exists w, A, ch|].
  destruct (interest_step w A ch Channel.EnableReading (streaming_attached _ _ _ _ Hm)) as (p' & h' & A' & ch' & E & Ha' & Eev).
  { right. pose proof (reading_bit Channel.EnableReading ch (Channel.set_events ch (Channel.new_events Channel.EnableReading (Channel.events_ ch))) eq_refl) as Hb'. by apply reading_some in Hb'. }
  rewrite E. cbn [mbind res_bind]. eexists _, A', ch'. split_and!; [done| |done|done].
  by eapply (streaming_interest w A ch B Channel.EnableReading); [..|exact (writing_bit _ _ _ Eev)|by rewrite (reading_bit _ _ _ Eev)].
Qed.

Lemma stopReadInLoop_ok w A ch B : streaming w A ch B ->
  exists w' A' ch', stopReadInLoop w (loop_ (conn w)) = Ok w' /\ streaming w' A' ch' B /\ (drains w -> drains w') /\ loop_ (conn w') = loop_ (conn w).
Proof.
  intros Hm. unfold stopReadInLoop, channel, Channel.deref. rewrite assertInLoopThread_self, (m_ch _ _ _ _ Hm). cbn [mbind res_bind].
  pose proof (m_reading _ _ _ _ Hm) as Hrd. rewrite Hrd, orb_diag. destruct (reading_ (conn w)) eqn:Er; [|by exists w, A, ch].
  destruct (interest_step w A ch Channel.DisableReading (streaming_attached _ _ _ _ Hm)) as (p' & h' & A' & ch' & E & Ha' & Eev); [left; by apply reading_some|].
  rewrite E. cbn [mbind res_bind]. eexists _, A', ch'. split_and!; [done| |done|done].
  by eapply (streaming_interest w A ch B Channel.DisableReading); [..|exact (writing_bit _ _ _ Eev)|by rewrite (reading_bit _ _ _ Eev)].
Qed.

Lemma handleWrite_ok w A ch B r : streaming w A ch B -> kernel_ok r (zlen (Buffer.content (out w))) ->
  exists w' A' ch', handleWrite w (loop_ (conn w)) r = Ok w' /\ streaming w' A' ch' B /\ (drains w -> drains w') /\ loop_ (conn w') = loop_ (conn w).
Proof.
  intros Hm Hk. unfold handleWrite, channel, Channel.deref. rewrite assertInLoopThread_self, (m_ch _ _ _ _ Hm). cbn [mbind res_bind].
  pose proof (m_writing _ _ _ _ Hm) as Hw. destruct (Channel.isWriting ch) eqn:Ew; [|by exists w, A, ch].
  destruct r as [n|]; cbn in Hk; [|by exists w, A, ch]. destruct (0 <? n) eqn:En; zbool; [|by exists w, A, ch].
  destruct (Buffer.retrieve_ok (out w) n (m_wf _ _ _ _ Hm)) as (b' & Eb & Hwf' & Hc' & Hfr); [lia|]. cbn [happens conn]. rewrite Eb. cbn [mbind res_bind].
  rewrite content_nil_readable by done. unfold with_conn. cbn [conn poller heap pending trace happens].
  set (tr := trace w ++ [Taken _]). set (c1 := set_output (conn w) b').
  assert (sent tr = taken tr ++ Buffer.content b') as Hb1.
  { unfold tr. rewrite sent_snoc, taken_snoc, (m_bytes _ _ _ _ Hm), Hc', app_nil_r, <- app_assoc. f_equal. by rewrite take_drop. }
  assert (fin_after_data tr) as Hf1 by (apply fin_snoc; [apply Hm|done]).
  assert (Buffer.size b' <= Buffer.size (out w)) as Hsz by (unfold Buffer.frame in Hfr; lia).
  set (w1 := mk_world c1 (poller w) (heap w) (pending w) tr).
  assert (attached w1 A ch) as Ha1 by (destruct Hm; by split).
  destruct (bool_decide (Buffer.content b' = [])) eqn:Ec; zbool.
  - destruct (interest_step w1 A ch Channel.DisableWriting Ha1) as (p' & h' & A' & ch' & E & Ha' & Eev); [left; by apply writing_some|].
    change (loop_ (conn w)) with (loop_ (conn w1)). rewrite E. cbn [mbind res_bind]. set (w2 := with_channels w1 p' h').
    assert (streaming w2 A' ch' B) as Hm2.
    { destruct Hm, Ha'. split; cbn in *; try done; [lia| |].
      - rewrite (writing_bit Channel.DisableWriting ch ch' Eev). by rewrite bool_decide_eq_true_2.
      - by rewrite (reading_bit Channel.DisableWriting ch ch' Eev). }
    set (w3 := if _ : bool then _ else w2).
    assert (streaming w3 A' ch' B /\ state_ (conn w3) = state_ (conn w2) /\ loop_ (conn w3) = loop_ (conn w1)) as (Hm3 & Es3 & El3).
    { unfold w3. destruct (writeCompleteCallback_ _); [|by split_and!]. split_and!; [|done..]. apply (streaming_traced w2); try done; try apply Hm2.
      - rewrite elem_of_app, list_elem_of_singleton. intros [?|?]; [by apply (m_pending _ _ _ _ Hm2)|done].
      - rewrite queued_bytes_app. cbn. unfold zlen. cbn. lia. }
    destruct (bool_decide (state_ (conn w3) = kDisconnecting)) eqn:Ed; zbool.
    + destruct (shutdownInLoop_ok w3 A' ch' B Hm3) as (w' & E' & Hm' & Hd' & El'). rewrite <- El3, E'. exists w', A', ch'. split_and!; [done|done|done|congruence].
    + exists w3, A', ch'. split_and!; [done|done| |done]. by intros _ ?.
  - exists w1, A, ch. split_and!; [done| | |done].
    + destruct Hm, Ha1. split; cbn in *; try done; [lia|]. rewrite Ew. by rewrite bool_decide_eq_false_2.
    + by intros _ _ ?.
Qed.

(** ** A whole run *)

(** What the program and the kernel do with an established connection.  The
    kernel's answer to a write is a function of the length offered. *)
Inductive other_call := OtherSend (b : Buffer.t) | OtherShutdown | OtherStartRead | OtherStopRead.
Inductive action :=
  | InLoop (k : call)                                            (* on the loop's thread *)
  | FromThread (tid : Z) (k : other_call)                        (* on another thread *)
  | Writable (answer : Z -> write_result)                        (* the loop calls [handleWrite] *)
  | RunFunctor (answer : Z -> write_result) (callback : list call).

Definition act (w : world P) (a : action) : res (world P) :=
  let loop := loop_ (conn w) in
  match a with
  | InLoop k => run_call w loop k
  | FromThread tid (OtherSend b) => '(w, _) ← send_buffer w tid b (Wrote 0); Ok w
  | FromThread tid OtherShutdown => shutdown w tid
  | FromThread tid OtherStartRead => startRead w tid
  | FromThread tid OtherStopRead => stopRead w tid
  | Writable answer => handleWrite w loop (answer (zlen (Buffer.content (out w))))
  | RunFunctor answer callback => run_functor w loop (answer (match pending w with f :: _ => zlen (message_of f) | [] => 0 end)) callback
  end.
Fixpoint acts (w : world P) (l : list action) : res (world P) :=
  match l with [] => Ok w | a :: l => w ← act w a; acts w l end.

(** The connection is used as a stream: it is not closed by force, and the
    kernel reports no broken connection. *)
Definition call_ok (k : call) : Prop :=
  match k with Send d r => kernel_ok r (zlen d) | Shutdown | StartRead | StopRead => True | _ => False end.
Definition action_ok (loop : Z) (a : action) : Prop :=
  match a with
  | InLoop k => call_ok k
  | FromThread tid k => tid <> loop /\ match k with OtherSend b => Buffer.wf b | _ => True end
  | Writable answer => forall len, 0 <= len -> kernel_ok (answer len) len
  | RunFunctor answer callback => (forall len, 0 <= len -> kernel_ok (answer len) len) /\ Forall call_ok callback
  end.

Definition call_bytes (k : call) : Z := match k with Send d _ => zlen d | _ => 0 end.
Definition calls_bytes (l : list call) : Z := foldr (fun k n => call_bytes k + n) 0 l.
Definition action_bytes (a : action) : Z :=
  match a with
  | InLoop k => call_bytes k
  | FromThread _ (OtherSend b) => zlen (Buffer.content b)
  | RunFunctor _ callback => calls_bytes callback
  | _ => 0
  end.
Definition total_bytes (l : list action) : Z := foldr (fun a n => action_bytes a + n) 0 l.

Lemma runInLoop_self w f k : runInLoop w (loop_ (conn w)) f k = k w.
Proof. unfold runInLoop. by rewrite Z.eqb_refl. Qed.

Lemma run_call_ok w A ch B k : streaming w A ch B -> drains w -> call_ok k -> call_bytes k <= B -> B <= Buffer.max_size ->
  exists w' A' ch', run_call w (loop_ (conn w)) k = Ok w' /\ streaming w' A' ch' (B - call_bytes k) /\ drains w' /\ loop_ (conn w') = loop_ (conn w).
Proof.
  intros Hm Hd Hk Hb HB. destruct k as [d r| | | | | |n]; cbn [call_ok call_bytes run_call] in *; try done; rewrite ?Z.sub_0_r.
  - unfold send. rewrite runInLoop_self. destruct (sendInLoop_ok w A ch B d r Hm Hb HB Hk) as (w' & A' & ch' & E & Hm' & Hd' & El).
    exists w', A', ch'. split_and!; [by destruct (bool_decide _)|done|by apply Hd'|done].
  - unfold shutdown. destruct (bool_decide (state_ (conn w) = kConnected)); [|by exists w, A, ch].
    destruct (shutdownInLoop_ok (setState w kDisconnecting) A ch B) as (w' & E & Hm' & Hd' & El); [by apply streaming_state|].
    exists w', A, ch. split_and!; try done. change (loop_ (conn w)) with (loop_ (conn (setState w kDisconnecting))). by rewrite runInLoop_self.
  - unfold startRead. rewrite runInLoop_self. destruct (startReadInLoop_ok w A ch B Hm) as (w' & A' & ch' & E & Hm' & Hd' & El).
    exists w', A', ch'. split_and!; [done|done|by apply Hd'|done].
  - unfold stopRead. rewrite runInLoop_self. destruct (stopReadInLoop_ok w A ch B Hm) as (w' & A' & ch' & E & Hm' & Hd' & El).
    exists w', A', ch'. split_and!; [done|done|by apply Hd'|done].
Qed.

Lemma call_bytes_nonneg k : 0 <= call_bytes k.
Proof. destruct k; cbn; try done. apply zlen_nonneg. Qed.
Lemma calls_bytes_nonneg l : 0 <= calls_bytes l.
Proof. induction l as [|k l IH]; cbn; [done|]. pose proof (call_bytes_nonneg k). unfold calls_bytes in IH. lia. Qed.

Lemma run_calls_ok ks w A ch B : streaming w A ch B -> drains w -> Forall call_ok ks -> calls_bytes ks <= B -> B <= Buffer.max_size ->
  exists w' A' ch', run_calls w (loop_ (conn w)) ks = Ok w' /\ streaming w' A' ch' (B - calls_bytes ks) /\ drains w' /\ loop_ (conn w') = loop_ (conn w).
Proof.
  revert w A ch B. induction ks as [|k ks IH]; intros w A ch B Hm Hd Hk Hb HB; cbn [run_calls].
  { exists w, A, ch. split_and!; try done. cbn. by rewrite Z.sub_0_r. }
  apply Forall_cons in Hk as [Hk Hks]. change (calls_bytes (k :: ks)) with (call_bytes k + calls_bytes ks) in *. pose proof (calls_bytes_nonneg ks). pose proof (call_bytes_nonneg k).
  destruct (run_call_ok w A ch B k) as (w1 & A1 & ch1 & E1 & Hm1 & Hd1 & El1); try done; [lia|]. rewrite E1. cbn [mbind res_bind].
  destruct (IH w1 A1 ch1 (B - call_bytes k)) as (w2 & A2 & ch2 & E2 & Hm2 & Hd2 & El2); try done; [lia|lia|]. rewrite El1 in E2.
  exists w2, A2, ch2. split_and!; [done| |done|congruence]. replace (B - (call_bytes k + calls_bytes ks)) with (B - call_bytes k - calls_bytes ks) by lia. done.
Qed.

(** A functor queued by another thread. *)
Lemma streaming_queue w A ch B f : streaming w A ch B -> f <> ForceCloseInLoop -> zlen (message_of f) <= B ->
  streaming (queueInLoop w f) A ch (B - zlen (message_of f)).
Proof.
  intros [] Hf Hb. split; cbn; try done.
  - rewrite queued_bytes_app. lia.
  - rewrite elem_of_app, list_elem_of_singleton. intros [?|?]; congruence.
Qed.

Lemma drains_queue w f : drains w -> drains (queueInLoop w f).
Proof. intros Hd. pose proof (drains_more w [] [f] Hd) as Hd'. by rewrite app_nil_r in Hd'. Qed.

Lemma queued_bytes_cons f l : queued_bytes (f :: l) = zlen (message_of f) + queued_bytes l.
Proof. unfold queued_bytes. cbn. by rewrite zlen_app. Qed.

Lemma run_functor_ok w A ch B answer callback : streaming w A ch B -> drains w -> (forall len, 0 <= len -> kernel_ok (answer len) len) ->
  Forall call_ok callback -> 0 <= calls_bytes callback <= B ->
  let r := answer (match pending w with f :: _ => zlen (message_of f) | [] => 0 end) in
  exists w' A' ch', run_functor w (loop_ (conn w)) r callback = Ok w' /\ streaming w' A' ch' (B - calls_bytes callback) /\ drains w' /\ loop_ (conn w') = loop_ (conn w).
Proof.
  intros Hm Hd Hk Hcs Hb. unfold run_functor. destruct (pending w) as [|f fs] eqn:Ep.
  { exists w, A, ch. split_and!; try done. apply (streaming_less _ _ _ B); [done|lia]. }
  set (w1 := mk_world (conn w) (poller w) (heap w) fs (trace w)). cbn zeta.
  pose proof (m_pending _ _ _ _ Hm) as Hp. pose proof (m_budget _ _ _ _ Hm) as Hbud. rewrite Ep, queued_bytes_cons in *.
  assert ((ForceCloseInLoop ∉ fs) /\ f <> ForceCloseInLoop) as [Hp1 Hp2] by (apply not_elem_of_cons in Hp as [? ?]; split; congruence || done).
  pose proof (zlen_nonneg (message_of f)) as Hz. pose proof (queued_bytes_nonneg fs) as Hq. pose proof (zlen_nonneg (Buffer.buffer_ (out w))) as Hs0.
  change (zlen (Buffer.buffer_ (out w))) with (Buffer.size (out w)) in Hs0.
  assert (streaming w1 A ch (B + zlen (message_of f))) as Hm1. { destruct Hm. split; cbn; try done. lia. }
  assert (streaming w1 A ch B) as Hm0 by (apply (streaming_less _ _ _ _ _ Hm1); lia).
  assert (f <> ShutdownInLoop -> drains w1) as Hd1.
  { intros Hf Hst Hc. destruct (Hd Hst Hc) as [?|Hin]; [by left|]. rewrite Ep in Hin. right. apply elem_of_cons in Hin as [?|?]; congruence || done. }
  assert (forall w' A' ch', streaming w' A' ch' B -> streaming w' A' ch' (B - calls_bytes callback)) as Hless.
  { intros w' A' ch' Hm'. apply (streaming_less _ _ _ B); [done|lia]. }
  destruct f as [d| | | | | |n]; try done.
  - cbn [message_of] in *. destruct (sendInLoop_ok w1 A ch (B + zlen d) d (answer (zlen d)) Hm1) as (w' & A' & ch' & E & Hm' & Hd' & El); [lia|lia|apply Hk, zlen_nonneg|].
    exists w', A', ch'. replace (B + zlen d - zlen d) with B in Hm' by lia. split_and!; [done|by apply Hless|by apply Hd', Hd1|done].
  - destruct (shutdownInLoop_ok w1 A ch B Hm0) as (w' & E & Hm' & Hd' & El). exists w', A, ch. split_and!; [done|by apply Hless|done|done].
  - destruct (startReadInLoop_ok w1 A ch B Hm0) as (w' & A' & ch' & E & Hm' & Hd' & El). exists w', A', ch'. split_and!; [done|by apply Hless|by apply Hd', Hd1|done].
  - destruct (stopReadInLoop_ok w1 A ch B Hm0) as (w' & A' & ch' & E & Hm' & Hd' & El). exists w', A', ch'. split_and!; [done|by apply Hless|by apply Hd', Hd1|done].
  - by apply (run_calls_ok callback w1 A ch B Hm0 (Hd1 ltac:(done)) Hcs); lia.
  - by apply (run_calls_ok callback w1 A ch B Hm0 (Hd1 ltac:(done)) Hcs); lia.
Qed.

Lemma retrieveAllAsString_ok b : Buffer.wf b -> exists b', Buffer.retrieveAllAsString b = Ok (Buffer.content b, b').
Proof.
  intros Hwf. unfold Buffer.retrieveAllAsString. rewrite Buffer.readableBytes_content by done.
  destruct (Buffer.retrieveAsString_ok b (zlen (Buffer.content b)) Hwf) as (b' & E & _); [split; [apply zlen_nonneg|done]|].
  rewrite E. exists b'. unfold zlen. rewrite Nat2Z.id, take_ge by done. done.
Qed.

(** The request of another thread to shut down: it is queued. *)
Lemma other_shutdown_ok w A ch B tid : streaming w A ch B -> drains w -> tid <> loop_ (conn w) -> 0 <= B ->
  exists w', shutdown w tid = Ok w' /\ streaming w' A ch B /\ drains w' /\ loop_ (conn w') = loop_ (conn w).
Proof.
  intros Hm Hd Ht HB. unfold shutdown. destruct (bool_decide (state_ (conn w) = kConnected)); [|by exists w].
  unfold runInLoop. cbn [conn setState with_conn set_state loop_]. rewrite (proj2 (Z.eqb_neq _ _)) by done. eexists. split_and!; [done| | |done].
  - pose proof (streaming_queue _ A ch B ShutdownInLoop (streaming_state w A ch B kDisconnecting Hm eq_refl) ltac:(done) HB) as Hm'.
    cbn [message_of] in Hm'. rewrite zlen_nil, Z.sub_0_r in Hm'. done.
  - intros _ _. right. cbn. apply elem_of_app. right. by apply list_elem_of_singleton.
Qed.

Lemma act_ok w A ch B a : streaming w A ch B -> drains w -> action_ok (loop_ (conn w)) a -> action_bytes a <= B ->
  exists w' A' ch', act w a = Ok w' /\ streaming w' A' ch' (B - action_bytes a) /\ drains w' /\ loop_ (conn w') = loop_ (conn w).
Proof.
  intros Hm Hd Ha Hb. pose proof (m_budget _ _ _ _ Hm) as Hbud. pose proof (queued_bytes_nonneg (pending w)) as Hq.
  pose proof (zlen_nonneg (Buffer.buffer_ (out w))) as Hs0. change (zlen (Buffer.buffer_ (out w))) with (Buffer.size (out w)) in Hs0.
  destruct a as [k|tid [b| | |]|answer|answer callback]; cbn [act action_ok action_bytes] in *; rewrite ?Z.sub_0_r.
  - apply (run_call_ok w A ch B k); try done. lia.
  - destruct Ha as [Ht Hwf]. unfold send_buffer. destruct (bool_decide (state_ (conn w) = kConnected)).
    + rewrite (proj2 (Z.eqb_neq _ _)) by done. destruct (retrieveAllAsString_ok b Hwf) as [b' E]. rewrite E. cbn [mbind res_bind].
      unfold runInLoop. rewrite (proj2 (Z.eqb_neq _ _)) by done. cbn [mbind res_bind]. eexists _, A, ch.
      split_and!; [done|by apply (streaming_queue w A ch B (SendInLoop (Buffer.content b)))|by apply drains_queue|done].
    + exists w, A, ch. split_and!; try done. apply (streaming_less _ _ _ B); [done|]. pose proof (zlen_nonneg (Buffer.content b)). lia.
  - destruct Ha as [Ht _]. destruct (other_shutdown_ok w A ch B tid Hm Hd Ht Hb) as (w' & ? & ? & ? & ?). by exists w', A, ch.
  - destruct Ha as [Ht _]. unfold startRead, runInLoop. rewrite (proj2 (Z.eqb_neq _ _)) by done. eexists _, A, ch. split_and!; [done| |by apply drains_queue|done].
    pose proof (streaming_queue w A ch B StartReadInLoop Hm ltac:(done) Hb) as Hm'. cbn [message_of] in Hm'. by rewrite zlen_nil, Z.sub_0_r in Hm'.
  - destruct Ha as [Ht _]. unfold stopRead, runInLoop. rewrite (proj2 (Z.eqb_neq _ _)) by done. eexists _, A, ch. split_and!; [done| |by apply drains_queue|done].
    pose proof (streaming_queue w A ch B StopReadInLoop Hm ltac:(done) Hb) as Hm'. cbn [message_of] in Hm'. by rewrite zlen_nil, Z.sub_0_r in Hm'.
  - destruct (handleWrite_ok w A ch B (answer (zlen (Buffer.content (out w)))) Hm (Ha _ (zlen_nonneg _))) as (w' & A' & ch' & E & Hm' & Hd' & El).
    exists w', A', ch'. split_and!; [done|done|by apply Hd'|done].
  - destruct Ha as [Hk Hcs]. apply (run_functor_ok w A ch B answer callback); try done. split; [apply calls_bytes_nonneg|done].
Qed.

Lemma action_bytes_nonneg a : 0 <= action_bytes a.
Proof. destruct a as [k|tid []|answer|answer callback]; cbn; try done; [apply call_bytes_nonneg|apply zlen_nonneg|apply calls_bytes_nonneg]. Qed.
Lemma total_bytes_nonneg l : 0 <= total_bytes l.
Proof. induction l as [|a l IH]; cbn; [done|]. pose proof (action_bytes_nonneg a). unfold total_bytes in IH. lia. Qed.

Lemma acts_ok l w A ch B : streaming w A ch B -> drains w -> Forall (action_ok (loop_ (conn w))) l -> total_bytes l <= B ->
  exists w' A' ch', acts w l = Ok w' /\ streaming w' A' ch' (B - total_bytes l) /\ drains w'.
Proof.
  revert w A ch B. induction l as [|a l IH]; intros w A ch B Hm Hd Ha Hb; cbn [acts].
  { exists w, A, ch. split_and!; try done. cbn. by rewrite Z.sub_0_r. }
  apply Forall_cons in Ha as [Ha Hl]. change (total_bytes (a :: l)) with (action_bytes a + total_bytes l) in *. pose proof (total_bytes_nonneg l).
  destruct (act_ok w A ch B a) as (w1 & A1 & ch1 & E1 & Hm1 & Hd1 & El1); try done; [lia|]. rewrite E1. cbn [mbind res_bind].
  destruct (IH w1 A1 ch1 (B - action_bytes a)) as (w2 & A2 & ch2 & E2 & Hm2 & Hd2); try done; [by rewrite El1|lia|].
  exists w2, A2, ch2. split_and!; [done| |done]. by replace (B - (action_bytes a + total_bytes l)) with (B - action_bytes a - total_bytes l) by lia.
Qed.

(** ** What the program asked for *)

(** What a call on the loop's thread asks to send. *)
Definition spoken (k : call) : list (list byte) := match k with Send d _ => [d] | _ => [] end.
(** An action's messages: those sent on the loop's thread, by the program or by a
    callback that runs, and those sent on other threads while the connection was
    up.  They are read off the calls and the state, not off the trace. *)
Definition own w (a : action) : list (list byte) :=
  match a with
  | InLoop k => spoken k
  | RunFunctor _ callback => match pending w with (WriteComplete | HighWaterMark _) :: _ => concat (map spoken callback) | _ => [] end
  | _ => []
  end.
Definition others w (a : action) : list (list byte) :=
  match a with
  | FromThread _ (OtherSend b) => if bool_decide (state_ (conn w) = kConnected) then [Buffer.content b] else []
  | _ => []
  end.
Fixpoint given w (l : list action) : list (list byte) * list (list byte) :=
  match l with
  | [] => ([], [])
  | a :: l =>
      match act w a with
      | Ok w' => let '(o, t) := given w' l in (own w a ++ o, others w a ++ t)
      | Err _ => ([], [])
      end
  end.

(** An operation hands [ms] to [sendInLoop], and queues no message. *)
Record hands w w' (ms : list (list byte)) : Prop := {
  hd_loop : loop_ (conn w') = loop_ (conn w);
  hd_messages : messages (trace w') = messages (trace w) ++ ms;
  hd_letters : letters (pending w') = letters (pending w);
}.

Lemma hands_same w w' : loop_ (conn w') = loop_ (conn w) -> messages (trace w') = messages (trace w) ->
  letters (pending w') = letters (pending w) -> hands w w' [].
Proof. intros. split; [done|by rewrite app_nil_r|done]. Qed.
Lemma hands_trans w1 w2 w3 ms ns : hands w1 w2 ms -> hands w2 w3 ns -> hands w1 w3 (ms ++ ns).
Proof. intros [] []. split; [congruence| |congruence]. by rewrite app_assoc, <- hd_messages0. Qed.
Lemma hands_queue w f : letters [f] = [] -> hands w (queueInLoop w f) [].
Proof. intros Hf. apply hands_same; [done..|]. cbn. unfold letters. rewrite omap_app. fold (letters [f]). by rewrite Hf, app_nil_r. Qed.
Lemma hands_happens w e : hands w (happens w e) (messages [e]).
Proof. split; [done| |done]. cbn. unfold messages. by rewrite omap_app. Qed.

Lemma interest_hands w tid o w' : interest w tid o = Ok w' -> hands w w' [].
Proof. unfold interest. intros E. res_inv. destruct a as [p h]. res_inv. by apply hands_same. Qed.

Lemma queue_output_hands w tid ch rest n w' : queue_output w tid ch rest n = Ok w' -> hands w w' [].
Proof.
  unfold queue_output. intros E. res_inv. set (w1 := if _ : bool then queueInLoop w _ else w) in E.
  assert (hands w w1 []) as H1 by (unfold w1; destruct (_ && _); [by apply hands_queue|by apply hands_same]).
  set (w2 := with_conn w1 _) in *. assert (hands w w2 []) as H2. { destruct H1. by apply hands_same; [|rewrite app_nil_r in *|]. }
  destruct (negb _); [|by res_inv]. apply interest_hands in E. apply (hands_trans _ _ _ _ _ H2 E).
Qed.

Lemma sendInLoop_hands w tid d r w' : sendInLoop w tid d r = Ok w' -> hands w w' [d].
Proof.
  unfold sendInLoop. intros E. res_inv. clear E0 E1.
  match type of E with match ?b with _ => _ end = _ => destruct b as [[[w2 nw] rem] fault] eqn:Eb end.
  assert (hands w w2 [d]) as H2.
  { clear E. pose proof (hands_happens w (Sent d)) as H1. destruct (_ && _); [|by injection Eb as <- <- <- <-].
    destruct r as [n|e]; [|by injection Eb as <- <- <- <-].
    injection Eb as <- <- <- <-. pose proof (hands_trans _ _ _ _ _ H1 (hands_happens _ (Taken (take (Z.to_nat n) d)))) as H2.
    destruct (_ && _); [|exact H2]. apply (hands_trans _ _ _ [d] [] H2), hands_queue. done. }
  clear Eb. res_inv. destruct (negb fault && _); [|by res_inv]. apply queue_output_hands in E. apply (hands_trans _ _ _ [d] [] H2 E).
Qed.

Lemma shutdownInLoop_hands w tid w' : shutdownInLoop w tid = Ok w' -> hands w w' [].
Proof. unfold shutdownInLoop. intros E. res_inv. case_match; res_inv; [apply hands_happens|by apply hands_same]. Qed.
Lemma startReadInLoop_hands w tid w' : startReadInLoop w tid = Ok w' -> hands w w' [].
Proof. unfold startReadInLoop. intros E. res_inv. case_match; res_inv; [|by apply hands_same]. apply interest_hands in E2. by destruct E2. Qed.
Lemma stopReadInLoop_hands w tid w' : stopReadInLoop w tid = Ok w' -> hands w w' [].
Proof. unfold stopReadInLoop. intros E. res_inv. case_match; res_inv; [|by apply hands_same]. apply interest_hands in E2. by destruct E2. Qed.

Lemma run_call_hands w k w' : run_call w (loop_ (conn w)) k = Ok w' -> hands w w' (spoken k).
Proof.
  destruct k as [d r| | | | | |n]; cbn [run_call spoken].
  - unfold send. rewrite runInLoop_self. destruct (bool_decide _); apply sendInLoop_hands.
  - unfold shutdown. case_match; [|intros E; res_inv; by apply hands_same].
    change (loop_ (conn w)) with (loop_ (conn (setState w kDisconnecting))). rewrite runInLoop_self. intros [? ? ?]%shutdownInLoop_hands. by split.
  - intros [= <-]. unfold forceClose. case_match; [|by apply hands_same]. destruct (hands_queue (setState w kDisconnecting) ForceCloseInLoop eq_refl). by split.
  - intros [= <-]. unfold forceCloseWithDelay. case_match; [|by apply hands_same]. destruct (hands_happens (setState w kDisconnecting) RunAfter). by split.
  - unfold startRead. rewrite runInLoop_self. apply startReadInLoop_hands.
  - unfold stopRead. rewrite runInLoop_self. apply stopReadInLoop_hands.
  - intros E. res_inv. by apply hands_same.
Qed.

Lemma run_calls_hands ks w w' : run_calls w (loop_ (conn w)) ks = Ok w' -> hands w w' (concat (map spoken ks)).
Proof.
  revert w. induction ks as [|k ks IH]; intros w E; cbn [run_calls] in E; [res_inv; by apply hands_same|].
  res_inv. apply run_call_hands in E0. rewrite <- (hd_loop _ _ _ E0) in E. apply (hands_trans _ _ _ _ _ E0), IH, E.
Qed.

Lemma handleWrite_hands w tid r w' : handleWrite w tid r = Ok w' -> hands w w' [].
Proof.
  unfold handleWrite. intros E. res_inv. clear E0 E1. assert (hands w w []) as G0 by by apply hands_same.
  case_match; [|by res_inv]. destruct r as [n|e]; [|by res_inv]. case_match; [|by res_inv]. res_inv.
  pose proof (hands_happens w (Taken (take (Z.to_nat n) (Buffer.content (out w))))) as G2. case_match; [|by res_inv; destruct G2].
  res_inv. apply interest_hands in E1. set (w2 := with_conn _ _) in E1. assert (hands w w2 []) as G3 by by destruct G2.
  pose proof (hands_trans _ _ _ _ _ G3 E1) as G4. set (w4 := if writeCompleteCallback_ _ then _ else _) in E.
  assert (hands w w4 []) as G5 by (unfold w4; destruct (writeCompleteCallback_ _); [by apply (hands_trans _ _ _ _ _ G4), hands_queue|done]).
  case_match; [|by res_inv]. apply shutdownInLoop_hands in E. apply (hands_trans _ _ _ _ _ G5 E).
Qed.

Lemma letters_app l k : letters (l ++ k) = letters l ++ letters k.
Proof. apply omap_app. Qed.

(** A step hands over its own messages and those it takes from the queue, where
    the messages of other threads wait. *)
Definition passes w w' (o t : list (list byte)) : Prop :=
  exists m ms, messages (trace w') = messages (trace w) ++ ms /\ merge o m ms /\ letters (pending w) ++ t = m ++ letters (pending w').

Lemma hands_passes w w' ms : hands w w' ms -> passes w w' ms [].
Proof. intros []. exists [], ms. split_and!; [done|apply merge_only_left|by rewrite app_nil_r]. Qed.

Lemma other_passes w a w' tid k : a = FromThread tid k -> action_ok (loop_ (conn w)) a -> act w a = Ok w' -> passes w w' [] (others w a).
Proof.
  assert (forall f u, trace u = trace w -> pending u = pending w ++ [f] -> passes w u [] (letters [f])) as Hq.
  { intros f u Et Ep. exists [], []. rewrite Et, Ep, letters_app, app_nil_r. by split_and!; [|constructor|]. }
  intros -> [Ht Hk] E. destruct k as [b| | |]; cbn [act others] in *.
  - unfold send_buffer in E. destruct (bool_decide _); cbn in E; [|res_inv; by apply hands_passes, hands_same].
    rewrite (proj2 (Z.eqb_neq _ _)) in E by done. destruct (retrieveAllAsString_ok b Hk) as [b' Eb]. rewrite Eb in E. cbn [mbind res_bind] in E.
    unfold runInLoop in E. rewrite (proj2 (Z.eqb_neq _ _)) in E by done. injection E as <-. by apply (Hq (SendInLoop (Buffer.content b))).
  - unfold shutdown, runInLoop in E. destruct (bool_decide _); cbn in E; [|injection E as <-; by apply hands_passes, hands_same].
    rewrite (proj2 (Z.eqb_neq _ _)) in E by done. injection E as <-. by apply (Hq ShutdownInLoop).
  - unfold startRead, runInLoop in E. rewrite (proj2 (Z.eqb_neq _ _)) in E by done. injection E as <-. by apply (Hq StartReadInLoop).
  - unfold stopRead, runInLoop in E. rewrite (proj2 (Z.eqb_neq _ _)) in E by done. injection E as <-. by apply (Hq StopReadInLoop).
Qed.

Lemma functor_passes w answer callback w' : ForceCloseInLoop ∉ pending w -> act w (RunFunctor answer callback) = Ok w' ->
  passes w w' (own w (RunFunctor answer callback)) [].
Proof.
  intros Hp E. cbn [act own] in *. unfold run_functor in E. destruct (pending w) as [|f fs] eqn:Ep; [res_inv; by apply hands_passes, hands_same|].
  set (w1 := mk_world (conn w) (poller w) (heap w) fs (trace w)) in E.
  assert (forall ms, letters [f] = [] -> hands w1 w' ms -> passes w w' ms []) as Hno.
  { intros ms Hf [_ Hm Hl]. exists [], ms. rewrite Ep, app_nil_r. split_and!; [done|apply merge_only_left|].
    change (f :: fs) with ([f] ++ fs). by rewrite letters_app, Hf, Hl. }
  destruct f as [d| | | | | |n]; try (by apply not_elem_of_cons in Hp as [? _]).
  - apply sendInLoop_hands in E as [_ Hm Hl]. exists [d], [d]. rewrite Ep, app_nil_r. split_and!; [done|apply merge_only_right|]. by rewrite Hl.
  - apply Hno; [done|]. by eapply shutdownInLoop_hands.
  - apply Hno; [done|]. by eapply startReadInLoop_hands.
  - apply Hno; [done|]. by eapply stopReadInLoop_hands.
  - apply Hno; [done|]. by apply (run_calls_hands callback w1).
  - apply Hno; [done|]. by apply (run_calls_hands callback w1).
Qed.

Lemma act_passes w a w' : action_ok (loop_ (conn w)) a -> ForceCloseInLoop ∉ pending w -> act w a = Ok w' -> passes w w' (own w a) (others w a).
Proof.
  intros Ha Hp E. destruct a as [k|tid k|answer|answer callback].
  - by apply hands_passes, run_call_hands.
  - by apply (other_passes w _ w' tid k).
  - apply hands_passes. by eapply handleWrite_hands.
  - by apply functor_passes.
Qed.

Lemma acts_passes l w A ch B w' : streaming w A ch B -> drains w -> Forall (action_ok (loop_ (conn w))) l -> total_bytes l <= B ->
  acts w l = Ok w' -> passes w w' (given w l).1 (given w l).2.
Proof.
  revert w A ch B. induction l as [|a l IH]; intros w A ch B Hm Hd Ha Hb E; cbn [acts given] in *; [res_inv; by apply hands_passes, hands_same|].
  apply Forall_cons in Ha as [Ha Hl]. change (total_bytes (a :: l)) with (action_bytes a + total_bytes l) in *. pose proof (total_bytes_nonneg l).
  destruct (act_ok w A ch B a) as (w1 & A1 & ch1 & E1 & Hm1 & Hd1 & El1); try done; [lia|]. rewrite E1 in E |- *. cbn [mbind res_bind] in E.
  destruct (act_passes w a w1 Ha (m_pending _ _ _ _ Hm) E1) as (m1 & ms1 & M1 & G1 & L1).
  destruct (IH w1 A1 ch1 (B - action_bytes a) Hm1 Hd1) as (m2 & ms2 & M2 & G2 & L2); [by rewrite El1|lia|done|].
  destruct (given w1 l) as [o t]. cbn [fst snd] in *. exists (m1 ++ m2), (ms1 ++ ms2). split_and!; [|by apply merge_app|].
  - by rewrite M2, M1, app_assoc.
  - by rewrite app_assoc, L1, <- !app_assoc, L2.
Qed.

(** ** A new connection *)

Lemma new_buffer_ok : exists b, Buffer.new Buffer.kInitialSize = Ok b /\ Buffer.wf b /\ Buffer.content b = [] /\ Buffer.size b = 1032.
Proof.
  destruct (Buffer.new_ok Buffer.kInitialSize) as (b & E & Hwf & Hc & Hw & Hr); [done|done|]. exists b. split_and!; try done.
  pose proof (Buffer.zlen_content b Hwf) as Hz. rewrite Hc, zlen_nil in Hz. rewrite Buffer.writableBytes_wf in Hw by done.
  unfold Buffer.kInitialSize, Buffer.kCheapPrepend in *. lia.
Qed.

(** The first registration of a channel. *)
Lemma first_interest w A ch : rep (poller w) (heap w) A -> owner_tid (poller w) = loop_ (conn w) -> heap w !! channel_ (conn w) = Some ch ->
  0 <= Channel.fd_ ch -> Channel.events_ ch = 0 -> Channel.index_ ch = -1 -> A !! Channel.fd_ ch = None -> Z.of_nat (size A) + 1 < int_max ->
  exists p' h' A' ch', interest w (loop_ (conn w)) Channel.EnableReading = Ok (with_channels w p' h') /\ attached (with_channels w p' h') A' ch' /\
    Channel.events_ ch' = Channel.new_events Channel.EnableReading 0.
Proof.
  intros Hr Ho Hc Hf He Hi HA Hs.
  destruct (Interest.interest_fresh (poller w) (heap w) A (channel_ (conn w)) ch Channel.EnableReading) as (p' & h' & ch' & E & Eo & [] & E1 & E2 & _); try done.
  eexists p', h', _, ch'. split_and!; [|by split; cbn; eauto; congruence|done].
  unfold interest. by rewrite <- Ho, E.
Qed.

Lemma established p h A loop c fd u1 u2 :
  rep p h A -> owner_tid p = loop -> h !! c = None -> A !! fd = None -> 0 <= fd -> Z.of_nat (size A) + 1 < int_max ->
  exists w0 w1 A1 ch1, new p h loop c fd u1 u2 = Ok w0 /\ connectEstablished w0 loop [] = Ok w1 /\
    streaming w1 A1 ch1 (2 ^ 62) /\ drains w1 /\ loop_ (conn w1) = loop.
Proof.
  intros Hr Ho Hc HA Hf Hs. destruct new_buffer_ok as (b & Eb & Hwf & Hcb & Hsz). unfold new. rewrite Eb. cbn [mbind res_bind].
  set (ch := Channel.setCallback _ _). set (w0 := mk_world _ p _ [] []). exists w0.
  unfold connectEstablished. cbn [conn loop_ w0]. rewrite assertInLoopThread_self. cbn [mbind res_bind].
  rewrite assert_true by (by apply bool_decide_eq_true_2). unfold channel, Channel.deref, setState. cbn [with_conn conn heap set_state channel_ w0 poller].
  rewrite lookup_insert_eq. cbn [mbind res_bind with_channels conn poller heap pending trace]. rewrite insert_insert_eq.
  match goal with |- context [interest ?w _ _] => set (w1 := w) end.
  destruct (first_interest w1 A (Channel.tie ch)) as (p' & h' & A' & ch' & E & Ha & Eev); try done; [by apply rep_new|apply lookup_insert_eq|].
  change (loop_ (conn w1)) with loop in E.
  rewrite E. cbn [mbind res_bind run_calls]. eexists _, A', ch'. split_and!; [done|done| |done|done].
  destruct Ha. split; cbn in *; try done.
  - rewrite Hsz. by vm_compute.
  - rewrite (writing_bit Channel.EnableReading (Channel.tie ch) ch' Eev), Hcb. done.
  - by rewrite (reading_bit Channel.EnableReading (Channel.tie ch) ch' Eev).
  - apply (fin_snoc [] _); [|done]. by intros [|? ?] t2.
  - apply not_elem_of_nil.
Qed.

Lemma established_hands p h loop c fd u1 u2 w0 w1 : new p h loop c fd u1 u2 = Ok w0 -> connectEstablished w0 loop [] = Ok w1 ->
  messages (trace w1) = [] /\ letters (pending w1) = [].
Proof.
  unfold new. intros E0 E1. res_inv. unfold connectEstablished in E1. res_inv. cbn [run_calls] in E1. injection E1 as <-.
  match goal with H : interest _ _ _ = Ok _ |- _ => apply interest_hands in H as [_ Hm Hl] end. cbn in Hm, Hl. by rewrite (hd_messages _ _ _ (hands_happens _ _)), Hm.
Qed.


End Stream.

(** A connection on poll(2): a message goes out in two pieces while another
    thread sends one, and a shutdown asked for in between waits for both. *)
Definition sample_buffer : Buffer.t := Buffer.mk (replicate 8 x00 ++ bs "you") 8 11.
Definition sample_actions : list action :=
  [InLoop (Send (bs "hello") (Wrote 2)); FromThread 2 (OtherSend sample_buffer); RunFunctor (fun len => Wrote len) []; InLoop Shutdown;
   Writable (fun len => Wrote len)].


End ConnFacts.
