(* ===== verification/ConnProtocol.v ===== *)
(** The order of the user's callbacks of src/networking/TcpConnection.cpp, and
    where the interface lets a caller break the connection. *)

From S2P Require Import Prelude Buffer Channel Poller PollPoller TcpConnection.

Module ConnProtocol.
Import TcpConnection.
Section Protocol.
Context {P : Type} {HP : Poller P}.
Implicit Types (w : world P).

(** The connection and close callbacks of a trace. *)
Definition is_callback (e : event) : Prop := match e with ConnectionCallback _ | CloseCallback => True | _ => False end.
#[local] Instance is_callback_dec e : Decision (is_callback e).
Proof. destruct e; apply _. Defined.
Definition callbacks (w : world P) : list event := filter is_callback (trace w).

(** The connection is announced once, then its end once; the owner is told of a
    close at most once and last. *)
Definition protocol (w : world P) : Prop :=
  match state_ (conn w) with
  | kConnecting => callbacks w = []
  | kConnected | kDisconnecting => callbacks w = [ConnectionCallback true]
  | kDisconnected => callbacks w = [ConnectionCallback true; ConnectionCallback false] \/
      callbacks w = [ConnectionCallback true; ConnectionCallback false; CloseCallback]
  end.

(** Operations that call nobody back: at most they ask for the end. *)
Definition calm (w w' : world P) : Prop :=
  callbacks w' = callbacks w /\
  (state_ (conn w') = state_ (conn w) \/ (state_ (conn w) <> kConnecting /\ state_ (conn w) <> kDisconnected /\ state_ (conn w') = kDisconnecting)).

Lemma calm_refl w : calm w w.
Proof. split; [done|by left]. Qed.
Lemma calm_trans w1 w2 w3 : calm w1 w2 -> calm w2 w3 -> calm w1 w3.
Proof. intros [E1 H1] [E2 H2]. split; [congruence|]. destruct H1 as [H1|(? & ? & H1)], H2 as [H2|(? & ? & H2)]; rewrite ?H1 in *; auto. Qed.
Lemma calm_protocol w w' : calm w w' -> protocol w -> protocol w'.
Proof.
  intros [E H] Hp. unfold protocol in *. rewrite E. destruct H as [->|(H1 & H2 & ->)]; [done|]. destruct (state_ (conn w)); done.
Qed.

Lemma callbacks_happens w e : callbacks (happens w e) = callbacks w ++ filter is_callback [e].
Proof. unfold callbacks, happens. cbn [trace]. by rewrite filter_app. Qed.
Lemma calm_happens w e : ~ is_callback e -> calm w (happens w e).
Proof. intros He. split; [|by left]. rewrite callbacks_happens, filter_cons_False by done. by rewrite filter_nil, app_nil_r. Qed.
Lemma calm_if w (b : bool) w1 w2 : calm w w1 -> calm w w2 -> calm w (if b then w1 else w2).
Proof. by destruct b. Qed.

Lemma interest_same w tid o w' : interest w tid o = Ok w' -> exists p h, w' = with_channels w p h.
Proof. unfold interest. intros E. apply res_bind_Ok in E as ([p h] & _ & E). injection E as <-. by exists p, h. Qed.
Lemma interest_calm w tid o w' : interest w tid o = Ok w' -> calm w w'.
Proof. intros (p & h & ->)%interest_same. by split; [|left]. Qed.

Lemma queue_output_calm w tid ch rest n w' : queue_output w tid ch rest n = Ok w' -> calm w w'.
Proof.
  unfold queue_output. intros E. apply res_bind_Ok in E as (b & _ & E). set (w1 := if _ : bool then _ else w) in E.
  assert (calm w (with_conn w1 (set_output (conn w) b))) as Hc by (unfold w1; destruct (_ && _); by split; [|left]).
  destruct (negb _); [|by injection E as <-]. eapply calm_trans; [exact Hc|by eapply interest_calm].
Qed.

Lemma sendInLoop_calm w tid d r w' : sendInLoop w tid d r = Ok w' -> calm w w'.
Proof.
  unfold sendInLoop. intros E. apply res_bind_Ok in E as ([] & _ & E). apply res_bind_Ok in E as (ch & _ & E).
  assert (calm w (happens w (Sent d))) as H1 by (apply calm_happens; by intros []). revert E.
  set (q := if _ : bool then _ else _). assert (calm w q.1.1.1) as Hq.
  { unfold q. destruct (_ && _); [|done]. destruct r as [n|e]; cbn; [|done]. apply calm_if; (eapply calm_trans; [exact H1|apply calm_happens; by intros []]). }
  clearbody q. destruct q as [[[w1 nw] rem] fe]. cbn in Hq. intros E. apply assert_Ok in E as [_ E].
  destruct (negb fe && _); [|by injection E as <-]. eapply calm_trans; [exact Hq|by eapply queue_output_calm].
Qed.

Lemma shutdownInLoop_calm w tid w' : shutdownInLoop w tid = Ok w' -> calm w w'.
Proof.
  unfold shutdownInLoop. intros E. res_inv. destruct (negb _); res_inv; [apply calm_happens; by intros []|apply calm_refl].
Qed.

Lemma startReadInLoop_calm w tid w' : startReadInLoop w tid = Ok w' -> calm w w'.
Proof.
  unfold startReadInLoop. intros E. res_inv. destruct (_ || _); res_inv; [|apply calm_refl]. eapply calm_trans; [by eapply interest_calm|by split; [|left]].
Qed.
Lemma stopReadInLoop_calm w tid w' : stopReadInLoop w tid = Ok w' -> calm w w'.
Proof.
  unfold stopReadInLoop. intros E. res_inv. destruct (_ || _); res_inv; [|apply calm_refl]. eapply calm_trans; [by eapply interest_calm|by split; [|left]].
Qed.

Lemma up_states s : up s = true -> s <> kConnecting /\ s <> kDisconnected.
Proof. by destruct s. Qed.

Lemma run_call_calm w tid k w' : run_call w tid k = Ok w' -> calm w w'.
Proof.
  destruct k as [d r| | | | | |n]; cbn [run_call]; intros E.
  - unfold send, runInLoop in E. destruct (bool_decide _); [by eapply sendInLoop_calm|]. destruct (_ =? _); [by eapply sendInLoop_calm|injection E as <-; by split; [|left]].
  - unfold shutdown, runInLoop in E. destruct (bool_decide (state_ (conn w) = kConnected)) eqn:Es; zbool; [|injection E as <-; apply calm_refl].
    assert (calm w (setState w kDisconnecting)) as H1 by (split; [done|right; by rewrite Es]).
    destruct (_ =? _); [eapply calm_trans; [exact H1|by eapply shutdownInLoop_calm]|injection E as <-; exact H1].
  - injection E as <-. unfold forceClose. destruct (up _) eqn:Eu; [|apply calm_refl]. apply up_states in Eu as [? ?]. split; [done|by right].
  - injection E as <-. unfold forceCloseWithDelay. destruct (up _) eqn:Eu; [|apply calm_refl]. apply up_states in Eu as [? ?].
    eapply (calm_trans _ (setState w kDisconnecting)); [split; [done|by right]|apply calm_happens; by intros []].
  - unfold startRead, runInLoop in E. destruct (_ =? _); [by eapply startReadInLoop_calm|injection E as <-; by split; [|left]].
  - unfold stopRead, runInLoop in E. destruct (_ =? _); [by eapply stopReadInLoop_calm|injection E as <-; by split; [|left]].
  - res_inv. by split; [|left].
Qed.

Lemma run_calls_calm ks w tid w' : run_calls w tid ks = Ok w' -> calm w w'.
Proof.
  revert w. induction ks as [|k ks IH]; cbn; intros w E; [injection E as <-; apply calm_refl|].
  apply res_bind_Ok in E as (w1 & E1 & E). eapply calm_trans; [by eapply run_call_calm|by eapply IH].
Qed.

(** ** All the ways the connection is entered *)

Inductive entry :=
  | EnterCall (tid : Z) (k : call)
  | EnterBuffer (tid : Z) (b : Buffer.t) (r : write_result)
  | EnterEstablished (callback : list call)
  | EnterDestroyed (callback : list call)
  | EnterRead (readv : list Z -> Buffer.readv_result) (now : Z) (debug : bool) (callback : list call)
  | EnterWrite (r : write_result)
  | EnterClose (callback : list call)
  | EnterError
  | EnterFunctor (r : write_result) (callback : list call).

Definition enter (w : world P) (e : entry) : res (world P) :=
  let loop := loop_ (conn w) in
  match e with
  | EnterCall tid k => run_call w tid k
  | EnterBuffer tid b r => '(w, _) ← send_buffer w tid b r; Ok w
  | EnterEstablished callback => connectEstablished w loop callback
  | EnterDestroyed callback => connectDestroyed w loop callback
  | EnterRead readv now debug callback => handleRead w loop readv now debug callback
  | EnterWrite r => handleWrite w loop r
  | EnterClose callback => handleClose w loop callback
  | EnterError => handleError w
  | EnterFunctor r callback => run_functor w loop r callback
  end.
Fixpoint enters (w : world P) (l : list entry) : res (world P) :=
  match l with [] => Ok w | e :: l => w ← enter w e; enters w l end.

Lemma send_buffer_calm w tid b r w' b' : send_buffer w tid b r = Ok (w', b') -> calm w w'.
Proof.
  unfold send_buffer. intros E. destruct (bool_decide _); [|injection E as <- <-; apply calm_refl]. destruct (tid =? _) eqn:Et.
  - apply res_bind_Ok in E as (w1 & E1 & E). injection E as <- <-. by eapply sendInLoop_calm.
  - apply res_bind_Ok in E as ([d b1] & _ & E). apply res_bind_Ok in E as (w1 & E1 & E). injection E as <- <-.
    unfold runInLoop in E1. rewrite Et in E1. injection E1 as <-. by split; [|left].
Qed.

Lemma handleWrite_calm w tid r w' : handleWrite w tid r = Ok w' -> calm w w'.
Proof.
  unfold handleWrite. intros E. apply res_bind_Ok in E as ([] & _ & E). apply res_bind_Ok in E as (ch & _ & E).
  destruct (Channel.isWriting ch); [|injection E as <-; apply calm_refl]. destruct r as [n|]; [|injection E as <-; apply calm_refl].
  destruct (0 <? n); [|injection E as <-; apply calm_refl]. apply res_bind_Ok in E as (out & _ & E).
  set (w1 := with_conn _ _) in E. assert (calm w w1) as H1 by (apply (calm_happens w (Taken _)); by intros []).
  destruct (_ =? 0); [|by injection E as <-]. apply res_bind_Ok in E as (w2 & E2%interest_calm & E).
  set (w3 := if _ : bool then _ else w2) in E. assert (calm w w3) as H3. { eapply calm_trans; [exact H1|]. apply calm_if; [|done]. exact E2. }
  destruct (bool_decide _); [|by injection E as <-]. eapply calm_trans; [exact H3|by eapply shutdownInLoop_calm].
Qed.

(** The end of a connection that is up. *)
Lemma ended w w1 w2 tid callback : callbacks w = [ConnectionCallback true] -> interest (setState w kDisconnected) tid Channel.DisableAll = Ok w1 ->
  run_calls (happens w1 (ConnectionCallback (connected (conn w1)))) tid callback = Ok w2 ->
  callbacks w2 = [ConnectionCallback true; ConnectionCallback false] /\ state_ (conn w2) = kDisconnected.
Proof.
  intros Hc [E1 H1]%interest_calm [E2 H2]%run_calls_calm.
  assert (state_ (conn w1) = kDisconnected) as Es1 by (destruct H1 as [H1|(_ & H1 & _)]; [exact H1|by destruct H1]).
  assert (state_ (conn w2) = kDisconnected) as Es2 by (destruct H2 as [H2|(_ & H2 & _)]; cbn in H2; [by rewrite H2|done]).
  split; [|done]. rewrite E2, callbacks_happens, E1. unfold connected. rewrite Es1. change (callbacks (setState w kDisconnected)) with (callbacks w). by rewrite Hc.
Qed.

Lemma protocol_up w : protocol w -> up (state_ (conn w)) = true -> callbacks w = [ConnectionCallback true].
Proof. unfold protocol. by destruct (state_ (conn w)). Qed.

Lemma handleClose_protocol w tid callback w' : protocol w -> handleClose w tid callback = Ok w' -> protocol w'.
Proof.
  unfold handleClose. intros Hp E. apply res_bind_Ok in E as ([] & _ & E). apply assert_Ok in E as [Hu E].
  apply res_bind_Ok in E as (w1 & E1 & E). apply res_bind_Ok in E as (w2 & E2 & E). injection E as <-.
  destruct (ended w w1 w2 tid callback (protocol_up _ Hp Hu) E1 E2) as [Hc Hs]. unfold protocol. cbn [conn happens]. rewrite Hs. right.
  rewrite callbacks_happens, Hc. done.
Qed.

Lemma connectDestroyed_protocol w tid callback w' : protocol w -> connectDestroyed w tid callback = Ok w' -> protocol w'.
Proof.
  unfold connectDestroyed. intros Hp E. apply res_bind_Ok in E as ([] & _ & E). apply res_bind_Ok in E as (w1 & E1 & E).
  apply res_bind_Ok in E as ([p h] & _ & E). injection E as <-. apply (calm_protocol w1); [by split; [|left]|].
  destruct (bool_decide (state_ (conn w) = kConnected)) eqn:Es; zbool; [|by injection E1 as <-]. apply res_bind_Ok in E1 as (w2 & E2 & E1).
  destruct (ended w w2 w1 tid callback) as [Hc Hs]; try done; [apply protocol_up; [done|by rewrite Es]|]. unfold protocol. rewrite Hs. by left.
Qed.

Lemma connectEstablished_protocol w tid callback w' : protocol w -> connectEstablished w tid callback = Ok w' -> protocol w'.
Proof.
  unfold connectEstablished. intros Hp E. apply res_bind_Ok in E as ([] & _ & E). apply assert_Ok in E as [Hs E]. zbool.
  apply res_bind_Ok in E as (ch & _ & E). apply res_bind_Ok in E as (w1 & (p & h & ->)%interest_same & E). apply run_calls_calm in E.
  apply (calm_protocol _ _ E). unfold protocol in *. rewrite Hs in Hp. cbn [conn happens with_channels setState with_conn state_ set_state].
  rewrite callbacks_happens. unfold connected. cbn [conn happens with_channels setState with_conn state_ set_state].
  change (callbacks _) with (callbacks w). by rewrite Hp.
Qed.

Lemma handleRead_protocol w tid readv now debug callback w' : protocol w -> handleRead w tid readv now debug callback = Ok w' -> protocol w'.
Proof.
  unfold handleRead. intros Hp E. apply res_bind_Ok in E as ([] & _ & E). apply res_bind_Ok in E as ([[b n] e] & _ & E).
  destruct (0 <? n); [|destruct (n =? 0); [by eapply handleClose_protocol; [|exact E]|by injection E as <-]].
  apply res_bind_Ok in E as (c1 & _ & E). apply res_bind_Ok in E as (c2 & _ & E).
  apply run_calls_calm in E. apply (calm_protocol _ _ E). apply (calm_protocol w); [|done].
  split; [|by left]. rewrite callbacks_happens, filter_cons_False by (by intros []). by rewrite filter_nil, app_nil_r.
Qed.

Lemma run_functor_protocol w tid r callback w' : protocol w -> run_functor w tid r callback = Ok w' -> protocol w'.
Proof.
  unfold run_functor. intros Hp E. destruct (pending w) as [|f fs]; [by injection E as <-|].
  set (w1 := mk_world _ _ _ fs _) in E. assert (protocol w1) as Hp1 by exact Hp.
  destruct f; [| |unfold forceCloseInLoop in E; apply res_bind_Ok in E as ([] & _ & E); destruct (up _); [by eapply handleClose_protocol; [|exact E]|by injection E as <-]|..];
    (eapply calm_protocol; [|exact Hp1]); eauto using sendInLoop_calm, shutdownInLoop_calm, startReadInLoop_calm, stopReadInLoop_calm, run_calls_calm.
Qed.

Lemma enter_protocol w e w' : protocol w -> enter w e = Ok w' -> protocol w'.
Proof.
  intros Hp E. destruct e; cbn [enter] in E.
  - eapply calm_protocol; [by eapply run_call_calm|done].
  - apply res_bind_Ok in E as ([w1 b1] & E1 & E). injection E as <-. eapply calm_protocol; [by eapply send_buffer_calm|done].
  - by eapply connectEstablished_protocol; [|exact E].
  - by eapply connectDestroyed_protocol; [|exact E].
  - by eapply handleRead_protocol; [|exact E].
  - eapply calm_protocol; [by eapply handleWrite_calm|done].
  - by eapply handleClose_protocol; [|exact E].
  - by injection E as <-.
  - by eapply run_functor_protocol; [|exact E].
Qed.

(** C8: Whatever sequence of calls, events and functors a new connection goes
    through, the user sees the connection callback with "up" once, then with
    "down" once, then the close callback at most once; and [state_] tells how far
    that has come. *)
Theorem callbacks_in_protocol p h loop c fd u1 u2 w0 l w :
  new p h loop c fd u1 u2 = Ok w0 -> enters w0 l = Ok w -> protocol w.
Proof.
  intros E0 E. assert (protocol w0) as Hp.
  { unfold new in E0. apply res_bind_Ok in E0 as (b1 & _ & E0). apply res_bind_Ok in E0 as (b2 & _ & E0). by injection E0 as <-. }
  clear E0. revert w0 Hp E. induction l as [|e l IH]; cbn; intros w0 Hp E; [by injection E as <-|].
  apply res_bind_Ok in E as (w1 & E1 & E). apply (IH w1); [by eapply enter_protocol|done].
Qed.

(** [send] does not protect the connection: from another thread than the
    loop's it aborts the program when the connection is up, and when it is down
    it still writes to the socket after logging that it gives up. *)
Theorem send_unprotected w ch d :
  heap w !! channel_ (conn w) = Some ch ->
  (state_ (conn w) = kConnected -> forall tid r, tid <> loop_ (conn w) -> send w tid d r = Err Fatal) /\
  (state_ (conn w) = kDisconnected -> Channel.isWriting ch = false -> Buffer.readableBytes (outputBuffer_ (conn w)) = 0 ->
   writeCompleteCallback_ (conn w) = false ->
   send w (loop_ (conn w)) d (Wrote (zlen d)) = Ok (happens (happens w (Sent d)) (Taken d))).
Proof.
  intros Hc. split.
  - intros Hs tid r Ht. unfold send. rewrite Hs, bool_decide_eq_true_2 by done. unfold sendInLoop, assertInLoopThread.
    by rewrite (proj2 (Z.eqb_neq tid (loop_ (conn w)))) by done.
  - intros Hs Hw Hr Hcb. unfold send, runInLoop. rewrite Hs, bool_decide_eq_false_2, Z.eqb_refl by done.
    unfold sendInLoop, channel, Channel.deref. rewrite assertInLoopThread_self, Hc. cbn [mbind res_bind happens conn]. rewrite Hw, Hr, Hcb, andb_false_r.
    replace (zlen d - zlen d) with 0 by lia. change (u64 0) with 0. cbn [negb andb Z.eqb]. rewrite assert_true by (zbool; apply zlen_nonneg).
    cbn. unfold zlen. by rewrite Nat2Z.id, take_ge by done.
Qed.

End Protocol.

(** ** Examples on poll(2) *)

Definition sample_new : res (world PollPoller.t) := new (PollPoller.new 1) ∅ 1 100 7 0 0.
Definition after (l : list entry) : res (world PollPoller.t) := w ← sample_new; enters w l.
Definition sample_world : world PollPoller.t :=
  match after [EnterEstablished []; EnterCall 1 (Send (bs "bye") (Wrote 3)); EnterClose []; EnterDestroyed []] with Ok w => w
  | Err _ => mk_world (mk 0 kConnecting true 0 false false 0 (Buffer.mk [] 0 0) (Buffer.mk [] 0 0) (MinuteHourCounter.MinuteHourCounter.new 0 0)) (PollPoller.new 1) ∅ [] [] end.

Lemma callbacks_in_protocol_witness : state_ (conn sample_world) = kDisconnected /\ protocol sample_world.
Proof.
  split; [vm_compute; reflexivity|].
  destruct sample_new as [w0|] eqn:E0; [|vm_compute in E0; discriminate].
  apply (callbacks_in_protocol (PollPoller.new 1) ∅ 1 100 7 0 0 w0 [EnterEstablished []; EnterCall 1 (Send (bs "bye") (Wrote 3)); EnterClose []; EnterDestroyed []]).
  - exact E0.
  - injection E0 as <-. vm_compute. reflexivity.
Defined.

Definition channel_of (w : world PollPoller.t) : Channel.t := default (Channel.new 0) (heap w !! channel_ (conn w)).

Lemma send_unprotected_witness :
  send sample_world 1 (bs "late") (Wrote 4) = Ok (happens (happens sample_world (Sent (bs "late"))) (Taken (bs "late"))).
Proof.
  apply (send_unprotected sample_world (channel_of sample_world) (bs "late")); vm_compute; reflexivity.
Defined.

(** [forceClose] of another thread, its test before and its store after the loop
    closed the connection. *)
Definition racing (w : world PollPoller.t) : res (world PollPoller.t) :=
  assert! up (state_ (conn w));               (* thread 2 tests *)
  w ← handleClose w 1 [];                     (* the peer closed *)
  run_functor (forceClose_store w) 1 (Wrote 0) [].   (* thread 2 stores, the loop runs its functor *)

(** [forceClose] races with the loop: in a run in which its test comes before the
    loop's [handleClose] and its store after, the connection is closed a second
    time, with the down and close callbacks called twice. *)
Example forceClose_race_closes_twice :
  exists w w', after [EnterEstablished []] = Ok w /\ racing w = Ok w' /\
    callbacks w' = [ConnectionCallback true; ConnectionCallback false; CloseCallback; ConnectionCallback false; CloseCallback].
Proof.
  destruct (after [EnterEstablished []]) as [w|] eqn:E; [|vm_compute in E; discriminate].
  destruct (racing w) as [w'|] eqn:E'; [|injection E as <-; vm_compute in E'; discriminate].
  exists w, w'. split_and!; try done. injection E as <-. vm_compute in E'. injection E' as <-. vm_compute. reflexivity.
Qed.

End ConnProtocol.
