(* ===== verification/HttpSession.v ===== *)
(** An HTTP connection from end to end: the callbacks of the HTTP server
    (src/networking/http/HttpServer.cpp) run on a TCP connection
    (src/networking/TcpConnection.cpp) with its buffers, its channel and its
    counter.

    [handleRead] of a connection ends with its message callback, so what the
    callback does comes after it; the callback here is [HttpServer::onMessage],
    and the connection's context is the parser. *)

From S2P Require Import Prelude Timestamp StdMap Buffer MinuteHourCounter Channel Poller PollPoller Interest TcpConnection ConnFacts Http HttpParser HttpExchange HttpAnswer.

Module HttpSession.
Import TcpConnection ConnFacts.

Section Session.
Context {P : Type} {HP : Poller P} (httpCallback : HttpServer.HttpCallback) (debug : bool).
Implicit Types (w : world P).

(** The connection and the context set in [onConnection]. *)
Record t := mk { tcp : world P; context_ : option HttpContext.t }.

(** The calls the callbacks make on the loop's thread [tid]; [answer] is what
    write(2) returns for a number of bytes.  [send] of a buffer does nothing
    unless the connection is up. *)
Definition perform w (tid : Z) (answer : Z -> write_result) (a : HttpServer.action) : res (world P) :=
  match a with
  | HttpServer.Send data => if bool_decide (state_ (conn w) = kConnected) then sendInLoop w tid data (answer (zlen data)) else Ok w
  | HttpServer.SendText text => send w tid text (answer (zlen text))
  | HttpServer.Shutdown => shutdown w tid
  end.
Fixpoint perform_all w (tid : Z) (answer : Z -> write_result) (l : list HttpServer.action) : res (world P) :=
  match l with [] => Ok w | a :: l => w ← perform w tid answer a; perform_all w tid answer l end.

(** The connection comes up. *)
Definition establish (p : P) (h : Channel.heap) (loop c fd u1 u2 : Z) : res t :=
  w ← new p h loop c fd u1 u2;
  w ← connectEstablished w loop [];
  Ok (mk w (HttpServer.onConnection (connected (conn w)) None)).

(** [onMessage] on the input buffer; any_cast of a context that was not set is a
    null pointer. *)
Definition onMessage (s : t) (tid : Z) (rt : Timestamp.t) (answer : Z -> write_result) : option (res t) :=
  match context_ s with
  | None => Some (Err Undefined)
  | Some context =>
      match HttpServer.onMessage httpCallback context (inputBuffer_ (conn (tcp s))) rt with
      | None => None
      | Some r => Some (
          '(context, buf, acts) ← r;
          w ← perform_all (with_conn (tcp s) (set_input (conn (tcp s)) buf)) tid answer acts;
          Ok (mk w (Some context)))
      end
  end.

(** What happens to the connection: bytes arrive, or it can be written to. *)
Inductive event :=
  | Readable (data : list byte) (now : Z) (rt : Timestamp.t) (answer : Z -> write_result)
  | Writable (answer : Z -> write_result).

Definition step (s : t) (e : event) : option (res t) :=
  let tid := loop_ (conn (tcp s)) in
  match e with
  | Readable data now rt answer =>
      match handleRead (tcp s) tid (fun _ => Buffer.ReadvData data) now debug [] with
      | Err e => Some (Err e)
      | Ok w =>
          let s := mk w (context_ s) in
          match data with [] => Some (Ok s) (* closed *) | _ => onMessage s tid rt answer end
      end
  | Writable answer =>
      Some (w ← handleWrite (tcp s) tid (answer (zlen (Buffer.content (outputBuffer_ (conn (tcp s)))))); Ok (mk w (context_ s)))
  end.
Fixpoint run (s : t) (l : list event) : option (res t) :=
  match l with
  | [] => Some (Ok s)
  | e :: l => match step s e with Some (Ok s) => run s l | r => r end
  end.

(** [send] of a buffer on the loop's thread, as [perform] has it. *)
Lemma send_buffer_performs w buf r :
  send_buffer w (loop_ (conn w)) buf r =
  if bool_decide (state_ (conn w) = kConnected)
  then w ← sendInLoop w (loop_ (conn w)) (slice (Buffer.buffer_ buf) (Buffer.peek buf) (Buffer.readableBytes buf)) r; Ok (w, Buffer.retrieveAll buf)
  else Ok (w, buf).
Proof. unfold send_buffer. by rewrite Z.eqb_refl. Qed.

(** ** What the operations leave alone *)

(** No functor is queued, and none will be by sending. *)
Record quiet w : Prop := {
  qt_pending : pending w = [];
  qt_complete : writeCompleteCallback_ (conn w) = false;
  qt_mark : highWaterMarkCallback_ (conn w) = false;
}.
Record frame w w' : Prop := {
  fr_loop : loop_ (conn w') = loop_ (conn w);
  fr_input : inputBuffer_ (conn w') = inputBuffer_ (conn w);
  fr_counter : bytesReceivedCounter_ (conn w') = bytesReceivedCounter_ (conn w);
  fr_quiet : quiet w -> quiet w';
}.

Lemma frame_trans w1 w2 w3 : frame w1 w2 -> frame w2 w3 -> frame w1 w3.
Proof. intros [] []. split; [congruence..|auto]. Qed.

Lemma interest_frame w tid o w' : interest w tid o = Ok w' -> frame w w' /\ trace w' = trace w /\ state_ (conn w') = state_ (conn w).
Proof. unfold interest. intros E. res_inv. destruct a as [p h]. res_inv. split; [|done]. split; try done. by intros []. Qed.

Lemma queue_output_frame w tid ch rest n w' : queue_output w tid ch rest n = Ok w' -> quiet w ->
  frame w w' /\ trace w' = trace w /\ state_ (conn w') = state_ (conn w).
Proof.
  intros E [Q1 Q2 Q3]. unfold queue_output in E. rewrite Q3, andb_false_r in E. res_inv.
  set (w1 := with_conn w _) in *. assert (frame w w1) as F1 by (split; try done; by intros []).
  case_match.
  - apply interest_frame in E as (F & Ht & Hs). split_and!; [by eapply frame_trans|done|done].
  - by res_inv.
Qed.

Lemma happens_frame w e : frame w (happens w e).
Proof. split; try done. by intros []. Qed.

Lemma sendInLoop_frame w tid d r w' : sendInLoop w tid d r = Ok w' -> quiet w ->
  frame w w' /\ sent (trace w') = sent (trace w) ++ d /\ state_ (conn w') = state_ (conn w).
Proof.
  unfold sendInLoop. intros E Q. res_inv. clear E0 E1.
  set (w1 := happens w (Sent d)) in *. assert (quiet w1) as Q1 by by apply (fr_quiet _ _ (happens_frame w _)).
  assert (sent (trace w1) = sent (trace w) ++ d) as S1 by apply sent_snoc.
  match type of E with match ?b with _ => _ end = _ => destruct b as [[[w2 nw] rem] fault] eqn:Eb end.
  assert (frame w w2 /\ sent (trace w2) = sent (trace w) ++ d /\ state_ (conn w2) = state_ (conn w)) as (F2 & S2 & T2).
  { pose proof (happens_frame w (Sent d)) as F1. destruct (_ && _); [|by injection Eb as <- <- <- <-].
    destruct r as [n|e]; [|by injection Eb as <- <- <- <-].
    change (writeCompleteCallback_ (conn w1)) with (writeCompleteCallback_ (conn w)) in Eb. rewrite (qt_complete _ Q), andb_false_r in Eb.
    injection Eb as <- <- <- <-. split_and!; [by eapply frame_trans; [exact F1|apply happens_frame]| |done].
    cbn. rewrite sent_snoc. cbn. by rewrite app_nil_r. }
  clear Eb. res_inv. destruct (negb fault && _).
  - destruct (queue_output_frame _ _ _ _ _ _ E (fr_quiet _ _ F2 Q)) as (F3 & S3 & T3).
    split_and!; [by eapply frame_trans|congruence|congruence].
  - by res_inv.
Qed.

Lemma shutdownInLoop_frame w tid w' : shutdownInLoop w tid = Ok w' ->
  frame w w' /\ sent (trace w') = sent (trace w) /\ state_ (conn w') = state_ (conn w).
Proof.
  unfold shutdownInLoop. intros E. res_inv. case_match; res_inv.
  - split_and!; [apply happens_frame| |done]. cbn. rewrite sent_snoc. by rewrite app_nil_r.
  - split_and!; done || by split.
Qed.

Lemma shutdown_frame w w' : shutdown w (loop_ (conn w)) = Ok w' -> up (state_ (conn w)) = true ->
  frame w w' /\ sent (trace w') = sent (trace w) /\ state_ (conn w') = kDisconnecting.
Proof.
  unfold shutdown, runInLoop. intros E Hu. case_bool_decide as Hs.
  - cbn [conn setState with_conn set_state loop_] in E. rewrite Z.eqb_refl in E.
    apply shutdownInLoop_frame in E as ([] & ? & ?). split_and!; try done. split; try done.
    intros []. apply fr_quiet0. by split.
  - res_inv. split_and!; [by split|done|]. unfold up in Hu. zbool. destruct Hu; congruence.
Qed.

Lemma handleWrite_frame w tid r w' : handleWrite w tid r = Ok w' -> quiet w ->
  frame w w' /\ sent (trace w') = sent (trace w) /\ state_ (conn w') = state_ (conn w).
Proof.
  unfold handleWrite. intros E Q. res_inv. clear E0 E1.
  assert (frame w w) as F0 by by split.
  case_match; [|by res_inv]. destruct r as [n|e]; [|by res_inv]. case_match; [|by res_inv]. res_inv.
  set (w1 := with_conn _ _) in *. assert (frame w w1 /\ sent (trace w1) = sent (trace w) /\ state_ (conn w1) = state_ (conn w)) as (F1 & S1 & T1).
  { split_and!; [|cbn; rewrite sent_snoc; by rewrite app_nil_r|done]. split; try done. by intros []. }
  case_match; [|by res_inv]. res_inv. rename a2 into w2. apply interest_frame in E1 as (F2 & S2 & T2).
  assert (frame w w2) as F by by eapply frame_trans. rewrite (qt_complete _ (fr_quiet _ _ F Q)) in E.
  case_match.
  - apply shutdownInLoop_frame in E as (F3 & S3 & T3). split_and!; [by eapply frame_trans|congruence|congruence].
  - res_inv. split_and!; congruence || done.
Qed.

End Session.

(** ** Requests that arrive in pieces *)

(** The parser waits for the rest of a request. *)
Lemma prefix_waits rt q p d r : HttpExchange.message_ok q -> HttpExchange.print q = p ++ d -> d <> [] ->
  HttpParser.parses rt HttpContext.new p r -> exists c s, r = Ok (true, c, s) /\ HttpContext.gotAll c = false.
Proof.
  intros Hq Hp Hd Hr. pose proof (HttpExchange.parses_print rt q [] Hq) as Hw. rewrite app_nil_r, Hp in Hw.
  assert (~ HttpParser.finished r) as Hn.
  { intros Hf. pose proof (HttpParser.parses_stable _ _ _ _ d Hr ltac:(by left) Hf) as Hr'.
    pose proof (HttpParser.parses_det _ _ _ _ _ Hw Hr') as E. destruct r as [[[ok c] s]|e]; [|done]. cbn in E.
    injection E as _ _ E. symmetry in E. by apply app_nil in E as [_ ?]. }
  destruct r as [[[[] c] s]|e]; [|by destruct Hn..].
  exists c, s. split; [done|]. destruct (HttpContext.gotAll c) eqn:Eg; [|done]. by destruct Hn.
Qed.

(** [says p ds qs]: after the bytes [p] of a request, the pieces [ds] complete the
    requests [qs], one after the other, and may go on with another one. *)
Inductive says : list byte -> list (list byte) -> list HttpExchange.message -> Prop :=
  | says_nil p : says p [] []
  | says_part q p d rest ds qs :
      HttpExchange.message_ok q -> HttpExchange.print q = (p ++ d) ++ rest -> rest <> [] -> says (p ++ d) ds qs -> says p (d :: ds) qs
  | says_end q p d ds qs :
      HttpExchange.message_ok q -> HttpExchange.print q = p ++ d -> says [] ds qs -> says p (d :: ds) (q :: qs).

(** The responses that are sent: up to the first that closes the connection. *)
Fixpoint served (rs : list HttpResponse.t) : list HttpResponse.t :=
  match rs with [] => [] | r :: rs => r :: if HttpResponse.closeConnection_ r then [] else served rs end.
Definition closes (rs : list HttpResponse.t) : bool := existsb HttpResponse.closeConnection_ rs.

Lemma served_snoc rs r : served (rs ++ [r]) = served rs ++ if closes rs then [] else [r].
Proof.
  induction rs as [|x rs IH]; cbn; [by destruct (HttpResponse.closeConnection_ r)|].
  destruct (HttpResponse.closeConnection_ x); cbn; [done|]. by rewrite IH.
Qed.
Lemma closes_snoc rs r : closes (rs ++ [r]) = closes rs || HttpResponse.closeConnection_ r.
Proof. unfold closes. rewrite existsb_app. cbn. by rewrite orb_false_r. Qed.

Definition text (rs : list HttpResponse.t) : list byte := concat (map HttpAnswer.render (served rs)).

Section Facts.
Context {P : Type} {HP : Poller P} {HS : PollerSpec P} (httpCallback : HttpServer.HttpCallback) (debug : bool).
Implicit Types (w : world P) (s : @t P).
Abbreviation input s := (inputBuffer_ (conn (tcp s))).

Definition reply (q : HttpExchange.message) (rt : Timestamp.t) : HttpResponse.t :=
  httpCallback (HttpExchange.denotes q rt) (HttpResponse.new (HttpAnswer.wants_close q)).

(** A connection that has answered with [rs] and received the bytes [part] of
    another request, the last bytes at the time [rt]; [ts] are all the times. *)
Record talking s (A : gmap Z (Z * Z)) (ch : Channel.t) (B : Z) (log : list (Z * Z)) (prev : Z)
    (rs : list HttpResponse.t) (part : list byte) (rt : Timestamp.t) (ts : list Timestamp.t) : Prop := {
  tk_stream : streaming (tcp s) A ch B;
  tk_room : B <= Buffer.max_size;
  tk_drains : drains (tcp s);
  tk_quiet : quiet (tcp s);
  tk_state : state_ (conn (tcp s)) = if closes rs then kDisconnecting else kConnected;
  tk_sent : sent (trace (tcp s)) = text rs;
  tk_wf : Buffer.wf (input s);
  tk_size : Buffer.size (input s) <= 1032 + MinuteHourCounter.total log;
  tk_total : MinuteHourCounter.total log <= int_max;
  tk_count : MinuteHourCounter.counting (bytesReceivedCounter_ (conn (tcp s))) log prev;
  tk_context : exists c, context_ s = Some c /\ HttpParser.parses rt HttpContext.new part (Ok (true, c, Buffer.content (input s))) /\
    HttpContext.gotAll c = false /\ (HttpContext.state_ c = HttpContext.kExpectRequestLine \/ rt ∈ ts);
}.

(** The bytes are read, and the callback is about to run. *)
Record received s s1 (A : gmap Z (Z * Z)) (ch : Channel.t) (B : Z) (log : list (Z * Z)) (prev : Z) (data : list byte) : Prop := {
  rc_stream : streaming (tcp s1) A ch B;
  rc_drains : drains (tcp s1);
  rc_quiet : quiet (tcp s1);
  rc_state : state_ (conn (tcp s1)) = state_ (conn (tcp s));
  rc_sent : sent (trace (tcp s1)) = sent (trace (tcp s));
  rc_wf : Buffer.wf (input s1);
  rc_content : Buffer.content (input s1) = Buffer.content (input s) ++ data;
  rc_size : Buffer.size (input s1) <= Buffer.size (input s) + zlen data;
  rc_count : MinuteHourCounter.counting (bytesReceivedCounter_ (conn (tcp s1))) ((prev, zlen data) :: log) prev;
  rc_context : context_ s1 = context_ s;
  rc_loop : loop_ (conn (tcp s1)) = loop_ (conn (tcp s));
}.

Lemma session_reads s A ch B log prev rs part rt ts data now :
  talking s A ch B log prev rs part rt ts -> data <> [] -> zlen data <= Buffer.extraBufSize -> zlen data + MinuteHourCounter.total log <= int_max ->
  prev <= now <= int_max ->
  exists w, handleRead (tcp s) (loop_ (conn (tcp s))) (fun _ => Buffer.ReadvData data) now debug [] = Ok w /\
    received s (mk w (context_ s)) A ch B log now data.
Proof.
  intros T Hd Hl Ht Hn. pose proof (zlen_nonneg data) as Hz. destruct T as [Hs HB Hdr Hq Hst Hsent Hwf Hsz Htot Hc _].
  destruct (Buffer.readFd_data (fun _ => Buffer.ReadvData data) (input s) data eq_refl) as (b & Eb & Hwf' & Hcb & Hsb).
  { unfold Buffer.readFd_iov. pose proof (Buffer.writableBytes_wf (input s) Hwf). pose proof (Buffer.wf_writer _ Hwf). destruct (Z.ltb_spec (Buffer.writableBytes (input s)) Buffer.extraBufSize); cbn; unfold Buffer.extraBufSize in *; lia. }
  { done. }
  { unfold Buffer.extraBufSize, Buffer.max_size, int_max in *. lia. }
  destruct (MinuteHourCounter.count_and_report _ log prev (zlen data) now Hc Hz Ht Hn) as (c1 & n1 & c2 & n2 & c3 & E1 & E2 & E3 & Hc1 & Hc3).
  assert (exists c', report debug c1 now = Ok c' /\ MinuteHourCounter.counting c' ((now, zlen data) :: log) now) as (c' & E' & Hc').
  { unfold report. destruct debug; [|by exists c1]. exists c3. rewrite E2. cbn [mbind res_bind]. by rewrite E3. }
  assert (0 < zlen data) as Hp by (destruct data; [done|unfold zlen; cbn; lia]).
  unfold handleRead. rewrite assertInLoopThread_self. cbn [mbind res_bind]. rewrite Eb. cbn [mbind res_bind].
  rewrite (proj2 (Z.ltb_lt 0 (zlen data)) Hp). cbn [conn with_conn set_input bytesReceivedCounter_].
  rewrite i32_small by (unfold in_int, int_min; destruct Hc; pose proof (MinuteHourCounter.total_counted log cg_counted); lia).
  rewrite E1. cbn [mbind res_bind]. rewrite E'. cbn [mbind res_bind run_calls].
  eexists. split; [done|]. split; cbn; try done.
  - destruct Hs. split; cbn; try done.
    + rewrite sent_snoc, taken_snoc, !app_nil_r. done.
    + by apply fin_snoc.
  - intros H1 H2. destruct (Hdr H1 H2) as [?|?]; [left|by right]. cbn. apply elem_of_app. by left.
  - by destruct Hq.
  - rewrite sent_snoc. by rewrite app_nil_r.
Qed.

(** The callback's calls for one response. *)
Lemma perform_reply w A ch B answer (closed close : bool) d :
  streaming w A ch B -> drains w -> quiet w -> state_ (conn w) = (if closed then kDisconnecting else kConnected) ->
  zlen d <= B -> B <= Buffer.max_size -> (forall len, 0 <= len -> kernel_ok (answer len) len) ->
  exists w' A' ch', perform_all w (loop_ (conn w)) answer (HttpServer.Send d :: if close then [HttpServer.Shutdown] else []) = Ok w' /\
    streaming w' A' ch' (B - zlen d) /\ drains w' /\ quiet w' /\ frame w w' /\
    state_ (conn w') = (if closed || close then kDisconnecting else kConnected) /\
    sent (trace w') = sent (trace w) ++ if closed then [] else d.
Proof.
  intros Hs Hd Hq Hst Hl HB Hk. pose proof (zlen_nonneg d). cbn [perform_all perform]. rewrite Hst. destruct closed; cbn [orb].
  - rewrite bool_decide_eq_false_2 by done. cbn [mbind res_bind]. exists w, A, ch.
    split_and!; try done; [|by apply (streaming_less _ _ _ B); [|lia]|by rewrite app_nil_r].
    destruct close; [|done]. cbn. unfold shutdown. by rewrite Hst.
  - rewrite bool_decide_eq_true_2 by done.
    destruct (sendInLoop_ok w A ch B d (answer (zlen d)) Hs Hl HB (Hk _ (zlen_nonneg d))) as (w1 & A1 & ch1 & E1 & Hs1 & Hd1 & El1).
    destruct (sendInLoop_frame _ _ _ _ _ E1 Hq) as (F1 & S1 & T1). rewrite E1. cbn [mbind res_bind]. destruct close; cbn [perform_all perform].
    + destruct (run_call_ok w1 A1 ch1 (B - zlen d) Shutdown Hs1 (Hd1 Hd)) as (w2 & A2 & ch2 & E2 & Hs2 & Hd2 & El2); [done|cbn; lia|lia|].
      cbn [run_call call_bytes] in *. rewrite Z.sub_0_r in Hs2.
      destruct (shutdown_frame _ _ E2 (m_up _ _ _ _ Hs1)) as (F2 & S2 & T2). rewrite El1 in E2.
      exists w2, A2, ch2. rewrite E2. cbn [mbind res_bind].
      split_and!; try done; [apply F2, F1, Hq|by eapply frame_trans|congruence].
    + exists w1, A1, ch1. split_and!; try done; [apply Hd1, Hd|apply F1, Hq|congruence].
Qed.

(** The parser goes on with what arrives at the time [rt'], which is as if all
    had been there at one of the times. *)
Lemma parse_goes_on rt rt' part c b d ts :
  HttpParser.parses rt HttpContext.new part (Ok (true, c, b)) -> HttpContext.gotAll c = false ->
  HttpContext.state_ c = HttpContext.kExpectRequestLine \/ rt ∈ ts ->
  HttpParser.expecting c /\ exists rt1, rt1 ∈ rt' :: ts /\
    forall r, HttpParser.parses rt' c (b ++ d) r -> HttpParser.parses rt1 HttpContext.new (part ++ d) r.
Proof.
  intros Hp Hg Ht. assert (HttpParser.expecting c) as Hc by (eapply HttpParser.parses_expecting; [exact Hp|by left|done]).
  split; [done|]. destruct (decide (HttpContext.state_ c = HttpContext.kExpectRequestLine)) as [He|He].
  - exists rt'. split; [by left|]. intros r Hr. eapply HttpParser.parses_app; [|done|exact Hr].
    eapply HttpParser.parses_no_line; [exact Hp|by left|done].
  - destruct Ht as [?|Ht]; [done|]. exists rt. split; [by right|]. intros r Hr. eapply HttpParser.parses_app; [exact Hp|done|].
    eapply HttpParser.parses_time; [exact Hr|]. by destruct Hc.
Qed.

Lemma streaming_input w A ch B b : streaming w A ch B -> streaming (with_conn w (set_input (conn w) b)) A ch B.
Proof. intros []. by split. Qed.

(** A piece is read, and parsed as if it had been there with what came before. *)
Lemma piece_parsed s A ch B log prev rs part rt ts data now rt' :
  talking s A ch B log prev rs part rt ts -> data <> [] -> zlen data <= Buffer.extraBufSize -> zlen data + MinuteHourCounter.total log <= int_max ->
  prev <= now <= int_max ->
  exists w c rt1 r x, handleRead (tcp s) (loop_ (conn (tcp s))) (fun _ => Buffer.ReadvData data) now debug [] = Ok w /\
    received s (mk w (Some c)) A ch B log now data /\ rt1 ∈ rt' :: ts /\ HttpParser.parses rt1 HttpContext.new (part ++ data) r /\
    HttpContext.parseRequest c (inputBuffer_ (conn w)) rt' = Some x /\ HttpParser.matches x r.
Proof.
  intros T Hd Hl Ht Hn. destruct (session_reads _ _ _ _ _ _ _ _ _ _ _ _ T Hd Hl Ht Hn) as (w & E & R).
  destruct (tk_context _ _ _ _ _ _ _ _ _ _ T) as (c & Ec & Hc & Hg & Hrt). rewrite Ec in R.
  destruct (parse_goes_on rt rt' part c _ data ts Hc Hg Hrt) as (He & rt1 & Hrt1 & Hgo).
  rewrite <- (rc_content _ _ _ _ _ _ _ _ R) in Hgo. destruct (HttpParser.parses_total rt' c (Buffer.content (input (mk w (Some c)))) He) as [r Hres].
  destruct (HttpParser.parseRequest_refines rt' c _ _ (rc_wf _ _ _ _ _ _ _ _ R) He Hres) as (x & Ep & M).
  exists w, c, rt1, r, x. split_and!; try done. by apply Hgo.
Qed.

(** What is left of the buffer has its size. *)
Lemma parsed_size s A ch B log prev rs part rt ts data now w c rt' ok c' buf :
  talking s A ch B log prev rs part rt ts -> received s (mk w (Some c)) A ch B log now data ->
  HttpContext.parseRequest c (inputBuffer_ (conn w)) rt' = Some (Ok (ok, c', buf)) ->
  Buffer.size buf <= 1032 + MinuteHourCounter.total ((now, zlen data) :: log).
Proof.
  intros T R Ep%HttpParser.parse_loop_store. pose proof (tk_size _ _ _ _ _ _ _ _ _ _ T). pose proof (rc_size _ _ _ _ _ _ _ _ R).
  change (Buffer.size buf <= 1032 + (zlen data + MinuteHourCounter.total log)). cbn [tcp] in *. unfold Buffer.size in *. rewrite Ep. lia.
Qed.

(** A piece that does not complete its request. *)
Lemma piece_waits s A ch B log prev rs part rt ts q data rest now rt' answer :
  talking s A ch B log prev rs part rt ts -> data <> [] -> zlen data <= Buffer.extraBufSize -> zlen data + MinuteHourCounter.total log <= int_max ->
  prev <= now <= int_max -> HttpExchange.message_ok q -> HttpExchange.print q = (part ++ data) ++ rest -> rest <> [] ->
  exists s' rt1, step httpCallback debug s (Readable data now rt' answer) = Some (Ok s') /\ loop_ (conn (tcp s')) = loop_ (conn (tcp s)) /\
    talking s' A ch B ((now, zlen data) :: log) now rs (part ++ data) rt1 (rt' :: ts).
Proof.
  intros T Hd Hl Ht Hn Hq Hp Hr. destruct (piece_parsed _ _ _ _ _ _ _ _ _ _ _ _ rt' T Hd Hl Ht Hn) as (w & c & rt1 & r & x & E & R & Hrt1 & Hres & Ep & M).
  destruct (prefix_waits rt1 q _ _ r Hq Hp Hr Hres) as (c2 & b2 & -> & Hg2). destruct x as [[[ok c3] buf]|]; [|done].
  destruct M as (-> & -> & Hwf & Hcb). pose proof (parsed_size _ _ _ _ _ _ _ _ _ _ _ _ _ _ _ _ _ _ T R Ep) as Hsz.
  cbn [step]. rewrite E. destruct data as [|b0 data0] eqn:Ed; [done|]. rewrite <- Ed in *. clear b0 data0 Ed.
  rewrite <- (rc_context _ _ _ _ _ _ _ _ R). unfold onMessage, HttpServer.onMessage. cbn [context_ tcp]. rewrite Ep. cbn [mbind res_bind].
  rewrite Hg2. cbn [mbind res_bind perform_all].
  eexists _, rt1. split; [done|]. destruct R. cbn [tcp context_] in *. split; [done|]. destruct T. split; cbn [tcp context_]; try done.
  - by apply streaming_input.
  - by destruct rc_quiet0.
  - cbn. congruence.
  - cbn. congruence.
  - exists c2. split_and!; [done|cbn; by rewrite Hcb|done|by right].
Qed.

(** A piece that completes it: the response is sent. *)
Lemma piece_answered s A ch B log prev rs part rt ts q data now rt' answer :
  talking s A ch B log prev rs part rt ts -> data <> [] -> zlen data <= Buffer.extraBufSize -> zlen data + MinuteHourCounter.total log <= int_max ->
  prev <= now <= int_max -> HttpExchange.message_ok q -> HttpExchange.print q = part ++ data ->
  (forall rt, HttpAnswer.response_ok (reply q rt) /\ zlen (HttpAnswer.render (reply q rt)) <= Z.min B (Buffer.max_size - 1032)) ->
  (forall len, 0 <= len -> kernel_ok (answer len) len) ->
  exists s' A' ch' rt1, step httpCallback debug s (Readable data now rt' answer) = Some (Ok s') /\ loop_ (conn (tcp s')) = loop_ (conn (tcp s)) /\
    rt1 ∈ rt' :: ts /\
    talking s' A' ch' (B - zlen (HttpAnswer.render (reply q rt1))) ((now, zlen data) :: log) now (rs ++ [reply q rt1]) [] rt1 (rt' :: ts).
Proof.
  intros T Hd Hl Ht Hn Hq Hp Hresp Hk. destruct (piece_parsed _ _ _ _ _ _ _ _ _ _ _ _ rt' T Hd Hl Ht Hn) as (w & c & rt1 & r & x & E & R & Hrt1 & Hres & Ep & M).
  pose proof (HttpExchange.parses_print rt1 q [] Hq) as Hpr. rewrite app_nil_r, Hp in Hpr. pose proof (HttpParser.parses_det _ _ _ _ _ Hres Hpr) as ->.
  destruct x as [[[ok c3] buf]|]; [|done]. destruct M as (-> & -> & Hwf & Hcb). destruct (Hresp rt1) as [Hok Hlen].
  pose proof (parsed_size _ _ _ _ _ _ _ _ _ _ _ _ _ _ _ _ _ _ T R Ep) as Hsz.
  cbn [step]. rewrite E. destruct data as [|b0 data0] eqn:Ed; [done|]. rewrite <- Ed in *. clear b0 data0 Ed.
  rewrite <- (rc_context _ _ _ _ _ _ _ _ R). unfold onMessage, HttpServer.onMessage. cbn [context_ tcp]. rewrite Ep. cbn [mbind res_bind].
  change (HttpContext.gotAll (HttpContext.mk HttpContext.kGotAll (HttpExchange.denotes q rt1))) with true. cbn [HttpContext.request_].
  rewrite HttpAnswer.onRequest_answers by (done || (fold (reply q rt1); lia)). fold (reply q rt1). cbn [mbind res_bind app].
  set (w1 := with_conn w _). destruct (perform_reply w1 A ch B answer (closes rs) (HttpResponse.closeConnection_ (reply q rt1)) (HttpAnswer.render (reply q rt1)))
    as (w2 & A2 & ch2 & E2 & Hs2 & Hd2 & Hq2 & F2 & T2 & S2); try done.
  { apply streaming_input, R. }
  { apply R. }
  { by destruct (rc_quiet _ _ _ _ _ _ _ _ R). }
  { etransitivity; [apply R|]. apply T. }
  { lia. }
  { apply T. }
  change (loop_ (conn w1)) with (loop_ (conn w)) in E2. rewrite (rc_loop _ _ _ _ _ _ _ _ R : loop_ (conn w) = _) in E2. rewrite E2. cbn [mbind res_bind].
  eexists _, A2, ch2, rt1. split; [done|]. cbn [tcp]. destruct F2. split; [rewrite fr_loop0; apply R|]. split; [done|].
  split; cbn [tcp context_]; try done.
  - pose proof (tk_room _ _ _ _ _ _ _ _ _ _ T). pose proof (zlen_nonneg (HttpAnswer.render (reply q rt1))). lia.
  - by rewrite closes_snoc.
  - rewrite S2. change (trace w1) with (trace w). rewrite (rc_sent _ _ _ _ _ _ _ _ R : sent (trace w) = _), (tk_sent _ _ _ _ _ _ _ _ _ _ T).
    unfold text. rewrite served_snoc, map_app, concat_app. destruct (closes rs); cbn; by rewrite ?app_nil_r.
  - by rewrite fr_input0.
  - by rewrite fr_input0.
  - rewrite fr_counter0. apply R.
  - exists HttpContext.new. split_and!; [done| |done|by left]. rewrite fr_input0. cbn. rewrite Hcb. by apply HttpParser.parses_stop.
Qed.

Lemma writable_ok s A ch B log prev rs part rt ts answer :
  talking s A ch B log prev rs part rt ts -> (forall len, 0 <= len -> kernel_ok (answer len) len) ->
  exists s' A' ch', step httpCallback debug s (Writable answer) = Some (Ok s') /\ loop_ (conn (tcp s')) = loop_ (conn (tcp s)) /\
    talking s' A' ch' B log prev rs part rt ts.
Proof.
  intros T Hk. destruct T. cbn [step].
  destruct (handleWrite_ok (tcp s) A ch B _ tk_stream0 (Hk _ (zlen_nonneg _))) as (w & A' & ch' & E & Hs & Hd & El).
  destruct (handleWrite_frame _ _ _ _ E tk_quiet0) as (F & S & St). rewrite E. cbn [mbind res_bind]. exists (mk w (context_ s)), A', ch'.
  destruct F. split; [done|]. split; [done|]. split; cbn [tcp context_]; rewrite ?fr_input0, ?fr_counter0; auto; congruence.
Qed.

Lemma established_frame p h loop c fd u1 u2 w0 w1 :
  new p h loop c fd u1 u2 = Ok w0 -> connectEstablished w0 loop [] = Ok w1 ->
  quiet w1 /\ state_ (conn w1) = kConnected /\ sent (trace w1) = [] /\ Buffer.wf (inputBuffer_ (conn w1)) /\
  Buffer.content (inputBuffer_ (conn w1)) = [] /\ Buffer.size (inputBuffer_ (conn w1)) = 1032 /\
  bytesReceivedCounter_ (conn w1) = MinuteHourCounter.new u1 u2.
Proof.
  intros E0 E1. destruct new_buffer_ok as (b & Eb & Hwf & Hcb & Hsz). unfold new in E0. rewrite Eb in E0. cbn [mbind res_bind] in E0. injection E0 as <-.
  unfold connectEstablished in E1. apply res_bind_Ok in E1 as (_ & _ & E1). apply assert_Ok in E1 as [_ E1].
  apply res_bind_Ok in E1 as (ch & _ & E1). apply res_bind_Ok in E1 as (w2 & E2 & E1). cbn [run_calls] in E1. injection E1 as <-.
  apply interest_frame in E2 as ([] & Ht & Hst). cbn in *. split_and!; try done.
  - destruct (fr_quiet0 ltac:(done)). by split.
  - rewrite sent_snoc, Ht. done.
  - by rewrite fr_input0.
  - by rewrite fr_input0.
  - by rewrite fr_input0.
Qed.

(** ** A whole session *)

Definition arrivals (l : list event) : list (list byte) := omap (fun e => match e with Readable d _ _ _ => Some d | Writable _ => None end) l.
Definition times (l : list event) : list Timestamp.t := omap (fun e => match e with Readable _ _ rt _ => Some rt | Writable _ => None end) l.

(** Time does not go back, reads bring up to 64 KiB, and the connection works. *)
Fixpoint working (prev : Z) (l : list event) : Prop :=
  match l with
  | [] => True
  | Readable d now _ answer :: l => prev <= now <= int_max /\ 0 < zlen d <= Buffer.extraBufSize /\
      (forall len, 0 <= len -> kernel_ok (answer len) len) /\ working now l
  | Writable answer :: l => (forall len, 0 <= len -> kernel_ok (answer len) len) /\ working prev l
  end.

Definition replies_fit (R : Z) (qs : list HttpExchange.message) : Prop :=
  forall q rt, q ∈ qs -> HttpAnswer.response_ok (reply q rt) /\ zlen (HttpAnswer.render (reply q rt)) <= R.

Lemma session_ok l : forall s A ch B log prev rs part rt ts qs R,
  talking s A ch B log prev rs part rt ts -> working prev l -> says part (arrivals l) qs ->
  zlen (concat (arrivals l)) + MinuteHourCounter.total log <= int_max ->
  replies_fit R qs -> 0 <= R <= Buffer.max_size - 1032 -> R * zlen qs <= B ->
  exists s' A' ch' B' log' prev' part' rt' rts, run httpCallback debug s l = Some (Ok s') /\ length rts = length qs /\ rts ⊆ times l ++ ts /\
    talking s' A' ch' B' log' prev' (rs ++ zip_with reply qs rts) part' rt' (reverse (times l) ++ ts).
Proof.
  induction l as [|e l IH]; intros s A ch B log prev rs part rt ts qs R T Hw Hsay Htot Hrep HR HB.
  { inversion Hsay; subst. exists s, A, ch, B, log, prev, part, rt, []. split_and!; try done; [set_solver|]. cbn. by rewrite app_nil_r. }
  destruct e as [d now rt' answer|answer]; cbn [run].
  - destruct Hw as (Hn & Hd & Hk & Hw). assert (d <> []) as Hd' by (intros ->; destruct Hd; done).
    change (arrivals (Readable d now rt' answer :: l)) with (d :: arrivals l) in *. cbn [concat] in Htot. rewrite zlen_app in Htot.
    pose proof (zlen_nonneg (concat (arrivals l))) as Hz.
    inversion Hsay as [|q ? ? rest ? ? Hq Hp Hr Hs|q ? ? ? qs' Hq Hp Hs]; subst.
    + destruct (piece_waits s A ch B log prev rs part rt ts q d rest now rt' answer) as (s1 & rt1 & E1 & El1 & T1); try done; [lia|lia|].
      rewrite E1. destruct (IH s1 A ch B _ now rs (part ++ d) rt1 (rt' :: ts) qs R T1 Hw Hs) as (s2 & A2 & ch2 & B2 & log2 & prev2 & part2 & rt2 & rts & E2 & H1 & H2 & T2); try done.
      { change (MinuteHourCounter.total ((now, zlen d) :: log)) with (zlen d + MinuteHourCounter.total log). lia. }
      exists s2, A2, ch2, B2, log2, prev2, part2, rt2, rts. split_and!; try done.
      * change (times (Readable d now rt' answer :: l)) with (rt' :: times l). set_solver.
      * change (times (Readable d now rt' answer :: l)) with (rt' :: times l). rewrite reverse_cons, <- app_assoc. done.
    + unfold zlen in HB. cbn [length] in HB. fold (zlen qs') in HB. rewrite Nat2Z.inj_succ in HB. fold (zlen qs') in HB.
      assert (forall rt, HttpAnswer.response_ok (reply q rt) /\ zlen (HttpAnswer.render (reply q rt)) <= Z.min B (Buffer.max_size - 1032)) as Hq'.
      { intros rt0. destruct (Hrep q rt0 ltac:(by left)) as [Hok Hle]. split; [done|]. pose proof (zlen_nonneg qs'). nia. }
      destruct (piece_answered s A ch B log prev rs part rt ts q d now rt' answer) as (s1 & A1 & ch1 & rt1 & E1 & El1 & Hrt1 & T1); try done; [lia|lia|].
      rewrite E1. destruct (Hrep q rt1 ltac:(by left)) as [_ Hle].
      destruct (IH s1 A1 ch1 _ _ now (rs ++ [reply q rt1]) [] rt1 (rt' :: ts) qs' R T1 Hw Hs) as (s2 & A2 & ch2 & B2 & log2 & prev2 & part2 & rt2 & rts & E2 & H1 & H2 & T2); try done.
      { change (MinuteHourCounter.total ((now, zlen d) :: log)) with (zlen d + MinuteHourCounter.total log). lia. }
      { intros q0 rt0 Hin. apply Hrep. by right. }
      { lia. }
      exists s2, A2, ch2, B2, log2, prev2, part2, rt2, (rt1 :: rts). change (times (Readable d now rt' answer :: l)) with (rt' :: times l). split_and!; try done.
      * cbn. by rewrite H1.
      * set_solver.
      * rewrite reverse_cons, <- !app_assoc in *. done.
  - destruct Hw as (Hk & Hw). change (arrivals (Writable answer :: l)) with (arrivals l) in *. change (times (Writable answer :: l)) with (times l).
    destruct (writable_ok s A ch B log prev rs part rt ts answer T Hk) as (s1 & A1 & ch1 & E1 & El1 & T1). rewrite E1. by apply (IH s1 A1 ch1 B log prev rs part rt ts qs R).
Qed.

(** C18: an HTTP connection from end to end.  A client connects and sends
    requests, each in any pieces (no piece with bytes of two requests, and the
    last one perhaps unfinished); the kernel takes the output in any portions.
    Then no assertion fails anywhere in the connection, its buffers, its channel
    or its counter; what the kernel took followed by the output buffer is exactly
    the responses of the callback to these requests, each once and in order, up
    to and including the first that closes the connection; the channel waits for
    writability just while output is left; and when a response closes, the write
    side is shut down once all is written and not before, otherwise the
    connection stays up. *)
Theorem http_session p h A loop c fd u1 u2 l qs R :
  rep p h A -> owner_tid p = loop -> h !! c = None -> A !! fd = None -> 0 <= fd -> Z.of_nat (size A) + 1 < int_max ->
  0 <= i32 u1 -> 0 <= i32 u2 -> working 0 l -> says [] (arrivals l) qs -> zlen (concat (arrivals l)) <= int_max ->
  replies_fit R qs -> 0 <= R -> R * zlen qs <= 2 ^ 62 ->
  exists s0 s ch rts, establish p h loop c fd u1 u2 = Ok s0 /\ run httpCallback debug s0 l = Some (Ok s) /\
    length rts = length qs /\ rts ⊆ times l /\
    let rs := zip_with reply qs rts in
    taken (trace (tcp s)) ++ Buffer.content (outputBuffer_ (conn (tcp s))) = text rs /\
    heap (tcp s) !! channel_ (conn (tcp s)) = Some ch /\
    Channel.isWriting ch = negb (bool_decide (Buffer.content (outputBuffer_ (conn (tcp s))) = [])) /\
    fin_after_data (trace (tcp s)) /\
    (closes rs = true -> Buffer.content (outputBuffer_ (conn (tcp s))) = [] -> ShutdownWrite ∈ trace (tcp s)) /\
    (closes rs = false -> state_ (conn (tcp s)) = kConnected).
Proof.
  intros Hr Ho Hc HA Hf Hs Hu1 Hu2 Hw Hsay Htot Hrep HR HB.
  destruct (established p h A loop c fd u1 u2) as (w0 & w1 & A1 & ch1 & E0 & E1 & Hm & Hd & El); try done.
  destruct (established_frame p h loop c fd u1 u2 w0 w1 E0 E1) as (Hq & Hst & Hsent & Hwf & Hcb & Hsz & Hcount).
  exists (mk w1 (Some HttpContext.new)).
  assert (talking (mk w1 (Some HttpContext.new)) A1 ch1 (2 ^ 62) [] 0 [] [] Timestamp.invalid []) as T.
  { split; cbn [tcp context_]; try done; [by rewrite Hsz|rewrite Hcount; by apply MinuteHourCounter.new_counting|].
    exists HttpContext.new. split_and!; [done| |done|by left]. rewrite Hcb. by apply HttpParser.parses_stop. }
  assert (establish p h loop c fd u1 u2 = Ok (mk w1 (Some HttpContext.new))) as E.
  { unfold establish. rewrite E0. cbn [mbind res_bind]. rewrite E1. cbn [mbind res_bind]. unfold connected. by rewrite Hst. }
  assert (replies_fit (Z.min R (2 ^ 62)) qs) as Hrep'.
  { intros q rt Hin. destruct (Hrep q rt Hin) as [? Hle]. split; [done|]. destruct qs; [by apply elem_of_nil in Hin|].
    unfold zlen in HB. cbn [length] in HB. lia. }
  destruct (session_ok l _ A1 ch1 (2 ^ 62) [] 0 [] [] Timestamp.invalid [] qs (Z.min R (2 ^ 62)) T Hw Hsay) as (s & A2 & ch2 & B2 & log2 & prev2 & part2 & rt2 & rts & E2 & H1 & H2 & T2);
    [by rewrite Z.add_0_r|exact Hrep'|unfold Buffer.max_size; lia|pose proof (zlen_nonneg qs); nia|].
  rewrite app_nil_r in H2. cbn [app] in T2. destruct T2. destruct tk_stream0. exists s, ch2, rts. cbn zeta. split_and!; try done.
  - by rewrite <- m_bytes0.
  - intros Hcl Hout. rewrite Hcl in tk_state0. destruct (tk_drains0 tk_state0 Hout) as [?|Hin]; [done|].
    rewrite (qt_pending _ tk_quiet0) in Hin. by apply elem_of_nil in Hin.
  - intros Hcl. by rewrite Hcl in tk_state0.
Qed.

End Facts.

(** A session on poll(2): a request in two pieces while the socket is full, then
    one that asks to close; the output is written in two portions. *)
Definition sample_callback : HttpServer.HttpCallback := fun req resp =>
  HttpResponse.setBody (HttpResponse.setStatusMessage (HttpResponse.setStatusCode resp HttpResponse.k200Ok) (bs "OK")) (HttpRequest.path_ req).
Definition first_request : HttpExchange.message :=
  HttpExchange.msg HttpRequest.kGet (bs "/first") [] HttpRequest.kHttp11 [(bs "Host", bs "x")].
Definition sample_events : list event :=
  [Readable (bs "GET /fir") 10 Timestamp.invalid (fun _ => WriteError EWOULDBLOCK);
   Readable (drop 8 (HttpExchange.print first_request)) 11 Timestamp.invalid (fun _ => WriteError EWOULDBLOCK);
   Writable (fun len => Wrote (len / 2));
   Readable (HttpExchange.print HttpExchange.sample_request) 11 Timestamp.invalid (fun _ => WriteError EWOULDBLOCK);
   Writable (fun len => Wrote len)].

Lemma first_request_ok : HttpExchange.message_ok first_request.
Proof. split; cbn; [done|HttpExchange.compute_prop|by left|done|]. repeat constructor; try done; HttpExchange.compute_prop. Qed.

Lemma sample_working : working 0 sample_events.
Proof.
  assert (forall len, 0 <= len -> 0 <= len / 2 <= len) as Hh.
  { intros len Hl. split; [apply Z.div_pos; lia|apply Z.div_le_upper_bound; lia]. }
  cbn. unfold int_max, zlen. cbn. split_and!; try lia; try done; intros; cbn; try done; try lia.
Qed.

Lemma sample_says : says [] (arrivals sample_events) [first_request; HttpExchange.sample_request].
Proof.
  change (arrivals sample_events) with
    [bs "GET /fir"; drop 8 (HttpExchange.print first_request); HttpExchange.print HttpExchange.sample_request].
  eapply (says_part first_request _ _ (drop 8 (HttpExchange.print first_request))); [apply first_request_ok|by vm_compute|by vm_compute|].
  eapply says_end; [apply first_request_ok|by vm_compute|]. eapply says_end; [apply HttpExchange.sample_request_ok|done|constructor].
Qed.

Lemma http_session_witness :
  exists (s0 s : @t PollPoller.t) ch rts, establish (PollPoller.new 1) ∅ 1 100 7 0 0 = Ok s0 /\ run sample_callback false s0 sample_events = Some (Ok s) /\
    length rts = 2%nat /\ rts ⊆ times sample_events /\
    let rs := zip_with (reply sample_callback) [first_request; HttpExchange.sample_request] rts in
    taken (trace (tcp s)) ++ Buffer.content (outputBuffer_ (conn (tcp s))) = text rs /\
    heap (tcp s) !! channel_ (conn (tcp s)) = Some ch /\
    Channel.isWriting ch = negb (bool_decide (Buffer.content (outputBuffer_ (conn (tcp s))) = [])) /\
    fin_after_data (trace (tcp s)) /\
    (closes rs = true -> Buffer.content (outputBuffer_ (conn (tcp s))) = [] -> ShutdownWrite ∈ trace (tcp s)) /\
    (closes rs = false -> state_ (conn (tcp s)) = kConnected).
Proof.
  apply (http_session sample_callback false (PollPoller.new 1) ∅ ∅ 1 100 7 0 0 sample_events [first_request; HttpExchange.sample_request] 100).
  - apply PollPoller.poll_new_rep.
  - reflexivity.
  - reflexivity.
  - reflexivity.
  - lia.
  - vm_compute. reflexivity.
  - vm_compute. discriminate.
  - vm_compute. discriminate.
  - apply sample_working.
  - apply sample_says.
  - vm_compute. discriminate.
  - intros q rt Hq. apply elem_of_cons in Hq as [->|Hq]; [|apply list_elem_of_singleton in Hq as ->]; (split; [split; [by vm_compute|constructor|by vm_compute]|by vm_compute]).
  - lia.
  - vm_compute. discriminate.
Defined.

End HttpSession.
