(* ===== verification/Connector.v ===== *)
(** Connecting with retries (src/networking/Connector.h,
    src/networking/Connector.cpp).

    A socket is its descriptor; [open] holds those the connector has opened and
    neither closed nor handed over, so that closing one that is not open shows
    as an error.  What the kernel answers is an argument: the descriptor
    socket(2) returned with the errno of connect(2), and for a writable socket
    its SO_ERROR and whether it connected to itself. *)

From S2P Require Import Prelude Channel Poller PollPoller.

Module Connector.

Definition EPERM : Z := 1.
Definition EINTR : Z := 4.
Definition EBADF : Z := 9.
Definition EAGAIN : Z := 11.
Definition EACCES : Z := 13.
Definition EFAULT : Z := 14.
Definition ENOTSOCK : Z := 88.
Definition EAFNOSUPPORT : Z := 97.
Definition EADDRINUSE : Z := 98.
Definition EADDRNOTAVAIL : Z := 99.
Definition ENETUNREACH : Z := 101.
Definition EISCONN : Z := 106.
Definition ECONNREFUSED : Z := 111.
Definition EALREADY : Z := 114.
Definition EINPROGRESS : Z := 115.

Definition kMaxRetryDelayMs : Z := 30 * 1000.
Definition kInitRetryDelayMs : Z := 500.

Inductive States := kDisconnected | kConnecting | kConnected.
#[global] Instance States_eq_dec : EqDecision States.
Proof. solve_decision. Defined.

Record t := mk {
  loop_ : Z;                     (* the thread of the loop *)
  connect_ : bool;
  state_ : States;
  channel_ : option Z;
  retryDelayMs_ : Z;
}.

Definition new (loop : Z) : t := mk loop false kDisconnected None kInitRetryDelayMs.

Definition set_connect (c : t) (b : bool) : t := mk (loop_ c) b (state_ c) (channel_ c) (retryDelayMs_ c).
Definition set_state (c : t) (s : States) : t := mk (loop_ c) (connect_ c) s (channel_ c) (retryDelayMs_ c).
Definition set_channel (c : t) (ch : option Z) : t := mk (loop_ c) (connect_ c) (state_ c) ch (retryDelayMs_ c).
Definition set_delay (c : t) (d : Z) : t := mk (loop_ c) (connect_ c) (state_ c) (channel_ c) d.

(** The destructor's assertion. *)
Definition destroy (c : t) : res unit := assert! bool_decide (channel_ c = None); Ok tt.

Inductive functor := StartInLoop | StopInLoop | ResetChannel.

(** socket(2) and connect(2): the descriptor or a negative number, and the errno
    or 0; [new_channel] is the address of a channel made for it. *)
Record attempt := mk_attempt { sockfd : Z; conn_errno : Z; new_channel : Z }.

Section Connector.
Context {P : Type} {HP : Poller P}.

Record world := mk_world {
  cn : t;
  poller : P;
  heap : Channel.heap;
  pending : list functor;        (* queued in the loop *)
  timers : list Z;               (* delays of [startInLoop] set with [runAfter] *)
  open : gset Z;
  given : list Z;                (* descriptors passed to [newConnectionCallback_] *)
}.

Definition with_cn (w : world) (c : t) : world := mk_world c (poller w) (heap w) (pending w) (timers w) (open w) (given w).
Definition with_channels (w : world) (p : P) (h : Channel.heap) : world := mk_world (cn w) p h (pending w) (timers w) (open w) (given w).
Definition with_pending (w : world) (q : list functor) : world := mk_world (cn w) (poller w) (heap w) q (timers w) (open w) (given w).
Definition with_timers (w : world) (l : list Z) : world := mk_world (cn w) (poller w) (heap w) (pending w) l (open w) (given w).
Definition with_sockets (w : world) (o : gset Z) (g : list Z) : world := mk_world (cn w) (poller w) (heap w) (pending w) (timers w) o g.
Definition queueInLoop (w : world) (f : functor) : world := with_pending w (pending w ++ [f]).
Definition setState (w : world) (s : States) : world := with_cn w (set_state (cn w) s).

(** [sockets::close]. *)
Definition close (w : world) (fd : Z) : res world :=
  if bool_decide (fd ∈ open w) then Ok (with_sockets w (open w ∖ {[fd]}) (given w)) else Err Undefined.

Definition retry (w : world) (fd : Z) : res world :=
  w ← close w fd;
  let w := setState w kDisconnected in
  if connect_ (cn w) then
    let w := with_timers w (timers w ++ [retryDelayMs_ (cn w)]) in
    Ok (with_cn w (set_delay (cn w) (Z.min (retryDelayMs_ (cn w) * 2) kMaxRetryDelayMs)))
  else Ok w.

Definition connecting (w : world) (tid fd c : Z) : res world :=
  let w := setState w kConnecting in
  assert! bool_decide (channel_ (cn w) = None);
  let ch := Channel.setCallback (Channel.setCallback (Channel.new fd) Channel.WriteCallback) Channel.ErrorCallback in
  let w := with_cn w (set_channel (cn w) (Some c)) in
  '(p, h) ← Channel_interest (poller w) tid (<[c := ch]> (heap w)) c Channel.EnableWriting;
  Ok (with_channels w p h).

Definition connect (w : world) (tid : Z) (a : attempt) : res world :=
  if sockfd a <? 0 then Err Fatal
  else
    let w := with_sockets w ({[sockfd a]} ∪ open w) (given w) in
    if bool_decide (conn_errno a ∈ [0; EINPROGRESS; EINTR; EISCONN]) then connecting w tid (sockfd a) (new_channel a)
    else if bool_decide (conn_errno a ∈ [EAGAIN; EADDRINUSE; EADDRNOTAVAIL; ECONNREFUSED; ENETUNREACH]) then retry w (sockfd a)
    else close w (sockfd a).          (* the other errors, listed or not, close the socket *)

Definition startInLoop (w : world) (tid : Z) (a : attempt) : res world :=
  _ ← assertInLoopThread (loop_ (cn w)) tid;
  assert! bool_decide (state_ (cn w) = kDisconnected);
  if connect_ (cn w) then connect w tid a else Ok w.

Definition start (w : world) (tid : Z) (a : attempt) : res world :=
  let w := with_cn w (set_connect (cn w) true) in
  if tid =? loop_ (cn w) then startInLoop w tid a else Ok (queueInLoop w StartInLoop).

Definition removeAndResetChannel (w : world) (tid : Z) : res (Z * world) :=
  match channel_ (cn w) with
  | None => Err Undefined
  | Some c =>
      '(p, h) ← Channel_interest (poller w) tid (heap w) c Channel.DisableAll;
      '(p, h) ← Channel_remove p tid h c;
      ch ← Channel.deref h c;
      Ok (Channel.fd_ ch, queueInLoop (with_channels w p h) ResetChannel)
  end.

Definition stopInLoop (w : world) (tid : Z) : res world :=
  _ ← assertInLoopThread (loop_ (cn w)) tid;
  if bool_decide (state_ (cn w) = kConnecting) then
    '(fd, w) ← removeAndResetChannel (setState w kDisconnected) tid;
    retry w fd
  else Ok w.

Definition stop (w : world) : world := queueInLoop (with_cn w (set_connect (cn w) false)) StopInLoop.

Definition restart (w : world) (tid : Z) (a : attempt) : res world :=
  _ ← assertInLoopThread (loop_ (cn w)) tid;
  let c := cn w in
  startInLoop (with_cn w (mk (loop_ c) true kDisconnected (channel_ c) kInitRetryDelayMs)) tid a.

(** [channel_.reset()] destroys the channel. *)
Definition resetChannel (w : world) (tid : Z) : res world :=
  match channel_ (cn w) with
  | None => Ok w
  | Some c =>
      ch ← Channel.deref (heap w) c;
      has ← hasChannel (poller w) tid (heap w) c;
      _ ← Channel.destroy ch true has;
      Ok (with_cn (with_channels w (poller w) (delete c (heap w))) (set_channel (cn w) None))
  end.

Definition handleWrite (w : world) (tid so_error : Z) (self_connect : bool) : res world :=
  if bool_decide (state_ (cn w) = kConnecting) then
    '(fd, w) ← removeAndResetChannel w tid;
    if negb (so_error =? 0) then retry w fd
    else if self_connect then retry w fd
    else
      let w := setState w kConnected in
      if connect_ (cn w) then Ok (with_sockets w (open w ∖ {[fd]}) (given w ++ [fd]))
      else close w fd
  else
    assert! bool_decide (state_ (cn w) = kDisconnected);
    Ok w.

Definition handleError (w : world) (tid : Z) : res world :=
  if bool_decide (state_ (cn w) = kConnecting) then
    '(fd, w) ← removeAndResetChannel w tid;
    retry w fd
  else Ok w.

(** The loop runs the first functor queued; the first timer set fires. *)
Definition run_functor (w : world) (tid : Z) (a : attempt) : res world :=
  match pending w with
  | [] => Ok w
  | f :: q =>
      let w := with_pending w q in
      match f with StartInLoop => startInLoop w tid a | StopInLoop => stopInLoop w tid | ResetChannel => resetChannel w tid end
  end.
Definition fire (w : world) (tid : Z) (a : attempt) : res world :=
  match timers w with [] => Ok w | _ :: l => startInLoop (with_timers w l) tid a end.

End Connector.
Arguments world P : clear implicits.
End Connector.
