(* ===== verification/ConnectorFacts.v ===== *)
(** The connector of src/networking/Connector.cpp: every socket it opens is
    closed or handed over exactly once, and its retries back off. *)

From S2P Require Import Prelude Channel Poller Interest PollPoller Connector.

Module ConnectorFacts.
Import Connector.
Section Facts.
Context {P : Type} {HP : Poller P} {HS : PollerSpec P}.
Implicit Types (w : world P).

Definition is_reset (f : functor) : Prop := f = ResetChannel.
#[local] Instance is_reset_dec f : Decision (is_reset f).
Proof. destruct f; [right|right|left]; done. Defined.
Definition resets (w : world P) : list functor := filter is_reset (pending w).

(** The channels of the rest of the program: what the poller holds besides. *)
Variable A0 : gmap Z (Z * Z).
Hypothesis A0_small : Z.of_nat (size A0) + 2 < int_max.

(** A connection attempt is under way on the channel [c]. *)
Record trying (w : world P) (c : Z) (ch : Channel.t) : Prop := {
  y_channel : channel_ (cn w) = Some c;
  y_reg : Interest.registered (poller w) (heap w) (<[Channel.fd_ ch := (c, Channel.kWriteEvent)]> A0) c ch;
  y_fresh : A0 !! Channel.fd_ ch = None;
  y_events : Channel.events_ ch = Channel.kWriteEvent;
  y_handling : Channel.eventHandling_ ch = false;
  y_other fd ev : A0 !! fd <> Some (c, ev);
  y_resets : resets w = [];
}.

(** None is; the last attempt's channel may wait to be destroyed. *)
Record idle (w : world P) : Prop := {
  d_rep : rep (poller w) (heap w) A0;
  d_channel : match channel_ (cn w) with
    | None => resets w = []
    | Some c => resets w = [ResetChannel] /\ (forall fd ev, A0 !! fd <> Some (c, ev)) /\
        exists ch, heap w !! c = Some ch /\ Channel.eventHandling_ ch = false /\ Channel.addedToLoop_ ch = false
    end;
}.

Definition delay_ok (d : Z) : Prop := kInitRetryDelayMs <= d <= kMaxRetryDelayMs.

Record inv (w : world P) : Prop := {
  k_owner : owner_tid (poller w) = loop_ (cn w);
  k_delay : delay_ok (retryDelayMs_ (cn w));
  k_timers : Forall delay_ok (timers w);
  k_state : match state_ (cn w) with
    | kConnecting => exists c ch, trying w c ch /\ open w = {[Channel.fd_ ch]}
    | _ => idle w /\ open w = ∅
    end;
}.

Lemma retry_ok w fd : owner_tid (poller w) = loop_ (cn w) -> delay_ok (retryDelayMs_ (cn w)) -> Forall delay_ok (timers w) ->
  idle w -> open w = {[fd]} -> exists w', retry w fd = Ok w' /\ inv w'.
Proof.
  intros Ho Hd Ht Hi Hop. unfold retry, close. rewrite bool_decide_eq_true_2 by set_solver. cbn [mbind res_bind with_sockets setState with_cn cn].
  assert (open w ∖ {[fd]} = ∅) as He by set_solver. destruct Hi as [Hr Hc].
  cbn [connect_ set_state]. destruct (connect_ (cn w)); eexists; (split; [done|]); (split; cbn; [done|..|split; [by split|done]]); try done.
  - unfold delay_ok, kInitRetryDelayMs, kMaxRetryDelayMs in *. lia.
  - apply Forall_app. split; [done|]. by constructor.
Qed.

(** The channel of an attempt leaves the poller; its destruction is queued. *)
Lemma removeAndResetChannel_ok w c ch : owner_tid (poller w) = loop_ (cn w) -> trying w c ch ->
  exists w', removeAndResetChannel w (loop_ (cn w)) = Ok (Channel.fd_ ch, w') /\ idle w' /\ cn w' = cn w /\ open w' = open w /\ timers w' = timers w /\
    given w' = given w /\ owner_tid (poller w') = loop_ (cn w).
Proof.
  intros Ho [Hch Hreg Hfr Hev Hh Hoth Hres]. unfold removeAndResetChannel. rewrite Hch, <- Ho.
  destruct (Interest.interest_registered _ _ _ _ _ Channel.DisableAll Hreg) as (p1 & h1 & ch1 & E1 & Eo1 & Hreg1 & Ef1 & Ee1 & Es1); [left; by rewrite Hev|].
  rewrite E1. cbn [mbind res_bind]. rewrite <- Eo1.
  destruct (Interest.remove_registered _ _ _ _ _ Hreg1 Ee1) as (p2 & h2 & ch2 & E2 & Eo2 & Hr2 & Hc2 & Es2).
  rewrite E2. cbn [mbind res_bind]. unfold Channel.deref. rewrite Hc2. cbn [mbind res_bind].
  destruct (strip_same _ _ Es1) as (F1 & _ & _ & H1), (strip_same _ _ Es2) as (F2 & _ & G2 & H2). cbn in F1, F2, G2, H1, H2.
  eexists. split_and!; [by rewrite F2, Ef1| |done..|cbn; congruence]. split; cbn.
  - rewrite Ef1, insert_insert_eq, delete_insert_id in Hr2 by done. exact Hr2.
  - rewrite Hch. unfold resets in *. cbn. rewrite filter_app, Hres. split_and!; [done|done|]. exists ch2. split_and!; [done|congruence|done].
Qed.

(** What the kernel and the allocator guarantee of an attempt: the descriptor is
    not in use, nor is the address. *)
Definition attempt_ok (w : world P) (a : attempt) : Prop :=
  A0 !! sockfd a = None /\ (sockfd a ∉ open w) /\ heap w !! new_channel a = None.

(** An operation keeps the invariant, or an assertion or a fatal error stops the
    program; it never touches what is not there. *)
Definition keeps (r : res (world P)) : Prop :=
  match r with Ok w' => inv w' | Err e => e = AssertFailed \/ e = Fatal end.

Lemma keeps_Ok r w' : r = Ok w' -> inv w' -> keeps r.
Proof. by intros ->. Qed.

Lemma connecting_ok w a : owner_tid (poller w) = loop_ (cn w) -> delay_ok (retryDelayMs_ (cn w)) -> Forall delay_ok (timers w) -> idle w -> open w = {[sockfd a]} -> 0 <= sockfd a -> A0 !! sockfd a = None -> heap w !! new_channel a = None ->
  keeps (connecting w (loop_ (cn w)) (sockfd a) (new_channel a)).
Proof.
  intros Ho Hd Ht [Hr Hc] Hop Hf HA Hn. unfold connecting. cbn [setState with_cn cn set_state channel_].
  destruct (channel_ (cn w)) as [c|] eqn:Ech; [by left|]. rewrite assert_true by (by apply bool_decide_eq_true_2).
  set (ch := Channel.setCallback _ _). set (c := new_channel a) in *.
  destruct (Interest.interest_fresh (poller w) (<[c := ch]> (heap w)) A0 c ch Channel.EnableWriting) as (p & h & ch1 & E & Eo & Hreg & Ef & Ee & Es); try done; [by apply rep_new|apply lookup_insert_eq|lia|].
  rewrite <- Ho. cbn [setState with_cn cn set_state set_channel poller heap]. rewrite E. cbn [mbind res_bind]. destruct (strip_same _ _ Es) as (_ & _ & _ & H1). cbn in H1.
  split; cbn; [congruence|done|done|]. exists c, ch1. rewrite Ef. split; [|exact Hop]. split; cbn; try done.
  - by rewrite Ef.
  - by rewrite Ef.
  - intros fd ev HA'. destruct (rep_live _ _ _ _ _ _ Hr HA') as (ch' & Hc' & _). congruence.
Qed.

(** The states other than [kConnecting] carry the same invariant. *)
Lemma inv_idle w : inv w -> state_ (cn w) <> kConnecting -> idle w /\ open w = ∅.
Proof. intros [_ _ _ Hs] Hn. by destruct (state_ (cn w)). Qed.

Lemma inv_sockets w o g : inv w -> state_ (cn w) <> kConnecting -> idle (with_sockets w o g).
Proof. intros Hi Hn. destruct (inv_idle w Hi Hn) as [[H1 H2] _]. by split. Qed.

Lemma startInLoop_ok w a : inv w -> attempt_ok w a -> keeps (startInLoop w (loop_ (cn w)) a).
Proof.
  intros Hi (HA & Hno & Hn). unfold startInLoop. rewrite assertInLoopThread_self. cbn [mbind res_bind].
  destruct (bool_decide (state_ (cn w) = kDisconnected)) eqn:Es; zbool; [|by left]. rewrite assert_true by done.
  destruct (connect_ (cn w)); [|exact Hi]. unfold connect. destruct (sockfd a <? 0) eqn:En; zbool; [by right|].
  destruct (inv_idle w Hi) as [Hid Hop]; [congruence|]. set (w1 := with_sockets w ({[sockfd a]} ∪ open w) (given w)).
  assert (idle w1) as Hid1 by (apply inv_sockets; [done|congruence]).
  assert (open w1 = {[sockfd a]}) as Hop1 by (cbn; rewrite Hop; set_solver). destruct (Hi) as [Ho Hd Ht _].
  destruct (bool_decide (conn_errno a ∈ _)); [|destruct (bool_decide (conn_errno a ∈ _))].
  - by apply (connecting_ok w1).
  - destruct (retry_ok w1 (sockfd a)) as (w' & E & Hi'); try done. by rewrite E.
  - unfold close. rewrite bool_decide_eq_true_2 by (rewrite Hop1; set_solver). cbn. split; cbn; try done. rewrite Es. split; [|rewrite Hop; set_solver].
    destruct Hid. by split.
Qed.

(** ** Every way the connector is entered *)

Inductive action :=
  | Start (tid : Z) (a : attempt)
  | Stop
  | Restart (a : attempt)                  (* on the loop's thread *)
  | RunFunctor (a : attempt)
  | Fire (a : attempt)                     (* a retry timer *)
  | Writable (so_error : Z) (self_connect : bool)
  | Error.

Definition act (w : world P) (a : action) : res (world P) :=
  let loop := loop_ (cn w) in
  match a with
  | Start tid a => start w tid a
  | Stop => Ok (stop w)
  | Restart a => restart w loop a
  | RunFunctor a => run_functor w loop a
  | Fire a => fire w loop a
  | Writable e self => handleWrite w loop e self
  | Error => handleError w loop
  end.

(** The owner restarts the connector only after it handed a connection over. *)
Definition permitted (w : world P) (a : action) : Prop :=
  match a with
  | Start _ a | RunFunctor a | Fire a => attempt_ok w a
  | Restart a => attempt_ok w a /\ state_ (cn w) = kConnected
  | _ => True
  end.

Lemma resets_queue w f : f <> ResetChannel -> resets (queueInLoop w f) = resets w.
Proof. intros Hf. unfold resets. cbn. rewrite filter_app, filter_cons_False by done. by rewrite filter_nil, app_nil_r. Qed.

(** Changes the invariant does not read. *)
Lemma inv_frame w w' b : inv w -> cn w' = set_connect (cn w) b -> poller w' = poller w -> heap w' = heap w ->
  resets w' = resets w -> Forall delay_ok (timers w') -> open w' = open w -> inv w'.
Proof.
  intros [H1 H2 H3 H4] E1 E2 E3 E4 E5 E6. split; rewrite ?E2, ?E1; try done. cbn [state_ set_connect]. rewrite E6.
  destruct (state_ (cn w)).
  - destruct H4 as [[Hr Hc] Ho]. split; [|done]. split; [by rewrite E2, E3|]. rewrite E1, E3, E4. done.
  - destruct H4 as (c & ch & [] & Ho). exists c, ch. split; [|done]. split; rewrite ?E1, ?E2, ?E3, ?E4; done.
  - destruct H4 as [[Hr Hc] Ho]. split; [|done]. split; [by rewrite E2, E3|]. rewrite E1, E3, E4. done.
Qed.

Lemma set_connect_id c : set_connect c (connect_ c) = c.
Proof. by destruct c. Qed.

Lemma start_ok w tid a : inv w -> attempt_ok w a -> keeps (start w tid a).
Proof.
  intros Hi Ha. unfold start. set (w1 := with_cn w (set_connect (cn w) true)).
  assert (inv w1) as Hi1 by (apply (inv_frame w _ true); [done..|apply Hi|done]).
  destruct (tid =? loop_ (cn w1)) eqn:Et; zbool; [subst tid; by apply startInLoop_ok|].
  apply (inv_frame w1 _ (connect_ (cn w1))); [done|by rewrite set_connect_id|done|done|by apply resets_queue|apply Hi1|done].
Qed.

Lemma stop_ok w : inv w -> inv (stop w).
Proof. intros Hi. apply (inv_frame w _ false); [done..|by apply (resets_queue (with_cn w _))|apply Hi|done]. Qed.

(** Giving an attempt up. *)
Lemma give_up_ok w c ch : owner_tid (poller w) = loop_ (cn w) -> delay_ok (retryDelayMs_ (cn w)) -> Forall delay_ok (timers w) ->
  trying w c ch -> open w = {[Channel.fd_ ch]} -> keeps ('(fd, w) ← removeAndResetChannel w (loop_ (cn w)); retry w fd).
Proof.
  intros Ho Hd Ht Hy Hop. destruct (removeAndResetChannel_ok w c ch Ho Hy) as (w1 & E & Hi & Ec & Eop & Et & _ & Eo). rewrite E. cbn [mbind res_bind].
  destruct (retry_ok w1 (Channel.fd_ ch)) as (w2 & E2 & Hi2); rewrite ?Ec, ?Eop, ?Et; try done. by rewrite E2.
Qed.

Lemma stopInLoop_ok w : inv w -> keeps (stopInLoop w (loop_ (cn w))).
Proof.
  intros Hi. unfold stopInLoop. rewrite assertInLoopThread_self. cbn [mbind res_bind].
  destruct (bool_decide (state_ (cn w) = kConnecting)) eqn:Es; zbool; [|exact Hi]. destruct Hi as [H1 H2 H3 H4]. rewrite Es in H4.
  destruct H4 as (c & ch & Hy & Hop). apply (give_up_ok (setState w kDisconnected) c ch); try done. by destruct Hy.
Qed.

Lemma handleError_ok w : inv w -> keeps (handleError w (loop_ (cn w))).
Proof.
  intros Hi. unfold handleError. destruct (bool_decide (state_ (cn w) = kConnecting)) eqn:Es; zbool; [|exact Hi].
  destruct Hi as [H1 H2 H3 H4]. rewrite Es in H4. destruct H4 as (c & ch & Hy & Hop). by apply (give_up_ok w c ch).
Qed.

Lemma connector_handleWrite_ok w e self : inv w -> keeps (handleWrite w (loop_ (cn w)) e self).
Proof.
  intros Hi. unfold handleWrite. destruct (bool_decide (state_ (cn w) = kConnecting)) eqn:Es; zbool.
  2: { destruct (bool_decide (state_ (cn w) = kDisconnected)); [exact Hi|by left]. }
  destruct Hi as [H1 H2 H3 H4]. rewrite Es in H4. destruct H4 as (c & ch & Hy & Hop).
  destruct (removeAndResetChannel_ok w c ch H1 Hy) as (w1 & E & Hi & Ec & Eop & Et & _ & Eo). rewrite E. cbn [mbind res_bind].
  assert (forall b : bool, keeps (retry w1 (Channel.fd_ ch))) as Hre.
  { intros _. destruct (retry_ok w1 (Channel.fd_ ch)) as (w2 & E2 & Hi2); rewrite ?Ec, ?Eop, ?Et; try done. by rewrite E2. }
  destruct (negb (e =? 0)); [by apply (Hre true)|]. destruct self; [by apply (Hre true)|].
  assert (open w1 ∖ {[Channel.fd_ ch]} = ∅) as He by (rewrite Eop, Hop; set_solver).
  cbn [setState with_cn cn set_state connect_]. unfold close. change (open (setState w1 kConnected)) with (open w1).
  rewrite bool_decide_eq_true_2 by (rewrite Eop, Hop; set_solver).
  destruct (connect_ (cn w1)); cbn; (split; cbn; [by rewrite Ec|by rewrite Ec|by rewrite Et|split; [by destruct Hi|done]]).
Qed.

Lemma resetChannel_ok w q : inv w -> pending w = ResetChannel :: q -> keeps (resetChannel (with_pending w q) (loop_ (cn w))).
Proof.
  intros Hi Hp. assert (state_ (cn w) <> kConnecting) as Hn.
  { intros Es. destruct Hi as [_ _ _ H4]. rewrite Es in H4. destruct H4 as (c & ch & Hy & _). pose proof (y_resets _ _ _ Hy) as Hr. unfold resets in Hr. by rewrite Hp in Hr. }
  destruct (inv_idle w Hi Hn) as [[Hr Hc] Hop]. unfold resetChannel. cbn [cn with_pending heap poller].
  destruct (channel_ (cn w)) as [c|] eqn:Ech.
  2: { exfalso. unfold resets in Hc. by rewrite Hp in Hc. }
  destruct Hc as (Hres & Hoth & ch & Hch & Hh & Had). unfold hasChannel, Channel.deref. rewrite Hch, (k_owner _ Hi), assertInLoopThread_self. cbn [mbind res_bind].
  assert (bool_decide (channels_ (poller w) !! Channel.fd_ ch = Some c) = false) as ->.
  { apply bool_decide_eq_false. rewrite (rep_channels _ _ _ Hr), lookup_fmap. destruct (A0 !! Channel.fd_ ch) as [[c' ev]|] eqn:EA; [|done].
    cbn. intros [= ->]. by apply (Hoth (Channel.fd_ ch) ev). }
  unfold Channel.destroy. rewrite Hh, Had. cbn. split; cbn; try apply Hi.
  assert (idle (with_cn (with_channels (with_pending w q) (poller w) (delete c (heap w))) (set_channel (cn w) None))) as Hid.
  { split; cbn; [by apply rep_delete|]. unfold resets in *. rewrite Hp, filter_cons_True in Hres by done. cbn in *. by injection Hres. }
  by destruct (state_ (cn w)).
Qed.

Lemma connector_functor_ok w a : inv w -> attempt_ok w a -> keeps (run_functor w (loop_ (cn w)) a).
Proof.
  intros Hi Ha. unfold run_functor. destruct (pending w) as [|f q] eqn:Hp; [exact Hi|].
  assert (f <> ResetChannel -> inv (with_pending w q)) as Hq.
  { intros Hf. apply (inv_frame w _ (connect_ (cn w))); [done|by rewrite set_connect_id|done|done| |apply Hi|done]. unfold resets. cbn. by rewrite Hp, filter_cons_False. }
  destruct f.
  - by apply (startInLoop_ok (with_pending w q)), Ha; apply Hq.
  - by apply (stopInLoop_ok (with_pending w q)), Hq.
  - by apply resetChannel_ok.
Qed.

Lemma connector_act_ok w a : inv w -> permitted w a -> keeps (act w a).
Proof.
  intros Hi Hp. destruct a as [tid a| |a|a|a|e self|]; cbn [act permitted] in *.
  - by apply start_ok.
  - by apply stop_ok.
  - destruct Hp as [Ha Hs]. unfold restart. rewrite assertInLoopThread_self. cbn [mbind res_bind].
    apply (startInLoop_ok (with_cn w (mk (loop_ (cn w)) true kDisconnected (channel_ (cn w)) kInitRetryDelayMs))); [|exact Ha].
    destruct (inv_idle w Hi) as [[Hr Hc] Ho]; [congruence|]. destruct Hi as [H1 H2 H3 _]. split; cbn; [done|done|done|]. split; [by split|done].
  - by apply connector_functor_ok.
  - unfold fire. destruct (timers w) as [|d l] eqn:Et; [exact Hi|]. apply (startInLoop_ok (with_timers w l)); [|exact Hp].
    apply (inv_frame w _ (connect_ (cn w))); [done|by rewrite set_connect_id|done|done|done| |done]. pose proof (k_timers _ Hi) as Hf. rewrite Et in Hf. by apply Forall_cons in Hf as [_ ?].
  - by apply connector_handleWrite_ok.
  - by apply handleError_ok.
Qed.

(** The states a new connector reaches. *)
Inductive reachable : world P -> Prop :=
  | reach_new p h loop : rep p h A0 -> owner_tid p = loop -> reachable (mk_world (new loop) p h [] [] ∅ [])
  | reach_act w a w' : reachable w -> permitted w a -> act w a = Ok w' -> reachable w'.

Lemma reachable_inv w : reachable w -> inv w.
Proof.
  induction 1 as [p h loop Hr Ho|w a w' _ IH Hp E]; [by split|].
  pose proof (connector_act_ok w a IH Hp) as Hk. by rewrite E in Hk.
Qed.

(** C9: Whatever is asked of the connector and whatever the kernel answers, it
    holds exactly the socket of the attempt under way and none otherwise, and no
    operation closes a socket twice or uses a channel that is gone: each socket
    opened is closed once or handed over once. *)
Theorem sockets_accounted w :
  reachable w ->
  match state_ (cn w) with
  | kConnecting => exists c ch, channel_ (cn w) = Some c /\ heap w !! c = Some ch /\ open w = {[Channel.fd_ ch]}
  | _ => open w = ∅
  end /\ forall a, permitted w a -> act w a <> Err Undefined.
Proof.
  intros Hi%reachable_inv. split.
  - pose proof (k_state _ Hi) as Hs. destruct (state_ (cn w)); try apply Hs. destruct Hs as (c & ch & Hy & Ho). exists c, ch.
    split_and!; [apply Hy|apply (y_reg _ _ _ Hy)|done].
  - intros a Hp E. pose proof (connector_act_ok w a Hi Hp) as Hk. rewrite E in Hk. by destruct Hk.
Qed.

End Facts.

(** ** Backing off *)
Section Backoff.
Context {P : Type} {HP : Poller P}.

(** Attempts that fail, one after the other. *)
Definition refused (a : attempt) : Prop := 0 <= sockfd a /\ conn_errno a ∈ [EAGAIN; EADDRINUSE; EADDRNOTAVAIL; ECONNREFUSED; ENETUNREACH].
Fixpoint attempts (w : world P) (l : list attempt) : res (world P) :=
  match l with [] => Ok w | a :: l => w ← startInLoop w (loop_ (cn w)) a; attempts w l end.

Definition nth_delay (d : Z) (i : nat) : Z := Z.min (d * 2 ^ Z.of_nat i) kMaxRetryDelayMs.

Lemma nth_delay_next d i : 0 < d -> nth_delay (Z.min (d * 2) kMaxRetryDelayMs) i = nth_delay d (S i).
Proof.
  intros Hd. unfold nth_delay. rewrite Nat2Z.inj_succ, Z.pow_succ_r by lia. pose proof (Z.pow_pos_nonneg 2 (Z.of_nat i) ltac:(lia) ltac:(lia)).
  unfold kMaxRetryDelayMs. nia.
Qed.

Lemma attempt_refused w a : connect_ (cn w) = true -> state_ (cn w) = kDisconnected -> refused a ->
  exists w', startInLoop w (loop_ (cn w)) a = Ok w' /\ connect_ (cn w') = true /\ state_ (cn w') = kDisconnected /\
    loop_ (cn w') = loop_ (cn w) /\ retryDelayMs_ (cn w') = Z.min (retryDelayMs_ (cn w) * 2) kMaxRetryDelayMs /\
    timers w' = timers w ++ [retryDelayMs_ (cn w)].
Proof.
  intros Hc Hs [Hf He]. unfold startInLoop, connect. rewrite assertInLoopThread_self, Hc, Hs. cbn [mbind res_bind].
  rewrite assert_true by (by apply bool_decide_eq_true_2). rewrite (proj2 (Z.ltb_ge _ _)) by done.
  assert (bool_decide (conn_errno a ∈ [0; EINPROGRESS; EINTR; EISCONN]) = false) as ->.
  { apply bool_decide_eq_false. intros Hin. revert He. clear -Hin. rewrite !elem_of_cons in *. unfold EAGAIN, EADDRINUSE, EADDRNOTAVAIL, ECONNREFUSED, ENETUNREACH, EINPROGRESS, EINTR, EISCONN in *.
    destruct_or! Hin; try (by apply elem_of_nil in Hin); rewrite Hin; intros He; destruct_or! He; try done; by apply elem_of_nil in He. }
  rewrite (bool_decide_eq_true_2 _ He). unfold retry, close. cbn [open with_sockets]. rewrite bool_decide_eq_true_2 by set_solver.
  cbn. rewrite Hc. eexists. by split_and!.
Qed.

(** While connecting fails, the connector keeps trying, waiting 500 ms, then
    twice as long each time up to 30 s: the i-th timer it sets is
    [min (500 * 2^i) 30000] ms. *)
Theorem retry_backs_off w l :
  connect_ (cn w) = true -> state_ (cn w) = kDisconnected -> retryDelayMs_ (cn w) = kInitRetryDelayMs -> Forall refused l ->
  exists w', attempts w l = Ok w' /\ state_ (cn w') = kDisconnected /\
    timers w' = timers w ++ map (nth_delay kInitRetryDelayMs) (seq 0 (length l)).
Proof.
  intros Hc Hs Hd Hl. rewrite <- Hd. assert (0 < retryDelayMs_ (cn w) <= kMaxRetryDelayMs) as Hpos by (rewrite Hd; unfold kInitRetryDelayMs, kMaxRetryDelayMs; lia). clear Hd.
  revert w Hc Hs Hpos. induction Hl as [|a l Ha _ IH]; intros w Hc Hs Hpos; cbn [attempts length seq map].
  - exists w. by rewrite app_nil_r.
  - destruct (attempt_refused w a Hc Hs Ha) as (w1 & E & Hc1 & Hs1 & _ & Hd1 & Ht1). rewrite E. cbn [mbind res_bind].
    destruct (IH w1 Hc1 Hs1) as (w2 & E2 & Hs2 & Ht2); [rewrite Hd1; unfold kMaxRetryDelayMs in *; lia|].
    exists w2. split_and!; [done|done|]. rewrite Ht2, Ht1, <- app_assoc. f_equal. cbn. f_equal.
    + unfold nth_delay. cbn. lia.
    + rewrite <- seq_shift, map_map, Hd1. apply map_ext. intros i. apply nth_delay_next. lia.
Qed.

End Backoff.

(** ** Examples on poll(2) *)

Definition sample_new : world PollPoller.t := mk_world (new 1) (PollPoller.new 1) ∅ [] [] ∅ [].
Definition sample_attempt (errno : Z) : attempt := mk_attempt 7 errno 100.
Definition sample_world : world PollPoller.t := match act sample_new (Start 1 (sample_attempt EINPROGRESS)) with Ok w => w | Err _ => sample_new end.

Lemma sockets_accounted_witness : state_ (cn sample_world) = kConnecting /\
  exists c ch, channel_ (cn sample_world) = Some c /\ heap sample_world !! c = Some ch /\ open sample_world = {[Channel.fd_ ch]}.
Proof.
  assert (state_ (cn sample_world) = kConnecting) as Es by (vm_compute; reflexivity). split; [exact Es|].
  assert (Z.of_nat (size (∅ : gmap Z (Z * Z))) + 2 < int_max) as Hs by (vm_compute; reflexivity).
  assert (reachable ∅ sample_world) as Hr.
  { apply (reach_act ∅ sample_new (Start 1 (sample_attempt EINPROGRESS))).
    - apply reach_new; [apply PollPoller.poll_new_rep|reflexivity].
    - split; [reflexivity|]. split; [apply not_elem_of_empty|reflexivity].
    - vm_compute. reflexivity. }
  destruct (sockets_accounted ∅ Hs sample_world Hr) as [Hx _]. rewrite Es in Hx. exact Hx.
Defined.

Lemma retry_backs_off_witness :
  let w := with_cn sample_new (set_connect (cn sample_new) true) in
  exists w', attempts w (repeat (sample_attempt ECONNREFUSED) 8) = Ok w' /\ state_ (cn w') = kDisconnected /\
    timers w' = [] ++ [500; 1000; 2000; 4000; 8000; 16000; 30000; 30000].
Proof.
  intros w. apply (retry_backs_off w (repeat (sample_attempt ECONNREFUSED) 8)); [reflexivity|reflexivity|reflexivity|].
  cbn. repeat constructor; cbn; lia.
Defined.

(** A stop and a start while a retry timer is set: the timer then finds the
    connector connecting, and its assertion fails. *)
Definition stop_start : res (world PollPoller.t) :=
  w ← act sample_new (Start 1 (sample_attempt ECONNREFUSED));
  w ← act w Stop;
  w ← act w (RunFunctor (sample_attempt 0));
  w ← act w (Start 1 (sample_attempt EINPROGRESS));
  act w (Fire (mk_attempt 8 0 101)).
Lemma stop_start_asserts : stop_start = Err AssertFailed.
Proof. vm_compute. reflexivity. Qed.

End ConnectorFacts.
