(* ===== verification/Sockets.v ===== *)
(** Socket addresses and system call wrappers (src/networking/InetAddress.h,
    InetAddress.cpp, SocketsOps.cpp).

    An [InetAddress] is a union of a [sockaddr_in] and a [sockaddr_in6], 28
    bytes; fields are read and written at their offsets in the object
    representation, as both members of the union see them.  [inet_ntop] and
    [inet_pton] are parameters with the laws of their manual pages.  A string the
    code passes as [const char *] ends at its first NUL. *)

From S2P Require Import Prelude Endian Printf.

Module Sockets.

Definition AF_INET : Z := 2.
Definition AF_INET6 : Z := 10.
Definition INET_ADDRSTRLEN : Z := 16.
Definition INET6_ADDRSTRLEN : Z := 46.

(** A [sockaddr_in6]; a [sockaddr_in] is its first 16 bytes. *)
Definition sockaddr : Type := list byte.
Definition sizeof_in : nat := 16.
Definition sizeof_in6 : nat := 28.

Definition get (a : sockaddr) (off n : nat) : list byte := take n (drop off a).
Definition put (a : sockaddr) (off : nat) (d : list byte) : sockaddr := take off a ++ d ++ drop (off + length d) a.

Definition sa_family (a : sockaddr) : Z := le_combine (get a 0 2).
Definition sin_port (a : sockaddr) : Z := le_combine (get a 2 2).
Definition sin_addr (a : sockaddr) : list byte := get a 4 4.
Definition sin6_addr (a : sockaddr) : list byte := get a 8 16.
Definition set_family (a : sockaddr) (f : Z) : sockaddr := put a 0 (le_split 2 f).
Definition set_port (a : sockaddr) (p : Z) : sockaddr := put a 2 (le_split 2 p).
Definition set_sin_addr (a : sockaddr) (d : list byte) : sockaddr := put a 4 d.
Definition set_sin6_addr (a : sockaddr) (d : list byte) : sockaddr := put a 8 d.
Definition set_scope_id (a : sockaddr) (s : Z) : sockaddr := put a 24 (le_split 4 s).
(** [memZero] of the first [n] bytes. *)
Definition memZero (a : sockaddr) (n : nat) : sockaddr := put a 0 (replicate n x00).

(** Presentation of addresses: [ntop] of 4 or 16 bytes, [pton] of a string. *)
Class Presentation := {
  ntop4 : list byte -> list byte;
  ntop6 : list byte -> list byte;
  pton4 : list byte -> option (list byte);
  pton6 : list byte -> option (list byte);
}.

Definition colon : byte := x3a.

Class PresentationLaws `{Presentation} := {
  pton4_ntop4 a : length a = 4%nat -> pton4 (ntop4 a) = Some a;
  pton6_ntop6 a : length a = 16%nat -> pton6 (ntop6 a) = Some a;
  ntop4_length a : length a = 4%nat -> zlen (ntop4 a) < INET_ADDRSTRLEN;
  ntop6_length a : length a = 16%nat -> zlen (ntop6 a) < INET6_ADDRSTRLEN;
  ntop4_chars a : length a = 4%nat -> (x00 ∉ ntop4 a) /\ (colon ∉ ntop4 a);
  ntop6_chars a : length a = 16%nat -> (x00 ∉ ntop6 a) /\ colon ∈ ntop6 a;
}.

Section Addresses.
Context `{Presentation}.

(** [sockets::toIp] and [toIpPort] into a buffer of [size] bytes that is empty:
    the string in the buffer afterwards. *)
Definition toIp (size : Z) (a : sockaddr) : res (list byte) :=
  if sa_family a =? AF_INET then
    assert! INET_ADDRSTRLEN <=? size;
    Ok (ntop4 (sin_addr a))
  else if sa_family a =? AF_INET6 then
    assert! INET6_ADDRSTRLEN <=? size;
    Ok (ntop6 (sin6_addr a))
  else Ok [].

Definition toIpPort (size : Z) (a : sockaddr) : res (list byte) :=
  if sa_family a =? AF_INET6 then
    ip ← toIp (size - 1) a;
    let buf := x5b :: ip in
    let end_ := zlen buf in
    let port := networkToHost16 (sin_port a) in
    assert! end_ <? size;
    Ok (buf ++ snprintf (Z.to_nat (size - end_)) (bs "]:" ++ dec port))
  else
    buf ← toIp size a;
    let end_ := zlen buf in
    let port := networkToHost16 (sin_port a) in
    assert! end_ <? size;
    Ok (buf ++ snprintf (Z.to_nat (size - end_)) (bs ":" ++ dec port)).

(** [sockets::fromIpPort]; an address that does not parse is logged. *)
Definition fromIpPort4 (ip : list byte) (port : Z) (a : sockaddr) : sockaddr :=
  let a := set_family a AF_INET in
  let a := set_port a (hostToNetwork16 port) in
  match pton4 ip with Some d => set_sin_addr a d | None => a end.
Definition fromIpPort6 (ip : list byte) (port : Z) (a : sockaddr) : sockaddr :=
  let a := set_family a AF_INET6 in
  let a := set_port a (hostToNetwork16 port) in
  match pton6 ip with Some d => set_sin6_addr a d | None => a end.

(** ** [InetAddress] *)

Definition INADDR_ANY : Z := 0.
Definition INADDR_LOOPBACK : Z := 2130706433.        (* 127.0.0.1 *)
Definition in6addr_any : list byte := replicate 16 x00.
Definition in6addr_loopback : list byte := replicate 15 x00 ++ [x01].

(** The constructors; [raw] is the storage before. *)
Definition InetAddress_port (raw : sockaddr) (portArg : Z) (loopbackOnly ipv6 : bool) : sockaddr :=
  if ipv6 then
    let a := memZero raw sizeof_in6 in
    let a := set_family a AF_INET6 in
    let a := set_sin6_addr a (if loopbackOnly then in6addr_loopback else in6addr_any) in
    set_port a (hostToNetwork16 portArg)
  else
    let a := memZero raw sizeof_in in
    let a := set_family a AF_INET in
    let a := set_sin_addr a (le_split 4 (hostToNetwork32 (if loopbackOnly then INADDR_LOOPBACK else INADDR_ANY))) in
    set_port a (hostToNetwork16 portArg).

Definition InetAddress_ip (raw : sockaddr) (ip : list byte) (portArg : Z) (ipv6 : bool) : sockaddr :=
  if ipv6 || bool_decide (colon ∈ ip) then fromIpPort6 ip portArg (memZero raw sizeof_in6)
  else fromIpPort4 ip portArg (memZero raw sizeof_in).

Definition family (a : sockaddr) : Z := sa_family a.
Definition InetAddress_toIpPort (a : sockaddr) : res (list byte) := toIpPort 64 a.
Definition InetAddress_toIp (a : sockaddr) : res (list byte) := toIp 64 a.
Definition portNetEndian (a : sockaddr) : Z := sin_port a.
Definition port (a : sockaddr) : Z := networkToHost16 (portNetEndian a).
Definition ipv4NetEndian (a : sockaddr) : res Z :=
  assert! family a =? AF_INET;
  Ok (le_combine (sin_addr a)).
Definition setScopeId (a : sockaddr) (scope_id : Z) : sockaddr := if family a =? AF_INET6 then set_scope_id a scope_id else a.

(** [resolve]: what gethostbyname_r found, its address type and bytes. *)
Definition resolve (found : option (Z * list byte)) (out : sockaddr) : res (bool * sockaddr) :=
  match found with
  | Some (h_addrtype, h_addr) =>
      assert! (h_addrtype =? AF_INET) && (zlen h_addr =? 4);
      Ok (true, set_sin_addr out h_addr)
  | None => Ok (false, out)
  end.

(** [getPeerAddr] and [getLocalAddr]: the bytes getpeername(2) or getsockname(2)
    wrote, [None] when it failed; [raw] is the storage before. *)
Definition getPeerAddr (raw : sockaddr) (getpeername : option (list byte)) : sockaddr :=
  let peeraddr := memZero raw sizeof_in6 in
  match getpeername with Some d => put peeraddr 0 d | None => peeraddr end.
Definition getLocalAddr (raw : sockaddr) (getsockname : option (list byte)) : sockaddr :=
  let localaddr := memZero raw sizeof_in6 in
  match getsockname with Some d => put localaddr 0 d | None => localaddr end.

(** [isSelfConnect] on the local and the peer address. *)
Definition isSelfConnect (localaddr peeraddr : sockaddr) : bool :=
  if sa_family localaddr =? AF_INET then
    (sin_port localaddr =? sin_port peeraddr) && bool_decide (sin_addr localaddr = sin_addr peeraddr)
  else if sa_family localaddr =? AF_INET6 then
    (sin_port localaddr =? sin_port peeraddr) && bool_decide (sin6_addr localaddr = sin6_addr peeraddr)
  else false.

End Addresses.

(** ** System calls that may not fail *)

Definition createNonblockingOrDie (socket : Z) : res Z := if socket <? 0 then Err Fatal else Ok socket.
Definition bindOrDie (ret : Z) : res unit := if ret <? 0 then Err Fatal else Ok tt.
Definition listenOrDie (ret : Z) : res unit := if ret <? 0 then Err Fatal else Ok tt.
Definition getSocketError (ret errno optval : Z) : Z := if ret <? 0 then errno else optval.

Definition EPERM : Z := 1.
Definition EINTR : Z := 4.
Definition EAGAIN : Z := 11.
Definition EMFILE : Z := 24.
Definition EPROTO : Z := 71.
Definition ECONNABORTED : Z := 103.

(** [accept]: the descriptor accept4(2) returned, and [errno]. *)
Definition accept (sockfd connfd errno : Z) : res Z :=
  assert! negb (connfd =? sockfd);
  if connfd <? 0 then
    if bool_decide (errno ∈ [EAGAIN; ECONNABORTED; EINTR; EPROTO; EPERM; EMFILE]) then Ok connfd else Err Fatal
  else Ok connfd.

End Sockets.
