(* ===== verification/SocketsFacts.v ===== *)
(** Facts about socket addresses: an address built from the text of an IP
    address and a port keeps both, and prints them; printing and building again
    gives the same address (src/networking/InetAddress.cpp, SocketsOps.cpp). *)

From S2P Require Import Prelude Endian Printf Sockets.

Module SocketsFacts.
Import Sockets.

(** ** Fields of the object representation *)

Lemma length_put a off d : (off + length d <= length a)%nat -> length (put a off d) = length a.
Proof. intros ?. unfold put. rewrite !length_app, length_take, length_drop. lia. Qed.

Lemma get_put_eq a off d : (off + length d <= length a)%nat -> get (put a off d) off (length d) = d.
Proof.
  intros ?. unfold get, put.
  rewrite drop_app_ge by (rewrite length_take; lia). rewrite length_take.
  replace (off - off `min` length a)%nat with 0%nat by lia.
  by rewrite drop_0, take_app_length.
Qed.

Lemma get_put_before a off d o n :
  (o + n <= off)%nat -> (off <= length a)%nat -> get (put a off d) o n = get a o n.
Proof.
  intros ??. unfold get, put.
  rewrite drop_app_le by (rewrite length_take; lia).
  rewrite take_app_le by (rewrite length_drop, length_take; lia).
  rewrite !take_drop_commute, take_take. do 2 f_equal. lia.
Qed.

Lemma get_put_after a off d o n :
  (off + length d <= o)%nat -> (off + length d <= length a)%nat -> get (put a off d) o n = get a o n.
Proof.
  intros ??. unfold get, put.
  rewrite drop_app_ge by (rewrite length_take; lia). rewrite length_take.
  rewrite drop_app_ge by lia. rewrite drop_drop. f_equal. f_equal. lia.
Qed.

Lemma port_range p : 0 <= p < 65536 -> networkToHost16 (hostToNetwork16 p) = p.
Proof. intros ?. unfold networkToHost16, hostToNetwork16. rewrite bswap_involutive, Z.mod_small; lia. Qed.

(** Reading a field of an address after a sequence of writes. *)
Ltac size := unfold memZero, set_family, set_port, set_sin_addr, set_sin6_addr, set_scope_id in *;
  repeat (rewrite length_put by size || rewrite length_le_split || rewrite length_replicate); cbn; lia.
Ltac field :=
  unfold sa_family, sin_port, sin_addr, sin6_addr, memZero, set_family, set_port, set_sin_addr, set_sin6_addr, set_scope_id;
  repeat first
    [ rewrite get_put_before by size
    | rewrite get_put_after by size
    | match goal with
      | |- context [get (put ?a ?o (le_split ?n ?z)) ?o ?n] =>
          rewrite <- (length_le_split n z) at 2; rewrite get_put_eq by size
      | H : length ?d = ?n |- context [get (put ?a ?o ?d) ?o ?n] =>
          rewrite <- H; rewrite get_put_eq by size
      end ];
  rewrite ?le_combine_split.

Section WithPresentation.
Context `{PresentationLaws}.

Lemma from4_fields ip p a d :
  length a = 28%nat -> 0 <= p < 65536 -> pton4 ip = Some d -> length d = 4%nat ->
  let a' := fromIpPort4 ip p a in sa_family a' = AF_INET /\ port a' = p /\ sin_addr a' = d.
Proof.
  intros Ha Hp Hd H4 a'. unfold a', port, portNetEndian, fromIpPort4. rewrite Hd.
  split; [|split].
  - field. done.
  - field. rewrite Z.mod_small; [by apply port_range|]. apply (bswap_range 2).
  - by field.
Qed.

Lemma from6_fields ip p a d :
  length a = 28%nat -> 0 <= p < 65536 -> pton6 ip = Some d -> length d = 16%nat ->
  let a' := fromIpPort6 ip p a in sa_family a' = AF_INET6 /\ port a' = p /\ sin6_addr a' = d.
Proof.
  intros Ha Hp Hd H4 a'. unfold a', port, portNetEndian, fromIpPort6. rewrite Hd.
  split; [|split].
  - field. done.
  - field. rewrite Z.mod_small; [by apply port_range|]. apply (bswap_range 2).
  - by field.
Qed.

Lemma length_sin_addr a : length a = 28%nat -> length (sin_addr a) = 4%nat.
Proof. intros ?. unfold sin_addr, get. rewrite length_take, length_drop. lia. Qed.
Lemma length_sin6_addr a : length a = 28%nat -> length (sin6_addr a) = 16%nat.
Proof. intros ?. unfold sin6_addr, get. rewrite length_take, length_drop. lia. Qed.
Lemma sin_port_range a : length a = 28%nat -> 0 <= sin_port a < 65536.
Proof.
  intros ?. unfold sin_port. pose proof (le_combine_range (get a 2 2)) as Hr.
  unfold get in *. rewrite length_take, length_drop in Hr.
  replace (2 `min` (length a - 2))%nat with 2%nat in Hr by lia. done.
Qed.
Lemma port_bounds a : 0 <= port a < 65536.
Proof. apply (bswap_range 2). Qed.
Lemma sin_port_port a : length a = 28%nat -> hostToNetwork16 (port a) = sin_port a.
Proof.
  intros ?. unfold port, portNetEndian, networkToHost16, hostToNetwork16.
  rewrite bswap_involutive, Z.mod_small; [done|]. by apply sin_port_range.
Qed.
Lemma port_inj a b : length a = 28%nat -> length b = 28%nat -> port a = port b -> sin_port a = sin_port b.
Proof. intros. rewrite <- !sin_port_port by done. congruence. Qed.

Lemma length_dec_port p : 0 <= p < 65536 -> zlen (dec p) <= 5.
Proof.
  intros ?. unfold dec. rewrite (proj2 (Z.ltb_ge p 0)) by lia.
  pose proof (length_dec_pos p 5 ltac:(lia) ltac:(lia)). unfold zlen. lia.
Qed.

(** What is printed fits in the 64 bytes of [toIpPort]. *)
Lemma snprintf_fits size out : (length out < size)%nat -> snprintf size out = out.
Proof. intros. unfold snprintf. apply take_ge. lia. Qed.

Lemma toIp4 a : sa_family a = AF_INET -> InetAddress_toIp a = Ok (ntop4 (sin_addr a)).
Proof. intros Hf. unfold InetAddress_toIp, toIp. by rewrite Hf. Qed.
Lemma toIp6 a : sa_family a = AF_INET6 -> InetAddress_toIp a = Ok (ntop6 (sin6_addr a)).
Proof. intros Hf. unfold InetAddress_toIp, toIp. by rewrite Hf. Qed.

Lemma toIpPort4 a :
  length a = 28%nat -> sa_family a = AF_INET ->
  InetAddress_toIpPort a = Ok (ntop4 (sin_addr a) ++ bs ":" ++ dec (port a)).
Proof.
  intros Ha Hf. unfold InetAddress_toIpPort, toIpPort, toIp. rewrite Hf. cbn [Z.eqb AF_INET AF_INET6 res_bind Pos.eqb Z.leb].
  pose proof (ntop4_length _ (length_sin_addr a Ha)) as Hl. pose proof (length_dec_port _ (port_bounds a)) as Hd.
  change (networkToHost16 (sin_port a)) with (port a). revert Hd. generalize (port a). intros q Hd.
  unfold INET_ADDRSTRLEN in Hl. cbn.
  rewrite !assert_true by (zbool; lia). rewrite snprintf_fits; [done|]. unfold zlen in *. cbn. lia.
Qed.

Lemma toIpPort6 a :
  length a = 28%nat -> sa_family a = AF_INET6 ->
  InetAddress_toIpPort a = Ok (bs "[" ++ ntop6 (sin6_addr a) ++ bs "]:" ++ dec (port a)).
Proof.
  intros Ha Hf. unfold InetAddress_toIpPort, toIpPort, toIp. rewrite Hf. cbn [Z.eqb AF_INET AF_INET6 res_bind Pos.eqb Z.leb].
  pose proof (ntop6_length _ (length_sin6_addr a Ha)) as Hl. pose proof (length_dec_port _ (port_bounds a)) as Hd.
  change (networkToHost16 (sin_port a)) with (port a). revert Hd. generalize (port a). intros q Hd.
  unfold INET6_ADDRSTRLEN, zlen in *. cbn.
  rewrite assert_true by done. cbn.
  rewrite assert_true by (zbool; lia). rewrite snprintf_fits; [done|]. cbn. lia.
Qed.

(** The address built again from the printed one. *)
Lemma rebuilt4 a raw :
  length a = 28%nat -> length raw = 28%nat -> sa_family a = AF_INET ->
  let b := InetAddress_ip raw (ntop4 (sin_addr a)) (port a) false in
  length b = 28%nat /\ sa_family b = AF_INET /\ port b = port a /\ sin_addr b = sin_addr a.
Proof.
  intros Ha Hr Hf b. pose proof (length_sin_addr a Ha) as Hs. pose proof (ntop4_chars _ Hs) as [_ Hc].
  assert (b = fromIpPort4 (ntop4 (sin_addr a)) (port a) (memZero raw sizeof_in)) as ->.
  { unfold b, InetAddress_ip. by rewrite bool_decide_false. }
  split.
  { unfold fromIpPort4, sizeof_in. rewrite pton4_ntop4 by done. size. }
  apply from4_fields; [unfold sizeof_in; size|apply port_bounds|by apply pton4_ntop4|done].
Qed.

Lemma rebuilt6 a raw :
  length a = 28%nat -> length raw = 28%nat -> sa_family a = AF_INET6 ->
  let b := InetAddress_ip raw (ntop6 (sin6_addr a)) (port a) false in
  length b = 28%nat /\ sa_family b = AF_INET6 /\ port b = port a /\ sin6_addr b = sin6_addr a.
Proof.
  intros Ha Hr Hf b. pose proof (length_sin6_addr a Ha) as Hs. pose proof (ntop6_chars _ Hs) as [_ Hc].
  assert (b = fromIpPort6 (ntop6 (sin6_addr a)) (port a) (memZero raw sizeof_in6)) as ->.
  { unfold b, InetAddress_ip. by rewrite bool_decide_true. }
  split.
  { unfold fromIpPort6, sizeof_in6. rewrite pton6_ntop6 by done. size. }
  apply from6_fields; [unfold sizeof_in6; size|apply port_bounds|by apply pton6_ntop6|done].
Qed.

(** C35: printing an address and building an address from what was printed
    gives the same end point.  For every IPv4 or IPv6 address, [toIp] succeeds,
    [toIpPort] is "ip:port" or "[ip]:port" in full (its 64-byte buffer never
    truncates), and the constructor from that IP text and [port] gives, whatever
    the storage held before, an address of the same family, port and text, which
    [isSelfConnect] takes for the same end point. *)
Theorem address_roundtrip a raw :
  length a = 28%nat -> length raw = 28%nat -> family a = AF_INET \/ family a = AF_INET6 ->
  exists ip, InetAddress_toIp a = Ok ip /\
    InetAddress_toIpPort a =
      Ok ((if family a =? AF_INET6 then bs "[" ++ ip ++ bs "]" else ip) ++ bs ":" ++ dec (port a)) /\
    let b := InetAddress_ip raw ip (port a) false in
    family b = family a /\ port b = port a /\ InetAddress_toIp b = Ok ip /\
    InetAddress_toIpPort b = InetAddress_toIpPort a /\ isSelfConnect a b = true.
Proof.
  intros Ha Hr Hf. unfold family in *. destruct Hf as [Hf|Hf].
  - exists (ntop4 (sin_addr a)). rewrite (toIp4 a Hf), (toIpPort4 a Ha Hf), Hf.
    do 2 (split; [done|]). destruct (rebuilt4 a raw Ha Hr Hf) as (Hb & B1 & B2 & B3).
    set (b := InetAddress_ip _ _ _ _) in *.
    rewrite (toIp4 b B1), (toIpPort4 b Hb B1), B1, B2, B3. do 4 (split; [done|]).
    unfold isSelfConnect. rewrite Hf, B3, (port_inj a b Ha Hb), !Z.eqb_refl by done. by rewrite bool_decide_true.
  - exists (ntop6 (sin6_addr a)). rewrite (toIp6 a Hf), (toIpPort6 a Ha Hf), Hf.
    split; [done|]. split; [cbn; by rewrite <- !app_assoc|].
    destruct (rebuilt6 a raw Ha Hr Hf) as (Hb & B1 & B2 & B3). set (b := InetAddress_ip _ _ _ _) in *.
    rewrite (toIp6 b B1), (toIpPort6 b Hb B1), B1, B2, B3. do 4 (split; [done|]).
    unfold isSelfConnect. rewrite Hf, B3, (port_inj a b Ha Hb), !Z.eqb_refl by done.
    change (AF_INET6 =? AF_INET) with false. cbn iota. by rewrite bool_decide_true.
Qed.

End WithPresentation.

(** ** A presentation: dotted decimals, and eight groups of hexadecimal digits *)
Module Plain.

Fixpoint split_at (c : byte) (l : list byte) : list (list byte) :=
  match l with
  | [] => [[]]
  | b :: l =>
      if bool_decide (b = c) then [] :: split_at c l
      else match split_at c l with g :: gs => (b :: g) :: gs | [] => [[b]] end
  end.
Definition dot : byte := x2e.
Definition p_ntop4 (a : list byte) : list byte :=
  match map (fun b => dec (u8 b)) a with
  | g :: gs => g ++ concat (map (cons dot) gs)
  | [] => []
  end.
Definition p_pton4 (s : list byte) : option (list byte) :=
  let gs := split_at dot s in
  if bool_decide (length gs = 4%nat) then Some (map (fun g => byte_of (undec g)) gs) else None.

Definition hexdigit (n : Z) : byte := if n <? 10 then byte_of (48 + n) else byte_of (87 + n).
Definition hex (b : byte) : list byte := [hexdigit (u8 b / 16); hexdigit (u8 b mod 16)].
Definition unhexdigit (b : byte) : Z := if u8 b <? 58 then u8 b - 48 else u8 b - 87.
Fixpoint p_ntop6 (a : list byte) : list byte :=
  match a with
  | b1 :: b2 :: [] => hex b1 ++ hex b2
  | b1 :: b2 :: a => hex b1 ++ hex b2 ++ [colon] ++ p_ntop6 a
  | _ => []
  end.
Fixpoint p_unhex (s : list byte) : list byte :=
  match s with
  | h :: l :: s => byte_of (unhexdigit h * 16 + unhexdigit l) :: p_unhex s
  | _ => []
  end.
Definition p_pton6 (s : list byte) : option (list byte) :=
  let d := p_unhex (filter (fun b => b <> colon) s) in
  if bool_decide (length d = 16%nat) then Some d else None.

#[global] Instance plain : Presentation :=
  {| ntop4 := p_ntop4; ntop6 := p_ntop6; pton4 := p_pton4; pton6 := p_pton6 |}.

Lemma split_at_cons c g gs : c ∉ g -> split_at c (g ++ c :: gs) = g :: split_at c gs.
Proof.
  induction g as [|b g IH]; intros Hc; cbn.
  - by rewrite bool_decide_true.
  - apply not_elem_of_cons in Hc as [Hb Hc]. rewrite bool_decide_false by done. by rewrite IH.
Qed.
Lemma split_at_last c g : c ∉ g -> split_at c g = [g].
Proof.
  induction g as [|b g IH]; intros Hc; cbn; [done|].
  apply not_elem_of_cons in Hc as [Hb Hc]. rewrite bool_decide_false by done. by rewrite IH.
Qed.

Lemma dec_byte_facts b :
  (dot ∉ dec (u8 b)) /\ (x00 ∉ dec (u8 b)) /\ (colon ∉ dec (u8 b)) /\ (length (dec (u8 b)) <= 3)%nat /\
  byte_of (undec (dec (u8 b))) = b.
Proof.
  assert (Hd : forall c, is_digit c = false -> c ∉ dec (u8 b)).
  { intros c Hc Hin. unfold dec in Hin. pose proof (u8_range b). rewrite (proj2 (Z.ltb_ge (u8 b) 0)) in Hin by lia.
    pose proof (dec_pos_digits (u8 b) ltac:(lia)) as Hf. rewrite Forall_forall in Hf. apply Hf in Hin. congruence. }
  do 3 (split; [by apply Hd|]). split.
  - unfold dec. pose proof (u8_range b). rewrite (proj2 (Z.ltb_ge (u8 b) 0)) by lia.
    apply (length_dec_pos (u8 b) 3); lia.
  - by rewrite undec_dec, byte_of_u8.
Qed.

Definition hex_ok (b : byte) : bool :=
  forallb (fun c => negb (bool_decide (c = x00)) && negb (bool_decide (c = colon))) (hex b)
  && bool_decide (p_unhex (hex b) = [b]).
Lemma hex_all b : hex_ok b = true.
Proof. destruct b; vm_compute; reflexivity. Qed.

Lemma p_ntop4_spelled b1 b2 b3 b4 :
  p_ntop4 [b1; b2; b3; b4] = dec (u8 b1) ++ dot :: dec (u8 b2) ++ dot :: dec (u8 b3) ++ dot :: dec (u8 b4).
Proof. cbn [p_ntop4 map concat]. by rewrite app_nil_r. Qed.

Ltac length4 a := destruct a as [|b1 [|b2 [|b3 [|b4 [|]]]]]; try discriminate.

Lemma hex_facts b : (x00 ∉ hex b) /\ (colon ∉ hex b) /\ p_unhex (hex b) = [b].
Proof.
  pose proof (hex_all b) as Hb. unfold hex_ok in Hb. apply andb_prop in Hb as [Hc Hu].
  apply bool_decide_eq_true in Hu. rewrite forallb_forall in Hc.
  split; [|split; [|done]]; intros Hin%list_elem_of_In%Hc; apply andb_prop in Hin as [H0 H1];
    rewrite bool_decide_true in * by done; done.
Qed.

Lemma filter_hex b r : filter (fun c => c <> colon) (hex b ++ r) = hex b ++ filter (fun c => c <> colon) r.
Proof.
  destruct (hex_facts b) as (_ & Hc & _). rewrite filter_app. f_equal. unfold hex in *.
  rewrite !not_elem_of_cons in Hc. rewrite !filter_cons_True by naive_solver. done.
Qed.

Lemma p_unhex_hex b r : p_unhex (hex b ++ r) = b :: p_unhex r.
Proof. destruct (hex_facts b) as (_ & _ & Hu). unfold hex in *. cbn in *. congruence. Qed.

Lemma filter_colon r : filter (fun c => c <> colon) ([colon] ++ r) = filter (fun c => c <> colon) r.
Proof. cbn [app]. by rewrite filter_cons_False by naive_solver. Qed.

(** Even-length addresses, two bytes at a time. *)
Lemma pairs_ind (P : list byte -> Prop) :
  (forall b1 b2, P [b1; b2]) -> (forall b1 b2 b3 b4 a, P (b3 :: b4 :: a) -> P (b1 :: b2 :: b3 :: b4 :: a)) ->
  forall n a, length a = (2 * S n)%nat -> P a.
Proof.
  intros P2 PS n. induction n as [|n IH]; intros a Ha.
  - destruct a as [|b1 [|b2 [|]]]; try discriminate. apply P2.
  - destruct a as [|b1 [|b2 [|b3 [|b4 a]]]]; try discriminate; try (cbn in Ha; lia).
    apply PS, IH. cbn in *. lia.
Qed.

Lemma p_ntop6_step b1 b2 b3 b4 a :
  p_ntop6 (b1 :: b2 :: b3 :: b4 :: a) = hex b1 ++ hex b2 ++ [colon] ++ p_ntop6 (b3 :: b4 :: a).
Proof. done. Qed.

Lemma p_ntop6_facts n a :
  length a = (2 * S n)%nat ->
  p_unhex (filter (fun c => c <> colon) (p_ntop6 a)) = a /\ (x00 ∉ p_ntop6 a).
Proof.
  revert n a. refine (pairs_ind _ _ _).
  - intros b1 b2. cbn [p_ntop6]. rewrite <- (app_nil_r (hex b2)), !filter_hex, !p_unhex_hex. split; [done|].
    rewrite app_nil_r, not_elem_of_app. by split; apply hex_facts.
  - intros b1 b2 b3 b4 a [Hu H0]. rewrite p_ntop6_step, !filter_hex, filter_colon, !p_unhex_hex, Hu. split; [done|].
    rewrite !not_elem_of_app. repeat split; try apply hex_facts; [|done].
    rewrite not_elem_of_cons. by split; [|apply not_elem_of_nil].
Qed.

#[global] Instance plain_laws : PresentationLaws.
Proof.
  split; intros a Ha; cbn [ntop4 ntop6 pton4 pton6 plain].
  - length4 a. unfold p_pton4. rewrite p_ntop4_spelled.
    pose proof dec_byte_facts as Hd.
    rewrite !split_at_cons, split_at_last by apply Hd. rewrite bool_decide_true by done. cbn [map].
    do 4 rewrite (fun b => proj2 (proj2 (proj2 (proj2 (Hd b))))). done.
  - unfold p_pton6. destruct (p_ntop6_facts 7 a Ha) as [-> _]. by rewrite bool_decide_true.
  - length4 a. rewrite p_ntop4_spelled. unfold zlen, INET_ADDRSTRLEN.
    repeat (rewrite length_app || cbn [length]).
    destruct (dec_byte_facts b1) as (_ & _ & _ & ? & _), (dec_byte_facts b2) as (_ & _ & _ & ? & _),
      (dec_byte_facts b3) as (_ & _ & _ & ? & _), (dec_byte_facts b4) as (_ & _ & _ & ? & _). lia.
  - unfold zlen, INET6_ADDRSTRLEN.
    do 16 (destruct a as [|? a]; [discriminate|]). destruct a; [|discriminate]. cbn. lia.
  - length4 a. rewrite p_ntop4_spelled.
    repeat (rewrite not_elem_of_app || rewrite not_elem_of_cons).
    repeat split; first [apply dec_byte_facts | done].
  - split; [by apply (p_ntop6_facts 7)|].
    do 4 (destruct a as [|? a]; [discriminate|]). rewrite p_ntop6_step, !elem_of_app. do 2 right. left. by left.
Qed.

End Plain.

(** [address_roundtrip] at 192.168.0.1:8080. *)
Lemma address_roundtrip_witness :
  let a := @InetAddress_ip Plain.plain (replicate 28 x00) (bs "192.168.0.1") 8080 false in
  InetAddress_toIpPort a = Ok (bs "192.168.0.1:8080") /\
  isSelfConnect a (InetAddress_ip (replicate 28 xff) (bs "192.168.0.1") 8080 false) = true.
Proof.
  intros a.
  destruct (address_roundtrip a (replicate 28 xff) eq_refl eq_refl (or_introl eq_refl)) as (ip & E1 & E2 & Hb).
  assert (ip = bs "192.168.0.1") as -> by (vm_compute in E1; vm_compute; congruence).
  split; [by rewrite E2|]. apply Hb.
Defined.
End SocketsFacts.
