(* ===== verification/Socket.v ===== *)
(** Sockets (src/networking/Socket.h, Socket.cpp): the options a socket is given,
    the addresses [accept] hands out, and the text of a connection's tcp_info
    (getTcpInfoString, also src/networking/TcpConnection.cpp).

    The kernel keeps the options of a descriptor, by level and name; what
    getsockopt and setsockopt answer are arguments. *)

From S2P Require Import Prelude Printf Sockets SocketsFacts.

Module Socket.

(** ** Options *)

Definition SOL_SOCKET : Z := 1.
Definition IPPROTO_TCP : Z := 6.
Definition SO_REUSEADDR : Z := 2.
Definition SO_KEEPALIVE : Z := 9.
Definition SO_REUSEPORT : Z := 15.
Definition TCP_NODELAY : Z := 1.

(** The options of the descriptor, in the kernel. *)
Definition options : Type := gmap (Z * Z) Z.

(** setsockopt(2) returning [ret]: 0 when the option is set, negative when
    nothing is. *)
Definition setsockopt (o : options) (level name : Z) (optval ret : Z) : options :=
  if ret =? 0 then <[(level, name) := optval]> o else o.
Definition optval (on : bool) : Z := if on then 1 else 0.

Definition setTcpNoDelay (o : options) (on : bool) (ret : Z) : options :=
  setsockopt o IPPROTO_TCP TCP_NODELAY (optval on) ret.
Definition setReuseAddr (o : options) (on : bool) (ret : Z) : options :=
  setsockopt o SOL_SOCKET SO_REUSEADDR (optval on) ret.
(** With whether the failure is logged (LOG_SYSERR). *)
Definition setReusePort (o : options) (on : bool) (ret : Z) : options * bool :=
  (setsockopt o SOL_SOCKET SO_REUSEPORT (optval on) ret, (ret <? 0) && on).
Definition setKeepAlive (o : options) (on : bool) (ret : Z) : options :=
  setsockopt o SOL_SOCKET SO_KEEPALIVE (optval on) ret.

(** ** Accepting *)

(** [accept]: accept4 returns [connfd] with [errno], and writes the bytes
    [written] when it succeeds; [raw] is the storage of the local address. *)
Definition accept (sockfd_ : Z) (raw peeraddr : Sockets.sockaddr) (connfd errno : Z) (written : list byte)
  : res (Z * Sockets.sockaddr) :=
  let addr := Sockets.memZero raw Sockets.sizeof_in6 in
  let addr := if 0 <=? connfd then Sockets.put addr 0 written else addr in
  connfd ← Sockets.accept sockfd_ connfd errno;
  assert! negb (sockfd_ =? connfd);
  Ok (connfd, if 0 <=? connfd then addr else peeraddr).

(** ** Information *)

(** The fields of struct tcp_info the code prints. *)
Record tcp_info := mk_info {
  tcpi_retransmits : Z;
  tcpi_rto : Z;
  tcpi_ato : Z;
  tcpi_snd_mss : Z;
  tcpi_rcv_mss : Z;
  tcpi_lost : Z;
  tcpi_retrans : Z;
  tcpi_rtt : Z;
  tcpi_rttvar : Z;
  tcpi_snd_ssthresh : Z;
  tcpi_snd_cwnd : Z;
  tcpi_total_retrans : Z;
}.
Definition zero_info : tcp_info := mk_info 0 0 0 0 0 0 0 0 0 0 0 0.

(** What getsockopt returns, given what it writes. *)
Definition getsockopt (answer : option tcp_info) : Z := match answer with Some _ => 0 | None => -1 end.

(** [getTcpInfo]: the int of getsockopt becomes a bool. *)
Definition getTcpInfo (answer : option tcp_info) : bool * tcp_info :=
  let tcpi := zero_info in
  let tcpi := default tcpi answer in
  (negb (getsockopt answer =? 0), tcpi).

Definition info_text (i : tcp_info) : list byte :=
  bs "unrecovered=" ++ dec (tcpi_retransmits i) ++ bs " " ++
  bs "rto=" ++ dec (tcpi_rto i) ++ bs " ato=" ++ dec (tcpi_ato i)
    ++ bs " snd_mss=" ++ dec (tcpi_snd_mss i) ++ bs " rcv_mss=" ++ dec (tcpi_rcv_mss i) ++ bs " " ++
  bs "lost=" ++ dec (tcpi_lost i) ++ bs " retrans=" ++ dec (tcpi_retrans i)
    ++ bs " rtt=" ++ dec (tcpi_rtt i) ++ bs " rttvar=" ++ dec (tcpi_rttvar i) ++ bs " " ++
  bs "sshthresh=" ++ dec (tcpi_snd_ssthresh i) ++ bs " cwnd=" ++ dec (tcpi_snd_cwnd i)
    ++ bs " total_retrans=" ++ dec (tcpi_total_retrans i).

(** [getTcpInfoString(buf, len)] on a buffer that holds the string [buf]. *)
Definition getTcpInfoString (buf : list byte) (len : nat) (answer : option tcp_info) : bool * list byte :=
  let '(ok, tcpi) := getTcpInfo answer in
  (ok, if ok then snprintf len (info_text tcpi) else buf).

(** [TcpConnection::getTcpInfoString]. *)
Definition connection_getTcpInfoString (answer : option tcp_info) : list byte :=
  (getTcpInfoString [] 1024 answer).2.

(** ** Facts *)

(** A setter changes its own option and no other, to what it was asked for, and
    nothing when the kernel refuses. *)
Definition sets (level name : Z) (f : options -> bool -> Z -> options) : Prop :=
  forall o on ret,
    (ret = 0 -> f o on ret !! (level, name) = Some (optval on)) /\
    (ret <> 0 -> f o on ret = o) /\
    (forall k, k <> (level, name) -> f o on ret !! k = o !! k).

Lemma setsockopt_sets level name : sets level name (fun o on => setsockopt o level name (optval on)).
Proof.
  intros o on ret. unfold setsockopt. destruct (Z.eqb_spec ret 0) as [->|]; split_and!; intros; try done.
  - apply lookup_insert_eq.
  - by apply lookup_insert_ne.
Qed.

Definition u32_info (i : tcp_info) : Prop :=
  Forall (fun n => 0 <= n < 2 ^ 32)
    [tcpi_retransmits i; tcpi_rto i; tcpi_ato i; tcpi_snd_mss i; tcpi_rcv_mss i; tcpi_lost i; tcpi_retrans i;
     tcpi_rtt i; tcpi_rttvar i; tcpi_snd_ssthresh i; tcpi_snd_cwnd i; tcpi_total_retrans i].

Lemma length_dec_u32 n : 0 <= n < 2 ^ 32 -> (length (dec n) <= 10)%nat.
Proof.
  intros H. unfold dec. rewrite (proj2 (Z.ltb_ge n 0)) by lia.
  apply (length_dec_pos n 10); [lia|]. change (Z.of_nat 10) with 10. lia.
Qed.

(** The text fits the connection's buffer. *)
Lemma info_text_fits i : u32_info i -> snprintf 1024 (info_text i) = info_text i.
Proof.
  intros H. apply take_ge. unfold info_text. rewrite !length_app.
  unfold u32_info in H. rewrite !Forall_cons in H.
  repeat match goal with
  | H : 0 <= _ < 2 ^ 32 |- _ => apply length_dec_u32 in H
  | H : _ /\ _ |- _ => destruct H
  end.
  repeat match goal with
  | |- context [length (bs ?s)] => let n := eval vm_compute in (length (bs s)) in change (length (bs s)) with n
  end.
  lia.
Qed.

(** The four setters each control one option, SO_REUSEPORT's failure is logged
    when it was asked for; [accept] hands out the address the kernel wrote, or
    leaves the caller's alone when it only has an error to return; and
    [getTcpInfo] answers the wrong way round, so that a connection's text is
    empty when the kernel gave the information and a line of zeros, complete,
    when it did not. *)
Theorem socket_operations :
  sets IPPROTO_TCP TCP_NODELAY setTcpNoDelay /\
  sets SOL_SOCKET SO_REUSEADDR setReuseAddr /\
  sets SOL_SOCKET SO_KEEPALIVE setKeepAlive /\
  sets SOL_SOCKET SO_REUSEPORT (fun o on ret => (setReusePort o on ret).1) /\
  (forall o on ret, (setReusePort o on ret).2 = true <-> ret < 0 /\ on = true) /\
  (forall sockfd raw peer connfd errno written, length raw = Sockets.sizeof_in6 ->
    (0 <= connfd /\ connfd <> sockfd ->
      accept sockfd raw peer connfd errno written
      = Ok (connfd, Sockets.put (replicate Sockets.sizeof_in6 x00) 0 written)) /\
    (connfd < 0 <= sockfd -> errno ∈ [Sockets.EAGAIN; Sockets.EMFILE] ->
      accept sockfd raw peer connfd errno written = Ok (connfd, peer))) /\
  (forall i, u32_info i ->
    getTcpInfo (Some i) = (false, i) /\ connection_getTcpInfoString (Some i) = []) /\
  getTcpInfo None = (true, zero_info) /\
  connection_getTcpInfoString None = info_text zero_info /\
  (forall i, u32_info i -> snprintf 1024 (info_text i) = info_text i).
Proof.
  split_and!; try apply setsockopt_sets.
  - intros. cbn. rewrite andb_true_iff, Z.ltb_lt. done.
  - intros sockfd raw peer connfd errno written Hl. split.
    + intros [H1 H2]. unfold accept, Sockets.accept.
      assert ((connfd =? sockfd) = false /\ (sockfd =? connfd) = false /\ (connfd <? 0) = false /\ (0 <=? connfd) = true)
        as (E1 & E2 & E3 & E4) by (split_and!; zbool; lia).
      rewrite E1, E3, E4. cbn. rewrite E2, E4. cbn. unfold Sockets.memZero, Sockets.put.
      rewrite (drop_ge raw) by (rewrite length_replicate; lia). by rewrite app_nil_r.
    + intros [H1 H2] He. unfold accept, Sockets.accept.
      assert ((connfd =? sockfd) = false /\ (sockfd =? connfd) = false /\ (connfd <? 0) = true /\ (0 <=? connfd) = false)
        as (E1 & E2 & E3 & E4) by (split_and!; zbool; lia).
      rewrite E1, E3, bool_decide_eq_true_2 by set_solver. cbn. by rewrite E2, E4.
  - intros i Hi. done.
  - done.
  - apply info_text_fits. repeat (apply Forall_cons_2; [cbn; lia|]). constructor.
  - apply info_text_fits.
Qed.

End Socket.
