(* ===== verification/TcpServer.v ===== *)
(** The TCP server and what it is made of (src/networking/Acceptor.h,
    Acceptor.cpp, EventLoopThreadPool.h, EventLoopThreadPool.cpp, TcpServer.h,
    TcpServer.cpp): the acceptor takes connections from the kernel, the pool of
    loops deals them out, and the server registers each under its name until its
    close callback removes it.

    A loop is known by the thread it runs on.  Functors handed to a loop wait in
    one list of pairs (loop, functor); each loop runs its own in order. *)

From S2P Require Import Prelude Printf CString Date StringPiece StdMap Channel Poller Sockets.

(** ** The pool of event loops *)
Module EventLoopThreadPool.

Record t := mk {
  baseLoop_ : Z;
  name_ : list byte;
  started_ : bool;
  numThreads_ : Z;
  next_ : Z;
  threads_ : list (list byte);        (* the threads' names *)
  loops_ : list Z;
}.

Definition new (baseLoop : Z) (nameArg : list byte) : t := mk baseLoop nameArg false 0 0 [] [].
Definition setThreadNum (p : t) (numThreads : Z) : t :=
  mk (baseLoop_ p) (name_ p) (started_ p) numThreads (next_ p) (threads_ p) (loops_ p).

Definition thread_name (p : t) (i : Z) : list byte :=
  snprintf (length (name_ p) + 32) (CString.c_str (name_ p) ++ dec i).

(** [start]: [startLoop i] is the loop the i-th thread makes.  The second result
    is the loops [cb] is called on here. *)
Definition start (p : t) (tid : Z) (cb : bool) (startLoop : Z -> Z) : res (t * list Z) :=
  assert! negb (started_ p);
  _ ← assertInLoopThread (baseLoop_ p) tid;
  let idx := map Z.of_nat (seq 0 (Z.to_nat (numThreads_ p))) in
  Ok (mk (baseLoop_ p) (name_ p) true (numThreads_ p) (next_ p) (threads_ p ++ map (thread_name p) idx) (loops_ p ++ map startLoop idx),
      if (numThreads_ p =? 0) && cb then [baseLoop_ p] else []).

Definition getNextLoop (p : t) (tid : Z) : res (Z * t) :=
  _ ← assertInLoopThread (baseLoop_ p) tid;
  assert! started_ p;
  match loops_ p with
  | [] => Ok (baseLoop_ p, p)
  | _ =>
      match loops_ p !! Z.to_nat (next_ p) with
      | Some loop =>
          let next := next_ p + 1 in
          let next := if zlen (loops_ p) <=? next then 0 else next in
          Ok (loop, mk (baseLoop_ p) (name_ p) (started_ p) (numThreads_ p) next (threads_ p) (loops_ p))
      | None => Err Undefined
      end
  end.

Definition getLoopForHash (p : t) (tid : Z) (hashCode : Z) : res Z :=
  _ ← assertInLoopThread (baseLoop_ p) tid;
  match loops_ p with
  | [] => Ok (baseLoop_ p)
  | _ =>
      match loops_ p !! Z.to_nat (hashCode mod zlen (loops_ p)) with
      | Some loop => Ok loop
      | None => Err Undefined
      end
  end.

Definition getAllLoops (p : t) (tid : Z) : res (list Z) :=
  _ ← assertInLoopThread (baseLoop_ p) tid;
  assert! started_ p;
  Ok (match loops_ p with [] => [baseLoop_ p] | _ => loops_ p end).

End EventLoopThreadPool.

(** ** The acceptor *)
Module Acceptor.
Section Acceptor.
Context {P : Type} {HP : Poller P}.

Record t := mk {
  loop_ : Z;
  acceptSocket_ : Z;
  acceptChannel_ : Z;
  newConnectionCallback_ : bool;      (* whether it is set *)
  listening_ : bool;
  idleFd_ : Z;
}.

(** What the acceptor does with descriptors. *)
Inductive act := NewConnection (connfd : Z) | CloseFd (fd : Z).

(** The constructor: the channel at address [c]; what socket, open and bind
    return are arguments. *)
Definition new (h : Channel.heap) (loop c socket open_ bind_ : Z) : res (t * Channel.heap) :=
  fd ← Sockets.createNonblockingOrDie socket;
  assert! 0 <=? open_;
  _ ← Sockets.bindOrDie bind_;
  Ok (mk loop fd c false false open_, <[c := Channel.setCallback (Channel.new fd) Channel.ReadCallback]> h).

Definition setNewConnectionCallback (a : t) : t :=
  mk (loop_ a) (acceptSocket_ a) (acceptChannel_ a) true (listening_ a) (idleFd_ a).

Definition destroy (a : t) (tid : Z) (p : P) (h : Channel.heap) : res (P * Channel.heap * list act) :=
  '(p, h) ← Channel_interest p tid h (acceptChannel_ a) Channel.DisableAll;
  '(p, h) ← Channel_remove p tid h (acceptChannel_ a);
  Ok (p, h, [CloseFd (idleFd_ a)]).

Definition listen (a : t) (tid : Z) (p : P) (h : Channel.heap) (listen_ : Z) : res (t * P * Channel.heap) :=
  _ ← assertInLoopThread (loop_ a) tid;
  let a := mk (loop_ a) (acceptSocket_ a) (acceptChannel_ a) (newConnectionCallback_ a) true (idleFd_ a) in
  _ ← Sockets.listenOrDie listen_;
  '(p, h) ← Channel_interest p tid h (acceptChannel_ a) Channel.EnableReading;
  Ok (a, p, h).

(** [handleRead]: accept4 returns [accepted] and sets [errno]; when it fails for
    want of descriptors, a second accept returns [shed] and open [reopened]. *)
Definition handleRead (a : t) (tid accepted errno shed reopened : Z) : res (t * list act) :=
  _ ← assertInLoopThread (loop_ a) tid;
  connfd ← Sockets.accept (acceptSocket_ a) accepted errno;
  if 0 <=? connfd then
    Ok (a, if newConnectionCallback_ a then [NewConnection connfd] else [CloseFd connfd])
  else if errno =? Sockets.EMFILE then
    Ok (mk (loop_ a) (acceptSocket_ a) (acceptChannel_ a) (newConnectionCallback_ a) (listening_ a) reopened,
        [CloseFd (idleFd_ a); CloseFd shed])
  else Ok (a, []).

End Acceptor.
End Acceptor.

(** ** The server *)
Module TcpServer.
Module Pool := EventLoopThreadPool.

(** A connection object, with the fields that never change. *)
Record conn := mk_conn {
  c_ptr : nat;                        (* its identity *)
  c_loop : Z;
  c_name : list byte;
  c_fd : Z;
  c_local : Sockets.sockaddr;
  c_peer : Sockets.sockaddr;
}.
#[global] Instance conn_eq_dec : EqDecision conn.
Proof. solve_decision. Defined.

(** What is handed to loops. *)
Inductive task :=
  | ConnectEstablished (c : conn)
  | ConnectDestroyed (c : conn)
  | RemoveConnectionInLoop (c : conn)
  | Listen.

(** What happens to connections, on which thread: [connectEstablished], the
    close callback, [connectDestroyed]. *)
Inductive event := Established (c : conn) | Closed (c : conn) | Destroyed (c : conn).
#[global] Instance event_eq_dec : EqDecision event.
Proof. solve_decision. Defined.

Record t := mk {
  loop_ : Z;
  ipPort_ : list byte;
  name_ : list byte;
  acceptor_ : Acceptor.t;
  threadPool_ : Pool.t;
  started_ : Z;
  nextConnId_ : Z;
  connections_ : list (list byte * conn);
}.

Section Server.
Context {P : Type} {HP : Poller P}.

(** The server, the poller and the channels of its loop, the functors waiting,
    what happened so far, and the connections made. *)
Record world := mk_world {
  server : t;
  poller : P;
  heap : Channel.heap;
  pending : list (Z * task);
  trace : list (Z * event);
  made : list conn;
}.

Definition with_server (w : world) (s : t) : world := mk_world s (poller w) (heap w) (pending w) (trace w) (made w).
Definition happens (w : world) (tid : Z) (e : event) : world :=
  mk_world (server w) (poller w) (heap w) (pending w) (trace w ++ [(tid, e)]) (made w).
Definition queueInLoop (w : world) (loop : Z) (f : task) : world :=
  mk_world (server w) (poller w) (heap w) (pending w ++ [(loop, f)]) (trace w) (made w).
Definition set_connections (s : t) (m : list (list byte * conn)) : t :=
  mk (loop_ s) (ipPort_ s) (name_ s) (acceptor_ s) (threadPool_ s) (started_ s) (nextConnId_ s) m.

(** The constructor, for a listening address that prints as [ipPort]. *)
Definition new (p : P) (h : Channel.heap) (loop : Z) (ipPort nameArg : list byte) (c socket open_ bind_ : Z) : res world :=
  '(acceptor, h) ← Acceptor.new h loop c socket open_ bind_;
  Ok (mk_world (mk loop ipPort nameArg (Acceptor.setNewConnectionCallback acceptor) (Pool.new loop nameArg) 0 1 []) p h [] [] []).

Definition setThreadNum (w : world) (numThreads : Z) : res world :=
  assert! 0 <=? numThreads;
  let s := server w in
  Ok (with_server w (mk (loop_ s) (ipPort_ s) (name_ s) (acceptor_ s) (Pool.setThreadNum (threadPool_ s) numThreads)
                        (started_ s) (nextConnId_ s) (connections_ s))).

Definition removeConnectionInLoop (w : world) (tid : Z) (c : conn) : res world :=
  let s := server w in
  _ ← assertInLoopThread (loop_ s) tid;
  let n := match StdMap.find (c_name c) (connections_ s) with Some _ => 1 | None => 0 end in
  let w := with_server w (set_connections s (StdMap.erase (c_name c) (connections_ s))) in
  assert! n =? 1;
  Ok (queueInLoop w (c_loop c) (ConnectDestroyed c)).

(** A functor runs on thread [tid]; [listen_] is what listen(2) returns. *)
Definition run_task (w : world) (tid listen_ : Z) (f : task) : res world :=
  match f with
  | ConnectEstablished c => Ok (happens w tid (Established c))
  | ConnectDestroyed c => Ok (happens w tid (Destroyed c))
  | RemoveConnectionInLoop c => removeConnectionInLoop w tid c
  | Listen =>
      let s := server w in
      '(a, p, h) ← Acceptor.listen (acceptor_ s) tid (poller w) (heap w) listen_;
      Ok (mk_world (mk (loop_ s) (ipPort_ s) (name_ s) a (threadPool_ s) (started_ s) (nextConnId_ s) (connections_ s))
                   p h (pending w) (trace w) (made w))
  end.

Definition runInLoop (w : world) (tid loop listen_ : Z) (f : task) : res world :=
  if tid =? loop then run_task w tid listen_ f else Ok (queueInLoop w loop f).

(** The name of the next connection. *)
Definition connName (s : t) : list byte :=
  name_ s ++ snprintf 64 (bs "-" ++ CString.c_str (ipPort_ s) ++ bs "#" ++ dec (nextConnId_ s)).

Definition newConnection (w : world) (tid sockfd : Z) (peerAddr localAddr : Sockets.sockaddr) : res world :=
  let s := server w in
  _ ← assertInLoopThread (loop_ s) tid;
  '(ioLoop, pool) ← Pool.getNextLoop (threadPool_ s) tid;
  let name := connName s in
  nextConnId ← check_ints [nextConnId_ s + 1] (nextConnId_ s + 1);
  let c := mk_conn (length (made w)) ioLoop name sockfd localAddr peerAddr in
  let s := mk (loop_ s) (ipPort_ s) (name_ s) (acceptor_ s) pool (started_ s) nextConnId
              (StdMap.set name c (connections_ s)) in
  runInLoop (mk_world s (poller w) (heap w) (pending w) (trace w) (made w ++ [c])) tid ioLoop 0 (ConnectEstablished c).

(** [start]: the second result is the loops [threadInitCallback_] is called on
    by this thread. *)
Definition start (w : world) (tid : Z) (cb : bool) (startLoop : Z -> Z) (listen_ : Z) : res (world * list Z) :=
  let s := server w in
  if started_ s =? 0 then
    '(pool, inits) ← Pool.start (threadPool_ s) tid cb startLoop;
    let w := with_server w (mk (loop_ s) (ipPort_ s) (name_ s) (acceptor_ s) pool 1 (nextConnId_ s) (connections_ s)) in
    assert! negb (Acceptor.listening_ (acceptor_ s));
    w ← runInLoop w tid (loop_ s) listen_ Listen;
    Ok (w, inits)
  else Ok (w, []).

Definition removeConnection (w : world) (tid : Z) (c : conn) : res world :=
  runInLoop w tid (loop_ (server w)) 0 (RemoveConnectionInLoop c).

(** The destructor's loop over the connections. *)
Fixpoint destroy_all (w : world) (tid : Z) (items : list (list byte * conn)) : res world :=
  match items with
  | [] => Ok w
  | (_, c) :: items =>
      w ← runInLoop w tid (c_loop c) 0 (ConnectDestroyed c);
      destroy_all w tid items
  end.
Definition destroy (w : world) (tid : Z) : res world :=
  _ ← assertInLoopThread (loop_ (server w)) tid;
  destroy_all w tid (connections_ (server w)).

End Server.
Arguments world P : clear implicits.
End TcpServer.
