(* ===== verification/ServerFacts.v ===== *)
(** Facts about the TCP server: in any interleaving of new connections, close
    callbacks and loops running their functors, the registry holds exactly the
    connections not yet removed, under names that differ, each connection stays
    on the loop the pool dealt it to, and is established, closed and destroyed
    once each and in that order (src/networking/TcpServer.cpp). *)

From S2P Require Import Prelude Printf CString Date StringPiece StdMap Channel Poller PollPoller Sockets TcpServer.

Module ServerFacts.
Import TcpServer.

(** ** The server at work *)
Section Steps.
Context {P : Type} {HP : Poller P}.

(** The first functor waiting for a loop, and the rest. *)
Fixpoint take_task (loop : Z) (q : list (Z * task)) : option (task * list (Z * task)) :=
  match q with
  | [] => None
  | (l, f) :: q =>
      if l =? loop then Some (f, q)
      else match take_task loop q with Some (g, q') => Some (g, (l, f) :: q') | None => None end
  end.

(** The acceptor hands over a socket; the close callback of a connection runs,
    on its loop; a loop runs its next functor. *)
Inductive action :=
  | NewConnection (sockfd : Z) (peerAddr localAddr : Sockets.sockaddr)
  | CloseCallback (c : conn)
  | RunNext (loop : Z).

(** A connection calls its close callback once, after it was established. *)
Definition enabled (w : world P) (a : action) : bool :=
  match a with
  | NewConnection _ _ _ => true
  | CloseCallback c => bool_decide ((c_loop c, Established c) ∈ trace w) && bool_decide ((c_loop c, Closed c) ∉ trace w)
  | RunNext loop => match take_task loop (pending w) with Some _ => true | None => false end
  end.

Definition with_queue (w : world P) (q : list (Z * task)) : world P :=
  mk_world (server w) (poller w) (heap w) q (trace w) (made w).

Definition step (w : world P) (a : action) : res (world P) :=
  match a with
  | NewConnection sockfd peerAddr localAddr => newConnection w (loop_ (server w)) sockfd peerAddr localAddr
  | CloseCallback c => removeConnection (happens w (c_loop c) (Closed c)) (c_loop c) c
  | RunNext loop =>
      match take_task loop (pending w) with
      | Some (f, q) => run_task (with_queue w q) loop 0 f
      | None => Ok w
      end
  end.

Inductive reachable : world P -> Prop :=
  | reach_start p h loop ipPort name c socket open_ bind_ n cb startLoop listen_ w0 w1 w inits :
      zlen ipPort <= 51 ->
      new p h loop ipPort name c socket open_ bind_ = Ok w0 -> setThreadNum w0 n = Ok w1 ->
      start w1 loop cb startLoop listen_ = Ok (w, inits) -> reachable w
  | reach_step w a w' : reachable w -> enabled w a = true -> step w a = Ok w' -> reachable w'.

(** ** The life of one connection *)

Definition task_conn (f : task) : option conn :=
  match f with ConnectEstablished c | ConnectDestroyed c | RemoveConnectionInLoop c => Some c | Listen => None end.
Definition event_conn (e : event) : conn := match e with Established c | Closed c | Destroyed c => c end.

Definition waiting (c : conn) (w : world P) : list (Z * task) := filter (fun p => task_conn p.2 = Some c) (pending w).
Definition history (c : conn) (w : world P) : list (Z * event) := filter (fun p => event_conn p.2 = c) (trace w).
Definition registered (c : conn) (w : world P) : option conn := StdMap.find (c_name c) (connections_ (server w)).

Inductive phase (base : Z) (c : conn) : list (Z * event) -> list (Z * task) -> option conn -> Prop :=
  | queued : phase base c [] [(c_loop c, ConnectEstablished c)] (Some c)
  | open : phase base c [(c_loop c, Established c)] [] (Some c)
  | closing : phase base c [(c_loop c, Established c); (c_loop c, Closed c)] [(base, RemoveConnectionInLoop c)] (Some c)
  | removed : phase base c [(c_loop c, Established c); (c_loop c, Closed c)] [(c_loop c, ConnectDestroyed c)] None
  | gone : phase base c [(c_loop c, Established c); (c_loop c, Closed c); (c_loop c, Destroyed c)] [] None.

Definition conn_name (s : t) (i : nat) : list byte :=
  name_ s ++ bs "-" ++ CString.c_str (ipPort_ s) ++ bs "#" ++ dec (Z.of_nat i + 1).
Definition io_loop (s : t) (i : nat) : Z :=
  match Pool.loops_ (threadPool_ s) with
  | [] => loop_ s
  | ls => nth (i mod length ls) ls (loop_ s)
  end.

Record inv (w : world P) : Prop := {
  i_made i c : made w !! i = Some c -> c_ptr c = i /\ c_loop c = io_loop (server w) i /\ c_name c = conn_name (server w) i;
  i_next : nextConnId_ (server w) = Z.of_nat (length (made w)) + 1;
  i_int : nextConnId_ (server w) <= int_max;
  i_ip : zlen (ipPort_ (server w)) <= 51;
  i_base : Pool.baseLoop_ (threadPool_ (server w)) = loop_ (server w);
  i_started : Pool.started_ (threadPool_ (server w)) = true;
  i_turn : Pool.loops_ (threadPool_ (server w)) <> [] ->
           Pool.next_ (threadPool_ (server w)) = Z.of_nat (length (made w) mod length (Pool.loops_ (threadPool_ (server w))));
  i_sorted : StdMap.sorted (connections_ (server w));
  i_found k c : StdMap.find k (connections_ (server w)) = Some c -> c ∈ made w /\ k = c_name c;
  i_phase c : c ∈ made w -> phase (loop_ (server w)) c (history c w) (waiting c w) (registered c w);
  i_waiting p : p ∈ pending w -> exists c, c ∈ made w /\ task_conn p.2 = Some c;
  i_trace p : p ∈ trace w -> event_conn p.2 ∈ made w;
}.

(** *** Names and identities *)

Lemma conn_name_inj s i j : conn_name s i = conn_name s j -> i = j.
Proof.
  unfold conn_name. intros E. do 4 apply app_inv_head in E.
  assert (Z.of_nat i + 1 = Z.of_nat j + 1); [|lia]. rewrite <- (undec_dec (Z.of_nat i + 1)), E. apply undec_dec.
Qed.

Lemma made_inj w c c' : inv w -> c ∈ made w -> c' ∈ made w -> c_name c = c_name c' -> c = c'.
Proof.
  intros I [i Hi]%list_elem_of_lookup [j Hj]%list_elem_of_lookup E.
  destruct (i_made w I i c Hi) as (_ & _ & N1), (i_made w I j c' Hj) as (_ & _ & N2).
  assert (i = j) as -> by (apply (conn_name_inj (server w)); congruence). congruence.
Qed.

Lemma made_fresh w c : inv w -> c ∈ made w -> (c_ptr c < length (made w))%nat.
Proof.
  intros I [i Hi]%list_elem_of_lookup. destruct (i_made w I i c Hi) as (-> & _). by eapply lookup_lt_Some.
Qed.

Lemma length_dec_id n : 0 <= n <= int_max -> (length (dec n) <= 10)%nat.
Proof.
  intros ?. unfold dec. rewrite (proj2 (Z.ltb_ge n 0)) by lia.
  apply (length_dec_pos n 10); unfold int_max in *; lia.
Qed.

Lemma connName_full w : inv w -> connName (server w) = conn_name (server w) (length (made w)).
Proof.
  intros I. unfold connName, conn_name. f_equal. rewrite (i_next w I). unfold snprintf. apply take_ge.
  pose proof (i_ip w I) as Hip. pose proof (i_int w I). pose proof (i_next w I).
  pose proof (length_dec_id (Z.of_nat (length (made w)) + 1) ltac:(lia)).
  assert (length (CString.c_str (ipPort_ (server w))) <= length (ipPort_ (server w)))%nat.
  { unfold CString.c_str. rewrite length_take. lia. }
  rewrite !length_app. unfold zlen in Hip. cbn. lia.
Qed.

(** *** Queues *)

Lemma take_task_spec loop q f q' :
  take_task loop q = Some (f, q') -> exists a b, q = a ++ (loop, f) :: b /\ q' = a ++ b.
Proof.
  revert f q'. induction q as [|[l g] q IH]; cbn; [done|]. intros f q'.
  destruct (l =? loop) eqn:E; zbool; [intros [= -> ->]; subst; by exists [], q'|].
  destruct (take_task loop q) as [[g' r]|] eqn:Et; [|done]. intros [= -> <-].
  destruct (IH _ _ eq_refl) as (a & b & -> & ->). by exists ((l, g) :: a), b.
Qed.

Lemma waiting_taken w loop f q c :
  take_task loop (pending w) = Some (f, q) ->
  if bool_decide (task_conn f = Some c)
  then exists a b, waiting c w = a ++ (loop, f) :: b /\ waiting c (with_queue w q) = a ++ b
  else waiting c (with_queue w q) = waiting c w.
Proof.
  intros (a & b & Eq & ->)%take_task_spec. unfold waiting. cbn [pending with_queue]. rewrite Eq, !filter_app.
  case_bool_decide as Hc; [rewrite filter_cons_True by done; by eexists _, _|].
  by rewrite filter_cons_False by done.
Qed.

Lemma history_happens c w tid e :
  history c (happens w tid e) = if decide (event_conn e = c) then history c w ++ [(tid, e)] else history c w.
Proof.
  unfold history. cbn [trace happens]. rewrite filter_app. case_decide.
  - by rewrite filter_cons_True by done.
  - by rewrite filter_cons_False, app_nil_r by done.
Qed.

Lemma waiting_queueInLoop c w loop f :
  waiting c (queueInLoop w loop f) = if decide (task_conn f = Some c) then waiting c w ++ [(loop, f)] else waiting c w.
Proof.
  unfold waiting. cbn [pending queueInLoop]. rewrite filter_app. case_decide.
  - by rewrite filter_cons_True by done.
  - by rewrite filter_cons_False, app_nil_r by done.
Qed.

(** *** One connection moves, the others stay *)

(** [w'] differs from [w] in what concerns [c] only, and not in the server. *)
Record apart (c : conn) (w w' : world P) : Prop := {
  a_made : made w' = made w;
  a_server : server w' = server w;
  a_others c' : c' <> c -> history c' w' = history c' w /\ waiting c' w' = waiting c' w;
  a_pending p : p ∈ pending w' -> p ∈ pending w \/ task_conn p.2 = Some c;
  a_trace p : p ∈ trace w' -> p ∈ trace w \/ event_conn p.2 = c;
}.

Lemma apart_refl c w : apart c w w.
Proof. split; naive_solver. Qed.

Lemma apart_happens c w w' tid e : event_conn e = c -> apart c w w' -> apart c w (happens w' tid e).
Proof.
  intros He [A1 A2 A3 A4 A5]. split; try done.
  - intros c' Hne. rewrite history_happens, decide_False by congruence. by apply A3.
  - cbn. intros p. rewrite elem_of_app, list_elem_of_singleton. intros [?| ->]; [by apply A5|by right].
Qed.

Lemma apart_queueInLoop c w w' loop f : task_conn f = Some c -> apart c w w' -> apart c w (queueInLoop w' loop f).
Proof.
  intros Hf [A1 A2 A3 A4 A5]. split; try done.
  - intros c' Hne. rewrite waiting_queueInLoop, decide_False by congruence. by apply A3.
  - cbn. intros p. rewrite elem_of_app, list_elem_of_singleton. intros [?| ->]; [by apply A4|by right].
Qed.

Lemma inv_apart c w w' :
  inv w -> c ∈ made w -> apart c w w' ->
  phase (loop_ (server w)) c (history c w') (waiting c w') (registered c w) -> inv w'.
Proof.
  intros [I1 I2 I3 I4 I5 I6 I7 I8 I9 I10 I11 I12] Hc [A1 A2 A3 A4 A5] Hph. split; rewrite ?A1, ?A2; try done.
  - intros c' Hc'. unfold registered. rewrite A2. destruct (decide (c' = c)) as [->|Hne]; [done|].
    destruct (A3 c' Hne) as [-> ->]. by apply I10.
  - intros p [Hin|Ec]%A4; [by apply I11|by exists c].
  - intros p [Hin| ->]%A5; [by apply I12|done].
Qed.

(** The removal itself. *)
Definition erased (w : world P) (c : conn) : world P :=
  with_server w (set_connections (server w) (StdMap.erase (c_name c) (connections_ (server w)))).

Lemma inv_erased c w w' :
  inv w -> c ∈ made w -> apart c w w' ->
  phase (loop_ (server w)) c (history c w') (waiting c w') None -> inv (erased w' c).
Proof.
  intros I Hc [A1 A2 A3 A4 A5] Hph. pose proof (made_inj w) as Hinj.
  pose proof I as [I1 I2 I3 I4 I5 I6 I7 I8 I9 I10 I11 I12].
  unfold erased. rewrite A2. split; cbn [server with_server made pending trace]; rewrite ?A1; try done; cbn.
  - by apply StdMap.erase_sorted.
  - intros k c' Hf. apply I9. destruct (decide (k = c_name c)) as [->|Hk]; [by rewrite StdMap.find_erase_eq in Hf|].
    by rewrite StdMap.find_erase_ne in Hf.
  - intros c' Hc'. unfold registered. cbn.
    destruct (decide (c' = c)) as [->|Hne]; [by rewrite StdMap.find_erase_eq|].
    rewrite StdMap.find_erase_ne; [|naive_solver|done]. specialize (I10 c' Hc'). destruct (A3 c' Hne) as [E1 E2].
    rewrite <- E1, <- E2 in I10. exact I10.
  - intros p [Hin|Ec]%A4; [by apply I11|by exists c].
  - intros p [Hin| ->]%A5; [by apply I12|done].
Qed.

Lemma singleton_middle {A} (x y : A) a b : [x] = a ++ y :: b -> x = y /\ a = [] /\ b = [].
Proof. destruct a as [|? [|]]; cbn; intros [= ]; by subst. Qed.

(** A functor that runs was the only one waiting for its connection. *)
Lemma taken w loop f q :
  inv w -> take_task loop (pending w) = Some (f, q) ->
  exists c, c ∈ made w /\ task_conn f = Some c /\ waiting c w = [(loop, f)] /\ waiting c (with_queue w q) = [] /\
    (forall c', c' <> c -> waiting c' (with_queue w q) = waiting c' w) /\ (forall p, p ∈ q -> p ∈ pending w).
Proof.
  intros I Et. destruct (take_task_spec _ _ _ _ Et) as (a & b & Eq & Er).
  destruct (i_waiting w I (loop, f)) as (c & Hc & Ec); [rewrite Eq; set_solver|]. cbn in Ec.
  exists c. do 2 (split; [done|]).
  pose proof (i_phase w I c Hc) as Hph. pose proof (waiting_taken w _ _ _ c Et) as Hw.
  rewrite bool_decide_true in Hw by done. destruct Hw as (a' & b' & W1 & W2). rewrite W1, W2.
  assert (a' = [] /\ b' = []) as [-> ->].
  { rewrite W1 in Hph. inversion Hph as [E1 E E3|E1 E E3|E1 E E3|E1 E E3|E1 E E3];
      first [by destruct a' | by apply singleton_middle in E as (_ & -> & ->)]. }
  do 2 (split; [done|]). split; [|subst; rewrite Eq; set_solver].
  intros c' Hne. pose proof (waiting_taken w _ _ _ c' Et) as Hw. by rewrite bool_decide_false in Hw by congruence.
Qed.


Lemma apart_with_queue c w q :
  (forall c', c' <> c -> waiting c' (with_queue w q) = waiting c' w) -> (forall p, p ∈ q -> p ∈ pending w) ->
  apart c w (with_queue w q).
Proof. intros Hw Hq. split; try done; [intros c' Hne; split; [done|by apply Hw]|by left; apply Hq|by left]. Qed.

(** What the functor waiting tells of the connection. *)
Lemma phase_waiting base c h loop f r :
  phase base c h [(loop, f)] r ->
  match f with
  | ConnectEstablished d => loop = c_loop c /\ h = [] /\ r = Some c
  | RemoveConnectionInLoop d => loop = base /\ h = [(c_loop c, Established c); (c_loop c, Closed c)] /\ r = Some c
  | ConnectDestroyed d => loop = c_loop c /\ h = [(c_loop c, Established c); (c_loop c, Closed c)] /\ r = None
  | Listen => False
  end.
Proof. by inversion 1. Qed.

(** [removeConnectionInLoop] on the server's loop. *)
Lemma removeConnectionInLoop_inv c w w' :
  inv w -> c ∈ made w -> apart c w w' -> registered c w = Some c ->
  history c w' = [(c_loop c, Established c); (c_loop c, Closed c)] -> waiting c w' = [] ->
  exists w'', removeConnectionInLoop w' (loop_ (server w)) c = Ok w'' /\ inv w''.
Proof.
  intros I Hc A Hr Hh Hw. unfold removeConnectionInLoop. rewrite (a_server _ _ _ A), assertInLoopThread_self.
  unfold registered in Hr. rewrite Hr. cbn [res_bind Z.eqb]. eexists. split; [done|].
  rewrite <- (a_server _ _ _ A) at 1. rewrite <- (a_server _ _ _ A).
  change (queueInLoop _ _ _) with (erased (queueInLoop w' (c_loop c) (ConnectDestroyed c)) c).
  apply (inv_erased c w); [done..|by apply apart_queueInLoop|].
  rewrite waiting_queueInLoop, decide_True, Hw by done. change (history c (queueInLoop _ _ _)) with (history c w').
  rewrite Hh. constructor.
Qed.

(** A loop runs its next functor: it succeeds. *)
Lemma run_task_inv w loop f q :
  inv w -> take_task loop (pending w) = Some (f, q) ->
  exists w', run_task (with_queue w q) loop 0 f = Ok w' /\ inv w'.
Proof.
  intros I Et. destruct (taken w loop f q I Et) as (c & Hc & Ef & W1 & W2 & W3 & Hq).
  pose proof (i_phase w I c Hc) as Hph. rewrite W1 in Hph. apply phase_waiting in Hph.
  pose proof (apart_with_queue c w q W3 Hq) as A.
  destruct f as [d|d|d|]; try done; injection Ef as ->; cbn [run_task]; destruct Hph as (-> & Hh & Hr).
  - eexists. split; [done|]. apply (inv_apart c w); [done..|by apply apart_happens|].
    rewrite history_happens, decide_True by done. change (history c (with_queue w q)) with (history c w).
    change (waiting c (happens _ _ _)) with (waiting c (with_queue w q)). rewrite Hh, W2, Hr. constructor.
  - eexists. split; [done|]. apply (inv_apart c w); [done..|by apply apart_happens|].
    rewrite history_happens, decide_True by done. change (history c (with_queue w q)) with (history c w).
    change (waiting c (happens _ _ _)) with (waiting c (with_queue w q)). rewrite Hh, W2, Hr. constructor.
  - by apply removeConnectionInLoop_inv.
Qed.

(** The close callback of an established connection. *)
Lemma close_inv w c :
  inv w -> enabled w (CloseCallback c) = true ->
  exists w', step w (CloseCallback c) = Ok w' /\ inv w'.
Proof.
  intros I He. cbn in He. zbool. destruct He as [H1 H2].
  pose proof (i_trace w I _ H1) as Hc. cbn in Hc.
  assert (Hph : history c w = [(c_loop c, Established c)] /\ waiting c w = [] /\ registered c w = Some c).
  { assert (Hin : (c_loop c, Established c) ∈ history c w) by (by apply list_elem_of_filter).
    assert (Hout : (c_loop c, Closed c) ∉ history c w) by (by intros [_ ?]%list_elem_of_filter).
    destruct (i_phase w I c Hc); set_solver. }
  destruct Hph as (Hh & Hw & Hr). cbn [step]. unfold removeConnection, runInLoop.
  assert (A : apart c w (happens w (c_loop c) (Closed c))) by (apply apart_happens; [done|apply apart_refl]).
  assert (Hh' : history c (happens w (c_loop c) (Closed c)) = [(c_loop c, Established c); (c_loop c, Closed c)]).
  { by rewrite history_happens, decide_True, Hh. }
  change (server (happens _ _ _)) with (server w). destruct (c_loop c =? loop_ (server w)) eqn:E; zbool.
  - cbn [run_task]. destruct (removeConnectionInLoop_inv c w _ I Hc A Hr Hh' Hw) as (w'' & Ew & I').
    rewrite <- E in Ew. by exists w''.
  - eexists. split; [done|]. apply (inv_apart c w); [done..|by apply apart_queueInLoop|].
    rewrite waiting_queueInLoop, decide_True by done. change (history c (queueInLoop ?w _ _)) with (history c w).
    change (waiting c (happens _ _ _)) with (waiting c w). rewrite Hh', Hw, Hr. constructor.
Qed.

(** The loop of the next connection. *)
Lemma getNextLoop_spec w :
  inv w ->
  exists pool, Pool.getNextLoop (threadPool_ (server w)) (loop_ (server w)) = Ok (io_loop (server w) (length (made w)), pool) /\
    Pool.baseLoop_ pool = loop_ (server w) /\ Pool.started_ pool = true /\
    Pool.loops_ pool = Pool.loops_ (threadPool_ (server w)) /\
    (Pool.loops_ pool <> [] -> Pool.next_ pool = Z.of_nat (S (length (made w)) mod length (Pool.loops_ pool))).
Proof.
  intros I. unfold Pool.getNextLoop. rewrite (i_base w I), assertInLoopThread_self, (i_started w I).
  pose proof (i_turn w I) as Ht. unfold io_loop. cbn [res_bind]. rewrite assert_true by done.
  destruct (Pool.loops_ (threadPool_ (server w))) as [|l0 ls] eqn:El.
  - eexists. split; [done|]. rewrite El. split; [apply (i_base w I)|]. split; [apply (i_started w I)|]. done.
  - specialize (Ht ltac:(done)). set (n := length (l0 :: ls)) in *. assert (Hn : (n <> 0)%nat) by done.
    pose proof (Nat.mod_upper_bound (length (made w)) n Hn) as Hlt.
    rewrite Ht, Nat2Z.id.
    destruct ((l0 :: ls) !! (length (made w) mod n)%nat) as [l|] eqn:Hl; [|apply lookup_ge_None in Hl; unfold n in *; lia].
    rewrite (nth_lookup_Some _ _ _ _ Hl). eexists. split; [done|]. cbn [Pool.baseLoop_ Pool.started_ Pool.loops_ Pool.next_].
    do 3 (split; [first [apply (i_base w I) | apply (i_started w I) | done]|]). intros _.
    change (zlen (l0 :: ls)) with (Z.of_nat n). fold n.
    change (S (length (made w))) with (1 + length (made w))%nat. rewrite (Nat.Div0.add_mod 1 (length (made w)) n).
    destruct (Z.of_nat n <=? Z.of_nat (length (made w) mod n) + 1) eqn:E; zbool.
    + destruct (decide (n = 1)%nat) as [->|]; [by rewrite !Nat.mod_1_r|].
      rewrite (Nat.mod_small 1 n) by lia.
      replace (1 + length (made w) mod n)%nat with n by lia. by rewrite Nat.Div0.mod_same.
    + rewrite (Nat.mod_small 1 n) by lia. rewrite (Nat.mod_small (1 + length (made w) mod n) n) by lia. lia.
Qed.

(** A connection not made yet has left no trace. *)
Lemma unmade w c : inv w -> c ∉ made w -> history c w = [] /\ waiting c w = [].
Proof.
  intros I Hc. unfold history, waiting. split; apply filter_none.
  - intros p Hp. intros E. apply Hc. rewrite <- E. by apply (i_trace w I).
  - intros p Hp E. destruct (i_waiting w I p Hp) as (c' & Hc' & E'). congruence.
Qed.

(** The world with a connection added. *)
Definition added (w : world P) (pool : Pool.t) (c : conn) : world P :=
  let s := server w in
  mk_world (mk (loop_ s) (ipPort_ s) (name_ s) (acceptor_ s) pool (started_ s) (nextConnId_ s + 1) (StdMap.set (c_name c) c (connections_ s)))
           (poller w) (heap w) (pending w) (trace w) (made w ++ [c]).

Lemma inv_added w pool c w' :
  inv w -> nextConnId_ (server w) < int_max ->
  c_ptr c = length (made w) -> c_loop c = io_loop (server w) (length (made w)) -> c_name c = conn_name (server w) (length (made w)) ->
  Pool.baseLoop_ pool = loop_ (server w) -> Pool.started_ pool = true ->
  Pool.loops_ pool = Pool.loops_ (threadPool_ (server w)) ->
  (Pool.loops_ pool <> [] -> Pool.next_ pool = Z.of_nat (S (length (made w)) mod length (Pool.loops_ pool))) ->
  apart c (added w pool c) w' -> phase (loop_ (server w)) c (history c w') (waiting c w') (Some c) -> inv w'.
Proof.
  intros I Hlt C1 C2 C3 P1 P2 P3 P4 [A1 A2 A3 A4 A5] Hph. pose proof (made_fresh w) as Hfr.
  pose proof I as [I1 I2 I3 I4 I5 I6 I7 I8 I9 I10 I11 I12].
  assert (Hio : forall i, io_loop (server (added w pool c)) i = io_loop (server w) i).
  { intros i. unfold io_loop. cbn. by rewrite P3. }
  assert (Hname : forall c', c' ∈ made w -> c_name c' <> c_name c).
  { intros c' [j Hj]%list_elem_of_lookup E. destruct (I1 j c' Hj) as (_ & _ & E').
    rewrite E', C3 in E. apply conn_name_inj in E. apply lookup_lt_Some in Hj. lia. }
  split; rewrite ?A1, ?A2.
  - intros i c'. cbn [made added]. rewrite Hio. intros Hi. apply lookup_app_Some in Hi as [Hi|[Hi Hi']].
    + by apply I1.
    + apply list_lookup_singleton_Some in Hi' as [Hi' <-]. assert (i = length (made w)) as -> by lia. done.
  - cbn. rewrite I2, length_app. cbn. lia.
  - cbn. lia.
  - done.
  - done.
  - done.
  - cbn. intros Hl. rewrite P4, length_app by done. cbn. do 2 f_equal. lia.
  - cbn. by apply StdMap.set_sorted.
  - cbn. intros k c' Hf. rewrite elem_of_app, list_elem_of_singleton. destruct (decide (k = c_name c)) as [->|Hk].
    + rewrite StdMap.find_set_eq in Hf. injection Hf as <-. split; [by right|done].
    + rewrite StdMap.find_set_ne in Hf by done. apply I9 in Hf as [? ?]. split; [by left|done].
  - cbn [made added]. intros c'. rewrite elem_of_app, list_elem_of_singleton.
    unfold registered. rewrite A2. cbn. intros [Hc'| ->]; [|by rewrite StdMap.find_set_eq].
    assert (c' <> c) as Hne by (intros ->; apply Hfr in Hc'; [lia|done]).
    rewrite StdMap.find_set_ne by (try apply Hname; done). specialize (I10 c' Hc'). destruct (A3 c' Hne) as [-> ->]. exact I10.
  - cbn [made added]. intros p [Hin|Ec]%A4; [|exists c; set_solver].
    destruct (I11 p Hin) as (c' & ? & ?). exists c'. set_solver.
  - cbn [made added]. intros p [Hin| ->]%A5; [apply I12 in Hin|]; set_solver.
Qed.

(** A new connection: it succeeds as long as the counter does not overflow. *)
Lemma newConnection_inv w sockfd peer local_ :
  inv w -> nextConnId_ (server w) < int_max ->
  exists w', step w (NewConnection sockfd peer local_) = Ok w' /\ inv w'.
Proof.
  intros I Hlt. cbn [step]. unfold newConnection. rewrite assertInLoopThread_self.
  destruct (getNextLoop_spec w I) as (pool & -> & P1 & P2 & P3 & P4). cbn [res_bind].
  rewrite check_ints_ok; [|constructor; [|constructor]; unfold in_int, int_min; rewrite (i_next w I) in *; lia].
  cbn [res_bind mbind]. cbn zeta. rewrite (connName_full w I). set (c := mk_conn _ _ _ _ _ _).
  change (mk_world _ _ _ _ _ _) with (added w pool c).
  assert (Hc : c ∉ made w). { intros Hc. apply made_fresh in Hc; [|done]. cbn in Hc. lia. }
  destruct (unmade w c I Hc) as [Hh Hw]. unfold runInLoop. cbn [run_task].
  destruct (loop_ (server w) =? io_loop (server w) (length (made w))) eqn:E; zbool; (eexists; split; [done|]).
  - apply (inv_added w pool c); try done; [apply apart_happens; [done|apply apart_refl]|].
    rewrite history_happens, decide_True by done.
    change (history c (added w pool c)) with (history c w). change (waiting c (happens _ _ _)) with (waiting c w).
    rewrite Hh, Hw. rewrite E at 2. change (io_loop (server w) (length (made w))) with (c_loop c). constructor.
  - apply (inv_added w pool c); try done; [apply apart_queueInLoop; [done|apply apart_refl]|].
    rewrite waiting_queueInLoop, decide_True by done.
    change (history c (queueInLoop _ _ _)) with (history c w). change (waiting c (added w pool c)) with (waiting c w).
    rewrite Hh, Hw. cbn [app]. change (io_loop (server w) (length (made w))) with (c_loop c). constructor.
Qed.

(** The server once started. *)
Lemma start_inv p h loop ipPort name c socket open_ bind_ n cb startLoop listen_ w0 w1 w inits :
  zlen ipPort <= 51 -> new p h loop ipPort name c socket open_ bind_ = Ok w0 -> setThreadNum w0 n = Ok w1 ->
  start w1 loop cb startLoop listen_ = Ok (w, inits) -> inv w.
Proof.
  intros Hip Hn Hs Ht. unfold new in Hn. apply res_bind_Ok in Hn as ([a h'] & Ha & Hn). injection Hn as <-.
  unfold setThreadNum in Hs. apply assert_Ok in Hs as [Hs1 Hs]. injection Hs as <-.
  unfold start, runInLoop, Pool.start in Ht. cbn in Ht. rewrite Z.eqb_refl, assertInLoopThread_self in Ht. cbn in Ht.
  apply assert_Ok in Ht as [_ Ht]. apply res_bind_Ok in Ht as (w' & Hw & Ht). injection Ht as <- _.
  apply res_bind_Ok in Hw as ([[a' p'] h''] & _ & Hw). injection Hw as <-.
  split; cbn; first [ done | by intros; discriminate | apply StdMap.sorted_nil | by intros ? ?%elem_of_nil | intros; by rewrite Nat.Div0.mod_0_l ].
Qed.

Lemma check_ints_overflow {A} z (r : A) : int_max < z -> check_ints [z] r = Err Undefined.
Proof.
  intros Hz. unfold check_ints. cbn. unfold in_intb. rewrite (proj2 (Z.leb_gt z int_max)) by lia. by rewrite andb_false_r.
Qed.

Lemma server_reachable_inv w : reachable w -> inv w.
Proof.
  induction 1 as [|w a w' _ IH He Hs]; [by eapply start_inv|].
  destruct a as [sockfd peer local_|c|loop].
  - destruct (decide (nextConnId_ (server w) < int_max)) as [Hlt|Hge].
    + destruct (newConnection_inv w sockfd peer local_ IH Hlt) as (w'' & E & ?). congruence.
    + exfalso. cbn in Hs. unfold newConnection in Hs. rewrite assertInLoopThread_self in Hs.
      destruct (getNextLoop_spec w IH) as (pool & E & _). rewrite E in Hs. cbn in Hs.
      rewrite check_ints_overflow in Hs by lia. done.
  - destruct (close_inv w c IH He) as (w'' & E & ?). congruence.
  - cbn in Hs, He. destruct (take_task loop (pending w)) as [[f q]|] eqn:Et; [|done].
    destruct (run_task_inv w loop f q IH Et) as (w'' & E & ?). congruence.
Qed.

(** C4: the registry of connections.  For a server that listens on an address
    of at most 51 characters, in every state reached by any interleaving of new
    connections, close callbacks and loops running their queues: (1) every
    possible next step succeeds, so the assertion that a removal erases one entry
    never fails, unless the connection counter overflows; (2) the i-th connection
    has its own name and is on the pool's loop i modulo the number of loops;
    (3) the calls on a connection are, all on its own loop's thread, the first of
    [connectEstablished], the close callback and [connectDestroyed];
    (4) a connection for which nothing is waiting in any loop is registered
    under its name exactly if it has not closed, and destroyed otherwise. *)
Theorem server_registry w :
  reachable w ->
  (forall a, enabled w a = true -> nextConnId_ (server w) < int_max -> exists w', step w a = Ok w') /\
  (forall i c, made w !! i = Some c -> c_name c = conn_name (server w) i /\ c_loop c = io_loop (server w) i) /\
  (forall c, c ∈ made w ->
     history c w `prefix_of` [(c_loop c, Established c); (c_loop c, Closed c); (c_loop c, Destroyed c)]) /\
  (forall c, c ∈ made w -> waiting c w = [] ->
     if bool_decide ((c_loop c, Closed c) ∈ trace w)
     then (c_loop c, Destroyed c) ∈ trace w /\ StdMap.find (c_name c) (connections_ (server w)) = None
     else StdMap.find (c_name c) (connections_ (server w)) = Some c).
Proof.
  intros I%server_reachable_inv. split_and!.
  - intros [sockfd peer local_|c|loop] He Hlt.
    + destruct (newConnection_inv w sockfd peer local_ I Hlt) as (? & ? & _). by eexists.
    + destruct (close_inv w c I He) as (? & ? & _). by eexists.
    + cbn in *. destruct (take_task loop (pending w)) as [[f q]|] eqn:Et; [|done].
      destruct (run_task_inv w loop f q I Et) as (? & ? & _). by eexists.
  - intros i c Hi. by destruct (i_made w I i c Hi) as (_ & ? & ?).
  - intros c Hc. destruct (i_phase w I c Hc); by eexists.
  - intros c Hc Hw. pose proof (i_phase w I c Hc) as Hph. rewrite Hw in Hph.
    assert (Hin : forall e, event_conn e = c -> (c_loop c, e) ∈ trace w <-> (c_loop c, e) ∈ history c w).
    { intros e He. unfold history. rewrite list_elem_of_filter. naive_solver. }
    rewrite (bool_decide_ext _ _ (Hin (Closed c) eq_refl)). pose proof (proj2 (Hin (Destroyed c) eq_refl)) as Hd.
    revert Hd. fold (registered c w). clear Hin.
    inversion Hph as [|E1 E2 E3| | |E1 E2 E3]; intros Hd; [rewrite bool_decide_false by set_solver; done|].
    rewrite bool_decide_true by set_solver. split; [apply Hd; set_solver|done].
Qed.

End Steps.

(** Two loops, two connections; the first closes and is removed. *)
Definition sample_start : res (world PollPoller.t) :=
  w ← new (PollPoller.new 1) ∅ 1 (bs "0.0.0.0:80") (bs "srv") 5 3 4 0;
  w ← setThreadNum w 2;
  '(w, _) ← start w 1 false (fun i => i + 2) 0;
  Ok w.
Definition sample_actions (c : conn) : list action :=
  [NewConnection 7 [] []; NewConnection 8 [] []; RunNext 2; CloseCallback c; RunNext 1; RunNext 2].
Fixpoint run_actions (w : world PollPoller.t) (l : list action) : res (world PollPoller.t) :=
  match l with
  | [] => Ok w
  | a :: l => assert! enabled w a; w ← step w a; run_actions w l
  end.
Definition first_conn : conn := mk_conn 0 2 (bs "srv-0.0.0.0:80#1") 7 [] [].

Lemma run_actions_reachable w l w' : reachable w -> run_actions w l = Ok w' -> reachable w'.
Proof.
  revert w. induction l as [|a l IH]; cbn; intros w Hw Hr; [by injection Hr as <-|].
  apply assert_Ok in Hr as [He Hr]. apply res_bind_Ok in Hr as (w1 & Hs & Hr). eapply IH; [|done]. by eapply reach_step.
Qed.

Lemma server_registry_witness :
  exists w, (w0 ← sample_start; run_actions w0 (sample_actions first_conn)) = Ok w /\ first_conn ∈ made w /\
    (c_loop first_conn, Destroyed first_conn) ∈ trace w /\ StdMap.find (c_name first_conn) (connections_ (server w)) = None.
Proof.
  destruct (w0 ← sample_start; run_actions w0 (sample_actions first_conn)) as [w|] eqn:E; [|vm_compute in E; discriminate E].
  exists w. split; [reflexivity|].
  assert (Hr : reachable w).
  { apply res_bind_Ok in E as (w0 & Es & Er). eapply run_actions_reachable; [|exact Er]. unfold sample_start in Es.
    apply res_bind_Ok in Es as (w1 & E1 & Es). apply res_bind_Ok in Es as (w2 & E2 & Es).
    apply res_bind_Ok in Es as ([w3 i] & E3 & Es). injection Es as <-.
    eapply reach_start; [|exact E1|exact E2|exact E3]. vm_compute. discriminate. }
  assert (Hf : first_conn ∈ made w /\ waiting first_conn w = [] /\
               bool_decide ((c_loop first_conn, Closed first_conn) ∈ trace w) = true).
  { vm_compute in E. injection E as <-. split; [by left|]. split; vm_compute; reflexivity. }
  destruct Hf as (Hm & Hw & Hc). split; [exact Hm|].
  destruct (server_registry w Hr) as (_ & _ & _ & H4). specialize (H4 first_conn Hm Hw). rewrite Hc in H4. exact H4.
Defined.

End ServerFacts.
