(* ===== verification/HttpMain.v ===== *)
(** The HTTP server as an object (src/networking/http/HttpServer.h and the
    constructor and start of HttpServer.cpp): a TCP server, and the callback that
    fills in the responses.  What its connections do is [HttpSession]. *)

From S2P Require Import Prelude Timestamp StdMap Buffer Channel Poller Http TcpServer.

Module HttpMain.

Section Main.
(** A callback may be bound to an object, whose state [S] is what it is when the
    callback runs. *)
Context {P : Type} {HP : Poller P} {S : Type}.

Record t := mk {
  server_ : @TcpServer.world P;
  connectionCallback_ : bool -> option HttpContext.t -> option HttpContext.t;
  messageCallback_ : HttpServer.HttpCallback -> HttpContext.t -> Buffer.t -> Timestamp.t ->
    option (res (HttpContext.t * Buffer.t * list HttpServer.action));
  httpCallback_ : S -> HttpServer.HttpCallback;
}.

(** The constructor, with the arguments of [TcpServer]'s. *)
Definition new (p : P) (h : Channel.heap) (loop : Z) (ipPort name : list byte) (c socket open_ bind_ : Z) : res t :=
  w ← TcpServer.new p h loop ipPort name c socket open_ bind_;
  Ok (mk w HttpServer.onConnection HttpServer.onMessage (fun _ => HttpServer.defaultHttpCallback)).

Definition with_server (s : t) (w : @TcpServer.world P) : t := mk w (connectionCallback_ s) (messageCallback_ s) (httpCallback_ s).

Definition getLoop (s : t) : Z := TcpServer.loop_ (TcpServer.server (server_ s)).
Definition setHttpCallback (s : t) (cb : S -> HttpServer.HttpCallback) : t :=
  mk (server_ s) (connectionCallback_ s) (messageCallback_ s) cb.
Definition setThreadNum (s : t) (numThreads : Z) : res t := w ← TcpServer.setThreadNum (server_ s) numThreads; Ok (with_server s w).

(** [start], after its log line; no thread's initialization is set. *)
Definition start (s : t) (tid : Z) (startLoop : Z -> Z) (listen_ : Z) : res t :=
  '(w, _) ← TcpServer.start (server_ s) tid false startLoop listen_; Ok (with_server s w).

End Main.
Arguments t P S : clear implicits.

End HttpMain.
