(* ===== verification/TcpClient.v ===== *)
(** The TCP client (src/networking/TcpClient.h, src/networking/TcpClient.cpp):
    a connector, and the connection it made, which is replaced by a new one when
    it closes and the client may retry.

    The world holds the client, its connector's world (Connector.v), and what
    the client's connections go through; a connection is the object of
    TcpServer.v, with its fixed fields. *)

From S2P Require Import Prelude Printf CString Date StringPiece StdMap Channel Poller PollPoller Sockets TcpServer Connector.

Module TcpClient.
Abbreviation conn := TcpServer.conn.

Record t := mk {
  loop_ : Z;
  name_ : list byte;
  retry_ : bool;
  connect_ : bool;
  nextConnId_ : Z;
  connection_ : option conn;
}.

(** What the client makes happen to a connection. *)
Inductive event :=
  | Established (c : conn)
  | Shutdown (c : conn)
  | Closed (c : conn)
  | DestroyQueued (c : conn)           (* [connectDestroyed] queued in the loop *)
  | SetCloseCallback (c : conn)
  | ForceClose (c : conn)
  | RemoveConnectorLater.              (* [runAfter] keeps the connector for a second *)
#[global] Instance event_eq_dec : EqDecision event.
Proof. solve_decision. Defined.

Section Client.
Context {P : Type} {HP : Poller P}.

Record world := mk_world {
  client : t;
  connector_ : Connector.world P;
  trace : list event;
  made : list conn;
}.

Definition with_client (w : world) (c : t) : world := mk_world c (connector_ w) (trace w) (made w).
Definition with_connector (w : world) (k : Connector.world P) : world := mk_world (client w) k (trace w) (made w).
Definition happens (w : world) (e : event) : world := mk_world (client w) (connector_ w) (trace w ++ [e]) (made w).
Definition set_connect (c : t) (b : bool) : t := mk (loop_ c) (name_ c) (retry_ c) b (nextConnId_ c) (connection_ c).
Definition set_connection (c : t) (o : option conn) : t := mk (loop_ c) (name_ c) (retry_ c) (connect_ c) (nextConnId_ c) o.

Definition new (loop : Z) (nameArg : list byte) (p : P) (h : Channel.heap) : world :=
  mk_world (mk loop nameArg false true 1 None) (Connector.mk_world (Connector.new loop) p h [] [] ∅ []) [] [].

Definition enableRetry (w : world) : world :=
  let c := client w in with_client w (mk (loop_ c) (name_ c) true (connect_ c) (nextConnId_ c) (connection_ c)).

(** The destructor; [unique] tells whether the client holds the only reference. *)
Definition destroy (w : world) (unique : bool) : res world :=
  match connection_ (client w) with
  | Some c =>
      assert! loop_ (client w) =? TcpServer.c_loop c;
      let w := happens w (SetCloseCallback c) in
      Ok (if unique then happens w (ForceClose c) else w)
  | None => Ok (happens (with_connector w (Connector.stop (connector_ w))) RemoveConnectorLater)
  end.

Definition connect (w : world) (tid : Z) (a : Connector.attempt) : res world :=
  let w := with_client w (set_connect (client w) true) in
  k ← Connector.start (connector_ w) tid a;
  Ok (with_connector w k).

Definition disconnect (w : world) : world :=
  let w := with_client w (set_connect (client w) false) in
  match connection_ (client w) with Some c => happens w (Shutdown c) | None => w end.

Definition stop (w : world) : world :=
  let w := with_client w (set_connect (client w) false) in
  with_connector w (Connector.stop (connector_ w)).

(** The name of the next connection, to a peer that prints as [ipPort]. *)
Definition connName (c : t) (ipPort : list byte) : list byte :=
  name_ c ++ snprintf 32 (bs ":" ++ CString.c_str ipPort ++ bs "#" ++ dec (nextConnId_ c)).

Definition newConnection (w : world) (tid sockfd : Z) (ipPort : list byte) (peerAddr localAddr : Sockets.sockaddr) : res world :=
  let cl := client w in
  _ ← assertInLoopThread (loop_ cl) tid;
  let name := connName cl ipPort in
  nextConnId ← check_ints [nextConnId_ cl + 1] (nextConnId_ cl + 1);
  let c := TcpServer.mk_conn (length (made w)) (loop_ cl) name sockfd localAddr peerAddr in
  Ok (mk_world (mk (loop_ cl) (name_ cl) (retry_ cl) (connect_ cl) nextConnId (Some c)) (connector_ w)
               (trace w ++ [Established c]) (made w ++ [c])).

Definition removeConnection (w : world) (tid : Z) (c : conn) (a : Connector.attempt) : res world :=
  let cl := client w in
  _ ← assertInLoopThread (loop_ cl) tid;
  assert! loop_ cl =? TcpServer.c_loop c;
  assert! bool_decide (connection_ cl = Some c);
  let w := happens (with_client w (set_connection cl None)) (DestroyQueued c) in
  if retry_ cl && connect_ cl then
    k ← Connector.restart (connector_ w) tid a;
    Ok (with_connector w k)
  else Ok w.

(** The connector finds its socket writable; when that gives a connected
    socket, its [newConnectionCallback_] is [newConnection]. *)
Definition handleWrite (w : world) (tid so_error : Z) (self_connect : bool) (ipPort : list byte) (peerAddr localAddr : Sockets.sockaddr)
    : res world :=
  k ← Connector.handleWrite (connector_ w) tid so_error self_connect;
  let w' := with_connector w k in
  match drop (length (Connector.given (connector_ w))) (Connector.given k) with
  | sockfd :: _ => newConnection w' tid sockfd ipPort peerAddr localAddr
  | [] => Ok w'
  end.

End Client.
Arguments world P : clear implicits.
End TcpClient.
