(* ===== verification/ClientFacts.v ===== *)
(** Facts about the TCP client: whatever the user, the loop and the network do,
    the client has at most one connection that has not closed, it is the one in
    [connection_], and while it lasts the connector rests; every connection is
    established, closed and sent to destruction once (src/networking/TcpClient.cpp). *)

From S2P Require Import Prelude Printf Date StringPiece StdMap Channel Poller PollPoller Sockets TcpServer Connector TcpClient.

Module ClientFacts.
Import TcpClient.

(** ** What the client relies on of its connector *)
Module Link.
Import Connector.
Section Link.
Context {P : Type} {HP : Poller P}.
Implicit Types w : world P.

(** The operations keep the loop, and the sockets handed over; a connector that
    handed its socket over stays so. *)
Definition quiet w w' : Prop :=
  loop_ (cn w') = loop_ (cn w) /\ given w' = given w /\ (state_ (cn w) = kConnected -> state_ (cn w') = kConnected).

Lemma close_same w fd w' : close w fd = Ok w' -> cn w' = cn w /\ given w' = given w.
Proof. unfold close. destruct (bool_decide _); [|done]. by intros [= <-]. Qed.

Lemma retry_same w fd w' : retry w fd = Ok w' -> loop_ (cn w') = loop_ (cn w) /\ given w' = given w.
Proof.
  unfold retry. intros (w1 & Hc & Hr)%res_bind_Ok. apply close_same in Hc as [Hc Hg].
  cbn in Hr. destruct (connect_ (cn w1)); injection Hr as <-; cbn; by rewrite Hc.
Qed.

Lemma connecting_same w tid fd c w' : connecting w tid fd c = Ok w' -> loop_ (cn w') = loop_ (cn w) /\ given w' = given w.
Proof. unfold connecting. intros [_ H]%assert_Ok. apply res_bind_Ok in H as ([p h] & _ & H). by injection H as <-. Qed.

Lemma startInLoop_same w tid a w' :
  startInLoop w tid a = Ok w' -> loop_ (cn w') = loop_ (cn w) /\ given w' = given w /\ state_ (cn w) = kDisconnected.
Proof.
  unfold startInLoop. intros (u & _ & H)%res_bind_Ok. apply assert_Ok in H as [Hs H]. zbool.
  destruct (connect_ (cn w)); [|by injection H as <-]. unfold connect in H. destruct (sockfd a <? 0); [done|].
  destruct (bool_decide _); [by apply connecting_same in H as [-> ->]|].
  destruct (bool_decide _); [by apply retry_same in H as [-> ->]|by apply close_same in H as [-> ->]].
Qed.

Lemma removeAndReset_same w tid fd w' :
  removeAndResetChannel w tid = Ok (fd, w') -> cn w' = cn w /\ given w' = given w.
Proof.
  unfold removeAndResetChannel. destruct (channel_ (cn w)); [|done]. 
  intros ([p h] & _ & H)%res_bind_Ok. apply res_bind_Ok in H as ([p' h'] & _ & H).
  apply res_bind_Ok in H as (ch & _ & H). by injection H as <- <-.
Qed.

Lemma startInLoop_quiet w tid a w' : startInLoop w tid a = Ok w' -> quiet w w'.
Proof. intros (H1 & H2 & H3)%startInLoop_same. split; [done|]. split; [done|]. congruence. Qed.

Lemma stopInLoop_quiet w tid w' : stopInLoop w tid = Ok w' -> quiet w w'.
Proof.
  unfold stopInLoop. intros (u & _ & H)%res_bind_Ok. destruct (bool_decide _) eqn:E; [|by injection H as <-].
  zbool. apply res_bind_Ok in H as ([fd w1] & H1 & H2). apply removeAndReset_same in H1 as [H1 G1].
  apply retry_same in H2 as [H2 G2]. cbn in H1, G1. rewrite H1 in H2.
  split; [done|]. split; congruence.
Qed.

Lemma resetChannel_quiet w tid w' : resetChannel w tid = Ok w' -> quiet w w'.
Proof. unfold resetChannel. destruct (channel_ (cn w)); intros H; res_inv; subst; done. Qed.

Lemma run_functor_quiet w tid a w' : run_functor w tid a = Ok w' -> quiet w w'.
Proof.
  unfold run_functor. destruct (pending w) as [|[] q]; [by intros [= <-]|..]; intros H.
  - by apply startInLoop_quiet in H.
  - by apply stopInLoop_quiet in H.
  - by apply resetChannel_quiet in H.
Qed.

Lemma fire_quiet w tid a w' : fire w tid a = Ok w' -> quiet w w'.
Proof. unfold fire. destruct (timers w); [by intros [= <-]|]. by intros H%startInLoop_quiet. Qed.

Lemma start_quiet w tid a w' : start w tid a = Ok w' -> quiet w w'.
Proof. unfold start. destruct (tid =? _); [by intros H%startInLoop_quiet|by intros [= <-]]. Qed.

Lemma handleError_quiet w tid w' : handleError w tid = Ok w' -> quiet w w'.
Proof.
  unfold handleError. destruct (bool_decide _) eqn:E; [|by intros [= <-]]. zbool.
  intros ([fd w1] & H1 & H2)%res_bind_Ok. apply removeAndReset_same in H1 as [H1 G1].
  apply retry_same in H2 as [H2 G2]. split; [congruence|]. split; congruence.
Qed.

(** A socket is handed over by an attempt under way, which leaves the connector connected. *)
Lemma handleWrite_same w tid e self w' :
  handleWrite w tid e self = Ok w' ->
  quiet w w' \/ (loop_ (cn w') = loop_ (cn w) /\ state_ (cn w) = kConnecting /\ state_ (cn w') = kConnected /\
                 exists fd, given w' = given w ++ [fd]).
Proof.
  unfold handleWrite. destruct (bool_decide _) eqn:E; zbool; [|intros [_ H]%assert_Ok; injection H as <-; by left].
  intros ([fd w1] & H1 & H2)%res_bind_Ok. apply removeAndReset_same in H1 as [H1 G1].
  destruct (negb _); [|destruct self].
  1,2: apply retry_same in H2 as [H2 G2]; left; split; [congruence|]; split; congruence.
  cbn in H2. destruct (connect_ (cn w1)).
  - injection H2 as <-. right. cbn. rewrite H1, G1. split; [done|]. split; [done|]. split; [done|]. by exists fd.
  - apply close_same in H2 as [H2 G2]. cbn in G2. left. split; [by rewrite H2; cbn; rewrite H1|]. split; congruence.
Qed.

Lemma restart_same w tid a w' : restart w tid a = Ok w' -> loop_ (cn w') = loop_ (cn w) /\ given w' = given w.
Proof. unfold restart. intros (u & _ & H)%res_bind_Ok. by apply startInLoop_same in H as (-> & -> & _). Qed.

End Link.
End Link.

(** ** The client at work *)
Section Steps.
Context {P : Type} {HP : Poller P}.
Implicit Types w : world P.

(** The user connects (from a thread), disconnects, stops, enables retries; the
    loop runs a functor or a timer of the connector; the connecting socket is
    writable, or in error; the close callback of a connection runs. *)
Inductive action :=
  | Connect (tid : Z) (a : Connector.attempt)
  | Disconnect
  | Stop
  | EnableRetry
  | RunFunctor (a : Connector.attempt)
  | Fire (a : Connector.attempt)
  | Writable (so_error : Z) (self_connect : bool) (ipPort : list byte) (peerAddr localAddr : Sockets.sockaddr)
  | SocketError
  | CloseCallback (c : conn) (a : Connector.attempt).

Definition enabled w (x : action) : bool :=
  match x with
  | CloseCallback c _ => bool_decide (Established c ∈ trace w) && bool_decide (Closed c ∉ trace w)
  | _ => true
  end.

Definition of_connector w (r : res (Connector.world P)) : res (world P) := k ← r; Ok (with_connector w k).

Definition step w (x : action) : res (world P) :=
  let loop := loop_ (client w) in
  match x with
  | Connect tid a => connect w tid a
  | Disconnect => Ok (disconnect w)
  | Stop => Ok (stop w)
  | EnableRetry => Ok (enableRetry w)
  | RunFunctor a => of_connector w (Connector.run_functor (connector_ w) loop a)
  | Fire a => of_connector w (Connector.fire (connector_ w) loop a)
  | Writable e self ipPort peerAddr localAddr => handleWrite w loop e self ipPort peerAddr localAddr
  | SocketError => of_connector w (Connector.handleError (connector_ w) loop)
  | CloseCallback c a => removeConnection (happens w (Closed c)) loop c a
  end.

Inductive reachable : world P -> Prop :=
  | reach_new loop name p h : reachable (new loop name p h)
  | reach_step w x w' : reachable w -> enabled w x = true -> step w x = Ok w' -> reachable w'.

(** What a connection went through. *)
Definition life (c : conn) w : list event :=
  filter (fun e => e = Established c \/ e = Closed c \/ e = DestroyQueued c) (trace w).

Record inv w : Prop := {
  v_loop : Connector.loop_ (Connector.cn (connector_ w)) = loop_ (client w);
  v_made i c : made w !! i = Some c -> TcpServer.c_ptr c = i /\ TcpServer.c_loop c = loop_ (client w);
  v_current c : connection_ (client w) = Some c ->
    last (made w) = Some c /\ Connector.state_ (Connector.cn (connector_ w)) = Connector.kConnected;
  v_life c : c ∈ made w ->
    life c w = if decide (connection_ (client w) = Some c) then [Established c] else [Established c; Closed c; DestroyQueued c];
  v_events c e : e ∈ trace w -> e = Established c \/ e = Closed c \/ e = DestroyQueued c -> c ∈ made w;
}.

(** The connector alone moves. *)
Lemma inv_quiet w k : inv w -> Link.quiet (connector_ w) k -> inv (with_connector w k).
Proof.
  intros [V1 V2 V3 V4 V5] (Q1 & _ & Q3). split; cbn; try done; [congruence|].
  intros c [Hl Hs]%V3. split; [done|by apply Q3].
Qed.

(** A flag of the client changes. *)
Lemma inv_flags w cl :
  inv w -> loop_ cl = loop_ (client w) -> connection_ cl = connection_ (client w) -> inv (with_client w cl).
Proof. intros [V1 V2 V3 V4 V5] E1 E2. split; cbn; rewrite ?E1, ?E2; done. Qed.

Lemma of_connector_inv w r w' :
  inv w -> (forall k, r = Ok k -> Link.quiet (connector_ w) k) -> of_connector w r = Ok w' -> inv w'.
Proof. intros I Hq. unfold of_connector. intros (k & Hk & H)%res_bind_Ok. injection H as <-. apply inv_quiet; [done|by apply Hq]. Qed.

(** An event that is none of the three. *)
Lemma inv_happens w e :
  inv w -> (forall c, ~ (e = Established c \/ e = Closed c \/ e = DestroyQueued c)) -> inv (happens w e).
Proof.
  intros [V1 V2 V3 V4 V5] He. split; cbn; try done.
  - intros c Hc. rewrite <- V4 by done. unfold life. cbn. rewrite filter_app, (filter_cons_False _ e) by apply He.
    by rewrite filter_nil, app_nil_r.
  - intros c e' [Hin| ->%list_elem_of_singleton]%elem_of_app Hc; [by eapply V5|]. by apply He in Hc.
Qed.

Lemma made_ptr w c c' : inv w -> c ∈ made w -> c' ∈ made w -> TcpServer.c_ptr c = TcpServer.c_ptr c' -> c = c'.
Proof.
  intros I [i Hi]%list_elem_of_lookup [j Hj]%list_elem_of_lookup E.
  destruct (v_made w I i c Hi) as [E1 _], (v_made w I j c' Hj) as [E2 _]. congruence.
Qed.

(** A connection that has not closed is the current one. *)
Lemma open_current w c : inv w -> Established c ∈ trace w -> Closed c ∉ trace w -> c ∈ made w /\ connection_ (client w) = Some c.
Proof.
  intros I He Hc. assert (Hm : c ∈ made w) by (eapply (v_events w I); [exact He|by left]). split; [done|].
  pose proof (v_life w I c Hm) as Hl. case_decide; [done|]. exfalso. apply Hc.
  assert (Hin : Closed c ∈ life c w) by (rewrite Hl; set_solver). by apply list_elem_of_filter in Hin as [_ ?].
Qed.

Lemma life_app c w e1 e2 :
  filter (fun e => e = Established c \/ e = Closed c \/ e = DestroyQueued c) ((trace w ++ [e1]) ++ [e2]) =
  life c w ++ filter (fun e => e = Established c \/ e = Closed c \/ e = DestroyQueued c) [e1; e2].
Proof. rewrite <- app_assoc. apply filter_app. Qed.

(** The client without its connection. *)
Definition dropped w (c : conn) : world P :=
  happens (with_client (happens w (Closed c)) (set_connection (client w) None)) (DestroyQueued c).

Lemma dropped_inv w c : inv w -> c ∈ made w -> connection_ (client w) = Some c -> inv (dropped w c).
Proof.
  intros I Hm Hc. pose proof I as [V1 V2 V3 V4 V5]. split; cbn; try done.
  - intros c' Hc'. unfold life. cbn. rewrite life_app, V4, Hc by done. destruct (decide (c' = c)) as [->|Hne].
    + rewrite decide_True by done. rewrite !filter_cons_True by naive_solver. done.
    + rewrite decide_False by congruence. rewrite !filter_cons_False by naive_solver. by rewrite filter_nil, app_nil_r.
  - intros c' e. rewrite !elem_of_app, !list_elem_of_singleton. intros [[?| ->]| ->]; [by eapply V5|naive_solver..].
Qed.

(** The close callback: the assertions hold. *)
Lemma removeConnection_ok w c a :
  inv w -> enabled w (CloseCallback c a) = true ->
  step w (CloseCallback c a) =
    (if retry_ (client w) && connect_ (client w)
     then k ← Connector.restart (connector_ w) (loop_ (client w)) a; Ok (with_connector (dropped w c) k)
     else Ok (dropped w c)) /\ inv (dropped w c).
Proof.
  intros I He. cbn in He. zbool. destruct He as [He Hn]. destruct (open_current w c I He Hn) as [Hm Hc].
  split; [|by apply dropped_inv]. cbn [step]. unfold removeConnection. cbn [client happens]. rewrite assertInLoopThread_self.
  apply list_elem_of_lookup in Hm as [i Hi]. destruct (v_made w I i c Hi) as [_ Hl].
  cbn [mbind res_bind]. rewrite assert_true by (rewrite Hl; apply Z.eqb_refl). rewrite assert_true by (by apply bool_decide_true). done.
Qed.

(** A handed-over socket finds no current connection. *)
Lemma connecting_alone w : inv w -> Connector.state_ (Connector.cn (connector_ w)) = Connector.kConnecting -> connection_ (client w) = None.
Proof. intros I Hs. destruct (connection_ (client w)) as [c|] eqn:Ec; [|done]. apply (v_current w I) in Ec as [_ ?]. congruence. Qed.

Lemma client_newConnection_inv w k fd ipPort peer local_ w' :
  inv w -> connection_ (client w) = None ->
  Connector.loop_ (Connector.cn k) = loop_ (client w) -> Connector.state_ (Connector.cn k) = Connector.kConnected ->
  newConnection (with_connector w k) (loop_ (client w)) fd ipPort peer local_ = Ok w' -> inv w'.
Proof.
  intros [V1 V2 V3 V4 V5] Hn Hl Hs. unfold newConnection. cbn [client with_connector made]. rewrite assertInLoopThread_self.
  cbn [mbind res_bind]. intros (n & Hc & H)%res_bind_Ok. injection H as <-. set (c := TcpServer.mk_conn _ _ _ _ _ _).
  assert (Hf : c ∉ made w).
  { intros [i Hi]%list_elem_of_lookup. destruct (V2 i c Hi) as [Hp _]. cbn in Hp. apply lookup_lt_Some in Hi. lia. }
  split; cbn; try done.
  - intros i c' Hi. apply lookup_app_Some in Hi as [Hi|[Hi Hi']]; [by apply V2|].
    apply list_lookup_singleton_Some in Hi' as [Hi' <-]. cbn. split; [lia|done].
  - intros c' [= <-]. split; [apply last_snoc|done].
  - intros c' Hc'. unfold life. cbn. rewrite filter_app. fold (life c' w). apply elem_of_app in Hc' as [Hc'| ->%list_elem_of_singleton].
    + assert (c <> c') by set_solver. rewrite decide_False by congruence. rewrite filter_cons_False by naive_solver.
      rewrite filter_nil, app_nil_r, V4, decide_False by (done || congruence). done.
    + rewrite decide_True by done. rewrite filter_cons_True by naive_solver.
      destruct (life c w) as [|e l] eqn:El; [done|]. exfalso. apply Hf.
      assert (He : e ∈ life c w) by (rewrite El; by left). apply list_elem_of_filter in He as [He Hin]. by eapply V5.
  - intros c' e. rewrite !elem_of_app, list_elem_of_singleton. intros [Hin| ->] He; [left; by eapply V5|].
    right. apply list_elem_of_singleton. naive_solver.
Qed.

Lemma handleWrite_inv w e self ipPort peer local_ w' :
  inv w -> step w (Writable e self ipPort peer local_) = Ok w' -> inv w'.
Proof.
  intros I. cbn [step]. unfold handleWrite. intros (k & Hk & H)%res_bind_Ok.
  apply Link.handleWrite_same in Hk as [Q|(Q1 & Q2 & Q3 & fd & Q4)].
  - pose proof Q as (_ & Qg & _). rewrite Qg, drop_all in H. injection H as <-. by apply inv_quiet.
  - rewrite Q4, drop_app_length in H. eapply client_newConnection_inv; [done|by apply connecting_alone| |done|exact H].
    rewrite Q1. apply (v_loop w I).
Qed.

Lemma client_step_inv w x w' : inv w -> enabled w x = true -> step w x = Ok w' -> inv w'.
Proof.
  intros I He Hs. destruct x.
  - cbn in Hs. unfold connect in Hs. eapply (of_connector_inv (with_client w _)); [| |exact Hs]; [by apply inv_flags|].
    intros k. apply Link.start_quiet.
  - injection Hs as <-. unfold disconnect. cbn. pose proof (inv_flags w (set_connect (client w) false) I eq_refl eq_refl) as I'.
    destruct (connection_ (client w)); [apply inv_happens; [exact I'|naive_solver]|exact I'].
  - injection Hs as <-. unfold stop. apply inv_quiet; [by apply inv_flags|done].
  - injection Hs as <-. by apply inv_flags.
  - eapply of_connector_inv; [done| |exact Hs]. intros k. apply Link.run_functor_quiet.
  - eapply of_connector_inv; [done| |exact Hs]. intros k. apply Link.fire_quiet.
  - by eapply handleWrite_inv.
  - eapply of_connector_inv; [done| |exact Hs]. intros k. apply Link.handleError_quiet.
  - destruct (removeConnection_ok w c a I He) as [E [V1 V2 V3 V4 V5]]. rewrite E in Hs.
    destruct (_ && _); [|by injection Hs as <-]. apply res_bind_Ok in Hs as (k & Hk & H). injection H as <-.
    apply Link.restart_same in Hk as [Hk _]. split; cbn; try done. rewrite Hk. apply (v_loop w I).
Qed.

Lemma client_reachable_inv w : reachable w -> inv w.
Proof.
  induction 1 as [|w x w' _ IH He Hs]; [|by eapply client_step_inv].
  split; cbn; try done; intros; by (try match goal with H : _ ∈ [] |- _ => by apply elem_of_nil in H end).
Qed.

(** C10: one connection at a time.  Whatever the interleaving of the user's
    calls, the connector's events and close callbacks: (1) a connection that was
    made and has not closed is the one in [connection_]; (2) the one in
    [connection_] is the last made, is open, and the connector is in
    kConnected, so that no socket can be handed over before it closes;
    (3) every other connection was established, closed and had
    [connectDestroyed] queued, once each and in this order; (4) the close
    callback of an open connection passes its assertions, clears [connection_],
    queues [connectDestroyed], and restarts the connector if and only if retries
    are enabled and the user has not disconnected or stopped. *)
Theorem client_one_connection w :
  reachable w ->
  (forall c, c ∈ made w -> Closed c ∉ trace w -> connection_ (client w) = Some c) /\
  (forall c, connection_ (client w) = Some c ->
     last (made w) = Some c /\ life c w = [Established c] /\
     Connector.state_ (Connector.cn (connector_ w)) = Connector.kConnected) /\
  (forall c, c ∈ made w -> connection_ (client w) <> Some c -> life c w = [Established c; Closed c; DestroyQueued c]) /\
  (forall c a, enabled w (CloseCallback c a) = true ->
     step w (CloseCallback c a) =
       (if retry_ (client w) && connect_ (client w)
        then k ← Connector.restart (connector_ w) (loop_ (client w)) a; Ok (with_connector (dropped w c) k)
        else Ok (dropped w c))).
Proof.
  intros I%client_reachable_inv. split_and!.
  - intros c Hm Hc. apply open_current; [done| |done].
    assert (He : Established c ∈ life c w) by (rewrite (v_life w I c Hm); case_decide; by left).
    by apply list_elem_of_filter in He as [_ ?].
  - intros c Hc. destruct (v_current w I c Hc) as [Hl Hs]. split; [done|]. split; [|done].
    rewrite (v_life w I c), decide_True by (done || by apply last_Some_elem_of). done.
  - intros c Hm Hn. by rewrite (v_life w I c), decide_False.
  - intros c a He. by apply removeConnection_ok.
Qed.

End Steps.

(** A client that connects, loses its connection and retries. *)
Definition sample_attempt (fd c : Z) : Connector.attempt := Connector.mk_attempt fd Connector.EINPROGRESS c.
Definition client_conn : conn := TcpServer.mk_conn 0 1 (bs "cli:1.2.3.4:80#1") 7 [] [].
Definition sample_actions : list action :=
  [EnableRetry; Connect 1 (sample_attempt 7 100); Writable 0 false (bs "1.2.3.4:80") [] []; RunFunctor (sample_attempt 0 0);
   CloseCallback client_conn (sample_attempt 8 101)].
Fixpoint run_actions (w : world PollPoller.t) (l : list action) : res (world PollPoller.t) :=
  match l with [] => Ok w | x :: l => assert! enabled w x; w ← step w x; run_actions w l end.

Lemma client_run_reachable w l w' : reachable w -> run_actions w l = Ok w' -> reachable w'.
Proof.
  revert w. induction l as [|a l IH]; cbn; intros w Hw Hr; [by injection Hr as <-|].
  apply assert_Ok in Hr as [He Hr]. apply res_bind_Ok in Hr as (w1 & Hs & Hr). eapply IH; [|done]. by eapply reach_step.
Qed.

Lemma client_one_connection_witness :
  exists w, run_actions (new 1 (bs "cli") (PollPoller.new 1) ∅) sample_actions = Ok w /\
    life client_conn w = [Established client_conn; Closed client_conn; DestroyQueued client_conn] /\
    Connector.state_ (Connector.cn (connector_ w)) = Connector.kConnecting.
Proof.
  destruct (run_actions (new 1 (bs "cli") (PollPoller.new 1) ∅) sample_actions) as [w|] eqn:E; [|vm_compute in E; discriminate E].
  exists w. split; [reflexivity|].
  assert (Hr : reachable w) by (eapply client_run_reachable; [apply reach_new|exact E]).
  destruct (client_one_connection w Hr) as (_ & _ & H3 & _).
  vm_compute in E. injection E as <-. split; [|reflexivity]. apply H3; [by left|done].
Defined.

End ClientFacts.
