(* ===== verification/Socks4a.v ===== *)
(** The SOCKS4a proxy (src/networking-examples/socks4a/socks4a.cpp): the request
    of a client is read from its connection's buffer, and a tunnel to the address
    it names is set up.

    What the handler does is a list of actions; gethostbyname_r is an argument.
    The tunnel object is here the address it connects to; [Tunnel] models it. *)

From S2P Require Import Prelude Endian StringPiece StdMap Buffer Sockets.

Module Socks4a.

Inductive act :=
  | SetTcpNoDelay (on : bool)
  | Send (data : list byte)
  | Shutdown
  | NewTunnel (serverAddr : Sockets.sockaddr)     (* setup and connect *)
  | DisconnectTunnel (serverAddr : Sockets.sockaddr)
  | Forward (data : list byte).                    (* to the tunnel's client connection *)

(** [g_tunnels] *)
Definition tunnels : Type := list (list byte * Sockets.sockaddr).

Definition onServerConnection (g : tunnels) (name : list byte) (connected : bool) : tunnels * list act :=
  if connected then (g, [SetTcpNoDelay true])
  else
    match StdMap.find name g with
    | Some tunnel => (StdMap.erase name g, [DisconnectTunnel tunnel])
    | None => (g, [])
    end.

(** [std::find] of a NUL from [i] on; [end] is the length. *)
Definition find_nul (d : list byte) (i : nat) : nat := (i + find_idx (is_char x00) (drop i d))%nat.

Definition granted (port ip : list byte) : list byte := [x00; x5a] ++ port ++ ip.
Definition rejected : list byte := [x00; x5b] ++ bs "UVWXYZ".

(** The address of a host name, into a default [InetAddress]. *)
Definition lookup_host (resolver : list byte -> option (Z * list byte)) (hostname : list byte) : res (option (list byte)) :=
  '(found, tmp) ← Sockets.resolve (resolver hostname) (Sockets.InetAddress_port (replicate 28 x00) 0 false false);
  if (found : bool) then
    s_addr ← Sockets.ipv4NetEndian tmp; Ok (Some (le_split 4 s_addr))
  else Ok None.

(** [onServerMessage] of the connection [name]; [context] is the tunnel's
    client connection when it is there, as whether it is connected (its [send]
    does nothing, and keeps the bytes, when it is not). *)
Definition onServerMessage (resolver : list byte -> option (Z * list byte)) (g : tunnels) (name : list byte) (context : option bool) (buf : Buffer.t)
    : res (tunnels * Buffer.t * list act) :=
  match StdMap.find name g with
  | None =>
      let n := Buffer.readableBytes buf in
      if 128 <? n then Ok (g, buf, [Shutdown])
      else if 8 <? n then
        let d := Buffer.content buf in
        let end_ := length d in
        let where_ := find_nul d 8 in
        if decide (where_ = end_) then Ok (g, buf, [])
        else
          let ver := slice d 0 1 in
          let cmd := slice d 1 1 in
          let port := slice d 2 2 in
          let ip := slice d 4 4 in
          let addr := Sockets.set_port (Sockets.set_family (replicate 28 x00) Sockets.AF_INET) (le_combine port) in
          let s_addr := le_combine ip in
          let socks4a := networkToHost32 s_addr <? 256 in
          let endOfHostName := find_nul d (S where_) in
          if socks4a && bool_decide (endOfHostName = end_) then Ok (g, buf, [])
          else
            '(okay, ip, where_) ←
              (if socks4a then
                 let hostname := slice d (Z.of_nat (S where_)) (Z.of_nat (endOfHostName - S where_)) in
                 r ← lookup_host resolver hostname;
                 Ok (match r with Some a => (true, a, endOfHostName) | None => (false, ip, endOfHostName) end)
               else Ok (true, ip, where_));
            let serverAddr := Sockets.set_sin_addr addr ip in
            if bool_decide (ver = [x04]) && bool_decide (cmd = [x01]) && okay then
              buf ← Buffer.retrieveUntil buf (Buffer.peek buf + Z.of_nat (S where_));
              Ok (StdMap.set name serverAddr g, buf, [NewTunnel serverAddr; Send (granted port ip)])
            else Ok (g, buf, [Send rejected; Shutdown])
      else Ok (g, buf, [])
  | Some _ =>
      match context with
      | Some true => Ok (g, Buffer.retrieveAll buf, [Forward (Buffer.content buf)])
      | _ => Ok (g, buf, [])
      end
  end.

(** ** The request *)

Definition no_nul (l : list byte) : Prop := x00 ∉ l.

(** A request to connect: by address, or by host name. *)
Inductive target := Address (ip : list byte) | Host (low : byte) (host : list byte).
Definition target_ip (t : target) : list byte := match t with Address ip => ip | Host low _ => [x00; x00; x00; low] end.
Definition target_ok (t : target) : Prop :=
  match t with
  | Address ip => length ip = 4%nat /\ 256 <= networkToHost32 (le_combine ip)
  | Host _ host => no_nul host
  end.
Definition request (port : list byte) (t : target) (user : list byte) : list byte :=
  [x04; x01] ++ port ++ target_ip t ++ user ++ [x00] ++ match t with Address _ => [] | Host _ host => host ++ [x00] end.

(** *** Searching for the ends of the strings *)

Lemma no_nul_find l : no_nul l -> Forall (fun x => is_char x00 x = false) l.
Proof. intros Hn. apply Forall_forall. intros x Hx. unfold is_char. apply bool_decide_eq_false. intros ->. by apply Hn. Qed.

Lemma find_nul_app h l r : no_nul l -> find_nul (h ++ l ++ x00 :: r) (length h) = (length h + length l)%nat.
Proof. intros Hn. unfold find_nul. rewrite drop_app_length. f_equal. apply find_idx_app; [by apply no_nul_find|done]. Qed.

Lemma find_nul_none h l : no_nul l -> find_nul (h ++ l) (length h) = length (h ++ l).
Proof. intros Hn. unfold find_nul. rewrite drop_app_length, find_idx_absent by by apply no_nul_find. by rewrite length_app. Qed.

(** The fixed part of a request. *)
Definition head (port ip : list byte) : list byte := [x04; x01] ++ port ++ ip.
Definition tail (t : target) : list byte := match t with Address _ => [] | Host _ host => host ++ [x00] end.

Lemma request_head port t user : request port t user = head port (target_ip t) ++ user ++ x00 :: tail t.
Proof. unfold request, head. rewrite <- !app_assoc. by destruct t. Qed.

Lemma length_target_ip t : target_ok t -> length (target_ip t) = 4%nat.
Proof. destruct t; [by intros [? _]|done]. Qed.

Lemma length_head port ip : length port = 2%nat -> length ip = 4%nat -> length (head port ip) = 8%nat.
Proof. intros H1 H2. unfold head. rewrite !length_app, H1, H2. done. Qed.

Lemma head_fields port ip r : length port = 2%nat -> length ip = 4%nat ->
  slice (head port ip ++ r) 0 1 = [x04] /\ slice (head port ip ++ r) 1 1 = [x01] /\
  slice (head port ip ++ r) 2 2 = port /\ slice (head port ip ++ r) 4 4 = ip.
Proof.
  intros H1 H2. destruct port as [|p1 [|p2 [|]]]; try discriminate. destruct ip as [|i1 [|i2 [|i3 [|i4 [|]]]]]; try discriminate.
  unfold slice, head. done.
Qed.

Lemma host_is_low low : networkToHost32 (le_combine [x00; x00; x00; low]) < 256.
Proof.
  unfold networkToHost32, bswap. pose proof (le_split_combine [x00; x00; x00; low]) as E. cbn [length] in E. rewrite E.
  cbn [rev app le_combine]. pose proof (u8_range low). change (u8 x00) with 0. lia.
Qed.

Definition resolver_ok (resolver : list byte -> option (Z * list byte)) : Prop :=
  forall h ty a, resolver h = Some (ty, a) -> ty = Sockets.AF_INET /\ length a = 4%nat.

Lemma lookup_host_ok resolver h : resolver_ok resolver -> lookup_host resolver h = Ok (snd <$> resolver h).
Proof.
  intros Hr. unfold lookup_host, Sockets.resolve. destruct (resolver h) as [[ty a]|] eqn:E; [|done].
  apply Hr in E as [-> Hl]. destruct a as [|a1 [|a2 [|a3 [|a4 [|]]]]]; try discriminate.
  rewrite assert_true by done. cbn [mbind res_bind]. unfold Sockets.ipv4NetEndian. rewrite assert_true by reflexivity.
  cbn [mbind res_bind]. change (Sockets.sin_addr _) with [a1; a2; a3; a4]. cbn [fmap option_fmap option_map snd]. do 2 f_equal. apply (le_split_combine [a1; a2; a3; a4]).
Qed.

(** *** The handler on a buffer that starts with a request's head *)
Section Handler.
Context (resolver : list byte -> option (Z * list byte)) (g : tunnels) (name : list byte) (context : option bool) (buf : Buffer.t).
Hypothesis (Hwf : Buffer.wf buf) (Hnew : StdMap.find name g = None) (Hres : resolver_ok resolver).
Abbreviation handle := (onServerMessage resolver g name context buf).

Lemma handle_short : zlen (Buffer.content buf) <= 8 -> handle = Ok (g, buf, []).
Proof.
  intros Hz. unfold onServerMessage. rewrite Hnew, Buffer.readableBytes_content by done.
  rewrite (proj2 (Z.ltb_ge 128 _)) by lia. by rewrite (proj2 (Z.ltb_ge 8 _)) by lia.
Qed.

(** The user's name has not ended. *)
Lemma handle_user port ip user :
  length port = 2%nat -> length ip = 4%nat -> no_nul user -> Buffer.content buf = head port ip ++ user ->
  zlen (Buffer.content buf) <= 128 -> handle = Ok (g, buf, []).
Proof.
  intros H1 H2 Hu Hc Hz. destruct (decide (zlen (Buffer.content buf) <= 8)); [by apply handle_short|].
  unfold onServerMessage. rewrite Hnew, Buffer.readableBytes_content by done.
  rewrite (proj2 (Z.ltb_ge 128 _)), (proj2 (Z.ltb_lt 8 _)) by lia. cbn zeta.
  pose proof (find_nul_none (head port ip) user Hu) as E. rewrite (length_head port ip H1 H2) in E.
  rewrite Hc, E. by rewrite decide_True.
Qed.

(** The user's name has ended: what follows it is [r]. *)
Lemma handle_ended port ip user r :
  length port = 2%nat -> length ip = 4%nat -> no_nul user -> Buffer.content buf = head port ip ++ user ++ x00 :: r ->
  zlen (Buffer.content buf) <= 128 ->
  let where_ := (8 + length user)%nat in
  let d := Buffer.content buf in
  let socks4a := networkToHost32 (le_combine ip) <? 256 in
  let endOfHostName := find_nul d (S where_) in
  handle =
    if socks4a && bool_decide (endOfHostName = length d) then Ok (g, buf, [])
    else
      '(okay, ip, where_) ←
        (if socks4a then
           let hostname := slice d (Z.of_nat (S where_)) (Z.of_nat (endOfHostName - S where_)) in
           r ← lookup_host resolver hostname;
           Ok (match r with Some a => (true, a, endOfHostName) | None => (false, ip, endOfHostName) end)
         else Ok (true, ip, where_));
      let serverAddr := Sockets.set_sin_addr (Sockets.set_port (Sockets.set_family (replicate 28 x00) Sockets.AF_INET) (le_combine port)) ip in
      if (okay : bool) then
        buf ← Buffer.retrieveUntil buf (Buffer.peek buf + Z.of_nat (S where_));
        Ok (StdMap.set name serverAddr g, buf, [NewTunnel serverAddr; Send (granted port ip)])
      else Ok (g, buf, [Send rejected; Shutdown]).
Proof.
  intros H1 H2 Hu Hc Hz. pose proof (length_head port ip H1 H2) as Hh.
  assert (H9 : 8 < zlen (Buffer.content buf)) by (rewrite Hc; unfold zlen; rewrite !length_app, Hh; cbn; lia).
  unfold onServerMessage. rewrite Hnew, Buffer.readableBytes_content by done.
  rewrite (proj2 (Z.ltb_ge 128 _)), (proj2 (Z.ltb_lt 8 _)) by lia. cbn zeta.
  assert (Hw : find_nul (Buffer.content buf) 8 = (8 + length user)%nat).
  { rewrite Hc. pose proof (find_nul_app (head port ip) user r Hu) as E. by rewrite Hh in E. }
  rewrite Hw. rewrite decide_False by (rewrite Hc, !length_app, Hh; cbn; lia).
  destruct (head_fields port ip (user ++ x00 :: r) H1 H2) as (F1 & F2 & F3 & F4). rewrite <- Hc in F1, F2, F3, F4.
  rewrite F1, F2, F3, F4. rewrite (bool_decide_true ([x04] = [x04])), (bool_decide_true ([x01] = [x01])) by done. done.
Qed.

End Handler.

(** Where a request leads. *)
Definition destination (resolver : list byte -> option (Z * list byte)) (t : target) : option (list byte) :=
  match t with Address ip => Some ip | Host _ host => snd <$> resolver host end.
Definition server_address (port ip : list byte) : Sockets.sockaddr :=
  Sockets.set_sin_addr (Sockets.set_port (Sockets.set_family (replicate 28 x00) Sockets.AF_INET) (le_combine port)) ip.

Lemma take_request k port t user :
  length port = 2%nat -> target_ok t -> (k < length (request port t user))%nat ->
  (zlen (take k (request port t user)) <= 8) \/
  (exists u, take k (request port t user) = head port (target_ip t) ++ u /\ u `prefix_of` user) \/
  (exists low host h, t = Host low host /\ take k (request port t user) = head port (target_ip t) ++ user ++ x00 :: h /\ h `prefix_of` host).
Proof.
  intros H1 Ht Hk. pose proof (length_head port (target_ip t) H1 (length_target_ip t Ht)) as Hh.
  destruct (decide (k <= 8)%nat) as [H8|H8]; [left; unfold zlen; rewrite length_take; lia|]. right.
  rewrite request_head in *. rewrite take_app_ge by lia. rewrite Hh.
  destruct (decide (k - 8 <= length user)%nat) as [Hu|Hu].
  - left. exists (take (k - 8) user). rewrite take_app_le by done. split; [done|]. apply prefix_take.
  - right. rewrite take_app_ge by lia. replace (k - 8 - length user)%nat with (S (k - 9 - length user)) by lia. cbn [take].
    rewrite !length_app, Hh in Hk. cbn [length] in Hk. destruct t as [ip|low host]; cbn [tail] in *.
    + cbn in Hk. lia.
    + rewrite length_app in Hk. cbn in Hk. exists low, host, (take (k - 9 - length user) host).
      split; [done|]. split; [by rewrite take_app_le by lia|]. apply prefix_take.
Qed.

Lemma no_nul_prefix u v : u `prefix_of` v -> no_nul v -> no_nul u.
Proof. intros [w ->] Hn Hin. apply Hn, elem_of_app. by left. Qed.

(** A part of a request changes nothing. *)
Lemma partial_request resolver g name context buf port t user k :
  Buffer.wf buf -> StdMap.find name g = None -> length port = 2%nat -> target_ok t -> no_nul user ->
  zlen (request port t user) <= 128 -> (k < length (request port t user))%nat ->
  Buffer.content buf = take k (request port t user) -> onServerMessage resolver g name context buf = Ok (g, buf, []).
Proof.
  intros Hwf Hg H1 Ht Hu Hz Hk Hc. pose proof (length_target_ip t Ht) as H4.
  assert (Hz' : zlen (Buffer.content buf) <= 128) by (rewrite Hc; unfold zlen in *; rewrite length_take; lia).
  destruct (take_request k port t user H1 Ht Hk) as [H8|[(u & E & Hp)|(low & host & h & -> & E & Hp)]]; rewrite <- Hc in *.
  - by apply handle_short.
  - eapply (handle_user resolver g name context buf Hwf Hg port (target_ip t) u); try done. by eapply no_nul_prefix.
  - cbn [target_ip] in *. rewrite (handle_ended resolver g name context buf Hwf Hg port _ user h) by done. cbn zeta.
    rewrite (proj2 (Z.ltb_lt _ 256) (host_is_low low)). rewrite bool_decide_true; [done|].
    pose proof (length_head port [x00; x00; x00; low] H1 H4) as Hh.
    replace (S (8 + length user)) with (length (head port [x00; x00; x00; low] ++ user ++ [x00])) by (rewrite !length_app, Hh; cbn; lia).
    rewrite E. replace (head port [x00; x00; x00; low] ++ user ++ x00 :: h) with ((head port [x00; x00; x00; low] ++ user ++ [x00]) ++ h)
      by (by rewrite <- !app_assoc).
    apply find_nul_none. by eapply no_nul_prefix.
Qed.

(** The bytes of a request are taken off the buffer. *)
Lemma retrieve_request buf q rest :
  Buffer.wf buf -> Buffer.content buf = q ++ rest ->
  exists buf', Buffer.retrieveUntil buf (Buffer.peek buf + zlen q) = Ok buf' /\ Buffer.content buf' = rest.
Proof.
  intros Hwf Hc. pose proof (Buffer.zlen_content buf Hwf) as Hl. rewrite Hc, zlen_app in Hl.
  pose proof (zlen_nonneg q). pose proof (zlen_nonneg rest).
  destruct (Buffer.retrieveUntil_ok buf (Buffer.peek buf + zlen q) Hwf) as (buf' & E & _ & C).
  { unfold Buffer.peek, Buffer.beginWrite. lia. }
  exists buf'. split; [done|]. rewrite C, Hc. replace (Z.to_nat (Buffer.peek buf + zlen q - Buffer.peek buf)) with (length q) by (unfold zlen; lia).
  apply drop_app_length.
Qed.

Lemma whole_request resolver g name context buf port t user rest :
  Buffer.wf buf -> StdMap.find name g = None -> resolver_ok resolver -> length port = 2%nat -> target_ok t -> no_nul user ->
  Buffer.content buf = request port t user ++ rest -> zlen (Buffer.content buf) <= 128 ->
  match destination resolver t with
  | Some ip =>
      exists buf', onServerMessage resolver g name context buf =
        Ok (StdMap.set name (server_address port ip) g, buf', [NewTunnel (server_address port ip); Send (granted port ip)]) /\
        Buffer.content buf' = rest
  | None => onServerMessage resolver g name context buf = Ok (g, buf, [Send rejected; Shutdown])
  end.
Proof.
  intros Hwf Hg Hr H1 Ht Hu Hc Hz. pose proof (length_target_ip t Ht) as H4. pose proof (length_head port (target_ip t) H1 H4) as Hh.
  destruct (retrieve_request buf (request port t user) rest Hwf Hc) as (buf' & Eb & Cb).
  assert (Hc' : Buffer.content buf = head port (target_ip t) ++ user ++ x00 :: tail t ++ rest).
  { rewrite Hc, request_head, <- !app_assoc. done. }
  rewrite (handle_ended resolver g name context buf Hwf Hg port (target_ip t) user (tail t ++ rest)) by done. cbn zeta.
  destruct t as [ip|low host]; cbn [target_ip tail destination] in *.
  - destruct Ht as [_ Hhigh]. rewrite (proj2 (Z.ltb_ge _ 256) Hhigh). cbn [andb mbind res_bind].
    replace (Z.of_nat (S (8 + length user))) with (zlen (request port (Address ip) user))
      by (rewrite request_head; unfold zlen; rewrite !length_app; cbn [target_ip tail length]; lia).
    rewrite Eb. cbn [mbind res_bind]. by exists buf'.
  - rewrite (proj2 (Z.ltb_lt _ 256) (host_is_low low)).
    set (pre := head port [x00; x00; x00; low] ++ user ++ [x00]).
    assert (Hpre : S (8 + length user) = length pre) by (unfold pre; rewrite !length_app, Hh; cbn; lia).
    assert (Hd : Buffer.content buf = pre ++ host ++ x00 :: rest) by (rewrite Hc'; unfold pre; by rewrite <- !app_assoc).
    rewrite Hpre. assert (He : find_nul (Buffer.content buf) (length pre) = (length pre + length host)%nat) by (rewrite Hd; by apply find_nul_app).
    rewrite He. rewrite bool_decide_false by (rewrite Hd, !length_app; cbn; lia). cbn [andb].
    assert (Hs : slice (Buffer.content buf) (Z.of_nat (length pre)) (Z.of_nat (length pre + length host - length pre)) = host).
    { unfold slice. rewrite !Nat2Z.id, Hd, drop_app_length. replace (length pre + length host - length pre)%nat with (length host) by lia.
      apply take_app_length. }
    rewrite Hs, lookup_host_ok by done. cbn [mbind res_bind]. destruct (snd <$> resolver host) as [ip|]; cbn [mbind res_bind]; [|done].
    replace (Z.of_nat (S (length pre + length host))) with (zlen (request port (Host low host) user))
      by (rewrite request_head; unfold zlen; rewrite !length_app; cbn [target_ip tail length]; rewrite !length_app; cbn [length]; lia).
    rewrite Eb. cbn [mbind res_bind]. by exists buf'.
Qed.

(** C40: the proxy's handshake does not depend on how its request arrives.  Take
    a request to connect, to an address other than 0.0.0.x or to a host name, of
    at most 128 bytes.
    While only a part of it is in the buffer the handler does nothing at all;
    with the whole of it, and whatever follows within 128 bytes, it sets up the
    tunnel to that port and to that address or the one the name resolves to,
    registers it, grants the request with the address in the reply, and leaves
    in the buffer exactly what follows; if the name does not resolve, it rejects
    the request and shuts down. *)
Theorem request_fragmentation resolver g name context buf port t user :
  Buffer.wf buf -> StdMap.find name g = None -> resolver_ok resolver -> length port = 2%nat -> target_ok t -> no_nul user ->
  zlen (request port t user) <= 128 ->
  (forall k, (k < length (request port t user))%nat -> Buffer.content buf = take k (request port t user) ->
     onServerMessage resolver g name context buf = Ok (g, buf, [])) /\
  (forall rest, Buffer.content buf = request port t user ++ rest -> zlen (Buffer.content buf) <= 128 ->
     match destination resolver t with
     | Some ip =>
         exists buf', onServerMessage resolver g name context buf =
           Ok (StdMap.set name (server_address port ip) g, buf', [NewTunnel (server_address port ip); Send (granted port ip)]) /\
           Buffer.content buf' = rest
     | None => onServerMessage resolver g name context buf = Ok (g, buf, [Send rejected; Shutdown])
     end).
Proof.
  intros Hwf Hg Hr H1 Ht Hu Hz. split.
  - intros k Hk Hc. by eapply partial_request.
  - intros rest Hc Hz'. by apply (whole_request _ _ _ _ _ _ _ user).
Qed.

(** A request by name, with a byte after it. *)
Definition sample_resolver (h : list byte) : option (Z * list byte) :=
  if bool_decide (h = bs "host") then Some (Sockets.AF_INET, [x0a; x00; x00; x01]) else None.
Definition sample_request : list byte := request [x00; x50] (Host x01 (bs "host")) (bs "me").
Definition sample_buf : Buffer.t :=
  match Buffer.new 64 with Ok b => match Buffer.append b (sample_request ++ bs "!") with Ok b => b | Err _ => b end | Err _ => Buffer.mk [] 0 0 end.

Lemma request_fragmentation_witness :
  exists buf', onServerMessage sample_resolver [] (bs "c1") None sample_buf =
    Ok ([(bs "c1", server_address [x00; x50] [x0a; x00; x00; x01])], buf',
        [NewTunnel (server_address [x00; x50] [x0a; x00; x00; x01]); Send [x00; x5a; x00; x50; x0a; x00; x00; x01]]) /\
    Buffer.content buf' = bs "!".
Proof.
  assert (Hr : resolver_ok sample_resolver).
  { intros h ty a. unfold sample_resolver. destruct (bool_decide _); [|discriminate]. intros [= <- <-]. split; reflexivity. }
  assert (Hw : Buffer.wf sample_buf) by (split; vm_compute; intuition discriminate).
  assert (Hu : no_nul (bs "me")) by (by apply (bool_decide_unpack _); vm_compute).
  assert (Hh : target_ok (Host x01 (bs "host"))) by (by apply (bool_decide_unpack _); vm_compute).
  destruct (request_fragmentation sample_resolver [] (bs "c1") None sample_buf [x00; x50] (Host x01 (bs "host")) (bs "me")
              Hw eq_refl Hr eq_refl Hh Hu ltac:(vm_compute; discriminate)) as [_ H2].
  apply (H2 (bs "!")); [reflexivity|vm_compute; discriminate].
Defined.

End Socks4a.
