(* ===== verification/Tunnel.v ===== *)
(** The tunnels of the proxies (src/networking-examples/socks4a/tunnel.h): what a
    client of the proxy sends goes to the connection made for it and back, and
    each side stops reading while the other is behind.

    The two connections are modelled in [TcpConnection]; here they are what a
    tunnel uses of them: [connected], [reading_], the callbacks, the buffers as
    their contents, and the bytes the kernel has taken.  The callbacks that
    [send] and [handleWrite] queue in the loop run later, in order.  The tunnel
    outlives them: its owner keeps it. *)

From S2P Require Import Prelude Buffer Channel Poller MinuteHourCounter TcpConnection.

Module Tunnel.

Inductive ServerClient := kServer | kClient.
#[global] Instance ServerClient_eq_dec : EqDecision ServerClient.
Proof. solve_decision. Defined.
Definition other (which : ServerClient) : ServerClient := match which with kServer => kClient | kClient => kServer end.

Record conn := mk_conn {
  connected : bool;
  reading : bool;
  highWaterMarkCallback : bool;
  writeCompleteCallback : bool;
  input : list byte;
  output : list byte;
  taken : list byte;
}.

(** What is queued in the loop. *)
Inductive functor := HighWaterMark (which : ServerClient) (bytesToSent : Z) | WriteComplete (which : ServerClient).
#[global] Instance functor_eq_dec : EqDecision functor.
Proof. solve_decision. Defined.

Record t := mk {
  serverConn_ : conn;
  clientConn : conn;                  (* the client's connection, whoever points to it *)
  clientConn_ : bool;                 (* whether the tunnel's pointer is set *)
  context : bool;                     (* whether the server connection's context is *)
  own_callbacks : bool;               (* whether the client has the tunnel's callbacks *)
  pending : list functor;
}.

Definition get (s : t) (which : ServerClient) : conn := match which with kServer => serverConn_ s | kClient => clientConn s end.
Definition set (s : t) (which : ServerClient) (c : conn) : t :=
  match which with
  | kServer => mk c (clientConn s) (clientConn_ s) (context s) (own_callbacks s) (pending s)
  | kClient => mk (serverConn_ s) c (clientConn_ s) (context s) (own_callbacks s) (pending s)
  end.
Definition queue (s : t) (f : functor) : t :=
  mk (serverConn_ s) (clientConn s) (clientConn_ s) (context s) (own_callbacks s) (pending s ++ [f]).

Definition set_reading (c : conn) (b : bool) : conn :=
  mk_conn (connected c) b (highWaterMarkCallback c) (writeCompleteCallback c) (input c) (output c) (taken c).
Definition set_mark (c : conn) : conn :=
  mk_conn (connected c) (reading c) true (writeCompleteCallback c) (input c) (output c) (taken c).
Definition set_complete (c : conn) (b : bool) : conn :=
  mk_conn (connected c) (reading c) (highWaterMarkCallback c) b (input c) (output c) (taken c).
Definition set_input (c : conn) (d : list byte) : conn :=
  mk_conn (connected c) (reading c) (highWaterMarkCallback c) (writeCompleteCallback c) d (output c) (taken c).
Definition set_output (c : conn) (d k : list byte) : conn :=
  mk_conn (connected c) (reading c) (highWaterMarkCallback c) (writeCompleteCallback c) (input c) d k.
Definition shutdown (c : conn) : conn :=
  mk_conn false (reading c) (highWaterMarkCallback c) (writeCompleteCallback c) (input c) (output c) (taken c).

Definition kMark : Z := 1024 * 1024.

(** The direct write, when there is nothing in the way: how much it took, and
    whether it failed for good. *)
Definition attempt (c : conn) (d : list byte) (r : TcpConnection.write_result) : Z * bool :=
  match output c, r with
  | [], TcpConnection.Wrote n => (Z.max 0 (Z.min n (zlen d)), false)
  | [], TcpConnection.WriteError errno => (0, (errno =? TcpConnection.EPIPE) || (errno =? TcpConnection.ECONNRESET))
  | _, _ => (0, false)
  end.
(** [sendInLoop] of a connection; [r] is what write(2) answers if it is called. *)
Definition sendInLoop (s : t) (which : ServerClient) (d : list byte) (r : TcpConnection.write_result) : t :=
  let c := get s which in
  let '(nwrote, fault) := attempt c d r in
  let tried := match output c, r with [], TcpConnection.Wrote _ => true | _, _ => false end in
  let remaining := zlen d - nwrote in
  let s := if tried && (remaining =? 0) && writeCompleteCallback c then queue s (WriteComplete which) else s in
  let s := set s which (set_output c (output c) (taken c ++ slice d 0 nwrote)) in
  if negb fault && (0 <? remaining) then
    let oldLen := zlen (output c) in
    let s := if (kMark <=? oldLen + remaining) && (oldLen <? kMark) && highWaterMarkCallback c
             then queue s (HighWaterMark which (oldLen + remaining)) else s in
    set s which (set_output c (output c ++ slice d nwrote remaining) (taken c ++ slice d 0 nwrote))
  else s.

(** [conn->send(buf)] with the other connection's input buffer: the buffer is
    emptied when the connection is up, and kept otherwise. *)
Definition send_input (s : t) (which : ServerClient) (r : TcpConnection.write_result) : t :=
  if connected (get s which) then
    let from := other which in
    let s := sendInLoop s which (input (get s from)) r in
    set s from (set_input (get s from) [])
  else s.

(** ** The tunnel *)

(** [setup] on a new tunnel over the server connection. *)
Definition setup (server client : conn) : t := mk (set_mark server) client false false true [].

Definition teardown (s : t) : t :=
  mk (shutdown (serverConn_ s)) (clientConn s) false false false (pending s).

(** A new connection is up and reading. *)
Definition fresh : conn := mk_conn true true false false [] [] [].

Definition onClientConnection (s : t) (up : bool) (r : TcpConnection.write_result) : t :=
  if up then
    let s := mk (set_reading (serverConn_ s) true) (set_mark (clientConn s)) true true (own_callbacks s) (pending s) in
    match input (serverConn_ s) with
    | [] => s
    | _ => send_input s kClient r
    end
  else teardown s.

Definition onClientMessage (s : t) (r : TcpConnection.write_result) : t := send_input s kServer r.

(** A null [clientConn_] is dereferenced. *)
Definition need_client (s : t) (k : t) : res t := if clientConn_ s then Ok k else Err Undefined.

Definition onHighWaterMark (s : t) (which : ServerClient) : res t :=
  match which with
  | kServer =>
      match output (serverConn_ s) with
      | [] => Ok s
      | _ => need_client s (set (set s kClient (set_reading (clientConn s) false)) kServer (set_complete (serverConn_ s) true))
      end
  | kClient =>
      need_client s
        match output (clientConn s) with
        | [] => s
        | _ => set (set s kServer (set_reading (serverConn_ s) false)) kClient (set_complete (clientConn s) true)
        end
  end.

Definition onWriteComplete (s : t) (which : ServerClient) : res t :=
  match which with
  | kServer => need_client s (set (set s kClient (set_reading (clientConn s) true)) kServer (set_complete (serverConn_ s) false))
  | kClient => need_client s (set (set s kServer (set_reading (serverConn_ s) true)) kClient (set_complete (clientConn s) false))
  end.

(** ** Its world *)

(** The proxies' handler of messages once the tunnel is set up: nothing happens
    without a context. *)
Definition onServerMessage (s : t) (r : TcpConnection.write_result) : t := if context s then send_input s kClient r else s.

(** What can happen to it; the client's connection comes up once. *)
Inductive event :=
  | ClientUp (r : TcpConnection.write_result)
  | ClientDown
  | Reads (which : ServerClient) (d : list byte) (r : TcpConnection.write_result)
  | Drains (which : ServerClient) (n : Z)               (* handleWrite *)
  | RunFunctor.

(** handleRead: only a connection that reads does. *)
Definition reads (s : t) (which : ServerClient) (d : list byte) (r : TcpConnection.write_result) : t :=
  let c := get s which in
  if reading c && (match which with kServer => true | kClient => clientConn_ s end) then
    let s := set s which (set_input c (input c ++ d)) in
    match which with kServer => onServerMessage s r | kClient => if own_callbacks s then onClientMessage s r else set s kClient (set_input c []) end
  else s.

(** handleWrite: [n] bytes of the output leave. *)
Definition drains (s : t) (which : ServerClient) (n : Z) : t :=
  let c := get s which in
  if (0 <? n) && (n <=? zlen (output c)) then
    let rest := drop (Z.to_nat n) (output c) in
    let s := set s which (set_output c rest (taken c ++ take (Z.to_nat n) (output c))) in
    match rest with [] => if writeCompleteCallback c then queue s (WriteComplete which) else s | _ => s end
  else s.

Definition runFunctor (s : t) : res t :=
  match pending s with
  | [] => Ok s
  | f :: rest =>
      let s := mk (serverConn_ s) (clientConn s) (clientConn_ s) (context s) (own_callbacks s) rest in
      match f with HighWaterMark which _ => onHighWaterMark s which | WriteComplete which => onWriteComplete s which end
  end.

Definition step (s : t) (e : event) : res t :=
  match e with
  | ClientUp r => Ok (if clientConn_ s || negb (own_callbacks s) then s else onClientConnection s true r)
  | ClientDown => Ok (if clientConn_ s then onClientConnection s false (TcpConnection.Wrote 0) else s)
  | Reads which d r => Ok (reads s which d r)
  | Drains which n => Ok (drains s which n)
  | RunFunctor => runFunctor s
  end.
Fixpoint run (s : t) (l : list event) : res t :=
  match l with [] => Ok s | e :: l => s ← step s e; run s l end.

(** What each side has received since. *)
Record ghost := mk_ghost { tunnel : t; from_server : list byte; from_client : list byte }.
Definition takes_part (s : t) (which : ServerClient) : bool :=
  reading (get s which) && (match which with kServer => true | kClient => clientConn_ s end).
Definition observe (g : ghost) (e : event) : res ghost :=
  s ← step (tunnel g) e;
  Ok match e with
     | Reads which d _ =>
         if takes_part (tunnel g) which
         then match which with kServer => mk_ghost s (from_server g ++ d) (from_client g) | kClient => mk_ghost s (from_server g) (from_client g ++ d) end
         else mk_ghost s (from_server g) (from_client g)
     | _ => mk_ghost s (from_server g) (from_client g)
     end.
Fixpoint observe_all (g : ghost) (l : list event) : res ghost :=
  match l with [] => Ok g | e :: l => g ← observe g e; observe_all g l end.

(** No write fails for good, and the client's connection stays. *)
Definition healthy_write (r : TcpConnection.write_result) : Prop :=
  match r with TcpConnection.WriteError errno => errno <> TcpConnection.EPIPE /\ errno <> TcpConnection.ECONNRESET | _ => True end.
Definition healthy (e : event) : Prop :=
  match e with ClientUp r | Reads _ _ r => healthy_write r | ClientDown => False | _ => True end.

(** ** Sending *)

Lemma get_set s which c : get (set s which c) which = c.
Proof. by destruct which. Qed.
Lemma get_set_other s which c : get (set s which c) (other which) = get s (other which).
Proof. by destruct which. Qed.
Lemma get_set_other' s which c : get (set s (other which) c) which = get s which.
Proof. by destruct which. Qed.

Lemma slice_split (d : list byte) n : 0 <= n <= zlen d -> slice d 0 n ++ slice d n (zlen d - n) = d.
Proof.
  intros Hn. unfold slice, zlen in *. rewrite drop_0, (take_ge (drop _ _)) by (rewrite length_drop; lia). apply take_drop.
Qed.

(** What [sendInLoop] does to a connection: same flags, the message behind what it
    had, and an output that was not empty still is not. *)
Record sent (c c' : conn) (d : list byte) : Prop := {
  sent_connected : connected c' = connected c;
  sent_reading : reading c' = reading c;
  sent_complete : writeCompleteCallback c' = writeCompleteCallback c;
  sent_input : input c' = input c;
  sent_bytes : taken c' ++ output c' = (taken c ++ output c) ++ d;
  sent_output : output c <> [] -> output c' <> [];
}.
Record same_but (which : ServerClient) (s s' : t) : Prop := {
  same_other : get s' (other which) = get s (other which);
  same_client : clientConn_ s' = clientConn_ s;
  same_context : context s' = context s;
  same_own : own_callbacks s' = own_callbacks s;
  same_pending : exists fs, pending s' = pending s ++ fs;
}.

Lemma same_set s which c : same_but which s (set s which c).
Proof. destruct which; split; try done; exists []; cbn; by rewrite app_nil_r. Qed.
Lemma same_queue s which f : same_but which s (queue s f).
Proof. split; try done; by exists [f]. Qed.
Lemma same_trans which s1 s2 s3 : same_but which s1 s2 -> same_but which s2 s3 -> same_but which s1 s3.
Proof.
  intros [A1 A2 A3 A4 [f1 A5]] [B1 B2 B3 B4 [f2 B5]]. split; try congruence. exists (f1 ++ f2). by rewrite B5, A5, app_assoc.
Qed.

Lemma same_refl which s : same_but which s s.
Proof. split; try done. exists []. by rewrite app_nil_r. Qed.
Lemma same_maybe which s (b : bool) f : same_but which s (if b then queue s f else s).
Proof. destruct b; [apply same_queue|apply same_refl]. Qed.
Lemma get_maybe which s (b : bool) f : get (if b then queue s f else s) which = get s which.
Proof. by destruct b, which. Qed.

Lemma sendInLoop_spec s which d r :
  healthy_write r -> same_but which s (sendInLoop s which d r) /\ sent (get s which) (get (sendInLoop s which d r) which) d.
Proof.
  intros Hr. unfold sendInLoop. set (c := get s which).
  assert (Hn : 0 <= (attempt c d r).1 <= zlen d /\ (attempt c d r).2 = false /\ (output c <> [] -> (attempt c d r).1 = 0)).
  { pose proof (zlen_nonneg d). unfold attempt. destruct (output c); [destruct r as [n|e]|]; cbn; split_and!; try done; try lia.
    destruct Hr as [H1 H2]. by rewrite (proj2 (Z.eqb_neq _ _) H1), (proj2 (Z.eqb_neq _ _) H2). }
  destruct (attempt c d r) as [n f]. cbn in Hn. destruct Hn as (Hn & -> & Ho). cbn [negb andb].
  set (b1 := _ && writeCompleteCallback c). set (s1 := if b1 then queue s _ else s).
  assert (H1 : same_but which s s1) by apply same_maybe. clearbody s1. destruct (0 <? zlen d - n) eqn:E; zbool.
  - set (b2 := _ && highWaterMarkCallback c). set (s0 := set s1 which _). set (s2 := if b2 then queue s0 _ else s0).
    assert (H2 : same_but which s s2) by (eapply same_trans; [exact H1|]; eapply same_trans; [apply same_set|apply same_maybe]). clearbody s2.
    split; [eapply same_trans; [exact H2|apply same_set]|]. rewrite get_set. split; try done; cbn.
    + rewrite <- !app_assoc. f_equal. destruct (output c) eqn:Eo; cbn; [by apply slice_split|].
      rewrite Ho by done. by rewrite slice_0, Z.sub_0_r, slice_all.
    + intros Hne Hx. by apply app_nil in Hx as [].
  - split; [eapply same_trans; [exact H1|apply same_set]|]. rewrite get_set. split; try done; cbn.
    assert (n = zlen d) by lia. subst n. rewrite slice_all. destruct (output c) eqn:Eo; [by rewrite !app_nil_r|].
    assert (Hd : d = []) by (specialize (Ho ltac:(done)); unfold zlen in Ho; by destruct d).
    subst d. by rewrite !app_nil_r.
Qed.

Lemma send_input_spec s which r :
  connected (get s which) = true -> healthy_write r ->
  let s' := send_input s which r in
  sent (get s which) (get s' which) (input (get s (other which))) /\
  get s' (other which) = set_input (get s (other which)) [] /\
  clientConn_ s' = clientConn_ s /\ context s' = context s /\ own_callbacks s' = own_callbacks s /\ exists fs, pending s' = pending s ++ fs.
Proof.
  intros Hc Hr. unfold send_input. rewrite Hc. cbn zeta.
  destruct (sendInLoop_spec s which (input (get s (other which))) r Hr) as [[S1 S2 S3 S4 S5] S6].
  set (s1 := sendInLoop _ _ _ _) in *. clearbody s1. rewrite get_set_other', S1. split; [done|].
  destruct which; cbn in *; done.
Qed.

(** ** The invariant *)
Section Relay.
Context (i0 base : list byte).      (* what the server connection held, and had sent *)

Record inv (g : ghost) : Prop := {
  v_up which : connected (get (tunnel g) which) = true;
  v_own : own_callbacks (tunnel g) = true;
  v_context : context (tunnel g) = clientConn_ (tunnel g);
  v_input : clientConn_ (tunnel g) = true -> input (serverConn_ (tunnel g)) = [];
  v_input_client : input (clientConn (tunnel g)) = [];
  v_to_client : taken (clientConn (tunnel g)) ++ output (clientConn (tunnel g)) ++ input (serverConn_ (tunnel g)) = i0 ++ from_server g;
  v_to_server : taken (serverConn_ (tunnel g)) ++ output (serverConn_ (tunnel g)) = base ++ from_client g;
  v_stall which : clientConn_ (tunnel g) = true -> reading (get (tunnel g) which) = false ->
    (output (get (tunnel g) (other which)) <> [] /\ writeCompleteCallback (get (tunnel g) (other which)) = true) \/
    WriteComplete (other which) ∈ pending (tunnel g);
  v_before : clientConn_ (tunnel g) = false -> pending (tunnel g) = [] /\ reading (clientConn (tunnel g)) = true /\
    forall which, writeCompleteCallback (get (tunnel g) which) = false;
}.

Lemma setup_inv server :
  connected server = true -> writeCompleteCallback server = false -> input server = i0 -> taken server ++ output server = base ->
  inv (mk_ghost (setup server fresh) [] []).
Proof.
  intros H1 H2 H3 H4. split; cbn; rewrite ?app_nil_r; try done.
  - intros []; done.
  - intros _. split_and!; try done. intros []; done.
Qed.

(** A message goes out on side [which], with the other side's input. *)
Lemma send_keeps g s which r d :
  inv (mk_ghost s (from_server g) (from_client g)) -> clientConn_ s = true -> healthy_write r ->
  let s0 := set s (other which) (set_input (get s (other which)) d) in
  inv (match which with
       | kClient => mk_ghost (send_input s0 which r) (from_server g ++ d) (from_client g)
       | kServer => mk_ghost (send_input s0 which r) (from_server g) (from_client g ++ d)
       end).
Proof.
  intros [V1 V2 V3 V4 V5 V6 V7 V8 V9] Hc Hr s0. cbn [tunnel from_server from_client] in *. specialize (V4 Hc).
  assert (Hup : connected (get s0 which) = true) by (unfold s0; rewrite get_set_other'; apply V1).
  destruct (send_input_spec s0 which r Hup Hr) as (S1 & S2 & S3 & S4 & S5 & fs & S6). cbn zeta in *.
  set (s1 := send_input s0 which r) in *. clearbody s1.
  assert (Hd : input (get s0 (other which)) = d) by (unfold s0; by destruct which).
  assert (Hw : get s0 which = get s which) by (unfold s0; by rewrite get_set_other').
  rewrite Hd, Hw in S1. destruct S1 as [A1 A2 A3 A4 A5 A6].
  assert (Hpend : forall w, WriteComplete w ∈ pending s -> WriteComplete w ∈ pending s1).
  { intros w Hin. rewrite S6. apply elem_of_app. left. unfold s0. by destruct which. }
  assert (F : clientConn_ s1 = true) by (rewrite S3; unfold s0; by destruct which).
  pose proof (V8 kServer Hc) as VS. pose proof (V8 kClient Hc) as VC.
  destruct which; cbn in *; split; cbn; try congruence; try (intros []; cbn; rewrite ?A1, ?S2; cbn; apply (V1 kServer) || apply (V1 kClient)); try (by intros []; cbn; rewrite ?A1, ?S2).
  - by rewrite S2.
  - rewrite S2, A4, V4 in *. cbn. exact V6.
  - by rewrite A5, V7, app_assoc.
  - intros [] _; cbn; rewrite ?S2, ?A2, ?A3; cbn; intros H; [destruct (VS H) as [?|?]|destruct (VC H) as [[? ?]|?]]; auto.
  - rewrite S2. cbn. rewrite app_nil_r, A5. rewrite V4, app_nil_r in V6. by rewrite V6, app_assoc.
  - by rewrite S2.
  - intros [] _; cbn; rewrite ?S2, ?A2, ?A3; cbn; intros H; [destruct (VS H) as [[? ?]|?]|destruct (VC H) as [?|?]]; auto.
Qed.

(** Only flags of a tunnel with a client change. *)
Lemma flags_keep g s which (b : bool) :
  inv (mk_ghost s (from_server g) (from_client g)) -> clientConn_ s = true ->
  (b = false -> output (get s (other which)) <> []) ->
  inv (mk_ghost (set (set s which (set_reading (get s which) b)) (other which) (set_complete (get s (other which)) (negb b))) (from_server g) (from_client g)).
Proof.
  intros [V1 V2 V3 V4 V5 V6 V7 V8 V9] Hc Hb. cbn [tunnel from_server from_client] in *.
  pose proof (V1 kServer) as U1. pose proof (V1 kClient) as U2. pose proof (V8 kServer Hc) as VS. pose proof (V8 kClient Hc) as VC.
  destruct which; cbn in *; split; cbn; try done; try (by intros []); try congruence.
  - intros [] _; cbn; intros H; [subst b; left; auto|]. destruct (VC H) as [[? ?]|?]; auto.
  - intros [] _; cbn; intros H; [destruct (VS H) as [[? ?]|?]; auto|]. subst b. left. auto.
Qed.

Lemma drop_pending s f rest g : inv (mk_ghost s (from_server g) (from_client g)) -> pending s = f :: rest -> f <> WriteComplete kServer -> f <> WriteComplete kClient ->
  inv (mk_ghost (mk (serverConn_ s) (clientConn s) (clientConn_ s) (context s) (own_callbacks s) rest) (from_server g) (from_client g)).
Proof.
  intros [V1 V2 V3 V4 V5 V6 V7 V8 V9] Hp H1 H2. cbn [tunnel from_server from_client] in *.
  pose proof (V1 kServer) as U1. pose proof (V1 kClient) as U2. split; cbn; try done; try (by intros []).
  - intros which Hc Hr. assert (E : get (mk (serverConn_ s) (clientConn s) (clientConn_ s) (context s) (own_callbacks s) rest) which = get s which) by (by destruct which).
    assert (E' : get (mk (serverConn_ s) (clientConn s) (clientConn_ s) (context s) (own_callbacks s) rest) (other which) = get s (other which)) by (by destruct which).
    rewrite E in Hr. rewrite E'. destruct (V8 which Hc Hr) as [?|Hin]; [by left|]. right. rewrite Hp in Hin. apply elem_of_cons in Hin as [Hin|?]; [|done].
    destruct which; cbn in Hin; congruence.
  - intros Hc. destruct (V9 Hc) as (Hn & _). by rewrite Hn in Hp.
Qed.

Lemma clientConn_pending g s f rest : inv (mk_ghost s (from_server g) (from_client g)) -> pending s = f :: rest -> clientConn_ s = true.
Proof. intros V Hp. destruct (clientConn_ s) eqn:E; [done|]. destruct (v_before _ V E) as (Hn & _). cbn in Hn. by rewrite Hn in Hp. Qed.

Lemma complete_keeps g s which rest :
  inv (mk_ghost s (from_server g) (from_client g)) -> pending s = WriteComplete which :: rest ->
  let s1 := mk (serverConn_ s) (clientConn s) (clientConn_ s) (context s) (own_callbacks s) rest in
  inv (mk_ghost (set (set s1 (other which) (set_reading (get s1 (other which)) true)) which (set_complete (get s1 which) false)) (from_server g) (from_client g)).
Proof.
  intros V Hp s1. pose proof (clientConn_pending _ _ _ _ V Hp) as Hc. destruct V as [V1 V2 V3 V4 V5 V6 V7 V8 V9]. cbn [tunnel from_server from_client] in *.
  pose proof (V1 kServer) as U1. pose proof (V1 kClient) as U2. pose proof (V8 kServer Hc) as VS. pose proof (V8 kClient Hc) as VC. rewrite Hp in VS, VC.
  destruct which; cbn in *; split; cbn; try done; try (by intros []); try congruence.
  - intros [] _; cbn; intros H; [|done]. destruct (VS H) as [?|[?|?]%elem_of_cons]; [by left|done|by right].
  - intros [] _; cbn; intros H; [done|]. destruct (VC H) as [?|[?|?]%elem_of_cons]; [by left|done|by right].
Qed.

Lemma functor_keeps g s : inv (mk_ghost s (from_server g) (from_client g)) ->
  exists s', runFunctor s = Ok s' /\ inv (mk_ghost s' (from_server g) (from_client g)) /\ pending s' = tail (pending s) /\
    forall which, output (get s' which) = output (get s which).
Proof.
  intros V. unfold runFunctor. destruct (pending s) as [|f rest] eqn:Hp; [exists s; by rewrite Hp|].
  pose proof (clientConn_pending _ _ _ _ V Hp) as Hc. destruct f as [which n|which].
  - pose proof (drop_pending s _ rest g V Hp ltac:(done) ltac:(done)) as V'. set (s1 := mk _ _ _ _ _ rest) in *.
    assert (Hc1 : clientConn_ s1 = true) by done. assert (Ho : forall w, output (get s1 w) = output (get s w)) by (by intros []).
    unfold onHighWaterMark, need_client. rewrite Hc1. destruct which.
    + destruct (output (serverConn_ s1)) eqn:E; [by exists s1|]. eexists. split; [done|]. split; [|split; [done|by intros []]].
      apply (flags_keep g s1 kClient false V' Hc1). cbn in E |- *. by rewrite E.
    + destruct (output (clientConn s1)) eqn:E; [by exists s1|]. eexists. split; [done|]. split; [|split; [done|by intros []]].
      apply (flags_keep g s1 kServer false V' Hc1). cbn in E |- *. by rewrite E.
  - pose proof (complete_keeps g s which rest V Hp) as V'. cbn zeta in V'. unfold onWriteComplete, need_client. cbn [clientConn_]. rewrite Hc in V' |- *.
    destruct which; (eexists; split; [reflexivity|]; split; [exact V'|split; [done|by intros []]]).
Qed.

(** Bytes move from the output of side [which] to the kernel. *)
Lemma moves_keep g s s' which :
  inv (mk_ghost s (from_server g) (from_client g)) -> same_but which s s' ->
  let c := get s which in let c' := get s' which in
  connected c' = connected c -> reading c' = reading c -> writeCompleteCallback c' = writeCompleteCallback c -> input c' = input c ->
  taken c' ++ output c' = taken c ++ output c ->
  (writeCompleteCallback c = true -> output c' = [] -> WriteComplete which ∈ pending s') ->
  (writeCompleteCallback c = false -> pending s' = pending s) ->
  inv (mk_ghost s' (from_server g) (from_client g)).
Proof.
  intros [V1 V2 V3 V4 V5 V6 V7 V8 V9] [B1 B2 B3 B4 [fs B5]] c c' C1 C2 C3 C4 C5 C6 C7. cbn [tunnel from_server from_client] in *.
  assert (Hpend : forall w, WriteComplete w ∈ pending s -> WriteComplete w ∈ pending s') by (intros w Hin; rewrite B5; apply elem_of_app; by left).
  assert (Hstall : forall w, clientConn_ s' = true -> reading (get s' w) = false ->
            (output (get s' (other w)) <> [] /\ writeCompleteCallback (get s' (other w)) = true) \/ WriteComplete (other w) ∈ pending s').
  { intros w Hc Hr. rewrite B2 in Hc. assert (Hr' : reading (get s w) = false) by (destruct w, which; cbn in *; congruence).
    destruct (V8 w Hc Hr') as [[Ho Hw]|Hin]; [|by right; apply Hpend].
    destruct (decide (other w = which)) as [<-|Hne].
    - unfold c, c' in *. destruct (output (get s' (other w))) eqn:E; [right; by apply C6|left; by rewrite C3].
    - left. assert (Hs : get s' (other w) = get s (other w)) by (destruct w, which; cbn in *; done). by rewrite Hs. }
  assert (Hbefore : clientConn_ s' = false -> pending s' = [] /\ reading (clientConn s') = true /\ forall w, writeCompleteCallback (get s' w) = false).
  { intros Hc. rewrite B2 in Hc. destruct (V9 Hc) as (Hp & Hr & Hw). rewrite C7 by apply Hw. split; [done|].
    pose proof (Hw kServer). pose proof (Hw kClient). destruct which; cbn in *; (split; [congruence|intros []; cbn; congruence]). }
  pose proof (V1 kServer) as U1. pose proof (V1 kClient) as U2.
  unfold c, c' in *. destruct which; cbn in *; split; cbn; try done; try congruence; try (by intros []; cbn; congruence).
  - rewrite B2, C4. exact V4.
  - rewrite B2, B1. exact V4.
  - rewrite app_assoc, C5, B1, <- app_assoc. exact V6.
Qed.

Lemma drains_client s which n : clientConn_ (drains s which n) = clientConn_ s.
Proof. unfold drains. repeat case_match; by destruct which. Qed.

Lemma drains_keeps g s which n : inv (mk_ghost s (from_server g) (from_client g)) -> inv (mk_ghost (drains s which n) (from_server g) (from_client g)).
Proof.
  intros V. unfold drains. destruct ((0 <? n) && (n <=? zlen (output (get s which)))) eqn:E; [|done]. zbool.
  assert (Hsplit := take_drop (Z.to_nat n) (output (get s which))).
  set (rest := drop (Z.to_nat n) (output (get s which))) in *. set (out := take (Z.to_nat n) (output (get s which))) in *. clearbody rest out.
  set (s1 := set s which _). assert (H1 : same_but which s s1) by apply same_set.
  assert (G1 : get s1 which = set_output (get s which) rest (taken (get s which) ++ out)) by apply get_set.
  set (s2 := match rest with [] => _ | _ => _ end).
  assert (H2 : s2 = if (bool_decide (rest = []) && writeCompleteCallback (get s which)) then queue s1 (WriteComplete which) else s1)
    by (unfold s2; destruct rest; [by destruct (writeCompleteCallback _)|done]).
  clearbody s2. subst s2. assert (P1 : pending s1 = pending s) by (unfold s1; by destruct which). clearbody s1.
  eapply (moves_keep g s _ which V); [eapply same_trans; [exact H1|apply same_maybe]|..]; rewrite ?get_maybe, ?G1; cbn; try done.
  - by rewrite <- app_assoc, Hsplit.
  - intros -> ->. rewrite bool_decide_true by done. cbn. apply elem_of_app. right. by apply list_elem_of_singleton.
  - intros ->. by rewrite andb_false_r.
Qed.

Lemma up_keeps g s r : inv (mk_ghost s (from_server g) (from_client g)) -> healthy_write r -> clientConn_ s = false ->
  inv (mk_ghost (onClientConnection s true r) (from_server g) (from_client g)).
Proof.
  intros V Hr Hc. unfold onClientConnection. set (s1 := mk _ _ true true _ _). destruct V as [V1 V2 V3 V4 V5 V6 V7 V8 V9]. cbn [tunnel from_server from_client] in *.
  destruct (V9 Hc) as (Hp & Hrd & Hw). pose proof (V1 kServer) as U1. pose proof (V1 kClient) as U2. pose proof (Hw kServer) as W1. pose proof (Hw kClient) as W2.
  destruct (input (serverConn_ s1)) as [|b d] eqn:E.
  - split; cbn; try done; try (by intros []). intros [] _; cbn; intros H; [done|]. cbn in U2. congruence.
  - assert (Hup : connected (get s1 kClient) = true) by done.
    destruct (send_input_spec s1 kClient r Hup Hr) as (S1 & S2 & S3 & S4 & S5 & fs & S6). cbn zeta in *. set (s2 := send_input s1 kClient r) in *. clearbody s2.
    destruct S1 as [A1 A2 A3 A4 A5 A6]. cbn in *. split; cbn; try congruence.
    + intros []; cbn; [by rewrite S2|congruence].
    + intros _. by rewrite S2.
    + rewrite S2. cbn. rewrite app_nil_r, A5, <- app_assoc. exact V6.
    + rewrite S2. cbn. exact V7.
    + intros [] _; cbn; rewrite ?S2, ?A2; cbn; congruence.
Qed.

Lemma observe_keeps g e : healthy e -> inv g -> exists g', observe g e = Ok g' /\ inv g'.
Proof.
  intros He V. destruct g as [s fs fc]. set (g0 := mk_ghost s fs fc) in *. assert (V' : inv (mk_ghost s (from_server g0) (from_client g0))) by done.
  unfold observe. destruct e as [r| |which d r|which n|]; cbn [tunnel from_server from_client step g0] in *.
  - cbn [mbind res_bind]. eexists. split; [reflexivity|]. rewrite (v_own _ V : own_callbacks s = true). cbn [negb]. rewrite orb_false_r. destruct (clientConn_ s) eqn:Ec; [done|]. by apply (up_keeps g0).
  - done.
  - cbn [mbind res_bind]. eexists. split; [reflexivity|]. unfold takes_part, reads. destruct (reading (get s which)); cbn [andb]; [|done].
    destruct which.
    + unfold onServerMessage. cbn [get set context other]. rewrite (v_context _ V : context s = clientConn_ s). destruct (clientConn_ s) eqn:Ec.
      * rewrite (v_input _ V Ec : input (serverConn_ s) = []). cbn [app]. pose proof (send_keeps g0 s kClient r d V' Ec He) as K. cbn [set get other] in K. rewrite (v_context _ V : context s = clientConn_ s), Ec in K. exact K.
      * destruct V as [V1 V2 V3 V4 V5 V6 V7 V8 V9]. cbn [tunnel from_server from_client] in *. pose proof (V1 kServer) as U1. pose proof (V1 kClient) as U2.
        destruct (V9 Ec) as (P1 & P2 & P3). pose proof (P3 kServer). pose proof (P3 kClient).
        split; cbn; try done; try congruence; try (by intros []; cbn; congruence).
        { intros []; done. }
        { rewrite (app_assoc i0). change (i0 ++ fs) with (i0 ++ from_server g0). by rewrite <- V6, <- !app_assoc. }
        { intros _. split_and!; try done. by intros []. }
    + destruct (clientConn_ s) eqn:Ec; [|done]. cbn [set own_callbacks]. rewrite (v_own _ V : own_callbacks s = true).
      unfold onClientMessage. cbn [get]. rewrite (v_input_client _ V : input (clientConn s) = []). cbn [app].
      pose proof (send_keeps g0 s kServer r d V' Ec He) as K. cbn [set get other] in K. rewrite (v_own _ V : own_callbacks s = true) in K. exact K.
  - cbn [mbind res_bind]. eexists. split; [reflexivity|]. by apply (drains_keeps g0).
  - destruct (functor_keeps g0 s V') as (s' & E & Hv & _). rewrite E. cbn [mbind res_bind]. eexists. split; [reflexivity|]. exact Hv.
Qed.

Lemma observe_all_keeps l : Forall healthy l -> forall g, inv g -> exists g', observe_all g l = Ok g' /\ inv g'.
Proof.
  induction 1 as [|e l He Hl IH]; intros g V; [by exists g|]. destruct (observe_keeps g e He V) as (g1 & E & V1).
  cbn [observe_all]. rewrite E. cbn [mbind res_bind]. by apply IH.
Qed.

(** Running what is queued, once a side has nothing left to send. *)
Lemma functors_resume g n s which : inv (mk_ghost s (from_server g) (from_client g)) -> length (pending s) = n -> clientConn_ s = true ->
  output (get s (other which)) = [] -> exists s', run s (replicate n RunFunctor) = Ok s' /\ reading (get s' which) = true.
Proof.
  revert s. induction n as [|n IH]; intros s V Hn Hc Ho.
  - exists s. split; [done|]. destruct (reading (get s which)) eqn:E; [done|].
    destruct (v_stall _ V which Hc E) as [[? ?]|Hin]; [done|]. cbn in Hin. destruct (pending s); [by apply elem_of_nil in Hin|done].
  - destruct (functor_keeps g s V) as (s1 & E & V1 & P & O). cbn [replicate run step]. rewrite E. cbn [mbind res_bind].
    assert (Hc1 : clientConn_ s1 = true).
    { destruct (clientConn_ s1) eqn:Ec; [done|]. exfalso. clear IH. unfold runFunctor in E. destruct (pending s) as [|f rest]; [done|].
      unfold onHighWaterMark, onWriteComplete, need_client in E. cbn [clientConn_] in E. rewrite Hc in E.
      destruct f as [[] ?|[]]; repeat case_match; injection E as <-; cbn in Ec; congruence. }
    apply IH; [done|rewrite P; destruct (pending s); cbn in *; lia|done|by rewrite O].
Qed.

End Relay.

(** C20: a tunnel relays.  Take any interleaving of the client's connection coming
    up, reads on both sides, partial writes by the kernel and the callbacks that
    are queued in the loop, in which no write fails for good.  No null pointer is
    followed; what the server connection has received goes to the client's, in
    order and complete, and nothing is held back once that is up; what the
    client's received goes to the server connection, after what it had to send;
    and flow control never stalls: when a side has stopped reading, then once the
    other has sent all it holds, the callbacks in the queue make it read again. *)
Theorem tunnel_relays server l :
  connected server = true -> writeCompleteCallback server = false -> Forall healthy l ->
  exists g, observe_all (mk_ghost (setup server fresh) [] []) l = Ok g /\
    let s := tunnel g in
    taken (clientConn s) ++ output (clientConn s) ++ input (serverConn_ s) = input server ++ from_server g /\
    taken (serverConn_ s) ++ output (serverConn_ s) = (taken server ++ output server) ++ from_client g /\
    (clientConn_ s = true -> input (serverConn_ s) = []) /\
    (forall which, clientConn_ s = true ->
       let s1 := drains s (other which) (zlen (output (get s (other which)))) in
       exists s', run s1 (replicate (length (pending s1)) RunFunctor) = Ok s' /\ reading (get s' which) = true).
Proof.
  intros Hu Hw Hl. pose proof (setup_inv (input server) (taken server ++ output server) server Hu Hw eq_refl eq_refl) as V0.
  destruct (observe_all_keeps _ _ l Hl _ V0) as (g & E & V). exists g. split; [done|]. cbn zeta.
  split; [apply V|]. split; [apply V|]. split; [apply V|]. intros which Hc.
  assert (V' : inv (input server) (taken server ++ output server) (mk_ghost (tunnel g) (from_server g) (from_client g))) by (by destruct g).
  pose proof (drains_keeps _ _ g (tunnel g) (other which) (zlen (output (get (tunnel g) (other which)))) V') as V1.
  apply (functors_resume _ _ g _ _ which V1 eq_refl).
  - by rewrite drains_client.
  - unfold drains. destruct (output (get (tunnel g) (other which))) as [|b d] eqn:Eo; [done|].
    assert (Hz : 0 < zlen (b :: d)) by (unfold zlen; cbn; lia). rewrite (proj2 (Z.ltb_lt 0 _) Hz), Z.leb_refl. cbn [andb].
    assert (Hd : drop (Z.to_nat (zlen (b :: d))) (b :: d) = []) by (apply drop_ge; unfold zlen; lia). rewrite Hd.
    rewrite get_maybe, get_set. done.
Qed.

(** A server connection with two bytes in hand; the client's connection comes up,
    both sides read. *)
Definition sample_server : conn := mk_conn true true false false (bs "ab") (bs "xy") [].
Definition sample_events : list event :=
  [Reads kServer (bs "c") (TcpConnection.Wrote 0); ClientUp (TcpConnection.Wrote 2); Reads kClient (bs "z") (TcpConnection.Wrote 1);
   Reads kServer (bs "d") (TcpConnection.Wrote 0); Drains kServer 3; Drains kClient 1; RunFunctor].

Lemma tunnel_relays_witness :
  exists g, observe_all (mk_ghost (setup sample_server fresh) [] []) sample_events = Ok g /\
    taken (clientConn (tunnel g)) ++ output (clientConn (tunnel g)) = bs "abcd" /\ taken (serverConn_ (tunnel g)) = bs "xyz".
Proof.
  destruct (tunnel_relays sample_server sample_events eq_refl eq_refl ltac:(repeat constructor)) as (g & E & H1 & H2 & H3 & _).
  exists g. split; [exact E|]. cbn zeta in *. vm_compute in E. injection E as <-. split; [|reflexivity].
  specialize (H3 eq_refl). rewrite H3, app_nil_r in H1. exact H1.
Defined.

(** When the client's connection goes down while the server's has more to send
    than the mark, the callback that its last byte queues follows the pointer
    that [teardown] has reset. *)
Definition big : list byte := replicate (Z.to_nat kMark) x00.
Definition down_while_behind : list event :=
  [ClientUp (TcpConnection.Wrote 0); Reads kClient big (TcpConnection.Wrote 0); RunFunctor; ClientDown; Drains kServer kMark; RunFunctor].
Example teardown_then_complete : run (setup (mk_conn true true false false [] [] []) fresh) down_while_behind = Err Undefined.
Proof. vm_compute. reflexivity. Qed.

End Tunnel.
