(* ===== verification/Mutex.v ===== *)
(** Mutexes (src/utility/MutexLock.h) and the way a condition variable gives its
    mutex up (Condition::wait, src/utility/Condition.h), one step per access: the
    models of the other components take what a mutex guards as one step, and
    [mutex_excludes] is why they may.

    The pthreads mutex is its owner; [holder_] is a plain variable, written while
    the mutex is held. *)

From S2P Require Import Prelude.

Module MutexLock.

(** Where a thread is. *)
Inductive pc :=
  | Outside
  | Locking                 (* in pthread_mutex_lock *)
  | Assigning               (* has the mutex, about to set [holder_] *)
  | Inside                  (* [lock] or [wait] has returned *)
  | Unlocking               (* [holder_] is cleared, about to unlock *)
  | WillWait                (* [UnassignGuard] has cleared [holder_] *)
  | Waiting                 (* blocked in pthread_cond_wait, without the mutex *)
  | Woken.                  (* in pthread_cond_wait, taking the mutex again *)
#[global] Instance pc_eq_dec : EqDecision pc.
Proof. solve_decision. Defined.

Record t := mk {
  mutex_ : option Z;        (* the owner *)
  holder_ : Z;
  threads : gmap Z pc;      (* the threads that are not [Outside] *)
}.
Definition new : t := mk None 0 ∅.
Definition at_ (s : t) (tid : Z) : pc := default Outside (threads s !! tid).
Definition go (s : t) (tid : Z) (p : pc) : t := mk (mutex_ s) (holder_ s) (<[tid := p]> (threads s)).

Definition isLockedByThisThread (s : t) (tid : Z) : bool := holder_ s =? tid.
Definition assertLocked (s : t) (tid : Z) : res unit := assert_ (isLockedByThisThread s tid).
Definition assignHolder (s : t) (tid : Z) : t := mk (mutex_ s) tid (threads s).
Definition unassignHolder (s : t) : t := mk (mutex_ s) 0 (threads s).

(** pthread_mutex_lock and pthread_mutex_unlock. *)
Definition take (s : t) (tid : Z) (p : pc) : t :=
  match mutex_ s with None => go (mk (Some tid) (holder_ s) (threads s)) tid p | Some _ => s end.
Definition release (s : t) (tid : Z) (p : pc) : t := go (mk None (holder_ s) (threads s)) tid p.
(** [~MutexLock]: nobody may hold it. *)
Definition destroy (s : t) : res unit :=
  assert! holder_ s =? 0;
  assert_ (match mutex_ s with None => true | Some _ => false end).

(** What a thread may do next: call [lock], [unlock], [assertLocked] or [wait],
    or go on with the call it is in; and it may be woken. *)
Inductive op := Lock | Unlock | AssertLocked | Wait | Step | Wake.

Definition step (s : t) (tid : Z) (o : op) : res t :=
  match o, at_ s tid with
  | Lock, Outside => Ok (go s tid Locking)
  | Step, Locking => Ok (take s tid Assigning)
  | Step, Assigning => Ok (go (assignHolder s tid) tid Inside)
  | AssertLocked, Inside => _ ← assertLocked s tid; Ok s
  | Unlock, Inside => Ok (go (unassignHolder s) tid Unlocking)
  | Step, Unlocking => Ok (release s tid Outside)
  | Wait, Inside => Ok (go (unassignHolder s) tid WillWait)
  | Step, WillWait => Ok (release s tid Waiting)
  | Wake, Waiting => Ok (go s tid Woken)
  | Step, Woken => Ok (take s tid Assigning)              (* then [~UnassignGuard] *)
  | _, _ => Ok s
  end.
Fixpoint run (s : t) (l : list (Z * op)) : res t :=
  match l with [] => Ok s | (tid, o) :: l => s ← step s tid o; run s l end.

(** ** Mutual exclusion *)

(** The places where a thread has the mutex. *)
Definition owns (p : pc) : bool :=
  match p with Assigning | Inside | Unlocking | WillWait => true | _ => false end.

Record inv (s : t) : Prop := {
  inv_owner tid : mutex_ s = Some tid <-> owns (at_ s tid) = true;
  inv_holder tid : tid <> 0 -> holder_ s = tid <-> at_ s tid = Inside;
}.

Lemma at_go s tid p tid' : at_ (go s tid p) tid' = if decide (tid = tid') then p else at_ s tid'.
Proof. unfold at_, go; cbn. rewrite lookup_insert. by destruct (decide _). Qed.

Lemma mutex_inv_new : inv new.
Proof. split; intros tid; unfold at_, new; cbn; rewrite lookup_empty; cbn; naive_solver. Qed.

(** A thread moves between places where it has the mutex, or where it has not,
    away from [Inside] and not to it. *)
Lemma inv_move s tid p : tid <> 0 -> inv s -> owns p = owns (at_ s tid) -> p <> Inside -> at_ s tid <> Inside -> inv (go s tid p).
Proof.
  intros Ht [O H] Ho Hp Ha. split; intros t'; [|intros Ht']; rewrite at_go; cbn; destruct (decide (tid = t')) as [<-|]; auto.
  - by rewrite Ho.
  - rewrite H by done. tauto.
Qed.

(** The one thread that has the mutex clears [holder_], ... *)
Lemma inv_clear s tid p : tid <> 0 -> inv s -> at_ s tid = Inside -> owns p = true -> p <> Inside -> inv (go (unassignHolder s) tid p).
Proof.
  intros Ht [O H] E Ho Hp. split; intros t'; [|intros Ht']; rewrite at_go; cbn; destruct (decide (tid = t')) as [<-|Hne].
  - by rewrite O, E, Ho.
  - apply O.
  - split; [congruence|done].
  - split; [congruence|]. intros Hin. apply H in Hin; [|done]. apply H in E; [|done]. congruence.
Qed.
(** ... gives the mutex up, ... *)
Lemma inv_release s tid p : inv s -> owns (at_ s tid) = true -> at_ s tid <> Inside -> owns p = false -> inv (release s tid p).
Proof.
  intros [O H] E Hi Ho. assert (Hp : p <> Inside) by (by intros ->).
  split; intros t'; [|intros Ht']; unfold release; rewrite at_go; cbn; destruct (decide (tid = t')) as [<-|Hne].
  - by rewrite Ho.
  - split; [done|]. intros Ho'. apply O in Ho', E. congruence.
  - rewrite H by done. tauto.
  - by apply H.
Qed.
(** ... and another takes it. *)
Lemma inv_take s tid p : inv s -> owns (at_ s tid) = false -> owns p = true -> p <> Inside -> inv (take s tid p).
Proof.
  intros I E Ho Hp. pose proof I as [O H]. unfold take. destruct (mutex_ s) as [t0|] eqn:Em; [done|].
  split; intros t'; [|intros Ht']; rewrite at_go; cbn; destruct (decide (tid = t')) as [<-|Hne].
  - by rewrite Ho.
  - split; [congruence|]. intros Ho'. apply O in Ho'. congruence.
  - rewrite H by done. split; [intros Hi; by rewrite Hi in E|done].
  - by apply H.
Qed.
(** The holder enters. *)
Lemma inv_assign s tid : tid <> 0 -> inv s -> at_ s tid = Assigning -> inv (go (assignHolder s tid) tid Inside).
Proof.
  intros Ht [O H] E. split; intros t'; [|intros Ht']; rewrite at_go; cbn; destruct (decide (tid = t')) as [<-|Hne]; try done.
  - by rewrite O, E.
  - split; [done|]. intros Hin. change (at_ s t' = Inside) in Hin. assert (mutex_ s = Some t') by (by apply O; rewrite Hin). assert (mutex_ s = Some tid) by (by apply O; rewrite E). congruence.
Qed.

Lemma mutex_step s tid o : tid <> 0 -> inv s -> exists s', step s tid o = Ok s' /\ inv s'.
Proof.
  intros Ht I. pose proof I as [O H]. unfold step. destruct o, (at_ s tid) eqn:E; try (by exists s).
  - eexists. split; [done|]. apply inv_move; try done; by rewrite E.
  - eexists. split; [done|]. by apply inv_clear.
  - exists s. unfold assertLocked, isLockedByThisThread. assert (holder_ s = tid) as -> by (by apply H). by rewrite Z.eqb_refl.
  - eexists. split; [done|]. by apply inv_clear.
  - eexists. split; [done|]. apply inv_take; try done. by rewrite E.
  - eexists. split; [done|]. by apply inv_assign.
  - eexists. split; [done|]. apply inv_release; try done; by rewrite E.
  - eexists. split; [done|]. apply inv_release; try done; by rewrite E.
  - eexists. split; [done|]. apply inv_take; try done. by rewrite E.
  - eexists. split; [done|]. apply inv_move; try done; by rewrite E.
Qed.

Lemma mutex_run l s : Forall (fun x => x.1 <> 0) l -> inv s -> exists s', run s l = Ok s' /\ inv s'.
Proof.
  intros Hl. revert s. induction Hl as [|[tid o] l Ht Hl IH]; intros s I; cbn [run]; [by exists s|].
  destruct (mutex_step s tid o Ht I) as (s1 & -> & I1). cbn. by apply IH.
Qed.

(** Mutual exclusion.  Whatever threads lock, unlock, wait and are woken, in any
    interleaving of the single accesses: no [assertLocked] inside a critical
    section fails; at most one thread is inside; [isLockedByThisThread] is true
    for a thread exactly while it is inside, which neither another thread nor a
    wait in between changes; when nobody is inside or on the way, the mutex can be
    destroyed; and a thread that wants the mutex gets it as soon as it is free. *)
Theorem mutex_excludes l :
  Forall (fun x => x.1 <> 0) l ->
  exists s, run new l = Ok s /\
    (forall t1 t2, at_ s t1 = Inside -> at_ s t2 = Inside -> t1 = t2) /\
    (forall tid, tid <> 0 -> isLockedByThisThread s tid = bool_decide (at_ s tid = Inside)) /\
    ((forall tid, owns (at_ s tid) = false) -> destroy s = Ok tt) /\
    (forall tid, (forall t', owns (at_ s t') = false) -> at_ s tid = Locking \/ at_ s tid = Woken -> tid <> 0 ->
       exists s', run s [(tid, Step); (tid, Step)] = Ok s' /\ at_ s' tid = Inside).
Proof.
  intros Hl. destruct (mutex_run l new Hl mutex_inv_new) as (s & E & [O H]). exists s. split; [done|].
  assert (Hfree : (forall tid, owns (at_ s tid) = false) -> mutex_ s = None).
  { intros Hn. apply eq_None_not_Some. intros [t0 Em]. apply O in Em. by rewrite Hn in Em. }
  split_and!.
  - intros t1 t2 H1 H2. assert (mutex_ s = Some t1) by (by apply O; rewrite H1). assert (mutex_ s = Some t2) by (by apply O; rewrite H2). congruence.
  - intros tid Ht. unfold isLockedByThisThread. destruct (decide (at_ s tid = Inside)) as [Ei|Ei].
    + rewrite bool_decide_true by done. apply Z.eqb_eq. by apply H.
    + rewrite bool_decide_false by done. apply Z.eqb_neq. intros Eh. apply Ei. by apply H.
  - intros Hn. unfold destroy. assert (holder_ s = 0) as ->.
    { apply dec_stable. intros Hne. pose proof (proj1 (H _ Hne) eq_refl) as Hi. specialize (Hn (holder_ s)). by rewrite Hi in Hn. }
    cbn. by rewrite (Hfree Hn).
  - intros tid Hn Hw Ht. pose proof (Hfree Hn) as Em.
    assert (E1 : step s tid Step = Ok (take s tid Assigning)) by (unfold step; by destruct Hw as [->| ->]).
    assert (A1 : at_ (take s tid Assigning) tid = Assigning) by (unfold take; rewrite Em, at_go; by rewrite decide_True).
    cbn [run]. rewrite E1. cbn [mbind res_bind]. unfold step at 1. rewrite A1. cbn. eexists. split; [done|]. by rewrite at_go, decide_True.
Qed.

Definition sample_steps : list (Z * op) :=
  [(1, Lock); (2, Lock); (1, Step); (2, Step); (1, Step); (1, AssertLocked); (1, Wait); (1, Step); (2, Step); (2, Step); (1, Wake); (2, AssertLocked)].
Lemma mutex_excludes_witness : exists s, run new sample_steps = Ok s /\ isLockedByThisThread s 2 = bool_decide (at_ s 2 = Inside).
Proof.
  destruct (mutex_excludes sample_steps ltac:(repeat (constructor; [discriminate|]); constructor)) as (s & E & _ & H & _).
  exists s. split; [exact E|]. apply H. discriminate.
Defined.

End MutexLock.
