(* ===== verification/Sync.v ===== *)
(** Synchronisation (src/utility/Condition.h, Condition.cpp, CountDownLatch.h,
    CountDownLatch.cpp, BlockingQueue.h, BoundedBlockingQueue.h).

    A mutex makes what happens between a lock or a return from [wait], and the
    next [wait] or unlock, one step (shown in [Mutex]).  A condition variable is the threads blocked
    in [wait] and those it has woken, which have yet to take the mutex again; a
    woken thread tests its loop's condition again.  pthread_cond_signal wakes a
    thread of its choice, and threads may wake spuriously. *)

From S2P Require Import Prelude Date.

(** ** Condition variables *)
Module Condition.
Section Condition.
Context {W : Type}.                      (* a blocked thread and its local data *)

Record t := mk { waiting : list W; woken : list W }.

Definition new : t := mk [] [].
Definition wait (c : t) (w : W) : t := mk (waiting c ++ [w]) (woken c).
(** [notify] wakes the [k]-th thread, counted round the list. *)
Definition notify (c : t) (k : nat) : t :=
  match waiting c !! (k mod length (waiting c))%nat with
  | Some w => mk (delete (k mod length (waiting c))%nat (waiting c)) (woken c ++ [w])
  | None => c
  end.
Definition notifyAll (c : t) : t := mk [] (woken c ++ waiting c).
(** A spurious wakeup of the [i]-th thread. *)
Definition spurious (c : t) (i : nat) : t :=
  match waiting c !! i with
  | Some w => mk (delete i (waiting c)) (woken c ++ [w])
  | None => c
  end.
(** The [i]-th woken thread takes the mutex. *)
Definition resume (c : t) (i : nat) : option (W * t) :=
  match woken c !! i with
  | Some w => Some (w, mk (waiting c) (delete i (woken c)))
  | None => None
  end.

(** Number of threads blocked and woken. *)
Definition blocked (c : t) : nat := length (waiting c).
Definition ready (c : t) : nat := length (woken c).

Lemma length_delete_S {A} (l : list A) i x : l !! i = Some x -> S (length (delete i l)) = length l.
Proof.
  intros Hi. rewrite (length_delete l i) by (by eexists). apply lookup_lt_Some in Hi. lia.
Qed.

Lemma wait_count c w : blocked (wait c w) = S (blocked c) /\ ready (wait c w) = ready c.
Proof. unfold blocked, ready. cbn. rewrite length_app. cbn. lia. Qed.

Lemma notify_count c k :
  if decide (blocked c = 0%nat) then notify c k = c
  else S (blocked (notify c k)) = blocked c /\ ready (notify c k) = S (ready c).
Proof.
  unfold blocked, ready, notify. case_decide as Hb.
  - by destruct (waiting c).
  - destruct (waiting c !! (k mod length (waiting c))%nat) as [w|] eqn:Hw.
    + cbn. split; [by eapply length_delete_S|]. rewrite length_app. cbn. lia.
    + apply lookup_ge_None in Hw. pose proof (Nat.mod_upper_bound k (length (waiting c)) Hb). lia.
Qed.

Lemma notifyAll_count c : blocked (notifyAll c) = 0%nat /\ ready (notifyAll c) = (ready c + blocked c)%nat.
Proof. unfold blocked, ready. cbn. rewrite length_app. lia. Qed.

Lemma spurious_count c i :
  spurious c i = c \/ (S (blocked (spurious c i)) = blocked c /\ ready (spurious c i) = S (ready c)).
Proof.
  unfold spurious, blocked, ready. destruct (waiting c !! i) as [w|] eqn:Hw; [|by left]. right. cbn.
  split; [by eapply length_delete_S|]. rewrite length_app. cbn. lia.
Qed.

Lemma resume_count c i w c' : resume c i = Some (w, c') -> blocked c' = blocked c /\ S (ready c') = ready c.
Proof.
  unfold resume, blocked, ready. destruct (woken c !! i) as [w'|] eqn:Hw; [|done]. intros [= -> <-]. cbn.
  split; [done|by eapply length_delete_S].
Qed.

End Condition.
Arguments t W : clear implicits.
#[global] Arguments blocked {W} c : simpl never.
#[global] Arguments ready {W} c : simpl never.
#[global] Arguments wait {W} c w : simpl never.
#[global] Arguments notify {W} c k : simpl never.
#[global] Arguments notifyAll {W} c : simpl never.
#[global] Arguments spurious {W} c i : simpl never.

(** [waitForSeconds]: the absolute time it waits until, from the clock and the
    nanoseconds its argument amounts to.  The remainder is undefined for 0. *)
Definition kNanoSecondsPerSecond : Z := 1000000000.
Definition deadline (tv_sec tv_nsec nanoseconds : Z) : res (Z * Z) :=
  if nanoseconds =? 0 then Err Undefined
  else
    Ok (tv_sec + (tv_nsec + nanoseconds) `quot` kNanoSecondsPerSecond,
        (tv_nsec + nanoseconds) `rem` nanoseconds).

Definition instant (ts : Z * Z) : Z := ts.1 * kNanoSecondsPerSecond + ts.2.

(** The deadline of a timed wait.  For a positive number of whole seconds
    [waitForSeconds] waits until exactly that much later; from any clock reading
    for other durations of more than a second it waits until a whole number of
    seconds later instead, and half a second from the
    start of a second is no wait at all: the remainder is taken by the duration
    and not by the nanoseconds of a second. *)
Theorem waitForSeconds_deadline tv_sec tv_nsec nanoseconds :
  0 <= tv_nsec < kNanoSecondsPerSecond -> 0 < nanoseconds ->
  exists ts, deadline tv_sec tv_nsec nanoseconds = Ok ts /\ 0 <= ts.2 < kNanoSecondsPerSecond /\
    (nanoseconds mod kNanoSecondsPerSecond = 0 -> instant ts = instant (tv_sec, tv_nsec) + nanoseconds) /\
    (kNanoSecondsPerSecond < nanoseconds ->
       instant ts = instant (tv_sec, tv_nsec) + (tv_nsec + nanoseconds) / kNanoSecondsPerSecond * kNanoSecondsPerSecond) /\
    (tv_nsec < 500000000 -> nanoseconds = 500000000 -> instant ts = instant (tv_sec, tv_nsec)).
Proof.
  unfold deadline, instant, kNanoSecondsPerSecond. intros Hn Hp.
  rewrite (proj2 (Z.eqb_neq nanoseconds 0)) by lia. eexists. split; [done|]. cbn [fst snd].
  rewrite Z.quot_div_nonneg, Z.rem_mod_nonneg by lia.
  assert (E : (tv_nsec + nanoseconds) mod nanoseconds = tv_nsec mod nanoseconds).
  { rewrite Z.add_mod, Z.mod_same, Z.add_0_r, Z.mod_mod by lia. done. }
  rewrite E. clear E.
  assert (Hs : 1000000000 <= nanoseconds -> tv_nsec mod nanoseconds = tv_nsec) by (intros; apply Z.mod_small; lia).
  split; [pose proof (Z.mod_pos_bound tv_nsec nanoseconds Hp); pose proof (Z.mod_le tv_nsec nanoseconds); lia|].
  split; [|split].
  - intros Hm. apply Z.mod_divide in Hm as [q ->]; [|lia]. rewrite Hs by lia.
    rewrite Z.div_add, Z.div_small by lia. lia.
  - intros Hl. rewrite Hs by lia. lia.
  - intros Ht ->. rewrite Z.mod_small by lia. rewrite Z.div_small by lia. lia.
Qed.

Lemma waitForSeconds_deadline_witness : exists ts, deadline 7 100 3000000000 = Ok ts /\ instant ts = instant (7, 100) + 3000000000.
Proof.
  destruct (waitForSeconds_deadline 7 100 3000000000) as (ts & E & _ & H & _); [unfold kNanoSecondsPerSecond; lia|lia|].
  exists ts. split; [exact E|]. apply H. reflexivity.
Defined.

End Condition.

(** ** CountDownLatch *)
Module CountDownLatch.

Record t := mk { count_ : Z; condition_ : Condition.t Z }.

Definition new (count : Z) : t := mk count Condition.new.
(** [wait], on entry and each time it wakes: [true] when it returns. *)
Definition wait (l : t) (tid : Z) : bool * t :=
  if 0 <? count_ l then (false, mk (count_ l) (Condition.wait (condition_ l) tid)) else (true, l).
Definition countDown (l : t) : res t :=
  count ← check_ints [count_ l - 1] (count_ l - 1);
  Ok (mk count (if count =? 0 then Condition.notifyAll (condition_ l) else condition_ l)).
Definition getCount (l : t) : Z := count_ l.

(** Nobody stays blocked once the count is down. *)
Definition open_for_all (l : t) : Prop := Condition.waiting (condition_ l) <> [] -> 0 < count_ l.
Lemma wait_keeps_open l tid : open_for_all l -> open_for_all (wait l tid).2.
Proof. unfold open_for_all, wait. destruct (0 <? count_ l) eqn:E; zbool; cbn; [done|auto]. Qed.
Lemma countDown_keeps_open l l' : open_for_all l -> countDown l = Ok l' -> open_for_all l'.
Proof.
  unfold open_for_all, countDown. intros Ho H. apply res_bind_Ok in H as (n & Hn & H). injection H as <-.
  unfold check_ints in Hn. destruct (forallb _ _); [|done]. injection Hn as <-. cbn.
  destruct (count_ l - 1 =? 0) eqn:E; zbool; cbn; [done|]. intros Hw%Ho. lia.
Qed.

End CountDownLatch.
