(* ===== verification/Thread.v ===== *)
(** Threads (src/utility/Thread.h, Thread.cpp, CurrentThread.h, CurrentThread.cpp,
    Atomic.h): counters, the data a thread keeps about itself, and the start and
    the end of a thread.

    What the kernel answers (gettid, pthread_create) is an argument.  How the two
    threads of a [start] interleave is modelled where it is used, in
    [EventLoopThread]. *)

From S2P Require Import Prelude Date Printf Sync.

(** ** Counters shared by threads: an [int32_t] whose memory wraps *)
Module AtomicInt32.
Definition getAndAdd (value x : Z) : Z * Z := (value, i32 (value + x)).
(** The result is a sum of [int]s of its own. *)
Definition addAndGet (value x : Z) : res (Z * Z) := let '(old, value) := getAndAdd value x in check_ints [old + x] (old + x, value).
Definition incrementAndGet (value : Z) : res (Z * Z) := addAndGet value 1.
Definition decrementAndGet (value : Z) : res (Z * Z) := addAndGet value (-1).
Definition get (value : Z) : Z * Z := (value, if value =? 0 then 0 else value).        (* compare 0 and swap 0 *)
Definition add (value x : Z) : Z := (getAndAdd value x).2.
Definition increment (value : Z) : res Z := '(_, value) ← incrementAndGet value; Ok value.
Definition decrement (value : Z) : res Z := '(_, value) ← decrementAndGet value; Ok value.
Definition getAndSet (value newValue : Z) : Z * Z := (value, newValue).

(** A counter that is incremented and decremented holds the difference, as long
    as it is within range on the way. *)
Lemma counter_balance value ups : 0 <= value -> value + Z.of_nat ups <= int_max ->
  Nat.iter ups (fun r => v ← r; increment v) (Ok value) = Ok (value + Z.of_nat ups).
Proof.
  intros Hv. induction ups as [|n IH]; intros Hn; [cbn; by rewrite Z.add_0_r|]. rewrite Nat.iter_succ, IH by lia. cbn [mbind res_bind].
  unfold increment, incrementAndGet, addAndGet, getAndAdd. unfold int_max in *.
  rewrite check_ints_ok by (repeat constructor; unfold in_int, int_min, int_max; lia). cbn. rewrite swrap_small by lia. f_equal. lia.
Qed.
End AtomicInt32.

(** ** The data of the current thread *)
Module CurrentThread.

Record t := mk {
  t_cachedTid : Z;
  t_tidString : list byte;
  t_tidStringLength : Z;
  t_threadName : list byte;
}.
Definition initial : t := mk 0 [] 6 (bs "unknown").
Definition with_name (c : t) (name : list byte) : t := mk (t_cachedTid c) (t_tidString c) (t_tidStringLength c) name.

Section CurrentThread.
Context (gettid : Z).

Definition cacheTid (c : t) : t :=
  if t_cachedTid c =? 0 then
    let text := fmt_sp 5 gettid ++ [space] in
    mk gettid (snprintf 32 text) (zlen text) (t_threadName c)
  else c.
Definition tid (c : t) : Z * t :=
  let c := if t_cachedTid c =? 0 then cacheTid c else c in (t_cachedTid c, c).
Definition isMainThread (getpid : Z) (c : t) : bool * t := let '(id, c) := tid c in (id =? getpid, c).

(** In the child of a fork. *)
Definition afterFork (c : t) : t := (tid (mk 0 (t_tidString c) (t_tidStringLength c) (bs "main"))).2.

(** What the string of the id is once it is cached. *)
Definition cached (c : t) : Prop :=
  t_cachedTid c = gettid /\ t_tidString c = fmt_sp 5 gettid ++ [space] /\ t_tidStringLength c = zlen (t_tidString c).

Lemma length_dec_int : 0 < gettid -> in_int gettid -> (1 <= length (dec gettid) <= 10)%nat.
Proof.
  unfold in_int, int_min, int_max. intros Hp Hi. unfold dec. rewrite (proj2 (Z.ltb_ge _ _)) by lia.
  apply length_dec_pos; [lia|]. change (10 ^ Z.of_nat 10) with 10000000000. lia.
Qed.

Lemma tid_cached c : 0 < gettid -> in_int gettid -> (t_cachedTid c = 0 \/ cached c) ->
  (tid c).1 = gettid /\ cached (tid c).2 /\ t_threadName (tid c).2 = t_threadName c.
Proof.
  intros Hp Hi Hc. unfold tid, cacheTid. destruct Hc as [Hc|Hc].
  - rewrite Hc, !Z.eqb_refl. cbn. split; [done|]. split; [|done]. unfold cached. cbn.
    assert (Hl : (length (fmt_sp 5 gettid ++ [space]) <= 11)%nat).
    { pose proof (length_dec_int Hp Hi). unfold fmt_sp. rewrite !length_app, length_replicate. cbn. lia. }
    unfold snprintf. rewrite (take_ge (_ ++ _)) by lia. done.
  - destruct Hc as (E & Hs & Hl). rewrite E. rewrite (proj2 (Z.eqb_neq gettid 0)) by lia. cbn. done.
Qed.
End CurrentThread.

(** The [timespec] of [sleepUsec]. *)
Definition sleepUsec (usec : Z) : Z * Z := (i64 (usec `quot` 1000000), i64 (usec `rem` 1000000 * 1000)).

(** *** Stack traces: [symbols] is what backtrace_symbols gives, [demangler] is
    __cxa_demangle, [None] where it fails. *)
Section Stack.
Context (demangler : list byte -> option (list byte)).

Definition left_paren : byte := x28.
Definition plus_sign : byte := x2b.

(** The scan of a frame's text for its last '(' and last '+'. *)
Fixpoint scan (i : nat) (s : list byte) (left_par plus : option nat) : option nat * option nat :=
  match s with
  | [] => (left_par, plus)
  | b :: s =>
      if bool_decide (b = left_paren) then scan (S i) s (Some i) plus
      else if bool_decide (b = plus_sign) then scan (S i) s left_par (Some i)
      else scan (S i) s left_par plus
  end.

Definition frame (demangle : bool) (s : list byte) : list byte :=
  match (if demangle then scan 0 s None None else (None, None)) with
  | (Some left_par, Some plus) =>
      (* the string at [left_par+1] while [*plus] is NUL *)
      let mangled := if decide (left_par < plus)%nat then take (plus - S left_par) (drop (S left_par) s) else drop (S left_par) s in
      match demangler mangled with
      | Some demangled => take (S left_par) s ++ demangled ++ drop plus s ++ [x0a]
      | None => s ++ [x0a]
      end
  | _ => s ++ [x0a]
  end.

(** The first frame is the function itself; no frames when there is no memory. *)
Definition stackTrace (demangle : bool) (symbols : option (list (list byte))) : list byte :=
  match symbols with
  | Some strings => concat (map (frame demangle) (drop 1 strings))
  | None => []
  end.
End Stack.
End CurrentThread.

(** ** Threads *)
Module Thread.

Record t := mk {
  started_ : bool;
  joined_ : bool;
  tid_ : Z;
  name_ : list byte;
  latch_ : CountDownLatch.t;
}.

(** The constructor, with the number of threads created so far. *)
Definition setDefaultName (numCreated : Z) (name : list byte) : res (list byte * Z) :=
  '(num, numCreated) ← AtomicInt32.incrementAndGet numCreated;
  Ok (if bool_decide (name = []) then snprintf 32 (bs "Thread" ++ dec num) else name, numCreated).
Definition new (numCreated : Z) (name : list byte) : res (t * Z) :=
  '(name, numCreated) ← setDefaultName numCreated name;
  Ok (mk false false 0 name (CountDownLatch.new 1), numCreated).

Definition with_latch (th : t) (l : CountDownLatch.t) : t := mk (started_ th) (joined_ th) (tid_ th) (name_ th) l.
Definition with_tid (th : t) (tid : Z) : t := mk (started_ th) (joined_ th) tid (name_ th) (latch_ th).

(** [start] up to the wait: [created] tells whether pthread_create succeeded. *)
Definition start (th : t) (created : bool) : res t :=
  assert! negb (started_ th);
  Ok (mk created (joined_ th) (tid_ th) (name_ th) (latch_ th)).
(** Its wait, and the assertion behind it: [true] when it returns. *)
Definition start_wait (th : t) (tid : Z) : res (bool * t) :=
  let '(done_, l) := CountDownLatch.wait (latch_ th) tid in
  let th := with_latch th l in
  if (done_ : bool) then assert! (0 <? tid_ th); Ok (true, th) else Ok (false, th).

(** What the new thread does before its function: the name it gives itself. *)
Definition thread_name (th : t) : list byte := if bool_decide (name_ th = []) then bs "zhengqiThread" else name_ th.

(** How the thread's function ends, the name the thread has then, and what
    happens: the thread returns, the process aborts, or the exception goes on. *)
Inductive outcome := Returns | ThrowsException | ThrowsStdException | ThrowsOther.
Inductive aftermath := ThreadReturns | Aborts | Rethrows.
Definition runInThread (o : outcome) : list byte * aftermath :=
  match o with
  | Returns => (bs "finished", ThreadReturns)
  | ThrowsException | ThrowsStdException => (bs "crashed", Aborts)
  | ThrowsOther => (bs "crashed", Rethrows)
  end.

Definition join (th : t) : res t :=
  assert! started_ th;
  assert! negb (joined_ th);
  Ok (mk (started_ th) true (tid_ th) (name_ th) (latch_ th)).
(** Whether the destructor detaches the thread. *)
Definition detaches (th : t) : bool := started_ th && negb (joined_ th).

End Thread.
