(* ===== verification/Logging.v ===== *)
(** The logger (src/utility/Logging.h, src/utility/Logging.cpp): a line is put
    together in a temporary's stream and handed to the output function when the
    temporary dies.

    The data of the calling thread and the global time zone are arguments; so
    are the clock's reading, [errno] and what strerror_r answers. *)

From S2P Require Import Prelude Printf StringPiece Date Timestamp TimeZone LogStream Sync Thread.

Module Logger.

Inductive LogLevel := TRACE | DEBUG | INFO | WARN | ERROR | FATAL.
Definition level_index (l : LogLevel) : Z :=
  match l with TRACE => 0 | DEBUG => 1 | INFO => 2 | WARN => 3 | ERROR => 4 | FATAL => 5 end.
Definition LogLevelName (l : LogLevel) : list byte :=
  match l with
  | TRACE => bs "TRACE " | DEBUG => bs "DEBUG " | INFO => bs "INFO  "
  | WARN => bs "WARN  " | ERROR => bs "ERROR " | FATAL => bs "FATAL "
  end.

(** By which variables are in the environment. *)
Definition initLogLevel (trace debug : bool) : LogLevel := if trace then TRACE else if debug then DEBUG else INFO.

(** ** Source files: [strrchr] and what is behind its result *)
Definition slash : byte := x2f.
Fixpoint strrchr (i : nat) (s : list byte) (found : option nat) : option nat :=
  match s with [] => found | b :: s => strrchr (S i) s (if bool_decide (b = slash) then Some i else found) end.

Record SourceFile := mk_file { data_ : list byte; size_ : Z }.
(** Of a literal of [N - 1] characters, and of a C string. *)
Definition SourceFile_literal (arr : list byte) : SourceFile :=
  match strrchr 0 arr None with
  | Some slash => mk_file (drop (S slash) arr) (i32 (zlen arr) - i32 (Z.of_nat (S slash)))
  | None => mk_file arr (i32 (zlen arr))
  end.
Definition SourceFile_cstr (filename : list byte) : SourceFile :=
  let data := match strrchr 0 filename None with Some slash => drop (S slash) filename | None => filename end in
  mk_file data (i32 (zlen data)).

(** ** The data of a thread *)
Record tls := mk_tls {
  t_time : list byte;
  t_lastSecond : Z;
  current : CurrentThread.t;
}.
Definition tls_initial : tls := mk_tls [] 0 CurrentThread.initial.

(** [stream << T(str, len)] *)
Definition shl_T (s : LogStream.t) (str : list byte) (len : Z) : res LogStream.t :=
  assert! (zlen str =? len);
  LogStream.append s (Some str) len.
Definition shl_file (s : LogStream.t) (v : SourceFile) : res LogStream.t := LogStream.append s (Some (data_ v)) (size_ v).

(** The text of [t_time] for a second, in the zone the logger has. *)
Definition broken_down (zone : TimeZone.t) (seconds : Z) : res TimeZone.DateTime :=
  if TimeZone.valid zone then '(dt, _) ← TimeZone.toLocalTime zone seconds; Ok dt else TimeZone.toUtcTime seconds.
Definition format_second (dt : TimeZone.DateTime) : list byte :=
  fmt_sp 4 (TimeZone.year dt) ++ fmt_0 2 (TimeZone.month dt) ++ fmt_0 2 (TimeZone.day dt) ++ bs " " ++
  fmt_0 2 (TimeZone.hour dt) ++ bs ":" ++ fmt_0 2 (TimeZone.minute dt) ++ bs ":" ++ fmt_0 2 (TimeZone.second dt).

Definition formatTime (zone : TimeZone.t) (th : tls) (time : Timestamp.t) (s : LogStream.t) : res (tls * LogStream.t) :=
  let microSecondsSinceEpoch := Timestamp.microSecondsSinceEpoch time in
  let seconds := microSecondsSinceEpoch `quot` Timestamp.kMicroSecondsPerSecond in
  let microseconds := i32 (microSecondsSinceEpoch `rem` Timestamp.kMicroSecondsPerSecond) in
  th ← (if negb (seconds =? t_lastSecond th) then
          dt ← broken_down zone seconds;
          let text := format_second dt in
          assert! (zlen text =? 17);
          Ok (mk_tls (snprintf 64 text) seconds (current th))
        else Ok th);
  if TimeZone.valid zone then
    us ← LogStream.Fmt_new (bs "." ++ fmt_0 6 microseconds ++ bs " ");
    assert! (LogStream.length_ us =? 8);
    s ← shl_T s (t_time th) 17;
    s ← shl_T s (take 8 (LogStream.buf_ us)) 8;
    Ok (th, s)
  else
    us ← LogStream.Fmt_new (bs "." ++ fmt_0 6 microseconds ++ bs "Z ");
    assert! (LogStream.length_ us =? 9);
    s ← shl_T s (t_time th) 17;
    s ← shl_T s (take 9 (LogStream.buf_ us)) 9;
    Ok (th, s).

Record Impl := mk_impl {
  time_ : Timestamp.t;
  stream_ : LogStream.t;
  level_ : LogLevel;
  line_ : Z;
  basename_ : SourceFile;
}.
Definition with_stream (i : Impl) (s : LogStream.t) : Impl := mk_impl (time_ i) s (level_ i) (line_ i) (basename_ i).

Section Logger.
Context (strerror : Z -> list byte) (gettid : Z) (zone : TimeZone.t).

(** The constructor; [s] is the new stream. *)
Definition Impl_new (th : tls) (now : Timestamp.t) (s : LogStream.t) (level : LogLevel) (savedErrno : Z) (file : SourceFile) (line : Z)
    : res (tls * Impl) :=
  '(th, s) ← formatTime zone th now s;
  let '(_, c) := CurrentThread.tid gettid (current th) in
  let th := mk_tls (t_time th) (t_lastSecond th) c in
  s ← shl_T s (CurrentThread.t_tidString c) (CurrentThread.t_tidStringLength c);
  s ← shl_T s (LogLevelName level) 6;
  s ← (if negb (savedErrno =? 0) then
         s ← LogStream.shl_cstr s (Some (strerror savedErrno));
         s ← LogStream.shl_cstr s (Some (bs " (errno="));
         s ← LogStream.shl_int s savedErrno;
         LogStream.shl_cstr s (Some (bs ") "))
       else Ok s);
  Ok (th, mk_impl now s level line file).

Definition finish (i : Impl) : res Impl :=
  s ← LogStream.shl_cstr (stream_ i) (Some (bs " - "));
  s ← shl_file s (basename_ i);
  s ← LogStream.shl_char s x3a;
  s ← LogStream.shl_int s (line_ i);
  s ← LogStream.shl_char s x0a;
  Ok (with_stream i s).

(** ** A statement [LOG_... << a << b;] *)
Inductive macro := LOG_TRACE | LOG_DEBUG | LOG_INFO | LOG_WARN | LOG_ERROR | LOG_FATAL | LOG_SYSERR | LOG_SYSFATAL.

(** The macro's test of the global level. *)
Definition enabled (g_logLevel : LogLevel) (m : macro) : bool :=
  match m with
  | LOG_TRACE => level_index g_logLevel <=? level_index TRACE
  | LOG_DEBUG => level_index g_logLevel <=? level_index DEBUG
  | LOG_INFO => level_index g_logLevel <=? level_index INFO
  | _ => true
  end.
(** The level the constructor the macro calls gives the line. *)
Definition macro_level (m : macro) : LogLevel :=
  match m with
  | LOG_TRACE => TRACE | LOG_DEBUG => DEBUG | LOG_INFO => INFO | LOG_WARN => WARN
  | LOG_ERROR | LOG_SYSERR => ERROR | LOG_FATAL | LOG_SYSFATAL => FATAL
  end.

Record statement := mk_statement {
  s_macro : macro;
  s_file : list byte;                    (* __FILE__ *)
  s_line : Z;
  s_func : list byte;                    (* __func__ *)
  s_errno : Z;
  s_now : Timestamp.t;
  s_garbage : list byte;                 (* what the stream's buffer holds before *)
  s_items : list LogStream.item;
}.

(** The four constructors, by macro. *)
Definition construct (th : tls) (st : statement) : res (tls * Impl) :=
  let s := LogStream.mk (FixedBuffer.new (s_garbage st)) in
  let file := SourceFile_literal (s_file st) in
  match s_macro st with
  | LOG_TRACE | LOG_DEBUG =>
      '(th, i) ← Impl_new th (s_now st) s (macro_level (s_macro st)) 0 file (s_line st);
      s ← LogStream.shl_cstr (stream_ i) (Some (s_func st));
      s ← LogStream.shl_char s x20;
      Ok (th, with_stream i s)
  | LOG_SYSERR | LOG_SYSFATAL => Impl_new th (s_now st) s (macro_level (s_macro st)) (s_errno st) file (s_line st)
  | _ => Impl_new th (s_now st) s (macro_level (s_macro st)) 0 file (s_line st)
  end.

(** The destructor: what is output, and whether it aborts. *)
Definition destruct_ (i : Impl) : res (list byte * bool) :=
  i ← finish i;
  Ok (FixedBuffer.toString (LogStream.buffer_ (stream_ i)), match level_ i with FATAL => true | _ => false end).

Definition log (g_logLevel : LogLevel) (th : tls) (st : statement) : res (tls * option (list byte * bool)) :=
  if enabled g_logLevel (s_macro st) then
    '(th, i) ← construct th st;
    s ← LogStream.shl_all (stream_ i) (s_items st);
    out ← destruct_ (with_stream i s);
    Ok (th, Some out)
  else Ok (th, None).

(** The statements of a thread in turn, until one aborts: the lines output. *)
Fixpoint log_all (g_logLevel : LogLevel) (th : tls) (l : list statement) : res (tls * list (list byte)) :=
  match l with
  | [] => Ok (th, [])
  | st :: l =>
      '(th, out) ← log g_logLevel th st;
      match out with
      | Some (text, true) => Ok (th, [text])
      | Some (text, false) => '(th, rest) ← log_all g_logLevel th l; Ok (th, text :: rest)
      | None => log_all g_logLevel th l
      end
  end.

(** ** The text of a line *)

(** What follows the last slash. *)
Definition basename (f : list byte) : list byte := foldl (fun acc b => if bool_decide (b = slash) then [] else acc ++ [b]) [] f.

Definition seconds_of (st : statement) : Z := Timestamp.microSecondsSinceEpoch (s_now st) `quot` Timestamp.kMicroSecondsPerSecond.
Definition micros_of (st : statement) : Z := Timestamp.microSecondsSinceEpoch (s_now st) `rem` Timestamp.kMicroSecondsPerSecond.
Definition micro_text (us : Z) : list byte := bs "." ++ fmt_0 6 us ++ (if TimeZone.valid zone then bs " " else bs "Z ").
Definition errno_text (st : statement) : list byte :=
  match s_macro st with
  | LOG_SYSERR | LOG_SYSFATAL =>
      if s_errno st =? 0 then [] else strerror (s_errno st) ++ bs " (errno=" ++ dec (s_errno st) ++ bs ") "
  | _ => []
  end.
Definition func_text (st : statement) : list byte := match s_macro st with LOG_TRACE | LOG_DEBUG => s_func st ++ [x20] | _ => [] end.

(** The line of a statement at the broken-down time [dt], with the texts of what
    it streams. *)
Definition line_text (st : statement) (dt : TimeZone.DateTime) (texts : list (list byte)) : list byte :=
  format_second dt ++ micro_text (micros_of st) ++ (fmt_sp 5 gettid ++ [space]) ++ LogLevelName (macro_level (s_macro st)) ++
  errno_text st ++ func_text st ++ concat texts ++ bs " - " ++ basename (s_file st) ++ [x3a] ++ dec (s_line st) ++ [x0a].

(** A second whose text has its 17 characters. *)
Definition second_ok (seconds : Z) (dt : TimeZone.DateTime) : Prop := broken_down zone seconds = Ok dt /\ zlen (format_second dt) = 17.

(** A statement that prints a line, which fits its buffer, at another second than
    the one the cache of a fresh thread has. *)
Definition prints (st : statement) (out : list byte) : Prop :=
  exists dt texts,
    second_ok (seconds_of st) dt /\ seconds_of st <> 0 /\ 0 <= Timestamp.microSecondsSinceEpoch (s_now st) /\
    zlen (s_garbage st) = LogStream.kSmallBuffer /\ zlen (s_file st) <= int_max /\
    LogStream.in_integer (s_line st) /\ LogStream.in_integer (s_errno st) /\
    Forall2 (fun i text => exists room, LogStream.shows i room text) (s_items st) texts /\
    out = line_text st dt texts /\ zlen out + LogStream.kMaxNumericSize <= LogStream.kSmallBuffer.

(** The lines that come out: of the statements the level lets through, up to the
    first that is fatal. *)
Fixpoint expected (g_logLevel : LogLevel) (l : list (statement * list byte)) : list (list byte) :=
  match l with
  | [] => []
  | (st, out) :: l =>
      if enabled g_logLevel (s_macro st)
      then out :: (match macro_level (s_macro st) with FATAL => [] | _ => expected g_logLevel l end)
      else expected g_logLevel l
  end.

End Logger.

(** ** Streaming what fits *)

(** [op] appends [d] when there is room for it and for a number. *)
Definition adds (op : LogStream.t -> res LogStream.t) (d : list byte) : Prop :=
  forall s, LogStream.stream_wf s -> zlen (LogStream.content (LogStream.buffer_ s)) + zlen d + LogStream.kMaxNumericSize <= LogStream.kSmallBuffer ->
  exists s', op s = Ok s' /\ LogStream.stream_wf s' /\
    LogStream.content (LogStream.buffer_ s') = LogStream.content (LogStream.buffer_ s) ++ d.

Lemma adds_bind f g d e : adds f d -> adds g e -> adds (fun s => s ← f s; g s) (d ++ e).
Proof.
  intros Hf Hg s Hw Hr. rewrite zlen_app in Hr. pose proof (zlen_nonneg d). pose proof (zlen_nonneg e).
  destruct (Hf s Hw) as (s1 & -> & Hw1 & E1); [lia|]. cbn [mbind res_bind].
  destruct (Hg s1 Hw1) as (s2 & -> & Hw2 & E2); [rewrite E1, zlen_app; lia|].
  exists s2. split_and!; [done..|]. by rewrite E2, E1, app_assoc.
Qed.
Lemma adds_nil : adds Ok [].
Proof. intros s Hw _. exists s. split_and!; [done..|]. by rewrite app_nil_r. Qed.

Lemma shows_room i room text : LogStream.shows i room text -> room <= zlen text + LogStream.kMaxNumericSize.
Proof.
  intros H. assert (Hz := zlen_nonneg text). unfold LogStream.kMaxNumericSize in *. destruct H; unfold LogStream.kMaxNumericSize in *; try lia.
Qed.
Lemma adds_item i room text : LogStream.shows i room text -> adds (fun s => LogStream.shl s i) text.
Proof.
  intros Hi s Hw Hr. destruct (LogStream.shl_spec s i room text Hw Hi) as (s' & E & Hw' & Hc). exists s'. split_and!; [done..|].
  rewrite Hc. unfold LogStream.write. pose proof (shows_room _ _ _ Hi). by rewrite (proj2 (Z.leb_le _ _)) by lia.
Qed.
Lemma adds_cstr d : adds (fun s => LogStream.shl_cstr s (Some d)) d.
Proof. apply (adds_item _ _ _ (LogStream.show_cstr d)). Qed.
Lemma adds_char c : adds (fun s => LogStream.shl_char s c) [c].
Proof. apply (adds_item _ _ _ (LogStream.show_char c)). Qed.
Lemma adds_int v : LogStream.in_integer v -> adds (fun s => LogStream.shl_int s v) (dec v).
Proof. intros Hv. apply (adds_item _ _ _ (LogStream.show_integer v Hv)). Qed.
Lemma adds_append d len : zlen d = len -> zlen d <= int_max -> adds (fun s => LogStream.append s (Some d) len) d.
Proof.
  intros <- Hm. apply (adds_item (LogStream.IPiece (StringPiece.StringPiece_len (Some d) (zlen d))) (zlen d + 1)). apply LogStream.show_piece; [|done].
  split; [done|]. cbn. exists []. by rewrite app_nil_r.
Qed.
Lemma adds_T d len : zlen d = len -> zlen d <= int_max -> adds (fun s => shl_T s d len) d.
Proof. intros <- Hm s. unfold shl_T. rewrite assert_true by by apply Z.eqb_eq. by apply adds_append. Qed.
Lemma adds_items items texts : Forall2 (fun i text => exists room, LogStream.shows i room text) items texts ->
  adds (fun s => LogStream.shl_all s items) (concat texts).
Proof.
  induction 1 as [|i text items texts [room Hi] _ IH]; [apply adds_nil|].
  cbn [concat LogStream.shl_all]. apply (adds_bind (fun s => LogStream.shl s i)); [by eapply adds_item|done].
Qed.

(** ** The base name *)

Lemma strrchr_spec s pre i found acc :
  i = length pre ->
  match found with Some k => (k < i)%nat /\ acc = drop (S k) pre | None => acc = pre end ->
  let r := foldl (fun acc b => if bool_decide (b = slash) then [] else acc ++ [b]) acc s in
  match strrchr i s found with Some k => (k < length (pre ++ s))%nat /\ r = drop (S k) (pre ++ s) | None => r = pre ++ s end.
Proof.
  revert pre i found acc. induction s as [|b s IH]; intros pre i found acc Hi Hf; cbn [strrchr foldl].
  - rewrite app_nil_r. destruct found; [|done]. destruct Hf. split; [lia|done].
  - replace (pre ++ b :: s) with ((pre ++ [b]) ++ s) by (by rewrite <- app_assoc). apply IH; [rewrite length_app; cbn; lia|].
    case_bool_decide as Hb; [split; [lia|]; rewrite drop_ge by (rewrite length_app; cbn; lia); done|].
    destruct found as [k|]; [|by subst acc]. destruct Hf as [Hk ->]. split; [lia|]. rewrite drop_app_le by lia. done.
Qed.

Lemma SourceFile_basename f : zlen f <= int_max -> SourceFile_literal f = mk_file (basename f) (zlen (basename f)) /\ zlen (basename f) <= int_max.
Proof.
  intros Hf. pose proof (strrchr_spec f [] 0 None [] eq_refl eq_refl) as H. cbn [app] in H. unfold SourceFile_literal, basename.
  pose proof (zlen_nonneg f). destruct (strrchr 0 f None) as [k|]; [|rewrite H; split; [|done]; by rewrite i32_small by (unfold in_int, int_min, int_max in *; lia)].
  destruct H as [Hk ->]. unfold zlen in *. rewrite length_drop. rewrite !i32_small by (unfold in_int, int_min, int_max in *; lia).
  split; [f_equal; lia|lia].
Qed.

Section Lines.
Context (strerror : Z -> list byte) (gettid : Z) (zone : TimeZone.t).
Hypothesis (Hpos : 0 < gettid) (Hint : in_int gettid).

(** What a thread has cached is right. *)
Definition cache_ok (th : tls) : Prop :=
  (t_lastSecond th = 0 \/ exists dt, second_ok zone (t_lastSecond th) dt /\ t_time th = format_second dt) /\
  (CurrentThread.t_cachedTid (current th) = 0 \/ CurrentThread.cached gettid (current th)).

Lemma initial_cache : cache_ok tls_initial.
Proof. split; by left. Qed.

Lemma length_micro_text us : 0 <= us < 1000000 -> zlen (micro_text zone us) = if TimeZone.valid zone then 8 else 9.
Proof.
  intros Hu. unfold micro_text, zlen. rewrite !length_app, fmt_0_len by (cbn; lia). by destruct (TimeZone.valid zone).
Qed.

(** The second is taken from the cache or put there. *)
Lemma refresh th seconds dt : cache_ok th -> second_ok zone seconds dt -> seconds <> 0 ->
  (if negb (seconds =? t_lastSecond th) then
     dt ← broken_down zone seconds;
     assert! (zlen (format_second dt) =? 17);
     Ok (mk_tls (snprintf 64 (format_second dt)) seconds (current th))
   else Ok th) = Ok (mk_tls (format_second dt) seconds (current th)).
Proof.
  intros [Hc _] [E Hl] Hs. destruct (seconds =? t_lastSecond th) eqn:Eq; zbool; cbn [negb].
  - destruct Hc as [Hc|(dt' & [E' _] & Ht)]; [lia|]. rewrite <- Eq, E in E'. injection E' as <-. by destruct th; cbn in *; subst.
  - rewrite E. cbn [mbind res_bind]. rewrite assert_true by by apply Z.eqb_eq. do 2 f_equal.
    unfold snprintf. apply take_ge. unfold zlen in Hl. lia.
Qed.

Lemma formatTime_spec th now dt seconds us :
  cache_ok th -> Timestamp.microSecondsSinceEpoch now = seconds * 1000000 + us -> 0 <= us < 1000000 -> 0 <= seconds ->
  second_ok zone seconds dt -> seconds <> 0 ->
  exists th', t_time th' = format_second dt /\ t_lastSecond th' = seconds /\ current th' = current th /\
    forall s, LogStream.stream_wf s -> zlen (LogStream.content (LogStream.buffer_ s)) + zlen (format_second dt ++ micro_text zone us) + LogStream.kMaxNumericSize <= LogStream.kSmallBuffer ->
    exists s', formatTime zone th now s = Ok (th', s') /\ LogStream.stream_wf s' /\
      LogStream.content (LogStream.buffer_ s') = LogStream.content (LogStream.buffer_ s) ++ format_second dt ++ micro_text zone us.
Proof.
  intros Hc Hn Hu Hp Hok Hs. eexists (mk_tls _ _ _). split_and!; [reflexivity..|]. intros s Hw Hr.
  assert (Hq : Timestamp.microSecondsSinceEpoch now `quot` Timestamp.kMicroSecondsPerSecond = seconds)
    by (rewrite Hn; unfold Timestamp.kMicroSecondsPerSecond; dlia).
  assert (Hm : i32 (Timestamp.microSecondsSinceEpoch now `rem` Timestamp.kMicroSecondsPerSecond) = us).
  { rewrite i32_small; rewrite Hn; unfold Timestamp.kMicroSecondsPerSecond; [dlia|]. unfold in_int, int_min, int_max. dlia. }
  unfold formatTime. cbn zeta. rewrite Hq, Hm, (refresh th seconds dt) by done. cbn [mbind res_bind].
  pose proof (length_micro_text us Hu) as Hlm. destruct Hok as [_ Hl]. cbn [t_time].
  unfold micro_text in Hlm, Hr |- *. destruct (TimeZone.valid zone).
  all: unfold LogStream.Fmt_new; rewrite assert_true by (apply Z.ltb_lt; lia); cbn [mbind res_bind LogStream.length_ LogStream.buf_].
  all: rewrite assert_true by (by apply Z.eqb_eq).
  all: set (d := bs "." ++ fmt_0 6 us ++ _) in *.
  all: assert (Ht : forall n, Z.of_nat n = zlen d -> take n (take 31 d ++ [x00]) = d)
    by (intros n Hn'; unfold zlen in *; rewrite (take_ge d) by lia; apply take_app_length'; lia).
  all: rewrite Ht by (by rewrite Hlm).
  all: destruct (adds_bind _ _ _ _ (adds_T (format_second dt) 17 Hl ltac:(unfold int_max; lia)) (adds_T d _ Hlm ltac:(unfold int_max; lia)) s Hw Hr) as (s' & E & Hw' & Hc').
  all: exists s'; split; [|done].
  all: apply res_bind_Ok in E as (s1 & E1 & E2); rewrite E1; cbn [mbind res_bind]; by rewrite E2.
Qed.

Definition errno_part (e : Z) : list byte := if e =? 0 then [] else strerror e ++ bs " (errno=" ++ dec e ++ bs ") ".
Lemma adds_errno e : LogStream.in_integer e ->
  adds (fun s => if negb (e =? 0) then
                   s ← LogStream.shl_cstr s (Some (strerror e));
                   s ← LogStream.shl_cstr s (Some (bs " (errno="));
                   s ← LogStream.shl_int s e;
                   LogStream.shl_cstr s (Some (bs ") "))
                 else Ok s) (errno_part e).
Proof.
  intros He. unfold errno_part. destruct (e =? 0); cbn [negb]; [apply adds_nil|].
  repeat first [apply adds_bind | apply adds_cstr | by apply adds_int].
Qed.

Lemma LogLevelName_6 level : zlen (LogLevelName level) = 6.
Proof. by destruct level. Qed.

Lemma Impl_new_spec th now dt seconds us level e file line :
  cache_ok th -> Timestamp.microSecondsSinceEpoch now = seconds * 1000000 + us -> 0 <= us < 1000000 -> 0 <= seconds ->
  second_ok zone seconds dt -> seconds <> 0 -> LogStream.in_integer e ->
  exists th', cache_ok th' /\
    let d := format_second dt ++ micro_text zone us ++ (fmt_sp 5 gettid ++ [space]) ++ LogLevelName level ++ errno_part e in
    forall s, LogStream.stream_wf s -> zlen (LogStream.content (LogStream.buffer_ s)) + zlen d + LogStream.kMaxNumericSize <= LogStream.kSmallBuffer ->
    exists s', Impl_new strerror gettid zone th now s level e file line = Ok (th', mk_impl now s' level line file) /\ LogStream.stream_wf s' /\
      LogStream.content (LogStream.buffer_ s') = LogStream.content (LogStream.buffer_ s) ++ d.
Proof.
  intros Hc Hn Hu Hp Hok Hs He. destruct (formatTime_spec th now dt seconds us Hc Hn Hu Hp Hok Hs) as (th' & T1 & T2 & T3 & HF).
  destruct Hc as [_ Hid]. destruct (CurrentThread.tid_cached gettid (current th) Hpos Hint Hid) as (_ & Hcd & _).
  exists (mk_tls (t_time th') (t_lastSecond th') (CurrentThread.tid gettid (current th)).2). split; [|intros d s Hw Hr].
  { split; [|by right]. right. exists dt. cbn. by rewrite T1, T2. }
  subst d. rewrite app_assoc, zlen_app in Hr. pose proof (zlen_nonneg (format_second dt ++ micro_text zone us)).
  destruct (HF s Hw) as (s1 & E1 & Hw1 & C1).
  { pose proof (zlen_nonneg ((fmt_sp 5 gettid ++ [space]) ++ LogLevelName level ++ errno_part e)). lia. }
  unfold Impl_new. rewrite E1. cbn [mbind res_bind]. rewrite T3. destruct (CurrentThread.tid gettid (current th)) as [id c]; cbn [snd] in *.
  destruct Hcd as (_ & Hstr & Hlen). rewrite Hstr in *. rewrite Hlen.
  assert (Hm : zlen (fmt_sp 5 gettid ++ [space]) <= int_max).
  { pose proof (CurrentThread.length_dec_int gettid Hpos Hint). unfold zlen, fmt_sp. rewrite !length_app, length_replicate. unfold int_max. cbn. lia. }
  destruct (adds_bind _ _ _ _ (adds_T (fmt_sp 5 gettid ++ [space]) _ eq_refl Hm)
              (adds_bind _ _ _ _ (adds_T (LogLevelName level) 6 (LogLevelName_6 level) ltac:(rewrite LogLevelName_6; unfold int_max; lia)) (adds_errno e He)) s1 Hw1)
    as (s2 & E2 & Hw2 & C2); [rewrite C1, zlen_app; lia|].
  exists s2. split_and!; [|done|by rewrite C2, C1, !app_assoc].
  apply res_bind_Ok in E2 as (a & E2 & E3). rewrite E2. cbn [mbind res_bind]. apply res_bind_Ok in E3 as (b & E3 & E4).
  rewrite E3. cbn [mbind res_bind]. by rewrite E4.
Qed.

Lemma adds_finish i d : zlen (s_file d) <= int_max -> LogStream.in_integer (line_ i) -> basename_ i = SourceFile_literal (s_file d) ->
  let t := bs " - " ++ basename (s_file d) ++ [x3a] ++ dec (line_ i) ++ [x0a] in
  LogStream.stream_wf (stream_ i) -> zlen (LogStream.content (LogStream.buffer_ (stream_ i))) + zlen t + LogStream.kMaxNumericSize <= LogStream.kSmallBuffer ->
  destruct_ i = Ok (LogStream.content (LogStream.buffer_ (stream_ i)) ++ t, match level_ i with FATAL => true | _ => false end).
Proof.
  intros Hf Hl Hb t Hw Hr. destruct (SourceFile_basename _ Hf) as [Eb Hm]. unfold destruct_, finish. rewrite Hb, Eb. unfold shl_file. cbn [data_ size_].
  destruct (adds_bind _ _ _ _ (adds_cstr (bs " - ")) (adds_bind _ _ _ _ (adds_append _ _ eq_refl Hm)
             (adds_bind _ _ _ _ (adds_char x3a) (adds_bind _ _ _ _ (adds_int _ Hl) (adds_char x0a)))) _ Hw Hr) as (s' & E & Hw' & Hc).
  do 4 (apply res_bind_Ok in E as (? & E0 & E); rewrite E0; cbn [mbind res_bind]; clear E0). rewrite E. cbn [mbind res_bind with_stream stream_ level_].
  do 2 f_equal. subst t. rewrite <- Hc. unfold FixedBuffer.toString, FixedBuffer.length, LogStream.content. destruct Hw' as (_ & Hcur & _).
  by rewrite i32_small by (unfold in_int, int_min, int_max, LogStream.kSmallBuffer in *; lia).
Qed.

Definition errno_of (st : statement) : Z := match s_macro st with LOG_SYSERR | LOG_SYSFATAL => s_errno st | _ => 0 end.
Lemma errno_part_of st : errno_part (errno_of st) = errno_text strerror st.
Proof. unfold errno_part, errno_of, errno_text. by destruct (s_macro st). Qed.

Definition shl_func (st : statement) (s : LogStream.t) : res LogStream.t :=
  match s_macro st with LOG_TRACE | LOG_DEBUG => s ← LogStream.shl_cstr s (Some (s_func st)); LogStream.shl_char s x20 | _ => Ok s end.
Lemma adds_func st : adds (shl_func st) (func_text st).
Proof. unfold shl_func, func_text. destruct (s_macro st); first [apply adds_nil | apply adds_bind; [apply adds_cstr|apply adds_char]]. Qed.

(** The four constructors are one. *)
Lemma construct_eq th st :
  construct strerror gettid zone th st =
  ('(th, i) ← Impl_new strerror gettid zone th (s_now st) (LogStream.mk (FixedBuffer.new (s_garbage st))) (macro_level (s_macro st)) (errno_of st)
                (SourceFile_literal (s_file st)) (s_line st);
   s ← shl_func st (stream_ i); Ok (th, with_stream i s)).
Proof.
  unfold construct, shl_func, errno_of. destruct (s_macro st); destruct (Impl_new _ _ _ _ _ _ _ _ _ _) as [[th' [? ? ? ? ?]]|]; cbn [mbind res_bind stream_]; try done.
  all: by destruct (LogStream.shl_cstr _ _); cbn [mbind res_bind].
Qed.

Lemma stream_new garbage : zlen garbage = LogStream.kSmallBuffer ->
  LogStream.stream_wf (LogStream.mk (FixedBuffer.new garbage)) /\ LogStream.content (FixedBuffer.new garbage) = [].
Proof. intros H. split; [|done]. split; [done|]. cbn. unfold LogStream.kSmallBuffer, int_max. lia. Qed.

Lemma log_spec g th st out :
  cache_ok th -> prints strerror gettid zone st out ->
  exists th', cache_ok th' /\
    log strerror gettid zone g th st =
      Ok (th', if enabled g (s_macro st) then Some (out, match macro_level (s_macro st) with FATAL => true | _ => false end) else None).
Proof.
  intros Hc (dt & texts & Hok & Hs & Hn & Hg & Hf & Hl & He & Hi & -> & Hr). unfold log. destruct (enabled g (s_macro st)); [|by exists th].
  pose proof (Z.quot_rem' (Timestamp.microSecondsSinceEpoch (s_now st)) Timestamp.kMicroSecondsPerSecond) as Hqr.
  destruct (Impl_new_spec th (s_now st) dt (seconds_of st) (micros_of st) (macro_level (s_macro st)) (errno_of st) (SourceFile_literal (s_file st)) (s_line st))
    as (th' & Hc' & HI); try done.
  { unfold seconds_of, micros_of. unfold Timestamp.kMicroSecondsPerSecond in *. lia. }
  { unfold micros_of, Timestamp.kMicroSecondsPerSecond. dlia. }
  { unfold seconds_of, Timestamp.kMicroSecondsPerSecond. dlia. }
  { unfold errno_of. destruct (s_macro st); done. }
  exists th'. split; [done|]. cbn zeta in HI. rewrite errno_part_of in HI.
  set (d1 := format_second dt ++ micro_text zone (micros_of st) ++ (fmt_sp 5 gettid ++ [space]) ++ LogLevelName (macro_level (s_macro st)) ++ errno_text strerror st) in *.
  set (d2 := bs " - " ++ basename (s_file st) ++ [x3a] ++ dec (s_line st) ++ [x0a]) in *.
  assert (Hline : line_text strerror gettid zone st dt texts = d1 ++ func_text st ++ concat texts ++ d2)
    by (unfold line_text, d1, d2; by rewrite <- !app_assoc).
  rewrite Hline in *. rewrite !zlen_app in Hr. pose proof (zlen_nonneg d1). pose proof (zlen_nonneg d2).
  pose proof (zlen_nonneg (func_text st)). pose proof (zlen_nonneg (concat texts)).
  destruct (stream_new _ Hg) as [Hw0 Hc0]. destruct (HI _ Hw0) as (s1 & E1 & Hw1 & C1); [cbn [LogStream.buffer_]; rewrite Hc0; change (zlen []) with 0; lia|].
  cbn [LogStream.buffer_] in C1. rewrite Hc0 in C1. cbn [app] in C1.
  rewrite construct_eq, E1. cbn [mbind res_bind stream_].
  destruct (adds_func st s1 Hw1) as (s2 & E2 & Hw2 & C2); [rewrite C1; lia|]. rewrite E2. cbn [mbind res_bind with_stream stream_].
  destruct (adds_items _ _ Hi s2 Hw2) as (s3 & E3 & Hw3 & C3); [rewrite C2, C1, zlen_app; lia|]. rewrite E3. unfold with_stream. cbn [mbind res_bind time_ stream_ level_ line_ basename_].
  rewrite (adds_finish (mk_impl (s_now st) s3 (macro_level (s_macro st)) (s_line st) (SourceFile_literal (s_file st))) st Hf Hl eq_refl Hw3)
    by (cbn [stream_ line_]; fold d2; rewrite C3, C2, C1, !zlen_app; lia).
  cbn [mbind res_bind stream_ line_ level_]. fold d2. by rewrite C3, C2, C1, <- !app_assoc.
Qed.

Lemma log_all_spec g l : Forall (fun '(st, out) => prints strerror gettid zone st out) l -> forall th, cache_ok th ->
  exists th', log_all strerror gettid zone g th (map fst l) = Ok (th', expected g l).
Proof.
  induction 1 as [|[st out] l Hp Hl IH]; intros th Hc; [by exists th|].
  destruct (log_spec g th st out Hc Hp) as (th1 & Hc1 & E). cbn [map fst log_all expected]. rewrite E. cbn [mbind res_bind].
  destruct (IH th1 Hc1) as (th2 & E2). destruct (enabled g (s_macro st)); [|by eauto].
  destruct (macro_level (s_macro st)); rewrite ?E2; cbn [mbind res_bind]; eauto.
Qed.

End Lines.

(** ** Seconds of the years up to 9999, in UTC *)

Lemma length_fmt_sp4 y : 0 <= y <= 9999 -> length (fmt_sp 4 y) = 4%nat.
Proof.
  intros Hy. unfold fmt_sp, dec. rewrite (proj2 (Z.ltb_ge y 0)) by lia. rewrite length_app, length_replicate.
  pose proof (length_dec_pos y 4 ltac:(lia) ltac:(change (10 ^ Z.of_nat 4) with 10000; lia)). lia.
Qed.

Lemma format_second_17 dt : TimeZone.valid_dt dt -> 0 <= TimeZone.year dt <= 9999 -> zlen (format_second dt) = 17.
Proof.
  intros ((Hm & Hd) & Hh & Hmi & Hs) Hy. cbn in Hm, Hd.
  assert (TimeZone.day dt <= 31) by (unfold Date.days_in_month in Hd; repeat case_match; lia).
  unfold format_second, zlen. rewrite !length_app, length_fmt_sp4 by done. rewrite !fmt_0_len by (change (10 ^ Z.of_nat 2) with 100; lia). done.
Qed.

Lemma utc_second_ok zone seconds : TimeZone.valid zone = false -> 0 <= seconds < 253402300800 -> exists dt, second_ok zone seconds dt.
Proof.
  intros Hz Hs. destruct (TimeZone.utc_there_and_back seconds) as (dt & E & Hv & _); [unfold TimeZone.in_epoch; lia|].
  exists dt. unfold second_ok, broken_down. rewrite Hz. split; [done|]. apply format_second_17; [done|].
  unfold TimeZone.toUtcTime in E. rewrite TimeZone.BreakTime_days in E by (unfold TimeZone.in_epoch; lia).
  destruct (Date.year_range (seconds / 86400 + Date.kJulianDayOf1970_01_01)) as (r & Er & Hr); [unfold Date.kJulianDayOf1970_01_01; dlia|].
  rewrite Er in E. cbn [mbind res_bind] in E. cbn zeta in E. injection E as <-. exact Hr.
Qed.

(** C22: what a thread's log statements output.  From a fresh thread, the
    statements that the level lets through each output one line, whole and in
    order, up to and including the first fatal one: the statement's own time
    (though the text of a second is cached), the thread's id, the level, the
    error with its number for the system macros, the function for the tracing
    ones, the text of everything streamed, the file's base name and the line.
    No assertion fails on the way.  It needs lines that fit the buffer and
    seconds whose text has 17 characters, as every second of the years 1970 to
    9999 in UTC has, and which are not the first second of 1970
    ([first_second_asserts]). *)
Theorem log_lines strerror gettid zone g l :
  0 < gettid -> in_int gettid -> Forall (fun '(st, out) => prints strerror gettid zone st out) l ->
  (exists th, log_all strerror gettid zone g tls_initial (map fst l) = Ok (th, expected g l)) /\
  (TimeZone.valid zone = false -> forall seconds, 0 <= seconds < 253402300800 -> exists dt, second_ok zone seconds dt).
Proof.
  intros Hp Hi Hl. split; [|intros Hz s Hs; by apply utc_second_ok]. apply (log_all_spec strerror gettid zone Hp Hi g l Hl). apply initial_cache.
Qed.

(** Two statements in one second. *)
Definition no_zone : TimeZone.t := TimeZone.mk None.
Definition sample_errors (e : Z) : list byte := bs "Interrupted system call".
Definition sample_statement (m : macro) (us : Z) : statement :=
  mk_statement m (bs "src/a/b.cpp") 12 (bs "f") 4 (Timestamp.mk (86400000000 + us)) (replicate 4000 x00) [LogStream.ICStr (Some (bs "x=")); LogStream.IInteger 7].
Definition sample_log : list (statement * list byte) :=
  [(sample_statement LOG_SYSERR 5, bs "19700102 00:00:00.000005Z    42 ERROR Interrupted system call (errno=4) x=7 - b.cpp:12" ++ [x0a]);
   (sample_statement LOG_DEBUG 6, bs "19700102 00:00:00.000006Z    42 DEBUG f x=7 - b.cpp:12" ++ [x0a]);
   (sample_statement LOG_INFO 123456, bs "19700102 00:00:00.123456Z    42 INFO  x=7 - b.cpp:12" ++ [x0a])].

Lemma log_lines_witness :
  exists th, log_all sample_errors 42 no_zone INFO tls_initial (map fst sample_log) =
    Ok (th, [bs "19700102 00:00:00.000005Z    42 ERROR Interrupted system call (errno=4) x=7 - b.cpp:12" ++ [x0a];
             bs "19700102 00:00:00.123456Z    42 INFO  x=7 - b.cpp:12" ++ [x0a]]).
Proof.
  assert (Hi : in_int 42) by (unfold in_int, int_min, int_max; lia).
  assert (Hp : forall m us out, 0 <= us < 1000000 ->
    out = line_text sample_errors 42 no_zone (sample_statement m us) (TimeZone.dt 1970 1 2 0 0 0) [bs "x="; dec 7] -> zlen out < 3000 ->
    prints sample_errors 42 no_zone (sample_statement m us) out).
  { intros m us out Hu -> Hz. exists (TimeZone.dt 1970 1 2 0 0 0), [bs "x="; dec 7].
    assert (Hs : seconds_of (sample_statement m us) = 86400) by (unfold seconds_of, Timestamp.kMicroSecondsPerSecond; cbn; dlia).
    rewrite Hs. repeat match goal with |- _ /\ _ => split end.
    - split; vm_compute; reflexivity.
    - discriminate.
    - cbn. lia.
    - vm_compute. reflexivity.
    - vm_compute. discriminate.
    - unfold LogStream.in_integer. cbn. lia.
    - unfold LogStream.in_integer. cbn. lia.
    - repeat constructor; eexists; constructor; unfold LogStream.in_integer; lia.
    - reflexivity.
    - unfold LogStream.kMaxNumericSize, LogStream.kSmallBuffer. lia. }
  apply (log_lines sample_errors 42 no_zone INFO sample_log ltac:(lia) Hi).
  unfold sample_log. repeat apply Forall_cons_2; [apply Hp..|apply Forall_nil_2]; first [lia | reflexivity | vm_compute; reflexivity].
Defined.

(** In the first second of 1970 a fresh thread takes its empty text of a second
    for the right one, and the assertion on its length fails. *)
Example first_second_asserts :
  log sample_errors 42 no_zone INFO tls_initial
    (mk_statement LOG_INFO (bs "src/a/b.cpp") 12 (bs "f") 4 (Timestamp.mk 5) (replicate 4000 x00) [LogStream.IInteger 7]) = Err AssertFailed.
Proof. vm_compute. reflexivity. Qed.

(** The cache of the second does not know the zone: after the zone changes, the
    rest of the second keeps the old zone's time under the new one's name. *)
Example zone_change_keeps_second :
  match log sample_errors 42 no_zone INFO tls_initial (sample_statement LOG_INFO 0) with
  | Ok (th, _) => snd <$> log sample_errors 42 (TimeZone.TimeZone_offset 28800 (bs "CST")) INFO th (sample_statement LOG_INFO 1)
  | Err e => Err e
  end = Ok (Some (bs "19700102 00:00:00.000001    42 INFO  x=7 - b.cpp:12" ++ [x0a], false)).
Proof. vm_compute. reflexivity. Qed.

End Logger.
