(* ===== verification/EventLoopThread.v ===== *)
(** The thread of an event loop (src/networking/EventLoopThread.h,
    EventLoopThread.cpp): its owner starts it, waits for its loop, and ends it.

    The owner and the thread interleave at every access of what they share.  Of
    the loop itself (an object on the thread's stack, modelled in [EventLoop])
    only its life and the flags that [loop] and [quit] use are here; what runs
    in the loop may call [quit]. *)

From S2P Require Import Prelude Date Printf Sync Thread.

Module EventLoopThread.

Record loop := mk_loop { alive : bool; looping_ : bool; quit_ : bool }.

(** Where the owner is: in [startLoop] and in the destructor. *)
Inductive owner :=
  | Idle                        (* constructed *)
  | AtLatch                     (* in [Thread::start], about to lock the latch *)
  | InLatch                     (* blocked there *)
  | AtCond                      (* in [startLoop], about to lock and test [loop_] *)
  | InCond                      (* blocked there *)
  | Started (loop : Z)          (* [startLoop] has returned *)
  | AtQuit (loop : Z)           (* in the destructor, [loop_] was not null *)
  | AtJoin
  | InJoin
  | Destroyed.

(** Where the thread is: [runInThread] and [threadFunc]. *)
Inductive child :=
  | NotCreated
  | AtTid                       (* about to store its id *)
  | AtCountDown
  | AtInit                      (* about to make the loop and call back *)
  | AtPublish                   (* about to lock and store [loop_] *)
  | AtLoop                      (* about to enter [loop] *)
  | InLoop                      (* at the condition of [loop] *)
  | AtClear                     (* about to lock and clear [loop_] *)
  | AtEnd                       (* about to destroy the loop *)
  | Exited.

Record t := mk {
  loop_ : option Z;
  exiting_ : bool;
  thread_ : Thread.t;
  cond_ : Condition.t Z;
}.

Record world := mk_world {
  obj : t;
  lp : loop;
  who : owner;
  ch : child;
  called_back : bool;           (* whether [callback_] has returned *)
}.

Section EventLoopThread.
(** The ids of the two threads and the address of the loop. *)
Context (owner_tid gettid loop_address : Z).

Definition new (numCreated : Z) (name : list byte) : res (t * Z) :=
  '(th, numCreated) ← Thread.new numCreated name; Ok (mk None false th Condition.new, numCreated).

Definition with_thread (o : t) (th : Thread.t) : t := mk (loop_ o) (exiting_ o) th (cond_ o).
Definition with_cond (o : t) (c : Condition.t Z) : t := mk (loop_ o) (exiting_ o) (thread_ o) c.
Definition owner_to (w : world) (o : t) (p : owner) : world := mk_world o (lp w) p (ch w) (called_back w).
Definition child_to (w : world) (o : t) (l : loop) (p : child) : world := mk_world o l (who w) p (called_back w).

(** *** startLoop *)
Definition startLoop (w : world) (created : bool) : res world :=
  assert! negb (Thread.started_ (thread_ (obj w)));
  th ← Thread.start (thread_ (obj w)) created;
  let o := with_thread (obj w) th in
  Ok (if created then mk_world o (lp w) AtLatch AtTid (called_back w) else mk_world o (lp w) AtCond (ch w) (called_back w)).

Definition latch_wait (w : world) : res world :=
  '(done_, th) ← Thread.start_wait (thread_ (obj w)) owner_tid;
  Ok (owner_to w (with_thread (obj w) th) (if (done_ : bool) then AtCond else InLatch)).

Definition cond_wait (w : world) : world :=
  match loop_ (obj w) with
  | None => owner_to w (with_cond (obj w) (Condition.wait (cond_ (obj w)) owner_tid)) InCond
  | Some l => owner_to w (obj w) (Started l)
  end.

(** *** The destructor *)
Definition destroy (w : world) : world :=
  let o := mk (loop_ (obj w)) true (thread_ (obj w)) (cond_ (obj w)) in
  owner_to w o (match loop_ o with Some l => AtQuit l | None => Destroyed end).
Definition quit (w : world) : res world :=
  if alive (lp w) then Ok (mk_world (obj w) (mk_loop true (looping_ (lp w)) true) AtJoin (ch w) (called_back w)) else Err Undefined.

(** *** The owner's next step *)
Definition owner_step (w : world) : res world :=
  match who w with
  | AtLatch => latch_wait w
  | InLatch =>
      let l := Thread.latch_ (thread_ (obj w)) in
      match Condition.resume (CountDownLatch.condition_ l) 0 with
      | Some (_, c) =>
          latch_wait (owner_to w (with_thread (obj w) (Thread.with_latch (thread_ (obj w)) (CountDownLatch.mk (CountDownLatch.count_ l) c))) AtLatch)
      | None => Ok w
      end
  | AtCond => Ok (cond_wait w)
  | InCond =>
      match Condition.resume (cond_ (obj w)) 0 with
      | Some (_, c) => Ok (cond_wait (owner_to w (with_cond (obj w) c) AtCond))
      | None => Ok w
      end
  | AtQuit _ => quit w
  | AtJoin => th ← Thread.join (thread_ (obj w)); Ok (owner_to w (with_thread (obj w) th) InJoin)
  | InJoin => Ok (match ch w with Exited => owner_to w (obj w) Destroyed | _ => w end)
  | Idle | Started _ | Destroyed => Ok w
  end.

(** *** The thread's next step; [quits] tells whether what runs in the loop calls
    [quit].  The members of the owner's object must still be there. *)
Definition child_step (w : world) (quits : bool) : res world :=
  let o := obj w in
  let touches k := match who w with Destroyed => Err Undefined | _ => k end in
  match ch w with
  | AtTid => touches (Ok (child_to w (with_thread o (Thread.with_tid (thread_ o) gettid)) (lp w) AtCountDown))
  | AtCountDown =>
      touches (l ← CountDownLatch.countDown (Thread.latch_ (thread_ o));
               Ok (child_to w (with_thread o (Thread.with_latch (thread_ o) l)) (lp w) AtInit))
  | AtInit => touches (Ok (mk_world o (mk_loop true false false) (who w) AtPublish true))
  | AtPublish =>
      touches (Ok (child_to w (mk (Some loop_address) (exiting_ o) (thread_ o) (Condition.notify (cond_ o) 0)) (lp w) AtLoop))
  | AtLoop => assert! negb (looping_ (lp w)); Ok (child_to w o (mk_loop (alive (lp w)) true false) InLoop)
  | InLoop =>
      Ok (if quit_ (lp w) then child_to w o (mk_loop (alive (lp w)) false true) AtClear
          else child_to w o (mk_loop (alive (lp w)) (looping_ (lp w)) quits) InLoop)
  | AtClear => touches (Ok (child_to w (mk None (exiting_ o) (thread_ o) (cond_ o)) (lp w) AtEnd))
  | AtEnd => Ok (child_to w o (mk_loop false (looping_ (lp w)) (quit_ (lp w))) Exited)
  | NotCreated | Exited => Ok w
  end.

Inductive action :=
  | StartLoop (created : bool)
  | Owner
  | Child (quits : bool)
  | Destroy
  | SpuriousLatch
  | SpuriousCond.

(** The program calls [startLoop] once, and destroys the object after it. *)
Definition step (w : world) (a : action) : res world :=
  match a with
  | StartLoop created => match who w with Idle => startLoop w created | _ => Ok w end
  | Owner => owner_step w
  | Child quits => child_step w quits
  | Destroy => Ok (match who w with Idle | Started _ => destroy w | _ => w end)
  | SpuriousLatch =>
      let th := thread_ (obj w) in
      let l := Thread.latch_ th in
      Ok (owner_to w (with_thread (obj w) (Thread.with_latch th (CountDownLatch.mk (CountDownLatch.count_ l) (Condition.spurious (CountDownLatch.condition_ l) 0)))) (who w))
  | SpuriousCond => Ok (owner_to w (with_cond (obj w) (Condition.spurious (cond_ (obj w)) 0)) (who w))
  end.

Fixpoint run (w : world) (l : list action) : res world :=
  match l with [] => Ok w | a :: l => w ← step w a; run w l end.

Definition initial (name : list byte) : res world :=
  '(o, _) ← new 0 name; Ok (mk_world o (mk_loop false false false) Idle NotCreated false).

(** The thread is created, and nothing that runs in the loop quits it. *)
Definition by_owner (a : action) : Prop := match a with StartLoop created => created = true | Child quits => quits = false | _ => True end.

(** ** What holds in every interleaving *)

Definition rank (c : child) : Z :=
  match c with
  | NotCreated => 0 | AtTid => 1 | AtCountDown => 2 | AtInit => 3 | AtPublish => 4
  | AtLoop => 5 | InLoop => 6 | AtClear => 7 | AtEnd => 8 | Exited => 9
  end.
Definition between (a b : Z) (c : child) : bool := (a <=? rank c) && (rank c <=? b).

(** How far the thread can be, by where the owner is. *)
Definition ranks (p : owner) (c : child) : Prop :=
  match p with
  | Idle => c = NotCreated
  | AtLatch | InLatch => 1 <= rank c <= 6
  | AtCond | InCond => 3 <= rank c <= 6
  | Started l | AtQuit l => l = loop_address /\ 5 <= rank c <= 6
  | AtJoin | InJoin => 5 <= rank c
  | Destroyed => c = NotCreated \/ c = Exited
  end.

(** A condition variable on which only the owner waits. *)
Definition seat (inside may_block : bool) (c : Condition.t Z) : Prop :=
  if inside then c = Condition.mk [] [owner_tid] \/ (may_block = true /\ c = Condition.mk [owner_tid] [])
  else c = Condition.mk [] [].

Definition in_latch (p : owner) : bool := match p with InLatch => true | _ => false end.
Definition in_cond (p : owner) : bool := match p with InCond => true | _ => false end.
Definition joined (p : owner) : bool := match p with InJoin | Destroyed => true | _ => false end.
Definition joining (p : owner) : bool := match p with AtJoin | InJoin | Destroyed => true | _ => false end.

Record inv (w : world) : Prop := {
  i_ranks : ranks (who w) (ch w);
  i_loop : loop_ (obj w) = if between 5 7 (ch w) then Some loop_address else None;
  i_started : Thread.started_ (thread_ (obj w)) = between 1 9 (ch w);
  i_joined : Thread.joined_ (thread_ (obj w)) = true -> joined (who w) = true;
  i_tid : Thread.tid_ (thread_ (obj w)) = if between 0 1 (ch w) then 0 else gettid;
  i_count : CountDownLatch.count_ (Thread.latch_ (thread_ (obj w))) = if between 0 2 (ch w) then 1 else 0;
  i_latch : seat (in_latch (who w)) (between 0 2 (ch w)) (CountDownLatch.condition_ (Thread.latch_ (thread_ (obj w))));
  i_cond : seat (in_cond (who w)) (between 0 4 (ch w)) (cond_ (obj w));
  i_alive : alive (lp w) = between 4 8 (ch w);
  i_looping : looping_ (lp w) = between 6 6 (ch w);
  i_called : called_back w = between 4 9 (ch w);
  i_quit : quit_ (lp w) = true -> joining (who w) = true;
  i_past : 7 <= rank (ch w) -> quit_ (lp w) = true;
}.

End EventLoopThread.

(** The id of a thread is positive. *)
Section Facts.
Context (owner_tid loop_address : Z) (pid : positive).
Abbreviation step := (step owner_tid (Zpos pid) loop_address).
Abbreviation run := (run owner_tid (Zpos pid) loop_address).
Abbreviation inv := (inv owner_tid (Zpos pid) loop_address).

Lemma initial_inv name : exists w, initial name = Ok w /\ inv w.
Proof. eexists. split; [reflexivity|]. split; cbn; try done. Qed.

(** Runs a step at a known place of both threads. *)
Ltac eval_step :=
  unfold step, owner_step, child_step, startLoop, latch_wait, cond_wait, Thread.start_wait, CountDownLatch.wait, CountDownLatch.countDown,
    Condition.wait, Condition.resume, Condition.notify, Condition.notifyAll, Condition.spurious, check_ints;
  cbn.
Ltac fields := split; cbn; first [reflexivity | assumption | done | by left | by right | intros; cbn in *; (done || lia || auto) | idtac].

Ltac places :=
  repeat match goal with
  | H : _ = loop_address /\ _ |- _ => destruct H as [-> _]
  | H : _ \/ false = true /\ _ |- _ => destruct H as [H|[H _]]; [|discriminate H]
  | H : _ \/ true = true /\ _ |- _ => destruct H as [H|[_ H]]
  | H : ?c = Condition.mk _ _ |- _ => subst c
  end.

(** Splits a world into the places of its two threads, each with its state. *)
Ltac worlds H :=
  let p := fresh "p" in let c := fresh "c" in let jo := fresh "jo" in let qu := fresh "qu" in
  let Hr := fresh "Hr" in let Hj := fresh "Hj" in let Hq := fresh "Hq" in let Hp := fresh "Hp" in
  let Hla := fresh "Hla" in let Hco := fresh "Hco" in
  match type of H with EventLoopThread.inv _ _ _ ?w => destruct w as [[? ? [? jo ? ? [? ?]] ?] [? ? qu] p c ?] end;
  destruct H as [Hr ? ? Hj ? ? Hla Hco ? ? ? Hq Hp]; cbn in *; subst;
  destruct p; cbn in Hr, Hla, Hco, Hj; destruct c; cbn in Hr;
  try (exfalso; (discriminate || lia || (destruct Hr; (discriminate || lia)))); cbn in *;
  places; destruct qu, jo; try discriminate (Hq eq_refl); try discriminate (Hj eq_refl).

Lemma step_inv w a : by_owner a -> inv w -> exists w', step w a = Ok w' /\ inv w'.
Proof.
  intros Hb H. worlds H;
    destruct a as [created| |quits| | |]; cbn in Hb; subst; eval_step; try (eexists; split; [reflexivity|]; fields).
Qed.

Lemma run_inv l : Forall by_owner l -> forall w, inv w -> exists w', run w l = Ok w' /\ inv w'.
Proof.
  induction 1 as [|a l Ha Hl IH]; intros w Hw; [by exists w|].
  destruct (step_inv w a Ha Hw) as (w1 & E & H1). cbn [run]. rewrite E. cbn [mbind res_bind]. by apply IH.
Qed.

Lemma owner_start_inv name l : Forall by_owner l -> exists w, (w ← initial name; run w l) = Ok w /\ inv w.
Proof. intros Hl. destruct (initial_inv name) as (w & E & Hw). rewrite E. cbn [mbind res_bind]. by apply run_inv. Qed.

(** The two threads in turn. *)
Definition turns (n : nat) : list action := concat (replicate n [Child false; Owner]).

#[global] Arguments turns n : simpl never.

Definition starting (p : owner) : bool := match p with AtLatch | InLatch | AtCond | InCond => true | _ => false end.
Definition in_join (p : owner) : bool := match p with InJoin => true | _ => false end.
(** The thread has yet to clear the [quit_] that the owner set, or has. *)
Definition lost (w : world) : bool := match ch w with AtLoop => true | InLoop => negb (quit_ (lp w)) | _ => false end.

Lemma starting_ends w : inv w -> starting (who w) = true -> exists w', run w (turns 6) = Ok w' /\ who w' = Started loop_address.
Proof.
  intros H Hs. worlds H; try discriminate Hs; eexists; (split; [vm_compute; reflexivity|reflexivity]).
Qed.

Lemma joining_ends w : inv w -> in_join (who w) = true -> lost w = false -> exists w', run w (turns 4) = Ok w' /\ who w' = Destroyed /\ ch w' = Exited.
Proof.
  intros H Hs Hl. worlds H; try discriminate Hs; try discriminate Hl; try discriminate (Hp ltac:(lia)); eexists; (split; [vm_compute; reflexivity|done]).
Qed.

Lemma lost_step w a : by_owner a -> inv w -> in_join (who w) = true -> lost w = true ->
  exists w', step w a = Ok w' /\ inv w' /\ in_join (who w') = true /\ lost w' = true.
Proof.
  intros Ha Hw Hs Hl. destruct (step_inv w a Ha Hw) as (w' & E & Hw'). exists w'. split; [done|]. split; [done|].
  clear Hw'. revert E. worlds Hw; try discriminate Hs; try discriminate Hl; destruct a; cbn in Ha; subst; eval_step; intros [= <-]; done.
Qed.

Lemma lost_run l : Forall by_owner l -> forall w, inv w -> in_join (who w) = true -> lost w = true ->
  exists w', run w l = Ok w' /\ in_join (who w') = true /\ lost w' = true.
Proof.
  induction 1 as [|a l Ha Hl IH]; intros w Hw Hj Ho; [by exists w|].
  destruct (lost_step w a Ha Hw Hj Ho) as (w1 & E & H1 & J1 & O1). cbn [EventLoopThread.run]. rewrite E. cbn [mbind res_bind]. by apply IH.
Qed.

Lemma started_at w p : inv w -> who w = Started p -> p = loop_address /\ loop_ (obj w) = Some p /\ alive (lp w) = true /\ called_back w = true.
Proof.
  intros [Hr Hl _ _ _ _ _ _ Ha _ Hc _ _] Hp. rewrite Hp in Hr. cbn in Hr. destruct Hr as [-> Hr].
  rewrite Hl, Ha, Hc. unfold between. rewrite !(proj2 (Z.leb_le _ _)) by lia. done.
Qed.


Definition to_started : list action := [StartLoop true; Owner; Child false; Child false; Child false; Owner; SpuriousCond; Owner; Child false; Owner].


End Facts.

(** Without [by_owner]: if what runs in the loop quits it, the destructor may use
    the loop after it is gone, and [startLoop] may find [loop_] cleared again and
    wait for a thread that has ended; and where pthread_create fails it waits for
    a thread that was never there. *)
Theorem quit_from_loop_races :
  (w ← initial (bs "io"); run 1 2 3 w (to_started ++ [Destroy; Child false; Child true; Child false; Child false; Child false; Owner])) = Err Undefined /\
  (exists w, (w ← initial (bs "io"); run 1 2 3 w [StartLoop true; Owner; Child false; Child false; Child false; Owner; Owner; Child false; Child false;
                Child true; Child false; Child false; Child false; Owner]) = Ok w /\ who w = InCond /\ ch w = Exited) /\
  (exists w, (w ← initial (bs "io"); run 1 2 3 w [StartLoop false; Owner]) = Ok w /\ who w = InCond /\ ch w = NotCreated).
Proof. split_and!; [vm_compute; reflexivity|eexists; split; [vm_compute; reflexivity|done]..]. Qed.


End EventLoopThread.
