(* ===== verification/Queues.v ===== *)
(** The blocking queues (src/utility/BlockingQueue.h, BoundedBlockingQueue.h):
    first in, first out, never above capacity, and no wakeup is lost in any
    interleaving of producers and consumers. *)

From S2P Require Import Prelude Sync.

(** ** The unbounded queue *)
Module BlockingQueue.
Section Queue.
Context {T : Type}.

Record t := mk { queue_ : list T; notEmpty_ : Condition.t Z }.
Definition new : t := mk [] Condition.new.

Definition put (q : t) (x : T) (k : nat) : t := mk (queue_ q ++ [x]) (Condition.notify (notEmpty_ q) k).
(** [take] once the mutex is held: [None] when it waits. *)
Definition take (q : t) (tid : Z) : option T * t :=
  match queue_ q with
  | [] => (None, mk [] (Condition.wait (notEmpty_ q) tid))
  | front :: rest => (Some front, mk rest (notEmpty_ q))
  end.
(** A woken consumer goes round its loop. *)
Definition take_resume (q : t) (i : nat) : option T * t :=
  match Condition.resume (notEmpty_ q) i with
  | Some (tid, c) => take (mk (queue_ q) c) tid
  | None => (None, q)
  end.
Definition drain (q : t) : list T * t := (queue_ q, mk [] (notEmpty_ q)).
Definition size (q : t) : Z := zlen (queue_ q).

(** While a consumer is blocked, every element has a consumer on its way. *)
Definition served (q : t) : Prop :=
  (0 < Condition.blocked (notEmpty_ q) -> length (queue_ q) <= Condition.ready (notEmpty_ q))%nat.

Lemma put_served q x k : served q -> served (put q x k).
Proof.
  unfold served, put. cbn. intros Hs. pose proof (Condition.notify_count (notEmpty_ q) k) as Hn. rewrite length_app. cbn.
  case_decide; [rewrite Hn; lia|lia].
Qed.
Lemma take_served q tid : served q -> served (take q tid).2.
Proof.
  unfold served, take. destruct (queue_ q) as [|x l]; cbn; [|lia].
  destruct (Condition.wait_count (notEmpty_ q) tid) as [-> ->]. lia.
Qed.
Lemma take_resume_served q i : served q -> served (take_resume q i).2.
Proof.
  intros Hs. unfold take_resume. destruct (Condition.resume (notEmpty_ q) i) as [[tid c]|] eqn:Er; [|done].
  apply Condition.resume_count in Er as [E1 E2]. unfold served, take in *. cbn.
  destruct (queue_ q) as [|x l]; cbn in *; [destruct (Condition.wait_count c tid) as [-> ->]|]; lia.
Qed.
Lemma drain_served q : served q -> served (drain q).2.
Proof. unfold served, drain. cbn. lia. Qed.

End Queue.
Arguments t T : clear implicits.
End BlockingQueue.

(** ** The bounded queue *)
Module BoundedBlockingQueue.
Section Queue.
Context {T : Type}.

Record t := mk {
  queue_ : list T;
  capacity_ : nat;
  notEmpty_ : Condition.t Z;
  notFull_ : Condition.t (Z * T);        (* a producer, with what it puts *)
}.
Definition new (maxSize : nat) : t := mk [] maxSize Condition.new Condition.new.

Definition empty (q : t) : bool := bool_decide (queue_ q = []).
Definition full (q : t) : bool := bool_decide (length (queue_ q) = capacity_ q).
Definition size (q : t) : Z := zlen (queue_ q).
Definition capacity (q : t) : Z := Z.of_nat (capacity_ q).

(** [circular_buffer::push_back] on a buffer that is full drops the front. *)
Definition push_back (q : t) (x : T) : list T :=
  if full q then drop 1 (queue_ q ++ [x]) else queue_ q ++ [x].

(** [put] and [take] once the mutex is held; [k] is whom [notify] picks. *)
Definition put (q : t) (tid : Z) (x : T) (k : nat) : res (bool * t) :=
  if full q then Ok (false, mk (queue_ q) (capacity_ q) (notEmpty_ q) (Condition.wait (notFull_ q) (tid, x)))
  else
    assert! negb (full q);
    Ok (true, mk (push_back q x) (capacity_ q) (Condition.notify (notEmpty_ q) k) (notFull_ q)).

Definition take (q : t) (tid : Z) (k : nat) : res (option T * t) :=
  if empty q then Ok (None, mk (queue_ q) (capacity_ q) (Condition.wait (notEmpty_ q) tid) (notFull_ q))
  else
    assert! negb (empty q);
    match queue_ q with
    | front :: rest => Ok (Some front, mk rest (capacity_ q) (notEmpty_ q) (Condition.notify (notFull_ q) k))
    | [] => Err Undefined
    end.

(** ** Producers and consumers *)

Inductive action :=
  | Put (tid : Z) (x : T) (k : nat)
  | PutResume (i k : nat)
  | Take (tid : Z) (k : nat)
  | TakeResume (i k : nat)
  | SpuriousFull (i : nat)
  | SpuriousEmpty (i : nat).

(** The queue, what was stored and what was fetched so far, in order. *)
Record world := mk_world { q : t; stored : list T; fetched : list T }.

Definition did_put (w : world) (x : T) (r : res (bool * t)) : res world :=
  '(done, q) ← r; Ok (mk_world q (if done : bool then stored w ++ [x] else stored w) (fetched w)).
Definition did_take (w : world) (r : res (option T * t)) : res world :=
  '(x, q) ← r; Ok (mk_world q (stored w) (match x with Some x => fetched w ++ [x] | None => fetched w end)).

Definition step (w : world) (a : action) : res world :=
  let s := q w in
  match a with
  | Put tid x k => did_put w x (put s tid x k)
  | PutResume i k =>
      match Condition.resume (notFull_ s) i with
      | Some ((tid, x), c) => did_put w x (put (mk (queue_ s) (capacity_ s) (notEmpty_ s) c) tid x k)
      | None => Ok w
      end
  | Take tid k => did_take w (take s tid k)
  | TakeResume i k =>
      match Condition.resume (notEmpty_ s) i with
      | Some (tid, c) => did_take w (take (mk (queue_ s) (capacity_ s) c (notFull_ s)) tid k)
      | None => Ok w
      end
  | SpuriousFull i => Ok (mk_world (mk (queue_ s) (capacity_ s) (notEmpty_ s) (Condition.spurious (notFull_ s) i)) (stored w) (fetched w))
  | SpuriousEmpty i => Ok (mk_world (mk (queue_ s) (capacity_ s) (Condition.spurious (notEmpty_ s) i) (notFull_ s)) (stored w) (fetched w))
  end.

Fixpoint run (w : world) (l : list action) : res world :=
  match l with [] => Ok w | a :: l => w ← step w a; run w l end.
Definition start (maxSize : nat) : world := mk_world (new maxSize) [] [].

(** Blocked consumers and producers leave nothing undone. *)
Record ok (s : t) : Prop := {
  k_bound : (length (queue_ s) <= capacity_ s)%nat;
  k_empty : (0 < Condition.blocked (notEmpty_ s) -> length (queue_ s) <= Condition.ready (notEmpty_ s))%nat;
  k_full : (0 < Condition.blocked (notFull_ s) -> capacity_ s <= length (queue_ s) + Condition.ready (notFull_ s))%nat;
}.
(** A state in the middle: a woken consumer, or producer, has taken the mutex. *)
Record nearly (s : t) (c p : nat) : Prop := {
  n_bound : (length (queue_ s) <= capacity_ s)%nat;
  n_empty : (0 < Condition.blocked (notEmpty_ s) -> length (queue_ s) <= Condition.ready (notEmpty_ s) + c)%nat;
  n_full : (0 < Condition.blocked (notFull_ s) -> capacity_ s <= length (queue_ s) + Condition.ready (notFull_ s) + p)%nat;
}.

Lemma put_ok s tid x k : nearly s 0 1 -> exists d s', put s tid x k = Ok (d, s') /\ ok s' /\ capacity_ s' = capacity_ s /\
  queue_ s' = if d then queue_ s ++ [x] else queue_ s.
Proof.
  intros [B E F]. unfold put, push_back. destruct (full s) eqn:Hf; unfold full in Hf; zbool.
  - eexists _, _. split; [done|]. split; [|done]. destruct (Condition.wait_count (notFull_ s) (tid, x)) as [W1 W2].
    split; cbn; [done|lia|]. rewrite W2. lia.
  - cbn. eexists true, _. split; [done|]. split; [|done]. pose proof (Condition.notify_count (notEmpty_ s) k) as N.
    split; cbn; rewrite ?length_app; cbn; [lia|case_decide; [rewrite N|]; lia|lia].
Qed.

Lemma take_ok s tid k : nearly s 1 0 -> exists r s', take s tid k = Ok (r, s') /\ ok s' /\ capacity_ s' = capacity_ s /\
  queue_ s = match r with Some x => x :: queue_ s' | None => queue_ s' end.
Proof.
  intros [B E F]. unfold take, empty. destruct (queue_ s) as [|x l] eqn:Eq; cbn in *.
  - eexists None, _. split; [done|]. split; [|done]. destruct (Condition.wait_count (notEmpty_ s) tid) as [W1 W2].
    split; cbn; [lia|lia|lia].
  - eexists (Some x), _. split; [done|]. split; [|done]. pose proof (Condition.notify_count (notFull_ s) k) as N.
    split; cbn; [lia|lia|case_decide; [rewrite N|]; lia].
Qed.

Definition good (maxSize : nat) (w : world) : Prop :=
  ok (q w) /\ capacity_ (q w) = maxSize /\ stored w = fetched w ++ queue_ (q w).

Lemma nearly_ok s c p : ok s -> nearly s c p.
Proof. intros [B E F]. split; lia. Qed.

Lemma did_put_good maxSize w s tid x k :
  good maxSize w -> queue_ s = queue_ (q w) -> capacity_ s = capacity_ (q w) -> nearly s 0 1 ->
  exists w', did_put w x (put s tid x k) = Ok w' /\ good maxSize w'.
Proof.
  intros (Ho & Hc & Hf) Eq Ec Hn. destruct (put_ok s tid x k Hn) as (d & s' & -> & Ho' & Hc' & Hq). eexists. split; [done|].
  split; [done|]. cbn. split; [congruence|]. rewrite Hq, Eq, Hf. destruct d; [by rewrite app_assoc|done].
Qed.

Lemma did_take_good maxSize w s tid k :
  good maxSize w -> queue_ s = queue_ (q w) -> capacity_ s = capacity_ (q w) -> nearly s 1 0 ->
  exists w', did_take w (take s tid k) = Ok w' /\ good maxSize w'.
Proof.
  intros (Ho & Hc & Hf) Eq Ec Hn. destruct (take_ok s tid k Hn) as (r & s' & -> & Ho' & Hc' & Hq). eexists. split; [done|].
  split; [done|]. cbn. split; [congruence|]. rewrite Hf, <- Eq, Hq. destruct r; [by rewrite <- app_assoc|done].
Qed.

Lemma queue_step_good maxSize w a : good maxSize w -> exists w', step w a = Ok w' /\ good maxSize w'.
Proof.
  intros G. pose proof G as (Ho & Hc & Hf). destruct a as [tid x k|i k|tid k|i k|i|i]; cbn [step].
  - apply did_put_good; try done. by apply nearly_ok.
  - destruct (Condition.resume (notFull_ (q w)) i) as [[[tid x] c]|] eqn:Er; [|by eexists].
    apply Condition.resume_count in Er as [E1 E2]. apply did_put_good; try done. destruct Ho. split; cbn; lia.
  - apply did_take_good; try done. by apply nearly_ok.
  - destruct (Condition.resume (notEmpty_ (q w)) i) as [[tid c]|] eqn:Er; [|by eexists].
    apply Condition.resume_count in Er as [E1 E2]. apply did_take_good; try done. destruct Ho. split; cbn; lia.
  - eexists. split; [done|]. split; [|done]. destruct Ho. cbn.
    destruct (Condition.spurious_count (notFull_ (q w)) i) as [->|[E1 E2]]; split; cbn; lia.
  - eexists. split; [done|]. split; [|done]. destruct Ho. cbn.
    destruct (Condition.spurious_count (notEmpty_ (q w)) i) as [->|[E1 E2]]; split; cbn; lia.
Qed.

(** C16: the bounded queue under any interleaving.  Whatever producers,
    consumers, the choices of [notify] and spurious wakeups do, no assertion
    fails, the queue stays within its capacity, and elements come out in the
    order in which they went in, none lost or duplicated.  Progress: when no
    thread has been woken, consumers are blocked only if the queue is empty and
    producers only if it is full, so that with a positive capacity not both are. *)
Theorem bounded_queue_progress maxSize l :
  exists w, run (start maxSize) l = Ok w /\
    (length (queue_ (q w)) <= maxSize)%nat /\ stored w = fetched w ++ queue_ (q w) /\
    (Condition.woken (notEmpty_ (q w)) = [] -> Condition.waiting (notEmpty_ (q w)) <> [] -> queue_ (q w) = []) /\
    (Condition.woken (notFull_ (q w)) = [] -> Condition.waiting (notFull_ (q w)) <> [] -> length (queue_ (q w)) = maxSize) /\
    ((0 < maxSize)%nat -> Condition.woken (notEmpty_ (q w)) = [] -> Condition.woken (notFull_ (q w)) = [] ->
     Condition.waiting (notEmpty_ (q w)) = [] \/ Condition.waiting (notFull_ (q w)) = []).
Proof.
  assert (Hrun : forall w, good maxSize w -> exists w', run w l = Ok w' /\ good maxSize w').
  { induction l as [|a l IH]; intros w G; [by exists w|]. cbn.
    destruct (queue_step_good maxSize w a G) as (w1 & -> & G1). by apply IH. }
  destruct (Hrun (start maxSize)) as (w & Hw & [B E F] & Hc & Hf).
  { split; [|done]. split; cbn; unfold Condition.blocked; cbn; lia. }
  exists w. split; [done|]. rewrite Hc in *. split; [done|]. split; [done|].
  assert (HE : Condition.woken (notEmpty_ (q w)) = [] -> Condition.waiting (notEmpty_ (q w)) <> [] -> queue_ (q w) = []).
  { intros Hk Hb. unfold Condition.blocked, Condition.ready in E. rewrite Hk in E.
    destruct (Condition.waiting _); [done|]. cbn in E. apply length_zero_iff_nil. lia. }
  assert (HF : Condition.woken (notFull_ (q w)) = [] -> Condition.waiting (notFull_ (q w)) <> [] -> length (queue_ (q w)) = maxSize).
  { intros Hk Hb. unfold Condition.blocked, Condition.ready in F. rewrite Hk in F.
    destruct (Condition.waiting (notFull_ _)); [done|]. cbn in F. lia. }
  split; [done|]. split; [done|]. intros Hm H1 H2.
  destruct (Condition.waiting (notEmpty_ (q w))) as [|a r]; [by left|]. right.
  destruct (Condition.waiting (notFull_ (q w))) as [|b s]; [done|].
  assert (queue_ (q w) = []) as Eq by by apply HE. specialize (HF H2 ltac:(done)). rewrite Eq in HF. cbn in HF. lia.
Qed.

End Queue.
End BoundedBlockingQueue.
