(* ===== verification/ThreadPool.v ===== *)
(** The thread pool (src/utility/ThreadPool.h, src/utility/ThreadPool.cpp):
    workers take tasks from a queue that may be bounded, and stop.

    Workers are numbered.  A step is what a thread does between two points where
    others may run: the mutex makes [run] and [take] one step each up to a wait;
    a worker's unlocked test of [running_] is a step of its own. *)

From S2P Require Import Prelude Printf CString Sync Thread.

Module ThreadPool.
Section Pool.
Context {Task : Type}.

(** Where a worker is in [runInThread]. *)
Inductive worker :=
  | AtTop                     (* about to test [running_] *)
  | AtTake                    (* about to lock the mutex in [take] *)
  | InTake                    (* waiting in [take] *)
  | Running (t : Task)
  | Exited.

Record t := mk {
  name_ : list byte;
  maxQueueSize_ : Z;
  running_ : bool;
  queue_ : list Task;
  workers : list worker;
  notEmpty_ : Condition.t nat;             (* workers *)
  notFull_ : Condition.t (Z * Task);       (* callers of [run], with their task *)
}.

Definition new (nameArg : list byte) : t := mk nameArg 0 false [] [] Condition.new Condition.new.
(** [maxQueueSize_] is a [size_t]. *)
Definition setMaxQueueSize (p : t) (maxSize : Z) : t :=
  mk (name_ p) (u64 maxSize) (running_ p) (queue_ p) (workers p) (notEmpty_ p) (notFull_ p).

(** [start]: the threads' names are the second result. *)
Definition start (p : t) (numThreads : Z) : res (t * list (list byte)) :=
  assert! bool_decide (workers p = []);
  let n := Z.to_nat numThreads in
  Ok (mk (name_ p) (maxQueueSize_ p) true (queue_ p) (replicate n AtTop) (notEmpty_ p) (notFull_ p),
      map (fun i => name_ p ++ snprintf 32 (dec (Z.of_nat i + 1))) (seq 0 n)).

(** The locked part of [stop]; the joins follow. *)
Definition stop (p : t) : t :=
  mk (name_ p) (maxQueueSize_ p) false (queue_ p) (workers p) (Condition.notifyAll (notEmpty_ p)) (Condition.notifyAll (notFull_ p)).

Definition queueSize (p : t) : Z := zlen (queue_ p).
Definition isFull (p : t) : bool := (0 <? maxQueueSize_ p) && (maxQueueSize_ p <=? zlen (queue_ p)).

(** What became of a call of [run]. *)
Inductive run_result := RanHere | Waits | Refused | Queued.

(** [run] with the mutex held, on entry and each time it wakes. *)
Definition run_locked (p : t) (tid : Z) (task : Task) (k : nat) : res (run_result * t) :=
  if isFull p && running_ p then
    Ok (Waits, mk (name_ p) (maxQueueSize_ p) (running_ p) (queue_ p) (workers p) (notEmpty_ p) (Condition.wait (notFull_ p) (tid, task)))
  else if negb (running_ p) then Ok (Refused, p)
  else
    assert! negb (isFull p);
    Ok (Queued, mk (name_ p) (maxQueueSize_ p) (running_ p) (queue_ p ++ [task]) (workers p) (Condition.notify (notEmpty_ p) k) (notFull_ p)).
Definition run (p : t) (tid : Z) (task : Task) (k : nat) : res (run_result * t) :=
  if bool_decide (workers p = []) then Ok (RanHere, p) else run_locked p tid task k.

(** [take] with the mutex held, by worker [i]. *)
Definition take (p : t) (i : nat) (k : nat) : t :=
  match queue_ p with
  | [] =>
      if running_ p
      then mk (name_ p) (maxQueueSize_ p) (running_ p) [] (<[i := InTake]> (workers p)) (Condition.wait (notEmpty_ p) i) (notFull_ p)
      else mk (name_ p) (maxQueueSize_ p) (running_ p) [] (<[i := AtTop]> (workers p)) (notEmpty_ p) (notFull_ p)
  | task :: rest =>
      mk (name_ p) (maxQueueSize_ p) (running_ p) rest (<[i := Running task]> (workers p)) (notEmpty_ p)
         (if 0 <? maxQueueSize_ p then Condition.notify (notFull_ p) k else notFull_ p)
  end.

(** The loop of [runInThread]: the test of [running_], and a task's return. *)
Definition set_worker (p : t) (i : nat) (s : worker) : t :=
  mk (name_ p) (maxQueueSize_ p) (running_ p) (queue_ p) (<[i := s]> (workers p)) (notEmpty_ p) (notFull_ p).
Definition test_running (p : t) (i : nat) : t := set_worker p i (if running_ p then AtTake else Exited).
Definition task_returns (p : t) (i : nat) : t := set_worker p i AtTop.

(** The handlers of [runInThread], for a task that ends as [o] says, with [what()]
    and [stackTrace()] of the exception: what is printed to stderr, and what
    follows; a task that returns brings the worker back to its loop. *)
Definition task_ends (p : t) (i : nat) (o : Thread.outcome) (what stackTrace : list byte) : t * list byte * option Thread.aftermath :=
  let line prefix text := bs prefix ++ text ++ [x0a] in
  match o with
  | Thread.Returns => (task_returns p i, [], None)
  | Thread.ThrowsException =>
      (p, line "exception caught in ThreadPool "%string (CString.c_str (name_ p)) ++ line "reason: "%string what ++ line "stack trace: "%string stackTrace, Some Thread.Aborts)
  | Thread.ThrowsStdException =>
      (p, line "exception caught in ThreadPool "%string (CString.c_str (name_ p)) ++ line "reason: "%string what, Some Thread.Aborts)
  | Thread.ThrowsOther => (p, line "unknown exception caught in ThreadPool "%string (CString.c_str (name_ p)), Some Thread.Rethrows)
  end.

(** The locked part of the destructor. *)
Definition destroy (p : t) : t := if running_ p then stop p else p.

(** ** The pool at work *)

(** What threads do; [k] is whom a [notify] picks. *)
Inductive action :=
  | Run (tid : Z) (task : Task) (k : nat)
  | RunResume (j k : nat)
  | Worker (i k : nat)                   (* the worker's next step, if it is not waiting *)
  | WorkerResume (j k : nat)             (* a woken worker takes the mutex *)
  | Stop
  | SpuriousFull (j : nat)
  | SpuriousEmpty (j : nat).

(** The pool, the tasks accepted and those handed to workers, in order. *)
Record world := mk_world { pool : t; accepted : list Task; started : list Task }.

Definition did_run (w : world) (task : Task) (r : res (run_result * t)) : res world :=
  '(r, p) ← r; Ok (mk_world p (match r with Queued => accepted w ++ [task] | _ => accepted w end) (started w)).
Definition did_take (w : world) (p : t) (i k : nat) : world :=
  mk_world (take p i k) (accepted w) (match queue_ p with [] => started w | task :: _ => started w ++ [task] end).

Definition step (w : world) (a : action) : res world :=
  let p := pool w in
  let with_pool p := Ok (mk_world p (accepted w) (started w)) in
  match a with
  | Run tid task k => did_run w task (run p tid task k)
  | RunResume j k =>
      match Condition.resume (notFull_ p) j with
      | Some ((tid, task), c) =>
          did_run w task (run_locked (mk (name_ p) (maxQueueSize_ p) (running_ p) (queue_ p) (workers p) (notEmpty_ p) c) tid task k)
      | None => Ok w
      end
  | Worker i k =>
      match workers p !! i with
      | Some AtTop => with_pool (test_running p i)
      | Some AtTake => Ok (did_take w p i k)
      | Some (Running _) => with_pool (task_returns p i)
      | _ => Ok w
      end
  | WorkerResume j k =>
      match Condition.resume (notEmpty_ p) j with
      | Some (i, c) => Ok (did_take w (mk (name_ p) (maxQueueSize_ p) (running_ p) (queue_ p) (workers p) c (notFull_ p)) i k)
      | None => Ok w
      end
  | Stop => with_pool (stop p)
  | SpuriousFull j =>
      with_pool (mk (name_ p) (maxQueueSize_ p) (running_ p) (queue_ p) (workers p) (notEmpty_ p) (Condition.spurious (notFull_ p) j))
  | SpuriousEmpty j =>
      with_pool (mk (name_ p) (maxQueueSize_ p) (running_ p) (queue_ p) (workers p) (Condition.spurious (notEmpty_ p) j) (notFull_ p))
  end.

Inductive reachable : world -> Prop :=
  | reach_start name maxSize numThreads p names :
      in_int maxSize -> 0 <= maxSize -> start (setMaxQueueSize (new name) maxSize) numThreads = Ok (p, names) ->
      reachable (mk_world p [] [])
  | reach_step w a w' : reachable w -> step w a = Ok w' -> reachable w'.

End Pool.
Arguments t Task : clear implicits.
Arguments world Task : clear implicits.
Arguments action Task : clear implicits.
Arguments worker Task : clear implicits.
End ThreadPool.
