(* ===== verification/PoolFacts.v ===== *)
(** Facts about the thread pool: tasks start in the order they were accepted, the
    bound holds, no wakeup is lost, and [stop] comes to an end
    (src/utility/ThreadPool.cpp). *)

From S2P Require Import Prelude Printf Sync ThreadPool.

(** ** Who is in a condition variable *)
Module Members.
Import Condition.
Section Members.
Context {W : Type}.

Definition members (c : Condition.t W) : list W := waiting c ++ woken c.

Lemma moved (l k : list W) i w : l !! i = Some w -> delete i l ++ k ++ [w] ≡ₚ l ++ k.
Proof.
  intros Hi. rewrite (delete_Permutation l i w Hi) at 2. cbn. rewrite app_assoc.
  apply (Permutation_app_comm _ [w]).
Qed.

Lemma members_wait c w : members (wait c w) ≡ₚ w :: members c.
Proof. unfold members, wait. cbn. rewrite <- app_assoc. cbn. symmetry. apply Permutation_middle. Qed.
Lemma members_spurious c i : members (spurious c i) ≡ₚ members c.
Proof. unfold members, spurious. destruct (waiting c !! i) eqn:E; [|done]. cbn. by apply moved. Qed.
Lemma members_notify c k : members (notify c k) ≡ₚ members c.
Proof. apply (members_spurious c (k mod length (waiting c))). Qed.
Lemma members_notifyAll c : members (notifyAll c) ≡ₚ members c.
Proof. unfold members, notifyAll. cbn. apply Permutation_app_comm. Qed.
Lemma members_resume c j w c' : resume c j = Some (w, c') -> members c ≡ₚ w :: members c'.
Proof.
  unfold resume, members. destruct (woken c !! j) as [w'|] eqn:E; [|done]. intros [= -> <-]. cbn.
  rewrite (delete_Permutation _ _ _ E) at 1. symmetry. apply Permutation_middle.
Qed.

End Members.
End Members.

Module PoolFacts.
Import ThreadPool Members.
Section Facts.
Context {Task : Type}.
Implicit Types (p : t Task) (w : world Task).

(** The workers that wait are those in [notEmpty_]. *)
Definition seated (c : Condition.t nat) (ws : list (worker Task)) : Prop :=
  NoDup (members c) /\ forall i, i ∈ members c <-> ws !! i = Some InTake.

Record inv p : Prop := {
  v_max : 0 <= maxQueueSize_ p;
  v_bound : 0 < maxQueueSize_ p -> zlen (queue_ p) <= maxQueueSize_ p;
  v_empty : running_ p = true -> (0 < Condition.blocked (notEmpty_ p))%nat -> (length (queue_ p) <= Condition.ready (notEmpty_ p))%nat;
  v_full : running_ p = true -> (0 < Condition.blocked (notFull_ p))%nat ->
           0 < maxQueueSize_ p <= zlen (queue_ p) + Z.of_nat (Condition.ready (notFull_ p));
  v_stopped : running_ p = false -> Condition.blocked (notEmpty_ p) = 0%nat /\ Condition.blocked (notFull_ p) = 0%nat;
  v_seated : seated (notEmpty_ p) (workers p);
}.

Lemma seated_perm c c' ws : members c' ≡ₚ members c -> seated c ws -> seated c' ws.
Proof.
  intros Hp [Hn Hm]. split; [by rewrite Hp|]. intros i. rewrite Hp. apply Hm.
Qed.

(** A worker that was not waiting moves to another place where it is not. *)
Lemma seated_move c ws i s s' :
  seated c ws -> ws !! i = Some s -> s <> InTake -> s' <> InTake -> seated c (<[i := s']> ws).
Proof.
  intros [Hn Hm] Hi Hs Hs'. split; [done|]. intros j. rewrite Hm. destruct (decide (i = j)) as [<-|Hne].
  - rewrite list_lookup_insert_eq by (by eapply lookup_lt_Some). naive_solver.
  - by rewrite list_lookup_insert_ne.
Qed.

(** It sits down, and a woken one gets up. *)
Lemma seated_sit c ws i s : seated c ws -> ws !! i = Some s -> s <> InTake -> seated (Condition.wait c i) (<[i := InTake]> ws).
Proof.
  intros [Hn Hm] Hi Hs. assert (i ∉ members c) by (rewrite Hm, Hi; congruence).
  split; [rewrite members_wait; by constructor|]. intros j. rewrite members_wait, elem_of_cons.
  destruct (decide (i = j)) as [<-|Hne].
  - rewrite list_lookup_insert_eq by (by eapply lookup_lt_Some). naive_solver.
  - rewrite list_lookup_insert_ne by done. rewrite Hm. naive_solver.
Qed.

Lemma seated_rise c ws i c' : seated c ws -> members c ≡ₚ i :: members c' -> seated c' (<[i := AtTake]> ws).
Proof.
  intros [Hn Hm] Hp. rewrite Hp in Hn. apply NoDup_cons in Hn as [Hi Hn]. split; [done|].
  assert (Hw : ws !! i = Some InTake) by (apply Hm; rewrite Hp; by left).
  intros j. destruct (decide (i = j)) as [<-|Hne].
  - rewrite list_lookup_insert_eq by (by eapply lookup_lt_Some). naive_solver.
  - rewrite list_lookup_insert_ne by done. rewrite <- Hm, Hp, elem_of_cons. naive_solver.
Qed.

(** *** The locked parts *)

(** Before: as the invariant, but [c] workers or [r] callers may have just been
    taken off the woken. *)
Record before p (c r : nat) : Prop := {
  b_max : 0 <= maxQueueSize_ p;
  b_bound : 0 < maxQueueSize_ p -> zlen (queue_ p) <= maxQueueSize_ p;
  b_empty : running_ p = true -> (0 < Condition.blocked (notEmpty_ p))%nat -> (length (queue_ p) <= Condition.ready (notEmpty_ p) + c)%nat;
  b_full : running_ p = true -> (0 < Condition.blocked (notFull_ p))%nat ->
           0 < maxQueueSize_ p <= zlen (queue_ p) + Z.of_nat (Condition.ready (notFull_ p) + r);
  b_stopped : running_ p = false -> Condition.blocked (notEmpty_ p) = 0%nat /\ Condition.blocked (notFull_ p) = 0%nat;
  b_seated : seated (notEmpty_ p) (workers p);
}.

Lemma inv_before p c r : inv p -> before p c r.
Proof. intros [V1 V2 V3 V4 V5 V6]. split; try done; intros; [specialize (V3 ltac:(done) ltac:(done))|specialize (V4 ltac:(done) ltac:(done))]; lia. Qed.

Lemma run_locked_inv p tid task k :
  before p 0 1 -> exists r p', run_locked p tid task k = Ok (r, p') /\ inv p' /\ workers p' = workers p /\
    queue_ p' = (match r with Queued => queue_ p ++ [task] | _ => queue_ p end) /\ running_ p' = running_ p /\
    (running_ p = false -> r = Refused).
Proof.
  intros [B1 B2 B3 B4 B5 B6]. unfold run_locked. destruct (running_ p) eqn:Er; cbn [negb].
  2: { rewrite andb_false_r. exists Refused, p. split; [done|]. split; [|done]. split; try done; rewrite Er; done. }
  rewrite andb_true_r. destruct (isFull p) eqn:Ef; unfold isFull in Ef; zbool.
  - eexists Waits, _. split; [done|]. split; [|split; [done|]; split; [done|]; split; [done|done]].
    destruct (Condition.wait_count (notFull_ p) (tid, task)) as [W1 W2]. split; cbn; try done.
    + intros _ Hb. specialize (B3 ltac:(done) Hb). lia.
    + intros _ _. rewrite W2. lia.
  - cbn. eexists Queued, _. split; [done|]. split; [|done].
    pose proof (Condition.notify_count (notEmpty_ p) k) as N. split; cbn; try done; rewrite ?zlen_app, ?length_app; cbn.
    + intros Hm. change (zlen [task]) with 1. destruct Ef as [Ef|Ef]; lia.
    + intros _ Hb. case_decide; [rewrite N in *; specialize (B3 ltac:(done) Hb); lia|]. specialize (B3 ltac:(done) ltac:(lia)). lia.
    + intros _ Hb. specialize (B4 ltac:(done) Hb). change (zlen [task]) with 1. lia.
    + eapply seated_perm; [|exact B6]. apply members_notify.
Qed.

Lemma take_inv p i s k :
  before p 1 0 -> workers p !! i = Some s -> s <> InTake ->
  inv (take p i k) /\ running_ (take p i k) = running_ p.
Proof.
  intros [B1 B2 B3 B4 B5 B6] Hi Hs. unfold take. destruct (queue_ p) as [|x l] eqn:Eq.
  - destruct (running_ p) eqn:Er; (split; [|done]).
    + destruct (Condition.wait_count (notEmpty_ p) i) as [W1 W2]. split; cbn; try done.
      * lia.
      * intros _ Hb. specialize (B4 ltac:(done) Hb). lia.
      * by eapply seated_sit.
    + split; cbn; try done. by eapply seated_move.
  - split; [|done]. assert (Hz : zlen (x :: l) = zlen l + 1) by (unfold zlen; cbn; lia). rewrite Hz in *.
    pose proof (Condition.notify_count (notFull_ p) k) as N. split; cbn.
    + done.
    + intros Hm. specialize (B2 Hm). lia.
    + intros Hr Hb. specialize (B3 Hr Hb). cbn in B3. lia.
    + intros Hr. destruct (0 <? maxQueueSize_ p) eqn:Em; zbool.
      * case_decide; [rewrite N; lia|]. intros Hb. specialize (B4 Hr ltac:(lia)). lia.
      * intros Hb. specialize (B4 Hr Hb). lia.
    + intros Hr. destruct (B5 Hr) as [E1 E2]. split; [done|]. destruct (0 <? maxQueueSize_ p); [|done].
      rewrite decide_True in N by done. by rewrite N.
    + by eapply seated_move.
Qed.

(** A woken worker is where it may take a task. *)
Lemma take_from p i k s : take p i k = take (set_worker p i s) i k.
Proof.
  unfold take, set_worker. cbn. destruct (queue_ p); [destruct (running_ p)|]; by rewrite list_insert_insert_eq.
Qed.

Definition with_empty p (c : Condition.t nat) : t Task :=
  mk (name_ p) (maxQueueSize_ p) (running_ p) (queue_ p) (workers p) c (notFull_ p).

Lemma resume_inv p i c j k :
  inv p -> Condition.resume (notEmpty_ p) j = Some (i, c) ->
  inv (take (with_empty p c) i k) /\ running_ (take (with_empty p c) i k) = running_ p.
Proof.
  intros [V1 V2 V3 V4 V5 V6] Hr. pose proof (members_resume _ _ _ _ Hr) as Hp. apply Condition.resume_count in Hr as [R1 R2].
  assert (Hi : workers p !! i = Some InTake) by (apply V6; rewrite Hp; by left).
  rewrite (take_from _ i k AtTake). apply (take_inv (set_worker (with_empty p c) i AtTake) i AtTake); [|cbn|done].
  - split; cbn; try done.
    + intros Hr Hb. rewrite R1 in Hb. specialize (V3 Hr Hb). lia.
    + intros Hr Hb. specialize (V4 Hr Hb). lia.
    + intros Hr. rewrite R1. by apply V5.
    + by eapply seated_rise.
  - apply list_lookup_insert_eq. by eapply lookup_lt_Some.
Qed.

(** ** Every step *)

Definition good w : Prop := inv (pool w) /\ accepted w = started w ++ queue_ (pool w).

Lemma did_run_good w p tid task k :
  good w -> queue_ p = queue_ (pool w) -> running_ p = running_ (pool w) -> before p 0 1 ->
  exists w', did_run w task (run_locked p tid task k) = Ok w' /\ good w' /\ workers (pool w') = workers p /\
    running_ (pool w') = running_ (pool w).
Proof.
  intros [I A] Eq Er B. destruct (run_locked_inv p tid task k B) as (r & p' & -> & I' & W & Q & R & _).
  eexists. split; [done|]. split; [|split; [done|cbn; congruence]]. split; [done|]. cbn. rewrite Q, Eq, A.
  destruct r; [done|done|done|by rewrite app_assoc].
Qed.

Lemma pool_did_take_good w p i k :
  accepted w = started w ++ queue_ p -> inv (take p i k) -> good (did_take w p i k).
Proof.
  intros A I. split; [done|]. cbn. rewrite A. unfold take. destruct (queue_ p) as [|x l]; [by destruct (running_ p)|].
  cbn. by rewrite <- app_assoc.
Qed.

Lemma set_worker_inv p i s s' : inv p -> workers p !! i = Some s -> s <> InTake -> s' <> InTake -> inv (set_worker p i s').
Proof. intros [V1 V2 V3 V4 V5 V6] Hi Hs Hs'. split; cbn; try done. by eapply seated_move. Qed.

Lemma stop_inv p : inv p -> inv (stop p).
Proof.
  intros [V1 V2 V3 V4 V5 V6]. split; cbn; try done. eapply seated_perm; [|exact V6]. apply members_notifyAll.
Qed.

Lemma spurious_inv p j : inv p -> inv (with_empty p (Condition.spurious (notEmpty_ p) j)) /\
  inv (mk (name_ p) (maxQueueSize_ p) (running_ p) (queue_ p) (workers p) (notEmpty_ p) (Condition.spurious (notFull_ p) j)).
Proof.
  intros [V1 V2 V3 V4 V5 V6]. split.
  - pose proof (Condition.spurious_count (notEmpty_ p) j) as N. split; cbn; try done.
    + destruct N as [->|[N1 N2]]; [done|]. intros Hr Hb. specialize (V3 Hr ltac:(lia)). lia.
    + intros Hr. destruct (V5 Hr). destruct N as [->|[N1 N2]]; [done|lia].
    + eapply seated_perm; [|exact V6]. apply members_spurious.
  - pose proof (Condition.spurious_count (notFull_ p) j) as N. split; cbn; try done.
    + destruct N as [->|[N1 N2]]; [done|]. intros Hr Hb. specialize (V4 Hr ltac:(lia)). lia.
    + intros Hr. destruct (V5 Hr). destruct N as [->|[N1 N2]]; [done|lia].
Qed.

Lemma pool_step_good w a : good w -> exists w', step w a = Ok w' /\ good w'.
Proof.
  intros G. pose proof G as [I A]. destruct a as [tid task k|j k|i k|j k| |j|j]; cbn [step].
  - unfold run. destruct (bool_decide _); [by eexists|].
    destruct (did_run_good w (pool w) tid task k) as (w' & ? & ? & _); try done; [by apply inv_before|by exists w'].
  - destruct (Condition.resume (notFull_ (pool w)) j) as [[[tid task] c]|] eqn:Er; [|by eexists].
    apply Condition.resume_count in Er as [R1 R2].
    edestruct (did_run_good w) as (w' & Hw & ? & _); [done| | | |exists w'; split; [exact Hw|done]]; try done.
    destruct I as [V1 V2 V3 V4 V5 V6]. split; cbn; try done; rewrite ?R1; try done.
    + intros Hr Hb. specialize (V3 Hr Hb). lia.
    + intros Hr Hb. specialize (V4 Hr Hb). lia.
  - destruct (workers (pool w) !! i) as [[]|] eqn:Ei; try by eexists.
    + eexists. split; [done|]. split; [|done]. unfold test_running. eapply set_worker_inv; [done..|by destruct (running_ _)].
    + eexists. split; [done|]. apply pool_did_take_good; [done|]. eapply take_inv; [by apply inv_before|done..].
    + eexists. split; [done|]. split; [|done]. by eapply set_worker_inv.
  - destruct (Condition.resume (notEmpty_ (pool w)) j) as [[i c]|] eqn:Er; [|by eexists].
    eexists. split; [done|]. apply pool_did_take_good; [done|]. by eapply (resume_inv (pool w)).
  - eexists. split; [done|]. split; [by apply stop_inv|done].
  - eexists. split; [done|]. split; [by apply spurious_inv|done].
  - eexists. split; [done|]. split; [by apply (spurious_inv (pool w))|done].
Qed.

Lemma pool_reachable_good w : reachable w -> good w.
Proof.
  induction 1 as [name maxSize numThreads p names Hi Hm Hs|w a w' _ IH Hs].
  - unfold start in Hs. cbn in Hs. injection Hs as <- _. split; [|done].
    split; cbn; try done; try (unfold Condition.blocked; cbn; lia).
    + unfold u64, uwrap. apply Z.mod_pos_bound. lia.
    + intros ?. change (zlen (@nil Task)) with 0. lia.
    + split; [constructor|]. intros i. split; [by intros ?%elem_of_nil|]. intros Hl.
      apply lookup_replicate in Hl as [? _]. done.
  - destruct (pool_step_good w a IH) as (w'' & E & G). congruence.
Qed.

(** ** Stopping *)

(** How far a worker is from its end once the pool is stopped. *)
Definition rank (s : worker Task) : nat :=
  match s with Exited => 0 | AtTop => 1 | Running _ => 2 | AtTake | InTake => 3 end.
Definition ranks (ws : list (worker Task)) : nat := sum_list_with rank ws.

(** The action is a worker's. *)
Definition worker_moves w (a : action Task) : bool :=
  match a with
  | Worker i _ => match workers (pool w) !! i with Some (AtTop | AtTake | Running _) => true | _ => false end
  | WorkerResume j _ => match Condition.woken (notEmpty_ (pool w)) !! j with Some _ => true | None => false end
  | _ => false
  end.

Lemma ranks_insert ws i s s' : ws !! i = Some s -> (ranks (<[i := s']> ws) + rank s = ranks ws + rank s')%nat.
Proof.
  unfold ranks. revert i. induction ws as [|x ws IH]; intros [|i] Hi; try done; csimpl; [injection Hi as ->; lia|].
  specialize (IH i Hi). lia.
Qed.

Lemma take_ranks p i k s : running_ p = false -> workers p !! i = Some s -> rank s = 3%nat ->
  (ranks (workers (take p i k)) < ranks (workers p))%nat.
Proof.
  intros Hr Hi H3. unfold take. destruct (queue_ p) as [|x l].
  - rewrite Hr. cbn [workers]. pose proof (ranks_insert _ _ _ AtTop Hi) as R. cbn [rank] in R. lia.
  - cbn [workers]. pose proof (ranks_insert _ _ _ (Running x) Hi) as R. cbn [rank] in R. lia.
Qed.

(** After [stop], the workers' steps bring them to their end. *)
Lemma stopped_step w a w' :
  good w -> running_ (pool w) = false -> step w a = Ok w' ->
  running_ (pool w') = false /\
  if worker_moves w a then (ranks (workers (pool w')) < ranks (workers (pool w)))%nat
  else workers (pool w') = workers (pool w).
Proof.
  intros G Hr Hs. pose proof G as [I A]. destruct a as [tid task k|j k|i k|j k| |j|j]; cbn [step worker_moves] in *; cbn zeta in *.
  - unfold run in Hs. destruct (bool_decide _); [by injection Hs as <-|].
    destruct (did_run_good w (pool w) tid task k) as (w1 & E & _ & W & R); try done; [by apply inv_before|].
    rewrite E in Hs. injection Hs as <-. by rewrite R.
  - destruct (Condition.resume (notFull_ (pool w)) j) as [[[tid task] c]|] eqn:Er; [|by injection Hs as <-].
    unfold run_locked in Hs. cbn in Hs. rewrite Hr, andb_false_r in Hs. cbn in Hs. by injection Hs as <-.
  - destruct (workers (pool w) !! i) as [[]|] eqn:Ei; try (by injection Hs as <-).
    + injection Hs as <-. unfold test_running. rewrite Hr. split; [done|].
      pose proof (ranks_insert _ _ _ Exited Ei) as R. cbn [rank] in R. cbn [pool workers set_worker]. lia.
    + injection Hs as <-. cbn. split; [|by eapply take_ranks].
      unfold take. destruct (queue_ (pool w)); [by rewrite Hr|done].
    + injection Hs as <-. split; [done|].
      pose proof (ranks_insert _ _ _ AtTop Ei) as R. cbn [rank] in R. unfold task_returns. cbn [pool workers set_worker]. lia.
  - destruct (Condition.woken (notEmpty_ (pool w)) !! j) as [i|] eqn:Ej; unfold Condition.resume in Hs; rewrite Ej in Hs; [|by injection Hs as <-].
    injection Hs as <-. assert (Hi : workers (pool w) !! i = Some InTake).
    { apply (v_seated (pool w) I). apply elem_of_app. right. by eapply list_elem_of_lookup_2. }
    cbn. split; [|by eapply (take_ranks (with_empty (pool w) _))].
    unfold take. cbn. destruct (queue_ (pool w)); [by rewrite Hr|done].
  - by injection Hs as <-.
  - by injection Hs as <-.
  - by injection Hs as <-.
Qed.

Lemma ranks_zero ws : ranks ws = 0%nat <-> Forall (fun s => s = Exited) ws.
Proof.
  induction ws as [|s ws IH]; cbn; [done|]. rewrite Forall_cons, <- IH. unfold ranks. cbn. destruct s; cbn; naive_solver lia.
Qed.

(** A worker that has not exited can move. *)
Lemma stopped_progress w : good w -> running_ (pool w) = false -> ranks (workers (pool w)) <> 0%nat -> exists a, worker_moves w a = true.
Proof.
  intros [I A] Hr Hz. destruct (v_stopped _ I Hr) as [Hb _].
  assert (Hex : exists i s, workers (pool w) !! i = Some s /\ s <> Exited).
  { rewrite ranks_zero in Hz. apply not_Forall_Exists in Hz; [|intros []; (by left) || (by right)].
    apply Exists_exists in Hz as (s & [i Hi]%list_elem_of_lookup & Hs). by exists i, s. }
  destruct Hex as (i & s & Hi & Hs). destruct s; try done.
  1,2,4: exists (Worker i 0); cbn; by rewrite Hi.
  destruct (v_seated _ I) as [_ Hm]. apply Hm in Hi. unfold members in Hi. unfold Condition.blocked in Hb.
  apply length_zero_iff_nil in Hb. rewrite Hb in Hi. cbn in Hi. apply list_elem_of_lookup in Hi as [j Hj].
  exists (WorkerResume j 0). cbn. by rewrite Hj.
Qed.

(** C11: the thread pool under any interleaving of callers, workers, wakeups and
    [stop].  (1) Every step succeeds.  (2) Tasks are handed to workers in the
    order in which they were accepted, none lost or repeated, and a bounded
    queue stays within its bound.  (3) While it runs, workers are all blocked
    only with the queue empty, and callers only with it full, unless a woken
    thread is on its way.  (4) Once stopped no thread is blocked, a worker that
    has not exited always has a step, and every step of a worker lowers a rank
    that starts at no more than three times the number of workers and that
    nothing raises: so the joins of [stop] return. *)
Theorem pool_stops w :
  reachable w ->
  (forall a, exists w', step w a = Ok w') /\
  accepted w = started w ++ queue_ (pool w) /\
  (0 < maxQueueSize_ (pool w) -> zlen (queue_ (pool w)) <= maxQueueSize_ (pool w)) /\
  (running_ (pool w) = true ->
     (Condition.woken (notEmpty_ (pool w)) = [] -> Condition.waiting (notEmpty_ (pool w)) <> [] -> queue_ (pool w) = []) /\
     (Condition.woken (notFull_ (pool w)) = [] -> Condition.waiting (notFull_ (pool w)) <> [] ->
        zlen (queue_ (pool w)) = maxQueueSize_ (pool w))) /\
  (running_ (pool w) = false ->
     Condition.waiting (notEmpty_ (pool w)) = [] /\ Condition.waiting (notFull_ (pool w)) = [] /\
     (ranks (workers (pool w)) <= 3 * length (workers (pool w)))%nat /\
     (ranks (workers (pool w)) = 0%nat <-> Forall (fun s => s = Exited) (workers (pool w))) /\
     (ranks (workers (pool w)) <> 0%nat -> exists a, worker_moves w a = true) /\
     (forall a w', step w a = Ok w' -> running_ (pool w') = false /\
        if worker_moves w a then (ranks (workers (pool w')) < ranks (workers (pool w)))%nat
        else workers (pool w') = workers (pool w))).
Proof.
  intros G%pool_reachable_good. pose proof G as [I A]. split; [|split; [done|split; [apply I|split]]].
  - intros a. destruct (pool_step_good w a G) as (w' & ? & _). by exists w'.
  - intros Hr. split; intros Hk Hb.
    + pose proof (v_empty _ I Hr) as V. unfold Condition.blocked, Condition.ready in V. rewrite Hk in V.
      destruct (Condition.waiting _); [done|]. cbn in V. apply length_zero_iff_nil. lia.
    + pose proof (v_full _ I Hr) as V. pose proof (v_bound _ I). unfold Condition.blocked, Condition.ready in V. rewrite Hk in V.
      destruct (Condition.waiting (notFull_ _)); [done|]. cbn in V. lia.
  - intros Hr. destruct (v_stopped _ I Hr) as [B1 B2]. unfold Condition.blocked in *.
    split; [by apply length_zero_iff_nil|]. split; [by apply length_zero_iff_nil|]. split_and!.
    + induction (workers (pool w)) as [|s ws IH]; cbn; [done|]. unfold ranks in *. cbn. assert (rank s <= 3)%nat by (destruct s; cbn; lia). lia.
    + apply ranks_zero.
    + by apply stopped_progress.
    + intros a w'. by apply stopped_step.
Qed.

End Facts.

(** Two workers, a task, and a stop that all survive. *)
Definition sample_pool : world Z :=
  mk_world (mk (bs "p") 1 true [] (replicate 2 AtTop) Condition.new Condition.new) [] [].
Fixpoint run_steps (w : world Z) (l : list (action Z)) : res (world Z) :=
  match l with [] => Ok w | a :: l => w ← step w a; run_steps w l end.
Definition sample_steps : list (action Z) :=
  [Worker 0 0; Worker 0 0; Worker 1 0; Worker 1 0; Run 9 42 1; WorkerResume 0 0; Stop; WorkerResume 0 0; Worker 0 0; Worker 1 0; Worker 1 0; Worker 0 0].

Lemma run_steps_reachable w l w' : reachable w -> run_steps w l = Ok w' -> reachable w'.
Proof.
  revert w. induction l as [|a l IH]; cbn; intros w Hw Hr; [by injection Hr as <-|].
  apply res_bind_Ok in Hr as (w1 & Hs & Hr). eapply IH; [|done]. by eapply reach_step.
Qed.

Lemma pool_stops_witness :
  exists w, run_steps sample_pool sample_steps = Ok w /\ accepted w = started w ++ queue_ (pool w) /\ started w = [42] /\
    Forall (fun s => s = Exited) (workers (pool w)).
Proof.
  destruct (run_steps sample_pool sample_steps) as [w|] eqn:E; [|vm_compute in E; discriminate E].
  exists w. split; [reflexivity|].
  assert (Hr : reachable w).
  { eapply run_steps_reachable; [|exact E]. eapply (reach_start (bs "p") 1 2); [|done|reflexivity]. unfold in_int, int_min, int_max. lia. }
  destruct (pool_stops w Hr) as (_ & H2 & _ & _ & H5). split; [exact H2|].
  vm_compute in E. injection E as <-. split; [reflexivity|]. destruct (H5 eq_refl) as (_ & _ & _ & H6 & _). apply H6. reflexivity.
Defined.

End PoolFacts.
