(* ===== verification/LogFile.v ===== *)
(** Log files (src/utility/FileUtil.h, FileUtil.cpp, LogFile.h, LogFile.cpp): a
    file that is appended to, and a log that rolls over to a new file by size and
    by day.

    A file is what its stream was given, and how much of that was handed to the
    kernel for certain, by a flush or by closing it.  What fwrite(3) answers, and the readings of time(3), are arguments;
    [gmtime_r], the host's name and the process's id are parameters. *)

From S2P Require Import Prelude Printf Date Timestamp.

(** ** [FileUtil::AppendFile] *)
Module AppendFile.

Record t := mk {
  filename : list byte;
  data : list byte;                    (* what the stream was given so far *)
  writtenBytes_ : Z;
  flushed : Z;                         (* so many of them the kernel has for certain *)
}.

(** The constructor, when fopen succeeds or not. *)
Definition new (name : list byte) (fopen : bool) : res t := assert! fopen; Ok (mk name [] 0 0).

(** The loop of [append]: each element of [answers] is what one call of fwrite
    returns, and whether the stream is then in error; [None] when the loop goes
    on beyond them. *)
Fixpoint append_loop (f : t) (logline : list byte) (written : Z) (answers : list (Z * bool)) : option (t * Z) :=
  if written =? zlen logline then Some (f, written)
  else
    match answers with
    | [] => None
    | (n, err) :: answers =>
        let remain := zlen logline - written in
        let f := mk (filename f) (data f ++ slice logline written n) (writtenBytes_ f) (flushed f) in
        if negb (n =? remain) && err then Some (f, written)
        else append_loop f logline (written + n) answers
    end.
Definition append (f : t) (logline : list byte) (answers : list (Z * bool)) : option t :=
  match append_loop f logline 0 answers with
  | Some (f, written) => Some (mk (filename f) (data f) (writtenBytes_ f + written) (flushed f))
  | None => None
  end.

(** [flush], and the destructor, whose fclose flushes. *)
Definition flush (f : t) : t := mk (filename f) (data f) (writtenBytes_ f) (zlen (data f)).
Definition destroy (f : t) : t := flush f.

(** What has left the stream's buffer. *)
Definition on_disk (f : t) : list byte := take (Z.to_nat (flushed f)) (data f).

Lemma on_disk_flush f : on_disk (flush f) = data f.
Proof. unfold on_disk, flush, zlen. cbn [flushed data]. rewrite Nat2Z.id. by apply take_ge. Qed.

(** A stream that takes all it is given. *)
Lemma append_all f logline answers :
  match answers with (n, err) :: _ => n = zlen logline | [] => logline = [] end ->
  append f logline answers = Some (mk (filename f) (data f ++ logline) (writtenBytes_ f + zlen logline) (flushed f)).
Proof.
  intros Ha. unfold append. destruct logline as [|b l] eqn:El.
  - destruct answers; cbn; by rewrite app_nil_r.
  - rewrite <- El in *. assert (Hz : 0 < zlen logline) by (rewrite El; unfold zlen; cbn; lia).
    destruct answers as [|[n err] answers]; [by rewrite El in Ha|]. subst n.
    cbn [append_loop]. rewrite (proj2 (Z.eqb_neq 0 (zlen logline))) by lia. rewrite Z.sub_0_r, Z.eqb_refl. cbn [negb andb].
    destruct answers as [|a answers]; cbn [append_loop]; rewrite Z.add_0_l, Z.eqb_refl; cbn; by rewrite slice_all.
Qed.

End AppendFile.

(** ** [LogFile] *)
Module LogFile.
Section LogFile.
Context (gmtime_r : Z -> Timestamp.tm) (hostname : list byte) (pid : Z).

Record t := mk {
  basename_ : list byte;
  rollSize_ : Z;
  flushInterval_ : Z;
  checkEveryN_ : Z;
  count_ : Z;
  startOfPeriod_ : Z;
  lastRoll_ : Z;
  lastFlush_ : Z;
  file_ : AppendFile.t;
  closed : list AppendFile.t;           (* files of earlier rolls, oldest first *)
}.

Definition kRollPerSeconds_ : Z := 60 * 60 * 24.

Definition getLogFileName (basename : list byte) (now : Z) : list byte :=
  let tm := gmtime_r now in
  basename ++ bs "." ++ dec (Timestamp.tm_year tm + 1900) ++ fmt_0 2 (Timestamp.tm_mon tm + 1) ++ fmt_0 2 (Timestamp.tm_mday tm) ++ bs "-"
    ++ fmt_0 2 (Timestamp.tm_hour tm) ++ fmt_0 2 (Timestamp.tm_min tm) ++ fmt_0 2 (Timestamp.tm_sec tm) ++ bs "."
    ++ hostname ++ snprintf 32 (bs "." ++ dec pid) ++ bs ".log".

(** [rollFile] at time [now]; the new file's fopen is assumed to succeed or
    the assertion in its constructor fails. *)
Definition rollFile (f : t) (now : Z) (fopen : bool) : res (bool * t) :=
  let filename := getLogFileName (basename_ f) now in
  let start := now `quot` kRollPerSeconds_ * kRollPerSeconds_ in
  if lastRoll_ f <? now then
    file ← AppendFile.new filename fopen;
    Ok (true, mk (basename_ f) (rollSize_ f) (flushInterval_ f) (checkEveryN_ f) (count_ f) start now now file (closed f ++ [AppendFile.destroy (file_ f)]))
  else Ok (false, f).

(** The constructor, at time [now]; there is no file before its roll. *)
Definition new (basename : list byte) (rollSize flushInterval checkEveryN now : Z) (fopen : bool) : res t :=
  assert! bool_decide (x2f ∉ basename);
  let start := now `quot` kRollPerSeconds_ * kRollPerSeconds_ in
  if 0 <? now then
    file ← AppendFile.new (getLogFileName basename now) fopen;
    Ok (mk basename rollSize flushInterval checkEveryN 0 start now now file [])
  else Err Undefined.                   (* [file_] stays null *)

Definition set_count (f : t) (n : Z) : t :=
  mk (basename_ f) (rollSize_ f) (flushInterval_ f) (checkEveryN_ f) n (startOfPeriod_ f) (lastRoll_ f) (lastFlush_ f) (file_ f) (closed f).
Definition set_file (f : t) (a : AppendFile.t) : t :=
  mk (basename_ f) (rollSize_ f) (flushInterval_ f) (checkEveryN_ f) (count_ f) (startOfPeriod_ f) (lastRoll_ f) (lastFlush_ f) a (closed f).
Definition set_lastFlush (f : t) (now : Z) : t :=
  mk (basename_ f) (rollSize_ f) (flushInterval_ f) (checkEveryN_ f) (count_ f) (startOfPeriod_ f) (lastRoll_ f) now (file_ f) (closed f).

(** What one [append] sees of the outside: fwrite's answers for its data, the time when it
    checks the period, the time when it rolls, and fopen's success. *)
Record env := mk_env { answers : list byte -> list (Z * bool); now_check : Z; now_roll : Z; fopen : bool }.

Definition flush (f : t) : t := set_file f (AppendFile.flush (file_ f)).

(** [append_unlocked] *)
Definition append (f : t) (logline : list byte) (e : env) : res t :=
  match AppendFile.append (file_ f) logline (answers e logline) with
  | None => Err Undefined
  | Some file =>
      let f := set_file f file in
      if rollSize_ f <? AppendFile.writtenBytes_ file then
        '(_, f) ← rollFile f (now_roll e) (fopen e); Ok f
      else
        count ← check_ints [count_ f + 1] (count_ f + 1);
        let f := set_count f count in
        if checkEveryN_ f <=? count_ f then
          let f := set_count f 0 in
          let now := now_check e in
          let thisPeriod := now `quot` kRollPerSeconds_ * kRollPerSeconds_ in
          if negb (thisPeriod =? startOfPeriod_ f) then
            '(_, f) ← rollFile f (now_roll e) (fopen e); Ok f
          else if flushInterval_ f <? now - lastFlush_ f then Ok (flush (set_lastFlush f now))
          else Ok f
        else Ok f
  end.

(** Everything in the log, oldest first. *)
Definition contents (f : t) : list byte := concat (map AppendFile.data (closed f ++ [file_ f])).

(** What of it is with the kernel; the files of earlier rolls are there whole. *)
Definition durable (f : t) : list byte := concat (map AppendFile.on_disk (closed f ++ [file_ f])).
Definition settled (f : t) : Prop := Forall (fun a => AppendFile.on_disk a = AppendFile.data a) (closed f).

Lemma settled_data f : settled f -> map AppendFile.on_disk (closed f) = map AppendFile.data (closed f).
Proof. intros H. induction H as [|a l E _ IH]; cbn; [done|]. by rewrite E, IH. Qed.

(** What is with the kernel is the front of the log, and all of it after a flush. *)
Lemma durable_prefix f : settled f -> durable f `prefix_of` contents f.
Proof.
  intros H. unfold durable, contents. rewrite !map_app, !concat_app, settled_data by done. apply prefix_app. cbn. rewrite !app_nil_r.
  eexists. symmetry. apply take_drop.
Qed.
Lemma flush_contents f : contents (flush f) = contents f.
Proof. unfold contents. cbn. by rewrite !map_app. Qed.
Lemma flush_durable f : settled f -> durable (flush f) = contents f /\ contents (flush f) = contents f.
Proof.
  intros H. unfold durable, contents. cbn. rewrite !map_app, !concat_app, settled_data by done. cbn. by rewrite AppendFile.on_disk_flush.
Qed.

Lemma roll_settled f now fo b f' : rollFile f now fo = Ok (b, f') -> settled f -> settled f'.
Proof.
  unfold rollFile, AppendFile.new. destruct (lastRoll_ f <? now); [|by intros [= <- <-]].
  destruct fo; cbn; [|done]. intros [= <- <-] H. apply Forall_app. split; [done|]. constructor; [exact (AppendFile.on_disk_flush (file_ f))|constructor].
Qed.

Lemma append_settled f logline e f' : append f logline e = Ok f' -> settled f -> settled f'.
Proof.
  unfold append. intros E H. destruct (AppendFile.append _ _ _) as [file|]; [|done]. destruct (_ <? _).
  - res_inv. destruct a as [b g]. res_inv. by eapply roll_settled.
  - res_inv. destruct (_ <=? _); [|by res_inv]. destruct (negb _).
    + res_inv. destruct a0 as [b g]. res_inv. by eapply roll_settled.
    + destruct (_ <? _); by res_inv.
Qed.

Lemma roll_contents f now fo b f' : rollFile f now fo = Ok (b, f') -> contents f' = contents f /\ (b = true -> AppendFile.data (file_ f') = []).
Proof.
  unfold rollFile, contents, AppendFile.new. destruct (lastRoll_ f <? now); [|by intros [= <- <-]].
  destruct fo; cbn; [|done]. intros [= <- <-]. cbn. rewrite !map_app, !concat_app. cbn. by rewrite !app_nil_r.
Qed.

(** A whole line is appended to the log, whether it rolls or not, on a disk
    whose files open and which takes all it is given. *)
Definition disk_ok (e : env) : Prop :=
  fopen e = true /\ forall l, match answers e l with (n, _) :: _ => n = zlen l | [] => l = [] end.
Lemma append_contents f logline e :
  disk_ok e -> 0 <= count_ f < checkEveryN_ f -> checkEveryN_ f <= int_max ->
  exists f', append f logline e = Ok f' /\ contents f' = contents f ++ logline /\ 0 <= count_ f' < checkEveryN_ f' /\
    checkEveryN_ f' = checkEveryN_ f.
Proof.
  intros [Hf Ha] Hc Hm. unfold append. rewrite AppendFile.append_all by apply Ha. rewrite Hf.
  set (file := AppendFile.mk _ _ _ _).
  assert (Hset : contents (set_file f file) = contents f ++ logline).
  { unfold contents. cbn. rewrite !map_app, !concat_app. cbn. by rewrite !app_nil_r, app_assoc. }
  assert (Hroll : forall g now, count_ g = count_ f \/ count_ g = 0 -> checkEveryN_ g = checkEveryN_ f -> contents g = contents f ++ logline ->
    exists f', ('(_, f0) ← rollFile g now true; Ok f0) = Ok f' /\ contents f' = contents f ++ logline /\ 0 <= count_ f' < checkEveryN_ f' /\
      checkEveryN_ f' = checkEveryN_ f).
  { intros g now Hg Hk Hco. destruct (rollFile g now true) as [[b g']|] eqn:Er; unfold rollFile in Er; cbn in Er.
    - cbn. exists g'. split; [done|]. pose proof (roll_contents g now true b g' Er) as [Hc' _]. rewrite Hc'. split; [done|].
      destruct (lastRoll_ g <? now); injection Er as <- <-; cbn; rewrite Hk; lia.
    - destruct (lastRoll_ g <? now); done. }
  destruct (rollSize_ _ <? _); [apply Hroll; [by left|done|done]|].
  cbn [count_ set_file]. rewrite check_ints_ok by (constructor; [unfold in_int, int_min, int_max in *; lia|constructor]). cbn [mbind res_bind].
  cbn [checkEveryN_ set_count set_file count_]. destruct (checkEveryN_ f <=? count_ f + 1) eqn:En; zbool.
  - destruct (negb _); [apply Hroll; [by right|done|done]|].
    destruct (_ <? _); (eexists; split; [done|]; split; [rewrite ?flush_contents; exact Hset|]); cbn; lia.
  - eexists. split; [done|]. split; [exact Hset|]. cbn. lia.
Qed.

End LogFile.
End LogFile.
