(* ===== verification/AsyncLogging.v ===== *)
(** Asynchronous logging (src/utility/AsyncLogging.h, AsyncLogging.cpp): threads
    append lines to buffers under a mutex; a back end swaps the buffers out and
    writes them to a log file outside of it.

    The buffers' size is a parameter; the code's is [LogStream.kLargeBuffer].
    The back end is where it is between two steps: a step is what it does under
    the mutex, or what it does outside of it up to the next test of [running_].
    Its wait of [flushInterval_] ends at any time. *)

From S2P Require Import Prelude Printf Date Timestamp LogStream LogFile.

Module AsyncLogging.
Section Logging.
Context (SIZE : Z) (gmtime_r : Z -> Timestamp.tm) (hostname : list byte) (pid : Z).

Definition Buffer : Type := FixedBuffer.t.

(** Where the back end is: at the loop's test, or with buffers to write. *)
Inductive stage := AtLoop | AtWrite | Exited.
#[global] Instance stage_eq_dec : EqDecision stage.
Proof. solve_decision. Defined.

Record t := mk {
  running_ : bool;
  currentBuffer_ : Buffer;
  nextBuffer_ : option Buffer;
  buffers_ : list Buffer;
  newBuffer1 : option Buffer;
  newBuffer2 : option Buffer;
  buffersToWrite : list Buffer;
  output : LogFile.t;
  at_ : stage;
}.

(** A new buffer holds garbage. *)
Definition new_buffer (garbage : list byte) : Buffer := FixedBuffer.new garbage.
Definition zeroed : Buffer := FixedBuffer.bZero (new_buffer (replicate (Z.to_nat SIZE) x00)).

(** The constructor, [start], and the thread up to its loop. *)
Definition start (out : LogFile.t) : t :=
  mk true zeroed (Some zeroed) [] (Some zeroed) (Some zeroed) [] out AtLoop.

Definition append (s : t) (logline : list byte) (garbage : list byte) : res t :=
  if zlen logline <? FixedBuffer.avail (currentBuffer_ s) then
    b ← FixedBuffer.append (currentBuffer_ s) logline;
    Ok (mk (running_ s) b (nextBuffer_ s) (buffers_ s) (newBuffer1 s) (newBuffer2 s) (buffersToWrite s) (output s) (at_ s))
  else
    let buffers := buffers_ s ++ [currentBuffer_ s] in
    let current := match nextBuffer_ s with Some b => b | None => new_buffer garbage end in
    b ← FixedBuffer.append current logline;
    Ok (mk (running_ s) b None buffers (newBuffer1 s) (newBuffer2 s) (buffersToWrite s) (output s) (at_ s)).

Definition stop (s : t) : t :=
  mk false (currentBuffer_ s) (nextBuffer_ s) (buffers_ s) (newBuffer1 s) (newBuffer2 s) (buffersToWrite s) (output s) (at_ s).

Definition empty (b : option Buffer) : bool := match b with Some b => FixedBuffer.length b =? 0 | None => false end.

(** The loop's test, its assertions, and the critical section. *)
Definition collect (s : t) : res t :=
  if running_ s then
    assert! empty (newBuffer1 s);
    assert! empty (newBuffer2 s);
    assert! bool_decide (buffersToWrite s = []);
    match newBuffer1 s with
    | None => Err Undefined
    | Some b1 =>
        let buffers := buffers_ s ++ [currentBuffer_ s] in
        let '(next, new2) := match nextBuffer_ s with Some b => (Some b, newBuffer2 s) | None => (newBuffer2 s, None) end in
        Ok (mk (running_ s) b1 next [] None new2 buffers (output s) AtWrite)
    end
  else Ok (mk (running_ s) (currentBuffer_ s) (nextBuffer_ s) (buffers_ s) (newBuffer1 s) (newBuffer2 s) (buffersToWrite s) (LogFile.flush (output s)) Exited).

(** The message that replaces buffers when there are more than 25. *)
Definition dropped_message (now : Timestamp.t) (n : Z) : list byte :=
  snprintf 256 (bs "Dropped log message at " ++ Timestamp.toFormattedString gmtime_r now true ++ bs ", " ++ dec n ++ bs " larger buffers" ++ [x0a]).

(** The buffers are appended to the file, with what each append sees. *)
Fixpoint write_all (out : LogFile.t) (l : list Buffer) (envs : nat -> LogFile.env) (i : nat) : res LogFile.t :=
  match l with
  | [] => Ok out
  | b :: l => out ← LogFile.append gmtime_r hostname pid out (FixedBuffer.toString b) (envs i); write_all out l envs (S i)
  end.

(** [std::move(buffersToWrite.back())], [pop_back()], [reset()]. *)
Definition refill (new : option Buffer) (l : list Buffer) : res (option Buffer * list Buffer) :=
  match new with
  | Some b => Ok (Some b, l)
  | None =>
      assert! negb (bool_decide (l = []));
      match last l with
      | Some b => Ok (Some (FixedBuffer.reset b), take (length l - 1) l)
      | None => Err Undefined
      end
  end.

(** Outside the mutex: writing, and back to the loop's test. *)
Definition write (s : t) (now : Timestamp.t) (envs : nat -> LogFile.env) : res t :=
  let l := buffersToWrite s in
  assert! negb (bool_decide (l = []));
  '(out, l) ← (if 25 <? zlen l
               then out ← LogFile.append gmtime_r hostname pid (output s) (dropped_message now (zlen l - 2)) (envs 0%nat);
                    Ok (out, take 2 l)
               else Ok (output s, l));
  out ← write_all out l envs 1;
  let l := if 2 <? zlen l then take 2 l else l in
  '(new1, l) ← refill (newBuffer1 s) l;
  '(new2, l) ← refill (newBuffer2 s) l;
  Ok (mk (running_ s) (currentBuffer_ s) (nextBuffer_ s) (buffers_ s) new1 new2 [] (LogFile.flush out) AtLoop).

(** ** The logger at work *)

Inductive action :=
  | Append (logline garbage : list byte)
  | Backend (now : Timestamp.t) (envs : nat -> LogFile.env)
  | Stop.

(** The logger, the lines appended, and whether buffers were ever dropped. *)
Record world := mk_world { log : t; lines : list (list byte); dropped : bool }.

Definition step (w : world) (a : action) : res world :=
  let s := log w in
  match a with
  | Append logline garbage => s ← append s logline garbage; Ok (mk_world s (lines w ++ [logline]) (dropped w))
  | Backend now envs =>
      match at_ s with
      | AtLoop => s ← collect s; Ok (mk_world s (lines w) (dropped w))
      | AtWrite => s' ← write s now envs; Ok (mk_world s' (lines w) (dropped w || (25 <? zlen (buffersToWrite s))))
      | Exited => Ok w
      end
  | Stop => Ok (mk_world (stop s) (lines w) (dropped w))
  end.

Fixpoint run (w : world) (l : list action) : res world :=
  match l with [] => Ok w | a :: l => w ← step w a; run w l end.

End Logging.
End AsyncLogging.
