(* ===== verification/AsyncFacts.v ===== *)
(** Facts about asynchronous logging: no assertion fails, and every line reaches
    the files in order unless buffers are dropped (src/utility/AsyncLogging.cpp). *)

From S2P Require Import Prelude Printf Date Timestamp LogStream LogFile AsyncLogging.

Module AsyncFacts.
Import AsyncLogging.
Section Facts.
Context (SIZE : Z) (gmtime_r : Z -> Timestamp.tm) (hostname : list byte) (pid : Z).
Hypothesis SIZE_pos : 0 < SIZE <= int_max.

Abbreviation content := LogStream.content.
Definition good (b : Buffer) : Prop := FixedBuffer.wf SIZE b.
Definition blank (b : Buffer) : Prop := good b /\ FixedBuffer.cur_ b = 0.

(** Lines that fit in a buffer; [append] ignores the others. *)
Definition fits (l : list byte) : Prop := zlen l < SIZE.
#[local] Instance fits_dec l : Decision (fits l).
Proof. unfold fits. apply _. Defined.
Definition kept (ls : list (list byte)) : list byte := concat (filter fits ls).

Definition counting (f : LogFile.t) : Prop :=
  (0 <= LogFile.count_ f < LogFile.checkEveryN_ f /\ LogFile.checkEveryN_ f <= int_max) /\ LogFile.settled f.

Record inv (s : t) : Prop := {
  v_current : good (currentBuffer_ s);
  v_buffers : Forall good (buffers_ s);
  v_writing : Forall good (buffersToWrite s);
  v_next : match nextBuffer_ s with Some b => blank b | None => buffers_ s <> [] end;
  v_output : counting (output s);
  v_durable : at_ s <> AtWrite -> LogFile.durable (output s) = LogFile.contents (output s);
  v_stage : match at_ s with
    | AtWrite => newBuffer1 s = None /\ buffersToWrite s <> [] /\
        match newBuffer2 s with Some b => blank b | None => (2 <= length (buffersToWrite s))%nat end
    | _ => (exists b1 b2, newBuffer1 s = Some b1 /\ blank b1 /\ newBuffer2 s = Some b2 /\ blank b2) /\ buffersToWrite s = []
    end;
}.

(** Everything the logger holds, from the oldest file to the current buffer. *)
Definition held (s : t) : list byte :=
  LogFile.contents (output s) ++ concat (map content (buffersToWrite s ++ buffers_ s ++ [currentBuffer_ s])).

Lemma blank_content b : blank b -> content b = [].
Proof. intros [_ H]. unfold LogStream.content. by rewrite H. Qed.

Lemma blank_new g : zlen g = SIZE -> blank (new_buffer g).
Proof. intros Hg. split; [|done]. unfold good, FixedBuffer.wf. cbn. lia. Qed.

Lemma blank_zeroed : blank (zeroed SIZE).
Proof.
  split; [|done]. unfold good, FixedBuffer.wf, zeroed, FixedBuffer.bZero. cbn. rewrite zlen_replicate, length_replicate. lia.
Qed.

Lemma toString_content b : good b -> FixedBuffer.toString b = content b.
Proof.
  intros (Hs & Hc & Hm). unfold FixedBuffer.toString, LogStream.content, FixedBuffer.length.
  rewrite i32_small; [done|]. unfold in_int, int_min, int_max in *. lia.
Qed.

Lemma blank_reset b : good b -> blank (FixedBuffer.reset b).
Proof. intros (Hs & Hc & Hm). split; [|done]. unfold good, FixedBuffer.wf. cbn. lia. Qed.

Lemma empty_blank b : blank b -> empty (Some b) = true.
Proof. intros [_ H]. cbn. unfold FixedBuffer.length. by rewrite H. Qed.

(** ** The front end *)

Lemma concat_snoc (ls : list (list byte)) x : concat (ls ++ [x]) = concat ls ++ x.
Proof. rewrite concat_app. cbn. by rewrite app_nil_r. Qed.

Lemma kept_snoc ls x : kept (ls ++ [x]) = kept ls ++ (if decide (fits x) then x else []).
Proof.
  unfold kept. rewrite filter_app. case_decide.
  - rewrite filter_cons_True by done. by rewrite filter_nil, concat_snoc.
  - rewrite filter_cons_False by done. by rewrite filter_nil, !app_nil_r.
Qed.

(** What an append adds to a buffer. *)
Lemma buffer_append b l :
  good b -> exists b', FixedBuffer.append b l = Ok b' /\ good b' /\
    content b' = content b ++ (if decide (zlen l < SIZE - FixedBuffer.cur_ b) then l else []).
Proof.
  intros Hb. destruct (LogStream.append_spec SIZE b l Hb) as (b' & E & W & C). exists b'. split; [done|]. split; [done|].
  rewrite C. destruct (zlen l <? _) eqn:El; zbool; [by rewrite decide_True|]. rewrite decide_False by lia. by rewrite app_nil_r.
Qed.

Lemma append_inv s l g :
  inv s -> zlen g = SIZE ->
  exists s', append s l g = Ok s' /\ inv s' /\ held s' = held s ++ (if decide (fits l) then l else []).
Proof.
  intros [V1 V2 V3 V4 V5 V6] Hg. unfold append.
  destruct (LogStream.avail_wf SIZE (currentBuffer_ s) V1) as (Ha & _ & _). rewrite Ha.
  pose proof V1 as (_ & Hc & _).
  destruct (zlen l <? SIZE - FixedBuffer.cur_ (currentBuffer_ s)) eqn:El; zbool.
  - destruct (buffer_append (currentBuffer_ s) l V1) as (b & -> & W & C). eexists. split; [done|]. split; [by split|].
    unfold held. cbn. rewrite !map_app, !concat_app. cbn. rewrite C, !app_nil_r, decide_True by done.
    rewrite decide_True by (unfold fits; lia). by rewrite !app_assoc.
  - set (b0 := match nextBuffer_ s with Some b => b | None => _ end).
    assert (Hb0 : blank b0) by (unfold b0; destruct (nextBuffer_ s); [done|by apply blank_new]).
    destruct (buffer_append b0 l (proj1 Hb0)) as (b & -> & W & C). eexists. split; [done|]. split.
    + split; cbn; try done; [by apply Forall_app_2, Forall_singleton|by destruct (buffers_ s)].
    + unfold held. cbn. rewrite !map_app, !concat_app. cbn. rewrite C, (blank_content b0 Hb0), (proj2 Hb0), Z.sub_0_r. cbn.
      unfold fits. by rewrite !app_nil_r, !app_assoc.
Qed.

(** ** The back end *)

Lemma collect_inv s : inv s -> at_ s = AtLoop -> exists s', collect s = Ok s' /\ inv s' /\ held s' = held s.
Proof.
  intros [V1 V2 V3 V4 V5 V7 V6] Hat. rewrite Hat in V6. destruct V6 as [(b1 & b2 & E1 & B1 & E2 & B2) Ew]. unfold collect.
  destruct (running_ s).
  - rewrite E1, E2, Ew. rewrite !empty_blank by done. cbn [assert_ mbind res_bind].
    rewrite assert_true by (by apply bool_decide_true).
    assert (Hh : forall next new2, held (mk true b1 next [] None new2 (buffers_ s ++ [currentBuffer_ s]) (output s) AtWrite) = held s).
    { intros next new2. unfold held. cbn. rewrite Ew. cbn. rewrite !map_app, !concat_app. cbn.
      by rewrite (blank_content b1 B1), !app_nil_r. }
    assert (Hg : Forall good (buffers_ s ++ [currentBuffer_ s])) by (by apply Forall_app_2, Forall_singleton).
    destruct (nextBuffer_ s) as [b|]; (eexists; split; [done|]; split; [|apply Hh]); split; cbn; try done; try apply B1.
    + split; [done|]. split; [by destruct (buffers_ s)|done].
    + split; [done|]. split; [by destruct (buffers_ s)|]. rewrite length_app. cbn. destruct (buffers_ s); [done|]. cbn. lia.
  - destruct (LogFile.flush_durable (output s) (proj2 V5)) as [Hd1 Hd2]. eexists. split; [done|]. split; [|unfold held; cbn [output]; by rewrite Hd2].
    split; cbn [currentBuffer_ buffers_ buffersToWrite nextBuffer_ output at_ newBuffer1 newBuffer2]; try done; [by rewrite Hd1, Hd2|]. split; [by exists b1, b2|done].
Qed.

Lemma write_all_ok l out envs i :
  Forall good l -> counting out -> (forall i, LogFile.disk_ok (envs i)) ->
  exists out', write_all gmtime_r hostname pid out l envs i = Ok out' /\ counting out' /\
    LogFile.contents out' = LogFile.contents out ++ concat (map content l).
Proof.
  intros Hl. revert out i. induction Hl as [|b l Hb Hl IH]; intros out i [[Ho Hm] Hst] He; cbn.
  - exists out. by rewrite app_nil_r.
  - rewrite (toString_content b Hb).
    destruct (LogFile.append_contents gmtime_r hostname pid out (content b) (envs i) (He i) Ho Hm) as (out1 & E1 & C1 & K1 & N1).
    pose proof (LogFile.append_settled _ _ _ _ _ _ _ E1 Hst) as Hst1. rewrite E1.
    destruct (IH out1 (S i)) as (out' & E & K & C); [split; [split; [done|lia]|done]|done|]. cbn [mbind res_bind]. rewrite E.
    exists out'. split; [done|]. split; [done|]. by rewrite C, C1, app_assoc.
Qed.

Lemma refill_some b l : refill (Some b) l = Ok (Some b, l).
Proof. done. Qed.
Lemma refill_none l x : refill None (l ++ [x]) = Ok (Some (FixedBuffer.reset x), l).
Proof.
  unfold refill. rewrite bool_decide_false by (by destruct l). cbn. rewrite last_snoc, length_app. cbn.
  rewrite Nat.add_sub, take_app_le, firstn_all by lia. done.
Qed.

(** One or two buffers are kept to become the spare ones again. *)
Lemma refills l new2 :
  Forall good l -> (1 <= length l <= 2)%nat -> match new2 with Some b => blank b | None => length l = 2%nat end ->
  exists b1 b2 l1 l2, refill None l = Ok (Some b1, l1) /\ refill new2 l1 = Ok (Some b2, l2) /\ blank b1 /\ blank b2.
Proof.
  intros Hl Hn H2. destruct l as [|x [|y [|z l]]]; cbn in Hn; try lia.
  - destruct new2 as [b|]; [|done]. exists (FixedBuffer.reset x), b, [], []. split; [apply (refill_none [])|]. split; [done|].
    split; [apply blank_reset; by inversion Hl|done].
  - inversion Hl as [|? ? Hx Hl']; subst. inversion Hl' as [|? ? Hy _]; subst.
    destruct new2 as [b|].
    + exists (FixedBuffer.reset y), b, [x], [x]. split; [apply (refill_none [x])|]. split; [done|]. split; [by apply blank_reset|done].
    + exists (FixedBuffer.reset y), (FixedBuffer.reset x), [x], []. split; [apply (refill_none [x])|].
      split; [apply (refill_none [])|]. split; by apply blank_reset.
Qed.

Lemma write_inv s now envs :
  inv s -> at_ s = AtWrite -> (forall i, LogFile.disk_ok (envs i)) ->
  exists s', write gmtime_r hostname pid s now envs = Ok s' /\ inv s' /\ (zlen (buffersToWrite s) <= 25 -> held s' = held s).
Proof.
  intros [V1 V2 V3 V4 V5 V7 V6] Hat He. rewrite Hat in V6. destruct V6 as (E1 & Hw & E2). unfold write.
  set (l := buffersToWrite s) in *. rewrite bool_decide_false by done. cbn [negb assert_ mbind res_bind]. rewrite E1.
  set (pre := if 25 <? zlen l then _ else _).
  assert (Hpre : exists out l', pre = Ok (out, l') /\ counting out /\ Forall good l' /\ l' <> [] /\
            (2 <= length l -> 2 <= length l')%nat /\ (zlen l <= 25 -> out = output s /\ l' = l)).
  { unfold pre. destruct (25 <? zlen l) eqn:E; zbool.
    - destruct V5 as [[Ho Hm] Hst].
      destruct (LogFile.append_contents gmtime_r hostname pid (output s) (dropped_message gmtime_r now (zlen l - 2)) (envs 0%nat) (He _) Ho Hm) as (out & E0 & _ & K & N).
      pose proof (LogFile.append_settled _ _ _ _ _ _ _ E0 Hst) as Hst1. rewrite E0.
      exists out, (take 2 l). split; [done|]. unfold zlen in E. assert (Ht : length (take 2 l) = 2%nat) by (rewrite length_take; lia).
      split; [split; [split; [done|lia]|done]|]. split; [by apply Forall_take|]. split; [by intros Hn; rewrite Hn in Ht|]. split; [lia|].
      unfold zlen. lia.
    - exists (output s), l. done. }
  destruct Hpre as (out & l' & -> & K & G' & Hne & Hlen & Hsame). cbn [mbind res_bind].
  destruct (write_all_ok l' out envs 1 G' K He) as (out' & -> & K' & C'). cbn [mbind res_bind].
  set (l2 := if 2 <? zlen l' then take 2 l' else l').
  assert (Hl2 : Forall good l2 /\ (1 <= length l2 <= 2)%nat /\ (2 <= length l' -> length l2 = 2)%nat).
  { unfold l2, zlen in *. destruct (2 <? _) eqn:E; zbool; rewrite ?length_take.
    - split; [by apply Forall_take|]. lia.
    - split; [done|]. destruct l'; [done|]. cbn in *. lia. }
  destruct Hl2 as (G2 & N2 & F2).
  destruct (refills l2 (newBuffer2 s) G2 N2) as (b1 & b2 & l3 & l4 & R1 & R2 & B1 & B2).
  { destruct (newBuffer2 s); [done|]. by apply F2, Hlen. }
  rewrite R1. cbn [mbind res_bind]. rewrite R2. cbn [mbind res_bind]. eexists. split; [done|]. split.
  - destruct (LogFile.flush_durable out' (proj2 K')) as [Hd1 Hd2]. split; cbn [currentBuffer_ buffers_ buffersToWrite nextBuffer_ output at_ newBuffer1 newBuffer2]; try done; [by rewrite Hd1, Hd2|]. split; [by exists b1, b2|done].
  - intros H25. destruct (Hsame H25) as [-> ->]. unfold held. cbn [output buffersToWrite buffers_ currentBuffer_]. fold l. cbn [app]. rewrite (proj2 (LogFile.flush_durable out' (proj2 K'))), C'. rewrite (map_app _ l), concat_app. by rewrite app_assoc.
Qed.

(** ** Any interleaving *)

(** A line is an [int] long; a new buffer has its size; the disk works. *)
Definition permitted (a : action) : Prop :=
  match a with
  | Append l g => zlen g = SIZE
  | Backend _ envs => forall i, LogFile.disk_ok (envs i)
  | Stop => True
  end.

Definition sound (w : world) : Prop := inv (log w) /\ (dropped w = false -> held (log w) = kept (lines w)).

Lemma log_step_sound w a : sound w -> permitted a -> exists w', step gmtime_r hostname pid w a = Ok w' /\ sound w'.
Proof.
  intros [I H] Hp. destruct a as [l g|now envs|]; cbn [step permitted] in *.
  - destruct (append_inv (log w) l g I Hp) as (s' & -> & I' & E). eexists. split; [done|]. split; [done|].
    cbn [log lines dropped]. intros Hd. by rewrite E, (H Hd), kept_snoc.
  - destruct (at_ (log w)) eqn:Ea.
    + destruct (collect_inv (log w) I Ea) as (s' & -> & I' & E). eexists. split; [done|]. split; [done|]. cbn. intros Hd. by rewrite E, (H Hd).
    + destruct (write_inv (log w) now envs I Ea Hp) as (s' & -> & I' & E). eexists. split; [done|]. split; [done|]. cbn.
      intros [Hd Hz]%orb_false_iff. zbool. by rewrite E, (H Hd).
    + by exists w.
  - eexists. split; [done|]. split; [|done]. destruct I. by split.
Qed.

(** C12: nothing is lost on the way to the files.  For buffers of any size, from
    a logger just started, whatever the interleaving of lines appended by the
    front end, iterations of the back end and [stop], on a disk that works: no
    assertion fails; and as long as the back end never found more than 25
    buffers, what is in the log files, then in the buffers being written, the
    full buffers and the current buffer, is exactly the lines appended, in
    order, without those that are as long as a buffer or longer; and whenever the
    back end is back at its loop, or has left it, the kernel has all that is in
    the files. *)
Theorem log_lines_in_order out l :
  counting out -> LogFile.contents out = [] -> Forall permitted l ->
  exists w, run gmtime_r hostname pid (mk_world (start SIZE out) [] false) l = Ok w /\
    (dropped w = false ->
     LogFile.contents (output (log w)) ++
       concat (map content (buffersToWrite (log w) ++ buffers_ (log w) ++ [currentBuffer_ (log w)])) = kept (lines w)) /\
    (at_ (log w) <> AtWrite -> LogFile.durable (output (log w)) = LogFile.contents (output (log w))).
Proof.
  intros Hc Ho Hl.
  assert (Hrun : forall w, sound w -> exists w', run gmtime_r hostname pid w l = Ok w' /\ sound w').
  { induction Hl as [|a l Ha Hl IH]; intros w S; [by exists w|]. cbn.
    destruct (log_step_sound w a S Ha) as (w1 & -> & S1). by apply IH. }
  destruct (Hrun (mk_world (start SIZE out) [] false)) as (w & E & I & H); [|exists w; split_and!; [done|done|apply I]].
  assert (LogFile.durable out = LogFile.contents out) as Hd.
  { pose proof (LogFile.durable_prefix out (proj2 Hc)) as Hp. rewrite Ho in *. by apply prefix_nil_inv. }
  pose proof blank_zeroed as Bz. split; [split; cbn; try done; [apply Bz|split; [by exists (zeroed SIZE), (zeroed SIZE)|done]]|].
  intros _. unfold held. cbn. rewrite Ho, (blank_content _ Bz). done.
Qed.

End Facts.

(** Buffers of 8 bytes: lines fill two, and reach the file. *)
Definition no_tm (_ : Z) : Timestamp.tm := Timestamp.mk_tm 70 0 1 0 0 0.
Definition sample_out : LogFile.t := LogFile.mk (bs "log") 1000 3 1024 0 0 1 1 (AppendFile.mk (bs "log") [] 0 0) [].
Definition sample_env (_ : nat) : LogFile.env := LogFile.mk_env (fun l => [(zlen l, false)]) 1 1 true.
Definition sample_log : list action :=
  [Append (bs "one") (replicate 8 x00); Append (bs "two,") (replicate 8 x00); Append (bs "three") (replicate 8 x00);
   Backend (Timestamp.mk 0) sample_env; Append (bs "four") (replicate 8 x00); Backend (Timestamp.mk 0) sample_env].

Lemma log_lines_in_order_witness :
  exists w, run no_tm [] 1 (mk_world (start 8 sample_out) [] false) sample_log = Ok w /\
    LogFile.contents (output (log w)) ++
      concat (map LogStream.content (buffersToWrite (log w) ++ buffers_ (log w) ++ [currentBuffer_ (log w)])) = bs "onetwo,threefour".
Proof.
  assert (Hp : Forall (permitted 8) sample_log).
  { unfold sample_log. repeat (apply Forall_cons_2; [first [reflexivity | intros i; split; [reflexivity|intros l; reflexivity]]|]). apply Forall_nil_2. }
  destruct (log_lines_in_order 8 no_tm [] 1 ltac:(unfold int_max; lia) sample_out sample_log) as (w & E & H & _);
    [split; [cbn; unfold int_max; lia|constructor]|reflexivity|exact Hp|].
  exists w. split; [exact E|]. rewrite H; vm_compute in E; injection E as <-; reflexivity.
Defined.

(** A line appended after the back end's last critical section, before it sees
    that the logger was stopped, stays in the buffer. *)
Lemma stop_loses_line :
  exists w, run no_tm [] 1 (mk_world (start 8 sample_out) [] false)
      [Backend (Timestamp.mk 0) sample_env; Append (bs "last") (replicate 8 x00); Stop; Backend (Timestamp.mk 0) sample_env;
       Backend (Timestamp.mk 0) sample_env] = Ok w /\
    at_ (log w) = Exited /\ LogFile.contents (output (log w)) = [] /\ lines w = [bs "last"].
Proof. eexists. split; [vm_compute; reflexivity|]. split; [reflexivity|]. split; reflexivity. Qed.

End AsyncFacts.
