(* ===== verification/ReadFile.v ===== *)
(** Reading small files (src/utility/FileUtil.h, FileUtil.cpp: ReadSmallFile and
    readFile).

    open(2), fstat(2) and read(2) are arguments.  What a call of read answers
    may depend on how many calls came before it. *)

From S2P Require Import Prelude.

Module ReadSmallFile.

Definition kBufferSize : Z := 64 * 1024.
Definition EISDIR : Z := 21.

(** The answer of fstat: the kind of file, its size and its times. *)
Inductive kind := Regular | Directory | Other.
Record stat := mk_stat { st_mode : kind; st_size : Z; st_mtime : Z; st_ctime : Z }.

(** [fd_] and [err_]: the descriptor, or open's error. *)
Record t := mk { fd_ : option Z; err_ : Z; buf_ : list byte }.
Definition new (opened : Z + Z) : t :=
  match opened with inl fd => mk (Some fd) 0 [x00] | inr errno => mk None errno [x00] end.

Section Read.
(** [read i rest n]: the [i]-th call, with the bytes [rest] before the end of the
    file, for [n] bytes: the bytes it gives or its error. *)
Context (read : nat -> list byte -> Z -> list byte + Z).

(** The loop of [readToString]: the errors so far, the content, and the number of
    turns as fuel; a turn that goes on takes at least a byte off the file. *)
Fixpoint read_loop (fuel : nat) (i : nat) (rest : list byte) (maxSize : Z) (content : list byte) (err : Z) : Z * list byte :=
  match fuel with
  | O => (err, content)
  | S fuel =>
      if zlen content <? u64 maxSize then
        let toRead := Z.min (u64 maxSize - zlen content) kBufferSize in
        match read i rest toRead with
        | inl (b :: l) => read_loop fuel (S i) (drop (length (b :: l)) rest) maxSize (content ++ b :: l) err
        | inl [] => (err, content)
        | inr errno => (errno, content)
        end
      else (err, content)
  end.

(** What the caller's pointers receive; [None] where they are null or keep what
    they pointed to. *)
Record result := mk_result { err : Z; content : list byte; fileSize : option Z; modifyTime : option Z; createTime : option Z }.

Definition readToString (f : t) (file : list byte) (maxSize : Z) (old : list byte) (wants_size wants_mtime wants_ctime : bool) (fstat : stat + Z) : result :=
  match fd_ f with
  | None => mk_result (err_ f) old None None None
  | Some _ =>
      let '(err, size, mtime, ctime) :=
        if wants_size then
          match fstat with
          | inl st =>
              (match st_mode st with Directory => EISDIR | _ => err_ f end,
               match st_mode st with Regular => Some (st_size st) | _ => None end,
               if wants_mtime then Some (st_mtime st) else None,
               if wants_ctime then Some (st_ctime st) else None)
          | inr errno => (errno, None, None, None)
          end
        else (err_ f, None, None, None) in
      let '(err, content) := read_loop (S (length file)) 0 file maxSize [] err in
      mk_result err content size mtime ctime
  end.

(** [readFile(filename, maxSize, &content)], with the other pointers null. *)
Definition readFile (opened : Z + Z) (file : list byte) (maxSize : Z) (old : list byte) : Z * list byte :=
  let r := readToString (new opened) file maxSize old false false false (inr 0) in (err r, content r).

(** [readToBuffer] over pread(2) of [kBufferSize - 1] bytes from the start. *)
Definition readToBuffer (f : t) (pread : list byte + Z) : Z * option Z * t :=
  match fd_ f with
  | None => (err_ f, None, f)
  | Some _ =>
      match pread with
      | inl d => (err_ f, Some (i32 (zlen d)), mk (fd_ f) (err_ f) (d ++ [x00]))
      | inr errno => (errno, None, f)
      end
  end.

(** ** What read(2) promises *)

(** The bytes come from the front of what is left, at most as many as asked for,
    and none only at the end; an error is not 0. *)
Definition read_ok : Prop :=
  forall i rest n, match read i rest n with
    | inl d => (exists k, rest = d ++ k) /\ zlen d <= Z.max 0 n /\ (d = [] -> 0 < n -> rest = [])
    | inr errno => errno <> 0
    end.

Lemma read_loop_spec (Hr : read_ok) fuel i rest maxSize content e :
  (length rest < fuel)%nat -> e = 0 ->
  exists d k, rest = d ++ k /\
    let r := read_loop fuel i rest maxSize content e in
    r.2 = content ++ d /\ (zlen content <= u64 maxSize -> zlen (content ++ d) <= u64 maxSize) /\
    (r.1 = 0 -> k = [] \/ u64 maxSize <= zlen (content ++ d)) /\ (r.1 <> 0 -> exists j l n, read j l n = inr r.1).
Proof.
  intros Hf ->. revert i rest content Hf. induction fuel as [|fuel IH]; intros i rest content Hf; [lia|]. cbn [read_loop].
  destruct (zlen content <? u64 maxSize) eqn:Ez; zbool.
  2: { exists [], rest. split_and!; cbn; rewrite ?app_nil_r; auto; done. }
  set (toRead := Z.min _ _). pose proof (Hr i rest toRead) as H.
  destruct (read i rest toRead) as [[|b l]|errno] eqn:Er.
  - destruct H as (_ & _ & Hn). exists [], rest. split_and!; cbn; rewrite ?app_nil_r; auto; try done. intros _. left. apply Hn; [done|].
    unfold toRead, kBufferSize. lia.
  - destruct H as ([k ->] & Hl & _). rewrite drop_app_length. rewrite length_app in Hf. cbn [length] in Hf.
    destruct (IH (S i) k (content ++ b :: l) ltac:(lia)) as (d & k' & -> & Hd & Hm & H0 & H1).
    exists ((b :: l) ++ d), k'. rewrite <- app_assoc in Hd. rewrite !app_assoc in *. split_and!; try done.
    intros _. rewrite <- app_assoc in Hm |- *. apply Hm. rewrite zlen_app. unfold toRead in Hl. lia.
  - exists [], rest. split_and!; cbn; rewrite ?app_nil_r; auto; try done. intros _. by exists i, rest, toRead.
Qed.

End Read.

(** Reading a small file.  However read(2) cuts the file into pieces,
    [readFile] stops, and what it leaves in the string is the front of the file,
    never more than [maxSize] bytes (as a [size_t]); when it returns 0 that is
    the whole file or its first [maxSize] bytes, and otherwise the error is one
    that read gave; when the file cannot be opened it returns open's error and
    leaves the string alone. *)
Theorem readFile_reads read file maxSize old :
  read_ok read ->
  (forall errno, readFile read (inr errno) file maxSize old = (errno, old)) /\
  (forall fd, exists d k, file = d ++ k /\ (readFile read (inl fd) file maxSize old).2 = d /\ zlen d <= u64 maxSize /\
     let e := (readFile read (inl fd) file maxSize old).1 in
     (e = 0 -> d = take (Z.to_nat (u64 maxSize)) file) /\ (e <> 0 -> exists j l n, read j l n = inr e)).
Proof.
  intros Hr. split; [done|]. intros fd. unfold readFile, readToString, new. cbn [fd_ err_].
  destruct (read_loop_spec read Hr (S (length file)) 0 file maxSize [] 0 ltac:(lia) eq_refl) as (d & k & E & Hd & Hm & H0 & H1).
  cbn zeta in *. cbn [app] in *. destruct (read_loop _ _ _ _ _ _ _) as [e c]. cbn [err content fst snd] in *. subst c.
  assert (Hz : zlen d <= u64 maxSize) by (apply Hm; change (zlen []) with 0; pose proof (Z.mod_pos_bound maxSize (2 ^ 64) ltac:(lia)); unfold u64, uwrap; lia).
  exists d, k. split_and!; try done. intros He. unfold zlen in *. destruct (H0 He) as [->|Hle].
  - rewrite app_nil_r in E. subst file. symmetry. apply take_ge. lia.
  - subst file. rewrite take_app_length'; [done|]. lia.
Qed.

(** A kernel that gives three bytes at a time, and fails on the tenth call. *)
Definition sample_read (i : nat) (rest : list byte) (n : Z) : list byte + Z :=
  if decide (i = 10)%nat then inr 4 else inl (take (Z.to_nat (Z.min 3 n)) rest).

Lemma readFile_reads_witness :
  exists d k, bs "hello world" = d ++ k /\ (readFile sample_read (inl 5) (bs "hello world") 7 []).2 = d /\ d = bs "hello w".
Proof.
  assert (Hr : read_ok sample_read).
  { intros i rest n. unfold sample_read. case_decide; [done|]. split; [eexists; symmetry; apply take_drop|]. split.
    - unfold zlen. rewrite length_take. lia.
    - intros Ht Hn. destruct rest; [done|]. destruct (Z.to_nat (Z.min 3 n)) eqn:E; [lia|done]. }
  destruct (readFile_reads sample_read (bs "hello world") 7 [] Hr) as [_ H]. destruct (H 5) as (d & k & E & Hd & _ & H0 & _).
  exists d, k. split; [exact E|]. split; [exact Hd|]. rewrite H0 by reflexivity. reflexivity.
Defined.

End ReadSmallFile.
