(* ===== verification/Proc.v ===== *)
(** What the process knows of itself and of the system (src/utility/ProcessInfo.h,
    ProcessInfo.cpp) and the pages that show it (src/networking/inspect/
    ProcessInspector.cpp, SystemInspector.cpp).

    The contents of /proc, the entries of its directories and the answers of the
    system calls are arguments.  Seconds of CPU time are IEEE doubles, as in
    [LogStream]; [fmt_f] prints the non-negative ones. *)

From stdpp Require Import sorting.
From S2P Require Import Prelude Printf StringPiece CString Timestamp LogStream StdMap Http Inspector.

Module ProcessInfo.
Import CString.

Definition pidString (pid : Z) : list byte := snprintf 32 (dec pid).
(** getpwuid_r's entry, or none. *)
Definition username (pw_name : option (list byte)) : list byte := match pw_name with Some name => name | None => bs "unknownuser" end.
(** gethostname into a buffer of 256 bytes, whose last byte is then set to NUL. *)
Definition hostname (answer : option (list byte)) : list byte :=
  match answer with Some buf => c_str (take 255 buf ++ [x00]) | None => bs "unknownhost" end.
(** readlink into a buffer of 1024 bytes. *)
Definition exePath (readlink : option (list byte)) : list byte := match readlink with Some target => take 1024 target | None => [] end.

(** The name in /proc/self/stat, between the first '(' and the last ')': its
    offset and length. *)
Definition procname_at (stat : list byte) : option (nat * nat) :=
  match find_char stat x28, rfind_char stat x29 with
  | Some lp, Some rp => if decide (lp < rp)%nat then Some (S lp, (rp - lp - 1)%nat) else None
  | _, _ => None
  end.
Definition procname (stat : list byte) : StringPiece.t :=
  match procname_at stat with
  | Some (off, len) => StringPiece.mk (Some (drop off stat)) (i32 (Z.of_nat len))
  | None => StringPiece.StringPiece_null
  end.

(** The filters of the directory scans. *)
Definition first_is_digit (d_name : list byte) : bool := match d_name with b :: _ => isdigit b | [] => false end.
Definition openedFiles (entries : list (list byte)) : Z := zlen (filter (fun d => first_is_digit d = true) entries).
Definition maxOpenFiles (rlim_cur : option Z) (entries : list (list byte)) : Z :=
  match rlim_cur with Some n => i32 n | None => openedFiles entries end.
(** [std::sort] of the ids. *)
Definition threads (entries : list (list byte)) : list Z :=
  merge_sort Z.le (map atoi (filter (fun d => first_is_digit d = true) entries)).
Definition numThreads (status : list byte) : Z :=
  match find status (bs "Threads:") with Some pos => atoi (drop (pos + 8) status) | None => 0 end.

(** Clock ticks as seconds. *)
Definition seconds (hz ticks : Z) : SpecFloat.spec_float := LogStream.ddiv (LogStream.double_of ticks) (LogStream.double_of hz).

End ProcessInfo.

Module ProcessInspector.
Import CString.

Definition uptime (now start : Timestamp.t) (showMicroseconds : bool) : res (list byte) :=
  age ← Timestamp.timeDifference_us now start;
  let seconds := i32 (age `quot` Timestamp.kMicroSecondsPerSecond) in
  let days := seconds `quot` 86400 in
  let hours := (seconds `rem` 86400) `quot` 3600 in
  let minutes := (seconds `rem` 3600) `quot` 60 in
  let head := dec days ++ bs " days " ++ fmt_0 2 hours ++ bs ":" ++ fmt_0 2 minutes ++ bs ":" ++ fmt_0 2 (seconds `rem` 60) in
  if showMicroseconds then
    let microseconds := i32 (age `rem` Timestamp.kMicroSecondsPerSecond) in
    Ok (snprintf 256 (head ++ bs "." ++ fmt_0 6 microseconds))
  else Ok (snprintf 256 head).

Definition getLong (procStatus key : list byte) : Z :=
  match find procStatus key with Some pos => atol (drop (pos + length key) procStatus) | None => 0 end.

(** [str[pos]]; the element behind the last is NUL. *)
Definition at_ (str : list byte) (pos : nat) : byte := match str !! pos with Some b => b | None => x00 end.

(** The two loops of [getProcessName]: the second tests a character that does not
    change.  [None]: not done within the fuel. *)
Fixpoint skip_tabs (fuel : nat) (str : list byte) (pos : nat) : nat :=
  match fuel with
  | O => pos
  | S fuel => if bool_decide (at_ str pos = x09) then skip_tabs fuel str (S pos) else pos
  end.
Fixpoint eol_loop (fuel : nat) (str : list byte) (pos eol : nat) : option nat :=
  match fuel with
  | O => None
  | S fuel => if bool_decide (at_ str pos <> x0a) then eol_loop fuel str pos (S eol) else Some eol
  end.
Definition getProcessName (fuel : nat) (procStatus : list byte) : option (list byte) :=
  match find procStatus (bs "Name:") with
  | Some pos =>
      let pos := skip_tabs (length procStatus) procStatus (pos + 5) in
      eol ← eol_loop fuel procStatus pos pos;
      Some (take (eol - pos) (drop pos procStatus))
  | None => Some []
  end.

(** [next]: what follows the first blank. *)
Definition next (data : StringPiece.t) : res StringPiece.t :=
  text ← StringPiece.as_string data;
  match find_char text x20 with
  | Some sp => StringPiece.remove_prefix data (Z.of_nat (S sp))
  | None => StringPiece.StringPiece_cstr [x00]
  end.
Fixpoint next_n (n : nat) (data : StringPiece.t) : res StringPiece.t :=
  match n with O => Ok data | S n => data ← next data; next_n n data end.

(** [strtol] of the characters at a piece. *)
Definition strtol_at (data : StringPiece.t) : res Z :=
  match StringPiece.ptr_ data with Some m => Ok (strtol (c_str m)) | None => Err Undefined end.
(** [getCpuTime], in clock ticks. *)
Definition getCpuTime (data : StringPiece.t) : res (Z * Z) :=
  data ← next_n 10 data;
  utime ← strtol_at data;
  data ← next data;
  stime ← strtol_at data;
  Ok (utime, stime).

(** [stringPrintf]: what it appends, of the text its format gives. *)
Definition stringPrintf (out text : list byte) : list byte := out ++ snprintf 256 text.

(** [%12.3f], [%-16s] *)
Definition fmt_12_3 (x : SpecFloat.spec_float) : list byte :=
  let text := LogStream.fmt_f 3 x in replicate (12 - length text) space ++ text.
Definition fmt_left (w : nat) (s : list byte) : list byte := s ++ replicate (w - length s) space.

(** The line of thread [tid], from its stat file; the text is in memory with a NUL
    behind it. *)
Definition thread_line (hz tid : Z) (stat : list byte) : res (list byte) :=
  let mem := stat ++ [x00] in
  match ProcessInfo.procname_at stat with
  | None => Err Undefined                        (* a null name is read *)
  | Some (off, len) =>
      let rp := (off + len)%nat in
      assert! bool_decide (mem !! rp = Some x29);
      match mem !! (rp + 2)%nat with
      | None => Err Undefined
      | Some state =>
          let mem := <[rp := x00]> mem in
          data ← StringPiece.remove_prefix (StringPiece.mk (Some mem) (i32 (zlen stat))) (Z.of_nat (rp + 4));
          '(utime, stime) ← getCpuTime data;
          Ok (snprintf 256 (fmt_sp 5 tid ++ bs " " ++ fmt_left 16 (c_str (drop off mem)) ++ bs " " ++ [state] ++ bs " " ++
                            fmt_12_3 (ProcessInfo.seconds hz utime) ++ bs " " ++ fmt_12_3 (ProcessInfo.seconds hz stime) ++ [x0a]))
      end
  end.

Definition threads_header : list byte := bs "  TID NAME             S    User Time  System Time" ++ [x0a].
(** [stat_of tid] is what readFile gives: an error, or the content. *)
Fixpoint threads_lines (hz : Z) (stat_of : Z -> Z * list byte) (tids : list Z) (result : list byte) : res (list byte) :=
  match tids with
  | [] => Ok result
  | tid :: tids =>
      let '(err, stat) := stat_of tid in
      if err =? 0 then line ← thread_line hz tid stat; threads_lines hz stat_of tids (result ++ line)
      else threads_lines hz stat_of tids result
  end.
Definition threads (hz : Z) (stat_of : Z -> Z * list byte) (entries : list (list byte)) : res (list byte) :=
  threads_lines hz stat_of (ProcessInfo.threads entries) threads_header.

Definition pid (getpid : Z) : list byte := snprintf 32 (dec getpid).
Definition openedFiles (entries : list (list byte)) : list byte := snprintf 32 (dec (ProcessInfo.openedFiles entries)).

(** What the overview asks the system. *)
Record answers := mk_answers {
  a_gmtime : Z -> Timestamp.tm;
  a_now : Timestamp.t;
  a_start : Timestamp.t;
  a_status : list byte;
  a_exe : option (list byte);
  a_user : option (list byte);
  a_host : option (list byte);
  a_debug : bool;
  a_pid : Z;
  a_fds : list (list byte);
  a_rlimit : option Z;
  a_times : option (Z * Z);                       (* ticks, unless times fails *)
  a_hz : Z;
}.

(** [getLong] of a size in KiB, in MiB. *)
Definition mib (status key : list byte) : list byte :=
  LogStream.fmt_f 3 (LogStream.ddiv (LogStream.double_of (getLong status key)) (LogStream.double_of 1024)).

Definition overview (fuel : nat) (a : answers) : res (option (list byte)) :=
  up ← uptime (a_now a) (a_start a) true;
  Ok (name ← getProcessName fuel (a_status a);
      let result := bs "Page generated at " ++ Timestamp.toFormattedString (a_gmtime a) (a_now a) true ++ bs " (UTC)" ++ [x0a] ++
        bs "Started at " ++ Timestamp.toFormattedString (a_gmtime a) (a_start a) true ++ bs " (UTC), up for " ++ up ++ [x0a] ++
        name ++ bs " (" ++ ProcessInfo.exePath (a_exe a) ++ bs ") running as " ++ ProcessInfo.username (a_user a) ++ bs " on " ++
        ProcessInfo.hostname (a_host a) ++ [x0a] ++ (if a_debug a then bs "WARNING: debug build!" ++ [x0a] else []) in
      let result := stringPrintf result (bs "pid " ++ dec (a_pid a) ++ bs ", num of threads " ++ dec (getLong (a_status a) (bs "Threads:")) ++ bs ", bits 64" ++ [x0a]) in
      let result := stringPrintf (result ++ bs "Virtual memory: ") (mib (a_status a) (bs "VmSize:") ++ bs " MiB, ") in
      let result := stringPrintf (result ++ bs "RSS memory: ") (mib (a_status a) (bs "VmRSS:") ++ bs " MiB" ++ [x0a]) in
      let result := stringPrintf result (bs "Opened files: " ++ dec (ProcessInfo.openedFiles (a_fds a)) ++ bs ", limit: " ++
                                         dec (ProcessInfo.maxOpenFiles (a_rlimit a) (a_fds a)) ++ [x0a]) in
      let '(utime, stime) := match a_times a with Some t => t | None => (0, 0) end in
      Some (stringPrintf result (bs "User time: " ++ fmt_12_3 (ProcessInfo.seconds (a_hz a) utime) ++ bs "s" ++ [x0a] ++
                                 bs "Sys time: " ++ fmt_12_3 (ProcessInfo.seconds (a_hz a) stime) ++ bs "s" ++ [x0a]))).

Definition registerCommands (ins : Inspector.t) (overview pid procStatus threads : Inspector.Callback) : Inspector.t :=
  let ins := Inspector.add ins (bs "proc") (bs "overview") (Some overview) (bs "print basic overview") in
  let ins := Inspector.add ins (bs "proc") (bs "pid") (Some pid) (bs "print pid") in
  let ins := Inspector.add ins (bs "proc") (bs "status") (Some procStatus) (bs "print /proc/self/status") in
  Inspector.add ins (bs "proc") (bs "threads") (Some threads) (bs "list /proc/self/task").

End ProcessInspector.

Module SystemInspector.
Import ProcessInspector.

Record utsname := mk_utsname { nodename : list byte; machine : list byte; sysname : list byte; release : list byte; version : list byte }.

(** The files, as readFile leaves their strings. *)
Definition overview (gmtime_r : Z -> Timestamp.tm) (now : Timestamp.t) (uname : option utsname) (stat loadavg meminfo : list byte) : res (list byte) :=
  let result := bs "Page generated at " ++ Timestamp.toFormattedString gmtime_r now true ++ bs " (UTC)" ++ [x0a] in
  let result :=
    match uname with
    | Some un =>
        let result := stringPrintf result (bs "Hostname: " ++ nodename un ++ [x0a]) in
        let result := stringPrintf result (bs "Machine: " ++ machine un ++ [x0a]) in
        stringPrintf result (bs "OS: " ++ sysname un ++ bs " " ++ release un ++ bs " " ++ version un ++ [x0a])
    | None => result
    end in
  boot ← check_int64 (Timestamp.kMicroSecondsPerSecond * getLong stat (bs "btime "));
  let bootTime := Timestamp.mk boot in
  up ← uptime now bootTime false;
  let result := result ++ bs "Boot time: " ++ Timestamp.toFormattedString gmtime_r bootTime false ++ bs " (UTC)" ++ [x0a] ++
    bs "Up time: " ++ up ++ [x0a] in
  let result := stringPrintf result (bs "Processes created: " ++ dec (getLong stat (bs "processes ")) ++ [x0a]) in
  let result := stringPrintf result (bs "Loadavg: " ++ CString.c_str loadavg ++ [x0a]) in
  let total_kb := getLong meminfo (bs "MemTotal:") in
  let free_kb := getLong meminfo (bs "MemFree:") in
  let buffers_kb := getLong meminfo (bs "Buffers:") in
  let cached_kb := getLong meminfo (bs "Cached:") in
  used ← check_int64 (total_kb - free_kb);
  used ← check_int64 (used - buffers_kb);
  used ← check_int64 (used - cached_kb);
  free ← check_int64 (free_kb + buffers_kb);
  free ← check_int64 (free + cached_kb);
  let show result label kb := stringPrintf result (bs label ++ fmt_sp 6 (kb `quot` 1024) ++ bs " MiB" ++ [x0a]) in
  let result := show result "Total Memory: "%string total_kb in
  let result := show result "Free Memory:  "%string free_kb in
  let result := show result "Buffers:      "%string buffers_kb in
  let result := show result "Cached:       "%string cached_kb in
  let result := show result "Real Used:    "%string used in
  Ok (show result "Real Free:    "%string free).

Definition registerCommands (ins : Inspector.t) (overview loadavg version cpuinfo meminfo stat : Inspector.Callback) : Inspector.t :=
  let ins := Inspector.add ins (bs "sys") (bs "overview") (Some overview) (bs "print system overview") in
  let ins := Inspector.add ins (bs "sys") (bs "loadavg") (Some loadavg) (bs "print /proc/loadavg") in
  let ins := Inspector.add ins (bs "sys") (bs "version") (Some version) (bs "print /proc/version") in
  let ins := Inspector.add ins (bs "sys") (bs "cpuinfo") (Some cpuinfo) (bs "print /proc/cpuinfo") in
  let ins := Inspector.add ins (bs "sys") (bs "meminfo") (Some meminfo) (bs "print /proc/meminfo") in
  Inspector.add ins (bs "sys") (bs "stat") (Some stat) (bs "print /proc/stat").

End SystemInspector.
