(* ===== verification/ProcFacts.v ===== *)
(** What the inspectors read in /proc: a thread's line whatever its name, and the
    numbers of a keyed file (src/networking/inspect/ProcessInspector.cpp,
    src/utility/ProcessInfo.cpp). *)

From S2P Require Import Prelude Printf StringPiece CString Timestamp LogStream StdMap Http Inspector Proc.

Module ProcFacts.
Import CString ProcessInspector.

(** ** Moving over fields *)

(** A piece whose text ends where its memory has its NUL. *)
Definition piece (text : list byte) : StringPiece.t := StringPiece.mk (Some (text ++ [x00])) (zlen text).

Lemma next_field f r : x20 ∉ f -> next (piece (f ++ x20 :: r)) = Ok (piece r).
Proof.
  intros Hf. unfold next, piece, StringPiece.as_string, StringPiece.load. cbn [StringPiece.ptr_ StringPiece.length_].
  rewrite (zlen_app _ [x00]). change (zlen [x00]) with 1. pose proof (zlen_nonneg (f ++ x20 :: r)) as Hn.
  rewrite (proj2 (Z.leb_le 0 _)), (proj2 (Z.leb_le _ (_ + 1))) by lia. cbn [andb mbind res_bind].
  unfold zlen at 1. rewrite Nat2Z.id, take_app_length, find_char_app by done.
  unfold StringPiece.remove_prefix. cbn [StringPiece.ptr_ StringPiece.length_].
  assert (Hz : zlen (f ++ x20 :: r) = Z.of_nat (S (length f)) + zlen r) by (unfold zlen; rewrite length_app; cbn; lia).
  rewrite (zlen_app _ [x00]). change (zlen [x00]) with 1. pose proof (zlen_nonneg r).
  rewrite (proj2 (Z.leb_le 0 _)), (proj2 (Z.leb_le _ (_ + 1))) by lia. cbn [andb].
  rewrite Nat2Z.id. do 2 f_equal; [|lia]. f_equal.
  replace ((f ++ x20 :: r) ++ [x00]) with ((f ++ [x20]) ++ r ++ [x00]) by (rewrite <- !app_assoc; done).
  apply drop_app_length'. rewrite length_app. cbn. lia.
Qed.

Definition field_ok (f : list byte) : Prop := (x20 ∉ f) /\ (x29 ∉ f).
(** Fields, each followed by a blank. *)
Definition spaced (fields : list (list byte)) : list byte := concat (map (fun f => f ++ [x20]) fields).

Lemma next_n_fields fields r : Forall field_ok fields -> next_n (length fields) (piece (spaced fields ++ r)) = Ok (piece r).
Proof.
  induction 1 as [|f fields [Hf _] _ IH]; [done|]. unfold spaced in *. cbn [map concat length next_n].
  rewrite <- !app_assoc. cbn [app]. rewrite next_field by done. exact IH.
Qed.

Lemma strtol_piece n r : 0 <= n <= long_max -> not_digit r -> strtol_at (piece (dec n ++ r)) = Ok n.
Proof.
  intros Hn Hr. unfold strtol_at, piece. cbn [StringPiece.ptr_]. rewrite <- app_assoc, strtol_c_str; [done..|]. by destruct r.
Qed.

Lemma getCpuTime_fields fields utime stime r :
  Forall field_ok fields -> length fields = 10%nat -> 0 <= utime <= long_max -> 0 <= stime <= long_max -> not_digit r ->
  getCpuTime (piece (spaced fields ++ dec utime ++ x20 :: dec stime ++ r)) = Ok (utime, stime).
Proof.
  intros Hf Hl Hu Hs Hr. unfold getCpuTime. rewrite <- Hl, next_n_fields by done. cbn [mbind res_bind].
  rewrite strtol_piece by done. cbn [mbind res_bind].
  rewrite next_field by (apply dec_bytes; [lia|done]). cbn [mbind res_bind]. by rewrite strtol_piece.
Qed.

(** ** The stat file of a thread *)

(** proc(5): the id, the name in parentheses, the state, ten fields, the two
    times, and more. *)
Definition stat_text (pid : Z) (comm : list byte) (state : byte) (fields : list (list byte)) (utime stime : Z) (more : list byte) : list byte :=
  (dec pid ++ [x20]) ++ x28 :: comm ++ x29 :: x20 :: state :: x20 :: spaced fields ++ dec utime ++ x20 :: dec stime ++ more.

Lemma spaced_paren fields : Forall field_ok fields -> x29 ∉ spaced fields.
Proof.
  induction 1 as [|f fields [_ Hf] _ IH]; unfold spaced in *; cbn [map concat]; [apply not_elem_of_nil|].
  rewrite !elem_of_app. intros [[?|?%list_elem_of_singleton]|?]; done.
Qed.

Section Stat.
Context (pid : Z) (comm : list byte) (state : byte) (fields : list (list byte)) (utime stime : Z) (more : list byte).
Hypothesis (Hpid : 0 <= pid) (Hcomm : x00 ∉ comm) (Hstate : state <> x29) (Hfields : Forall field_ok fields) (Hten : length fields = 10%nat).
Hypothesis (Hu : 0 <= utime <= long_max) (Hs : 0 <= stime <= long_max) (Hmore : not_digit more) (Hparen : x29 ∉ more).
Abbreviation stat := (stat_text pid comm state fields utime stime more).

Definition tail_text : list byte := spaced fields ++ dec utime ++ x20 :: dec stime ++ more.
Definition head_text : list byte := (dec pid ++ [x20]) ++ [x28].

Lemma stat_parts : stat = head_text ++ comm ++ x29 :: x20 :: state :: x20 :: tail_text.
Proof. unfold stat_text, head_text, tail_text. by rewrite <- !app_assoc. Qed.

Lemma tail_paren : x29 ∉ tail_text.
Proof.
  unfold tail_text. rewrite !elem_of_app, elem_of_cons, elem_of_app.
  pose proof (spaced_paren fields Hfields). pose proof (dec_bytes utime x29 ltac:(lia) eq_refl). pose proof (dec_bytes stime x29 ltac:(lia) eq_refl).
  naive_solver.
Qed.

Lemma procname_comm : ProcessInfo.procname_at stat = Some (length head_text, length comm).
Proof.
  unfold ProcessInfo.procname_at. unfold stat_text at 1. rewrite find_char_app.
  2: { rewrite elem_of_app. intros [H|H%list_elem_of_singleton]; [by apply (dec_bytes pid x28 Hpid) in H|done]. }
  rewrite stat_parts, app_assoc, rfind_char_app.
  2: { rewrite !elem_of_cons. pose proof tail_paren. naive_solver. }
  unfold head_text. rewrite !length_app. cbn [length]. rewrite decide_True by lia. f_equal. f_equal; lia.
Qed.

Lemma thread_line_stat hz tid :
  zlen stat <= int_max ->
  thread_line hz tid stat =
    Ok (snprintf 256 (fmt_sp 5 tid ++ bs " " ++ fmt_left 16 comm ++ bs " " ++ [state] ++ bs " " ++
                      fmt_12_3 (ProcessInfo.seconds hz utime) ++ bs " " ++ fmt_12_3 (ProcessInfo.seconds hz stime) ++ [x0a])).
Proof.
  intros Hz. unfold thread_line. cbn zeta. rewrite procname_comm, stat_parts in *. set (off := length head_text).
  assert (Hoff : (off + length comm)%nat = length (head_text ++ comm)) by (by rewrite length_app).
  rewrite Hoff. rewrite app_assoc, <- (app_assoc (head_text ++ comm)) in *. cbn [app] in *.
  rewrite (list_lookup_middle (head_text ++ comm) _ x29 (length (head_text ++ comm)) eq_refl). rewrite assert_true by by apply bool_decide_eq_true.
  rewrite (lookup_app_r _ _ (_ + 2)) by lia. replace (length (head_text ++ comm) + 2 - length (head_text ++ comm))%nat with 2%nat by lia. cbn [lookup list_lookup].
  rewrite insert_app_r_alt, Nat.sub_diag by lia. cbn [insert list_insert].
  set (pre := head_text ++ comm) in *.
  assert (Hl : zlen (pre ++ x29 :: x20 :: state :: x20 :: tail_text) = Z.of_nat (length pre + 4) + zlen tail_text) by (unfold zlen; rewrite length_app; cbn; lia).
  pose proof (zlen_nonneg tail_text).
  unfold StringPiece.remove_prefix. cbn [StringPiece.ptr_ StringPiece.length_]. rewrite i32_small by (unfold in_int, int_min; lia).
  rewrite (proj2 (Z.leb_le 0 _)), (proj2 (Z.leb_le _ _)) by (unfold zlen in *; rewrite ?length_app in *; cbn [length] in *; rewrite ?length_app; cbn; lia).
  cbn [andb mbind res_bind]. rewrite Nat2Z.id, drop_app_add. cbn [drop]. rewrite drop_0, Hl.
  replace (Z.of_nat (length pre + 4) + zlen tail_text - Z.of_nat (length pre + 4)) with (zlen tail_text) by lia.
  change (StringPiece.mk (Some (tail_text ++ [x00])) (zlen tail_text)) with (piece tail_text).
  assert (Hcpu : getCpuTime (piece tail_text) = Ok (utime, stime)) by (by apply getCpuTime_fields). rewrite Hcpu. cbn [mbind res_bind].
  do 2 f_equal. f_equal. f_equal. f_equal. f_equal. unfold pre, off. rewrite <- app_assoc, drop_app_length, c_str_app by done. by rewrite c_str_nul, app_nil_r.
Qed.

End Stat.

Lemma getLong_first before key blanks n r :
  (forall j, (j < length before)%nat -> prefixb key (drop j (before ++ key ++ blanks ++ dec n ++ r)) = false) ->
  Forall (fun b => isspace b = true) blanks -> 0 <= n <= long_max -> not_digit r ->
  getLong (before ++ key ++ blanks ++ dec n ++ r) key = n.
Proof.
  intros Hb Hs Hn Hr. unfold getLong. rewrite (find_first _ _ (length before)); [|rewrite drop_app_length; by eexists|rewrite length_app; lia|done].
  rewrite drop_app_add, drop_app_length. unfold atol. by apply strtol_dec.
Qed.

(** ** The pages *)

Lemma name_never_ends str pos eol fuel : at_ str pos <> x0a -> eol_loop fuel str pos eol = None.
Proof. intros Hp. revert eol. induction fuel as [|fuel IH]; intros eol; [done|]. cbn. rewrite bool_decide_true by done. apply IH. Qed.

(** The overview of a process whose status has a name is never done. *)
Lemma overview_never_ends fuel a up rest :
  uptime (a_now a) (a_start a) true = Ok up -> a_status a = bs "Name:" ++ x09 :: rest ->
  at_ (a_status a) (skip_tabs (length (a_status a)) (a_status a) 5) <> x0a -> overview fuel a = Ok None.
Proof.
  intros Hu Hs Hn. unfold overview. rewrite Hu. cbn [mbind res_bind]. unfold getProcessName.
  rewrite (find_first _ _ 0); [|exists (x09 :: rest); by rewrite drop_0|lia|lia]. cbn [Nat.add].
  by rewrite name_never_ends.
Qed.

(** What the inspectors read in /proc.  A thread's line of the threads page
    shows its name, state and the two times of its stat file, cut at 255 bytes,
    whatever bytes the name consists of, parentheses and blanks included; and a
    number that follows a key and blanks is the result of [getLong], if the key
    does not occur before. *)
Theorem proc_files_read :
  (forall hz tid pid comm state fields utime stime more,
     0 <= pid -> x00 ∉ comm -> state <> x29 -> Forall field_ok fields -> length fields = 10%nat ->
     0 <= utime <= long_max -> 0 <= stime <= long_max -> not_digit more -> x29 ∉ more ->
     zlen (stat_text pid comm state fields utime stime more) <= int_max ->
     thread_line hz tid (stat_text pid comm state fields utime stime more) =
       Ok (snprintf 256 (fmt_sp 5 tid ++ bs " " ++ fmt_left 16 comm ++ bs " " ++ [state] ++ bs " " ++
                         fmt_12_3 (ProcessInfo.seconds hz utime) ++ bs " " ++ fmt_12_3 (ProcessInfo.seconds hz stime) ++ [x0a]))) /\
  (forall before key blanks n r,
     (forall j, (j < length before)%nat -> prefixb key (drop j (before ++ key ++ blanks ++ dec n ++ r)) = false) ->
     Forall (fun b => isspace b = true) blanks -> 0 <= n <= long_max -> not_digit r ->
     getLong (before ++ key ++ blanks ++ dec n ++ r) key = n).
Proof. split; intros; [by apply thread_line_stat|by apply getLong_first]. Qed.

(** A thread called ") R (", in state S with 150 and 25 ticks of 10 ms. *)
Example sample_thread_line :
  thread_line 100 7 (bs "7 () R () S 1 2 3 4 5 6 7 8 9 10 150 25 0 0") =
    Ok (bs "    7 ) R (            S        1.500        0.250" ++ [x0a]).
Proof. vm_compute. reflexivity. Qed.
Example sample_uptime : uptime (Timestamp.mk 90061000007) (Timestamp.mk 0) true = Ok (bs "1 days 01:01:01.000007").
Proof. vm_compute. reflexivity. Qed.

End ProcFacts.
