(* ===== verification/InspectorMain.v ===== *)
(** The inspector as an object: its constructor and destructor
    (src/networking/inspect/Inspector.cpp), the commands it registers, and the
    performance pages (src/networking/inspect/PerformanceInspector.cpp, compiled
    where gperftools is installed).

    What gperftools, the clock and the files answer are arguments. *)

From S2P Require Import Prelude Printf StringPiece CString Timestamp LogStream StdMap Buffer Http Inspector Channel Poller TimerQueue TimerFacts LoopTimers Sockets TcpServer HttpMain Thread ReadFile Proc Favicon.

(** ** Performance pages *)

Module PerformanceInspector.

Definition registerCommands (ins : Inspector.t) (heap growth profile cmdline memstats memhistogram releaseFreeMemory : Inspector.Callback) : Inspector.t :=
  let ins := Inspector.add ins (bs "pprof") (bs "heap") (Some heap) (bs "get heap information") in
  let ins := Inspector.add ins (bs "pprof") (bs "growth") (Some growth) (bs "get heap growth information") in
  let ins := Inspector.add ins (bs "pprof") (bs "profile") (Some profile)
    (bs "get cpu profiling information. CAUTION: blocking thread for 30 seconds!") in
  let ins := Inspector.add ins (bs "pprof") (bs "cmdline") (Some cmdline) (bs "get command line") in
  let ins := Inspector.add ins (bs "pprof") (bs "memstats") (Some memstats) (bs "get memory stats") in
  let ins := Inspector.add ins (bs "pprof") (bs "memhistogram") (Some memhistogram) (bs "get memory histogram") in
  Inspector.add ins (bs "pprof") (bs "releasefreememory") (Some releaseFreeMemory) (bs "release free memory").

(** GetHeapSample and GetHeapGrowthStacks write a string. *)
Definition heap (GetHeapSample : list byte) : list byte := GetHeapSample.
Definition growth (GetHeapGrowthStacks : list byte) : list byte := GetHeapGrowthStacks.

(** What [profile] does to the process and its files. *)
Inductive action := ProfilerStart (fname : list byte) | Sleep (usec : Z) | ProfilerStop | ReadFile (fname : list byte) | Unlink (fname : list byte).

(** [started] is what ProfilerStart returns; [opened], [file] and [read] are how
    the file it wrote reads. *)
Definition profile (read : nat -> list byte -> Z -> list byte + Z) (procStat : list byte) (pid : Z) (now : Timestamp.t)
    (started : Z) (opened : Z + Z) (file : list byte) : res (list action * list byte) :=
  procname ← StringPiece.as_string (ProcessInfo.procname procStat);
  let filename := bs "/tmp/" ++ procname in
  let filename := filename ++ bs "." in
  let filename := filename ++ ProcessInfo.pidString pid in
  let filename := filename ++ bs "." in
  let filename := filename ++ Timestamp.toString now in
  let filename := filename ++ bs ".profile" in
  let path := CString.c_str filename in
  if negb (started =? 0) then
    let '(_, profile) := ReadSmallFile.readFile read opened file (1024 * 1024) [] in
    Ok ([ProfilerStart path; Sleep (30 * 1000 * 1000); ProfilerStop; ReadFile path; Unlink path], profile)
  else Ok ([ProfilerStart path], []).

Definition cmdline : list byte := [].

(** [buf] is the array after GetStats; its text is read up to a NUL. *)
Definition memstats (buf : list byte) : res (list byte) :=
  if bool_decide (x00 ∈ buf) then Ok (CString.c_str buf) else Err Undefined.

(** The loop over the histogram, from its [i]-th entry. *)
Fixpoint histogram_items (i : Z) (histogram : list Z) : list LogStream.item :=
  match histogram with
  | [] => []
  | n :: histogram =>
      [LogStream.IInteger i; LogStream.ICStr (Some (bs " ")); LogStream.IInteger n; LogStream.ICStr (Some [x0a])] ++
      histogram_items (i + 1) histogram
  end.
Definition memhistogram_items (blocks total : Z) (histogram : list Z) : list LogStream.item :=
  [LogStream.ICStr (Some (bs "blocks ")); LogStream.IInteger blocks;
   LogStream.ICStr (Some ([x0a] ++ bs "total ")); LogStream.IInteger total; LogStream.ICStr (Some [x0a])] ++
  histogram_items 0 histogram.
(** [blocks], [total] and [histogram] are what MallocMemoryStats fills in;
    [garbage] is the stream's buffer before. *)
Definition memhistogram (garbage : list byte) (blocks total : Z) (histogram : list Z) : res (list byte) :=
  s ← LogStream.shl_all (LogStream.mk (FixedBuffer.new garbage)) (memhistogram_items blocks total histogram);
  Ok (FixedBuffer.toString (LogStream.buffer_ s)).

(** ** The histogram is complete *)

Fixpoint histogram_text (i : Z) (histogram : list Z) : list byte :=
  match histogram with
  | [] => []
  | n :: histogram => dec i ++ bs " " ++ dec n ++ [x0a] ++ histogram_text (i + 1) histogram
  end.
Definition memhistogram_text (blocks total : Z) (histogram : list Z) : list byte :=
  bs "blocks " ++ dec blocks ++ [x0a] ++ bs "total " ++ dec total ++ [x0a] ++ histogram_text 0 histogram.

Definition shown_number (n : Z) : Z * list byte := (LogStream.kMaxNumericSize, dec n).
Definition shown_text (text : list byte) : Z * list byte := (zlen text + 1, text).
Fixpoint histogram_shown (i : Z) (histogram : list Z) : list (Z * list byte) :=
  match histogram with
  | [] => []
  | n :: histogram =>
      [shown_number i; shown_text (bs " "); shown_number n; shown_text [x0a]] ++ histogram_shown (i + 1) histogram
  end.

Definition roomy (p : Z * list byte) : Prop := p.1 <= zlen p.2 + LogStream.kMaxNumericSize.

Lemma roomy_number n : roomy (shown_number n).
Proof. unfold roomy. cbn. pose proof (zlen_nonneg (dec n)). lia. Qed.
Lemma roomy_text (text : list byte) : roomy (shown_text text).
Proof. unfold roomy, LogStream.kMaxNumericSize. cbn. lia. Qed.

Lemma histogram_shows i histogram :
  0 <= i -> i + zlen histogram <= 2 ^ 31 -> Forall in_int histogram ->
  Forall2 (fun i '(room, text) => LogStream.shows i room text) (histogram_items i histogram) (histogram_shown i histogram) /\
  Forall roomy (histogram_shown i histogram) /\
  concat (map snd (histogram_shown i histogram)) = histogram_text i histogram /\
  zlen (histogram_text i histogram) <= 42 * zlen histogram.
Proof.
  revert i. induction histogram as [|n histogram IH]; intros i Hi Hl Hh; [by repeat constructor|].
  inversion Hh as [|? ? Hn Hh']; subst. rewrite zlen_cons in *. pose proof (zlen_nonneg histogram).
  destruct (IH (i + 1)) as (I1 & I2 & I3 & I4); [lia..|done|].
  assert (Hi' : LogStream.in_integer i) by (unfold LogStream.in_integer; lia).
  assert (Hn' : LogStream.in_integer n) by (unfold LogStream.in_integer, in_int, int_min, int_max in *; lia).
  cbn [histogram_items histogram_shown histogram_text app map concat snd]. split_and!.
  - repeat (apply Forall2_cons_2; [by constructor|]). done.
  - by repeat (apply Forall_cons_2; [apply roomy_number || apply roomy_text|]).
  - by rewrite I3.
  - rewrite !zlen_app, zlen_cons. pose proof (LogStream.length_dec i Hi'). pose proof (LogStream.length_dec n Hn').
    change (zlen (bs " ")) with 1. lia.
Qed.

(** The page of the histogram is never cut by the stream's buffer: with as many as
    the 64 entries of gperftools (or 90), the numbers of blocks and bytes and
    every entry are there, in order. *)
Theorem memhistogram_complete garbage blocks total histogram :
  zlen garbage = LogStream.kSmallBuffer -> in_int blocks -> 0 <= total < 2 ^ 64 -> Forall in_int histogram -> zlen histogram <= 90 ->
  memhistogram garbage blocks total histogram = Ok (memhistogram_text blocks total histogram).
Proof.
  intros Hg Hb Ht Hh Hl. destruct (histogram_shows 0 histogram) as (H1 & H2 & H3 & H4); [lia..|done|].
  assert (Hb' : LogStream.in_integer blocks) by (unfold LogStream.in_integer, in_int, int_min, int_max in *; lia).
  assert (Ht' : LogStream.in_integer total) by (unfold LogStream.in_integer; lia).
  set (head := [shown_text (bs "blocks "); shown_number blocks; shown_text ([x0a] ++ bs "total "); shown_number total; shown_text [x0a]]).
  destruct (LogStream.shl_all_spec (LogStream.mk (FixedBuffer.new garbage)) (memhistogram_items blocks total histogram) (head ++ histogram_shown 0 histogram)) as (s & E & Hw & Hc).
  { split; [done|]. cbn. unfold LogStream.kSmallBuffer, int_max. lia. }
  { apply Forall2_app; [|exact H1]. by repeat (apply Forall2_cons_2; [by constructor|]). }
  unfold memhistogram. rewrite E. cbn [mbind res_bind]. rewrite LogStream.stream_text by done. rewrite Hc, LogStream.write_all.
  - change (LogStream.content _) with (@nil byte). rewrite map_app, concat_app, H3. unfold memhistogram_text, head. cbn [map concat snd app].
    by rewrite !app_nil_r, <- !app_assoc.
  - apply Forall_app; split; [|done].
    by repeat (apply Forall_cons_2; [apply roomy_number || apply roomy_text|]).
  - change (LogStream.content _) with (@nil byte). rewrite map_app, concat_app, H3, zlen_app.
    unfold head, shown_text, shown_number, LogStream.kSmallBuffer, LogStream.kMaxNumericSize. cbn [map concat snd].
    pose proof (LogStream.length_dec _ Hb'). pose proof (LogStream.length_dec _ Ht').
    rewrite !zlen_app, !zlen_cons, !zlen_nil. change (zlen (bs "blocks ")) with 7. change (zlen (bs "total ")) with 6. lia.
Qed.

End PerformanceInspector.

(** ** The object *)

Module InspectorMain.

Section Main.
Context {P : Type} {HP : Poller P} {double : Type} (positive : double -> bool) (to_micros : double -> Z) (zero : double).
(** The functions registered, by module and command: [ProcessInspector],
    [SystemInspector] and [PerformanceInspector] given what the system answers. *)
Context (page : list byte -> list byte -> Inspector.Callback).
Abbreviation world := (@LoopTimers.world double).

(** Whether the pointers to the three groups of commands are set. *)
Record t := mk {
  server_ : HttpMain.t P Inspector.t;
  processInspector_ : bool;
  performanceInspector_ : bool;
  systemInspector_ : bool;
  commands : Inspector.t;
}.
Definition with_commands (o : t) (c : Inspector.t) : t :=
  mk (server_ o) (processInspector_ o) (performanceInspector_ o) (systemInspector_ o) c.

Definition register_proc (c : Inspector.t) : Inspector.t :=
  let page := page (bs "proc") in
  ProcessInspector.registerCommands c (page (bs "overview")) (page (bs "pid")) (page (bs "status")) (page (bs "threads")).
Definition register_sys (c : Inspector.t) : Inspector.t :=
  let page := page (bs "sys") in
  SystemInspector.registerCommands c (page (bs "overview")) (page (bs "loadavg")) (page (bs "version")) (page (bs "cpuinfo"))
    (page (bs "meminfo")) (page (bs "stat")).
Definition register_pprof (c : Inspector.t) : Inspector.t :=
  let page := page (bs "pprof") in
  PerformanceInspector.registerCommands c (page (bs "heap")) (page (bs "growth")) (page (bs "profile")) (page (bs "cmdline"))
    (page (bs "memstats")) (page (bs "memhistogram")) (page (bs "releasefreememory")).

(** [operator->] of a [unique_ptr]. *)
Definition arrow (set : bool) : res unit := if set then Ok tt else Err Undefined.

(** The body of the constructor, on an object [o] whose members are made; [g] is
    [g_globalInspector], [this] the object's address, [c] the calling thread's
    data and [tcmalloc] whether HAVE_TCMALLOC is defined.  It returns [g], the
    object, the thread's data and the loop's timers, where [start] waits at the
    address [p]. *)
Definition construct_body (tcmalloc : bool) (o : t) (g : option Z) (this tid getpid : Z) (c : CurrentThread.t)
    (w : world) (p now clock : Z) : res (option Z * t * CurrentThread.t * world) :=
  let '(main, c) := CurrentThread.isMainThread tid getpid c in
  assert! main;
  assert! bool_decide (g = None);
  let g := Some this in
  let o := mk (HttpMain.setHttpCallback (server_ o) (Inspector.onRequest Favicon.favicon)) (processInspector_ o) (performanceInspector_ o)
              (systemInspector_ o) (commands o) in
  _ ← arrow (processInspector_ o);
  let o := with_commands o (register_proc (commands o)) in
  _ ← arrow (systemInspector_ o);
  let o := with_commands o (register_sys (commands o)) in
  let o :=
    if tcmalloc then
      let o := mk (server_ o) (processInspector_ o) true (systemInspector_ o) (commands o) in
      with_commands o (register_pprof (commands o))
    else o in
  w ← LoopTimers.runAfter positive to_micros zero w tid p zero now clock;
  Ok (g, o, c, w).

(** The constructor: [server_] is made, with what its own constructor asks for;
    nothing sets a pointer. *)
Definition new (tcmalloc : bool) (poller : P) (h : Channel.heap) (loop : Z) (ipPort name : list byte) (ch socket open_ bind_ : Z)
    (g : option Z) (this tid getpid : Z) (c : CurrentThread.t) (w : world) (p now clock : Z)
    : res (option Z * t * CurrentThread.t * world) :=
  server ← HttpMain.new poller h loop ipPort (bs "Inspector:" ++ name) ch socket open_ bind_;
  construct_body tcmalloc (mk server false false false Inspector.new) g this tid getpid c w p now clock.

Definition start (o : t) (tid : Z) (startLoop : Z -> Z) (listen_ : Z) : res t :=
  server ← HttpMain.start (server_ o) tid startLoop listen_;
  Ok (mk server (processInspector_ o) (performanceInspector_ o) (systemInspector_ o) (commands o)).

Definition destroy (g : option Z) (tid getpid : Z) (c : CurrentThread.t) : res (option Z * CurrentThread.t) :=
  let '(main, c) := CurrentThread.isMainThread tid getpid c in
  assert! main; Ok (None, c).

(** What a request is answered with. *)
Definition serve (o : t) : HttpServer.HttpCallback := HttpMain.httpCallback_ (server_ o) (commands o).

(** ** Facts *)

(** No inspector is ever constructed: on the main thread, with no other one and
    its server made, the constructor calls a member through a null pointer before
    it registers any command. *)
Theorem constructor_undefined tcmalloc poller h loop ipPort name ch socket open_ bind_ g this tid getpid c w p now clock :
  let made := new tcmalloc poller h loop ipPort name ch socket open_ bind_ g this tid getpid c w p now clock in
  (forall r, made <> Ok r) /\
  (0 <= socket -> 0 <= open_ -> 0 <= bind_ -> g = None -> CurrentThread.t_cachedTid (CurrentThread.tid tid c).2 = getpid -> made = Err Undefined).
Proof.
  cbn zeta. unfold new. destruct (HttpMain.new _ _ _ _ _ _ _ _ _) as [server|e] eqn:Es; cbn [mbind res_bind].
  - unfold construct_body, CurrentThread.isMainThread. destruct (CurrentThread.tid tid c) as [id c'] eqn:Et. split.
    + intros r. destruct (id =? getpid); cbn; [|done]. by destruct (bool_decide (g = None)).
    + intros _ _ _ -> Hm. cbn in Hm.
      assert (id = CurrentThread.t_cachedTid c') as -> by (unfold CurrentThread.tid in Et; by injection Et as <- <-).
      by rewrite Hm, Z.eqb_refl.
  - split; [done|]. intros H1 H2 H3. unfold HttpMain.new, TcpServer.new, Acceptor.new, Sockets.createNonblockingOrDie, Sockets.bindOrDie in Es.
    rewrite (proj2 (Z.ltb_ge socket 0)), (proj2 (Z.ltb_ge bind_ 0)), (proj2 (Z.leb_le 0 open_)) in Es by done. done.
Qed.

(** The commands of an inspector. *)
Definition builtins (tcmalloc : bool) : list (string * string * string) :=
  [("proc", "overview", "print basic overview"); ("proc", "pid", "print pid"); ("proc", "status", "print /proc/self/status");
   ("proc", "threads", "list /proc/self/task");
   ("sys", "overview", "print system overview"); ("sys", "loadavg", "print /proc/loadavg"); ("sys", "version", "print /proc/version");
   ("sys", "cpuinfo", "print /proc/cpuinfo"); ("sys", "meminfo", "print /proc/meminfo"); ("sys", "stat", "print /proc/stat")]%string ++
  if tcmalloc then
    [("pprof", "heap", "get heap information"); ("pprof", "growth", "get heap growth information");
     ("pprof", "profile", "get cpu profiling information. CAUTION: blocking thread for 30 seconds!"); ("pprof", "cmdline", "get command line");
     ("pprof", "memstats", "get memory stats"); ("pprof", "memhistogram", "get memory histogram");
     ("pprof", "releasefreememory", "release free memory")]%string
  else [].
Definition builtin_ops (tcmalloc : bool) : list Inspector.op :=
  map (fun '(m, c, help) => Inspector.Add (bs m) (bs c) (Some (page (bs m) (bs c))) (bs help)) (builtins tcmalloc).

Lemma registered (tcmalloc : bool) :
  (let c := register_sys (register_proc Inspector.new) in if tcmalloc then register_pprof c else c) = Inspector.run_ops (builtin_ops tcmalloc).
Proof.
  destruct tcmalloc; cbv [register_sys register_proc register_pprof ProcessInspector.registerCommands SystemInspector.registerCommands
    PerformanceInspector.registerCommands Inspector.run_ops builtin_ops builtins map app foldl Inspector.apply_op]; reflexivity.
Qed.

Definition segment_ok (s : string) : bool := negb (bool_decide (bs s = [])) && negb (bool_decide (Inspector.slash ∈ bs s)).
Lemma segment_ok_spec s : segment_ok s = true -> Inspector.segment (bs s).
Proof. unfold segment_ok. intros [H1%negb_true_iff H2%negb_true_iff]%andb_prop. by apply bool_decide_eq_false in H1, H2. Qed.

(** A builtin is found under its module and name. *)
Lemma builtin_spec tcmalloc m c help : (m, c, help) ∈ builtins tcmalloc ->
  Inspector.segment (bs m) /\ Inspector.segment (bs c) /\
  Inspector.spec_ops (builtin_ops tcmalloc) (bs m) (bs c) = Some (Some (page (bs m) (bs c)), bs help).
Proof.
  intros H. assert (Hs : Forall (fun b : string * string * string => let '(m, c, _) := b in segment_ok m && segment_ok c = true) (builtins tcmalloc)).
  { apply Forall_forall. intros [[m' c'] h'] Hin%list_elem_of_In. revert m' c' h' Hin.
    destruct tcmalloc; cbn; intros m' c' h' Hin; repeat (destruct Hin as [[= <- <- <-]|Hin]; [reflexivity|]); done. }
  rewrite Forall_forall in Hs. apply Hs in H as Hm. apply andb_prop in Hm as [Hm Hc].
  split_and!; [by apply segment_ok_spec..|].
  apply list_elem_of_In in H. destruct tcmalloc; cbn in H; repeat (destruct H as [[= <- <- <-]|H]; [reflexivity|]); done.
Qed.

(** With its pointers set, and the timer for [start] taken, the constructor gives
    an inspector that answers the path of each of its commands, with any
    arguments, by what the command returns on them, and the path of the icon by
    the icon. *)
Theorem builtins_served tcmalloc server this getpid c w p now clock w' :
  CurrentThread.t_cachedTid c = getpid -> getpid <> 0 ->
  LoopTimers.runAfter positive to_micros zero w getpid p zero now clock = Ok w' ->
  exists o,
    construct_body tcmalloc (mk server true false true Inspector.new) None this getpid getpid c w p now clock
      = Ok (Some this, o, c, w') /\
    (forall m cmd help args req resp, (m, cmd, help) ∈ builtins tcmalloc -> Forall Inspector.segment args ->
       HttpRequest.path_ req = Inspector.join (bs m :: bs cmd :: args) ->
       serve o req resp = Inspector.answer resp (bs "text/plain") (page (bs m) (bs cmd) (HttpRequest.method_ req) args)) /\
    (forall req resp, HttpRequest.path_ req = bs "/favicon.ico" ->
       serve o req resp = Inspector.answer resp (bs "image/png") Favicon.favicon).
Proof.
  intros Hm H0 Hw. set (o := mk (HttpMain.setHttpCallback server (Inspector.onRequest Favicon.favicon)) true tcmalloc true (Inspector.run_ops (builtin_ops tcmalloc))).
  exists o. split_and!.
  - unfold construct_body, CurrentThread.isMainThread, CurrentThread.tid. rewrite Hm, (proj2 (Z.eqb_neq getpid 0)) by done.
    rewrite Hm, Z.eqb_refl. cbn -[LoopTimers.runAfter Inspector.onRequest register_proc register_sys register_pprof]. rewrite Hw.
    cbn [mbind res_bind]. unfold o. rewrite <- registered. by destruct tcmalloc.
  - intros m cmd help args req resp Hin Ha Hp. destruct (builtin_spec _ _ _ _ Hin) as (S1 & S2 & Es).
    unfold serve. cbn [HttpMain.setHttpCallback HttpMain.httpCallback_ server_ commands o]. rewrite (Inspector.onRequest_command _ _ (bs m) (bs cmd) args) by (repeat apply Forall_cons_2; done).
    by rewrite Es.
  - intros req resp Hp. unfold serve. cbn [HttpMain.setHttpCallback HttpMain.httpCallback_ server_ commands o]. unfold Inspector.onRequest. rewrite Hp. reflexivity.
Qed.

End Main.
End InspectorMain.
