(* ===== verification/Local.v ===== *)
(** Objects made once: src/utility/Singleton.h (one per process),
    ThreadLocal.h and ThreadLocalSingleton.h (one per thread), and the callbacks
    that do not keep their object, src/utility/WeakCallback.h; with the
    exception of src/utility/Exception.cpp.

    An object is an address; [new] takes the next one, and deleting what is not
    there is undefined. *)

From S2P Require Import Prelude CString Thread.

Record heap := mk_heap { next : Z; live : gset Z }.
Definition new_object (h : heap) : Z * heap := (next h, mk_heap (next h + 1) ({[next h]} ∪ live h)).
Definition delete_object (h : heap) (p : Z) : res heap :=
  if decide (p ∈ live h) then Ok (mk_heap (next h) (live h ∖ {[p]})) else Err Undefined.

(** ** Singleton.h *)
Module Singleton.

Record t := mk { ponce_ : bool; value_ : option Z; at_exit : nat }.
Definition initial : t := mk false None 0.

(** [init]; a type with a member no_destroy is left to the end of the process. *)
Definition init (no_destroy : bool) (s : t) (h : heap) : t * heap :=
  let '(p, h) := new_object h in
  (mk true (Some p) (if no_destroy then at_exit s else S (at_exit s)), h).

(** [instance]: pthread_once runs [init] in the first call. *)
Definition instance (no_destroy : bool) (s : t) (h : heap) : res (Z * t * heap) :=
  let '(s, h) := if ponce_ s then (s, h) else init no_destroy s h in
  match value_ s with Some p => Ok (p, s, h) | None => Err AssertFailed end.

(** [destroy], which exit(3) calls as often as it was registered. *)
Definition destroy (s : t) (h : heap) : res (t * heap) :=
  match value_ s with
  | Some p => h ← delete_object h p; Ok (mk (ponce_ s) None (at_exit s), h)
  | None => Ok (s, h)                          (* delete of a null pointer *)
  end.
Definition exit (s : t) (h : heap) : res (t * heap) :=
  Nat.iter (at_exit s) (fun r => '(s, h) ← r; destroy s h) (Ok (s, h)).

End Singleton.

(** ** ThreadLocal.h: a key of pthreads, with a value per thread *)
Module ThreadLocal.

Abbreviation t := (gmap Z Z).                  (* pthread_getspecific of each thread *)

Definition value (tid : Z) (s : t) (h : heap) : Z * t * heap :=
  match s !! tid with
  | Some p => (p, s, h)
  | None => let '(p, h) := new_object h in (p, <[tid := p]> s, h)
  end.
(** A thread ends: its value is cleared, and destroyed if there was one. *)
Definition destructor (tid : Z) (s : t) (h : heap) : res (t * heap) :=
  match s !! tid with
  | Some p => h ← delete_object h p; Ok (delete tid s, h)
  | None => Ok (s, h)
  end.

End ThreadLocal.

(** ** ThreadLocalSingleton.h: a thread-local pointer, and a key for its end *)
Module ThreadLocalSingleton.

Record t := mk { t_value_ : gmap Z Z; pkey_ : gmap Z Z }.

Definition set (tid : Z) (newObj : Z) (pkey : gmap Z Z) : res (gmap Z Z) :=
  assert! bool_decide (pkey !! tid = None);
  Ok (<[tid := newObj]> pkey).
Definition instance (tid : Z) (s : t) (h : heap) : res (Z * t * heap) :=
  match t_value_ s !! tid with
  | Some p => Ok (p, s, h)
  | None =>
      let '(p, h) := new_object h in
      k ← set tid p (pkey_ s);
      Ok (p, mk (<[tid := p]> (t_value_ s)) k, h)
  end.
Definition pointer (tid : Z) (s : t) : option Z := t_value_ s !! tid.
(** The key's destructor, at the end of the thread. *)
Definition destructor (tid : Z) (s : t) (h : heap) : res (t * heap) :=
  match pkey_ s !! tid with
  | Some obj =>
      let k := delete tid (pkey_ s) in
      assert! bool_decide (t_value_ s !! tid = Some obj);
      h ← delete_object h obj;
      Ok (mk (delete tid (t_value_ s)) k, h)
  | None => Ok (s, h)
  end.

End ThreadLocalSingleton.

(** ** WeakCallback.h: the callback of an object that may be gone *)
Module WeakCallback.

Record t (ARGS R : Type) := mk { object_ : Z; function_ : Z -> ARGS -> R -> R }.
Arguments mk {ARGS R} object_ function_.
Arguments object_ {ARGS R} _.
Arguments function_ {ARGS R} _ _ _ _.
Definition makeWeakCallback {ARGS R} (object : Z) (function : Z -> ARGS -> R -> R) : t ARGS R := mk object function.
Definition call {ARGS R} (cb : t ARGS R) (h : heap) (args : ARGS) (world : R) : R :=
  if decide (object_ cb ∈ live h) then function_ cb (object_ cb) args world else world.

End WeakCallback.

(** ** Exception.cpp *)
Module Exception.

Record t := mk { message_ : list byte; stack_ : list byte }.
Definition new (demangler : list byte -> option (list byte)) (msg : list byte) (symbols : option (list (list byte))) : t :=
  mk msg (CurrentThread.stackTrace demangler false symbols).
Definition what (e : t) : list byte := CString.c_str (message_ e).
Definition stackTrace (e : t) : list byte := CString.c_str (stack_ e).

End Exception.

(** ** A process that uses all three *)
Module Locals.

Inductive key := KSingleton | KLocal (tid : Z) | KLocalSingleton (tid : Z).
#[global] Instance key_eq_dec : EqDecision key.
Proof. solve_decision. Defined.

Record world := mk { singleton : Singleton.t; local : ThreadLocal.t; local_singleton : ThreadLocalSingleton.t; objects : heap }.
Definition initial : world := mk Singleton.initial ∅ (ThreadLocalSingleton.mk ∅ ∅) (mk_heap 1 ∅).

Definition held (w : world) (k : key) : option Z :=
  match k with
  | KSingleton => Singleton.value_ (singleton w)
  | KLocal tid => local w !! tid
  | KLocalSingleton tid => ThreadLocalSingleton.pointer tid (local_singleton w)
  end.

Inductive event := Get (k : key) | ThreadEnds (tid : Z).

Section Process.
Context (no_destroy : bool).

Definition get (w : world) (k : key) : res (Z * world) :=
  match k with
  | KSingleton =>
      '(p, s, h) ← Singleton.instance no_destroy (singleton w) (objects w);
      Ok (p, mk s (local w) (local_singleton w) h)
  | KLocal tid =>
      let '(p, s, h) := ThreadLocal.value tid (local w) (objects w) in
      Ok (p, mk (singleton w) s (local_singleton w) h)
  | KLocalSingleton tid =>
      '(p, s, h) ← ThreadLocalSingleton.instance tid (local_singleton w) (objects w);
      Ok (p, mk (singleton w) (local w) s h)
  end.
(** The destructors of both keys. *)
Definition thread_ends (w : world) (tid : Z) : res world :=
  '(l, h) ← ThreadLocal.destructor tid (local w) (objects w);
  '(s, h) ← ThreadLocalSingleton.destructor tid (local_singleton w) h;
  Ok (mk (singleton w) l s h).
Definition step (w : world) (e : event) : res world :=
  match e with Get k => '(_, w) ← get w k; Ok w | ThreadEnds tid => thread_ends w tid end.
Fixpoint run (w : world) (es : list event) : res world :=
  match es with [] => Ok w | e :: es => w ← step w e; run w es end.

(** The objects alive are those held, each by one holder. *)
Record inv (w : world) : Prop := {
  inv_live p : p ∈ live (objects w) <-> exists k, held w k = Some p;
  inv_inj k k' p : held w k = Some p -> held w k' = Some p -> k = k';
  inv_next p : p ∈ live (objects w) -> p < next (objects w);
  inv_key : ThreadLocalSingleton.pkey_ (local_singleton w) = ThreadLocalSingleton.t_value_ (local_singleton w);
  inv_once : Singleton.ponce_ (singleton w) = bool_decide (is_Some (Singleton.value_ (singleton w)));
  inv_exit : Singleton.at_exit (singleton w) = if Singleton.ponce_ (singleton w) && negb no_destroy then 1%nat else 0%nat;
}.

Lemma held_initial k : held initial k = None.
Proof. by destruct k. Qed.
Lemma inv_initial : inv initial.
Proof.
  split; try done.
  - intros p. split; [by intros ?%elem_of_empty|]. intros [k H]. by rewrite held_initial in H.
  - intros k k' p H. by rewrite held_initial in H.
Qed.

(** What an event does to the holders. *)
Definition gives (w w' : world) (k : key) (v : option Z) : Prop :=
  held w' k = v /\ forall k', k' <> k -> held w' k' = held w k'.

Definition keys_agree (w : world) : Prop := ThreadLocalSingleton.pkey_ (local_singleton w) = ThreadLocalSingleton.t_value_ (local_singleton w).
Definition once_agrees (w : world) : Prop :=
  Singleton.ponce_ (singleton w) = bool_decide (is_Some (Singleton.value_ (singleton w))) /\
  Singleton.at_exit (singleton w) = if Singleton.ponce_ (singleton w) && negb no_destroy then 1%nat else 0%nat.

Lemma inv_new w w' k p h :
  inv w -> held w k = None -> gives w w' k (Some p) -> new_object (objects w) = (p, h) -> objects w' = h -> keys_agree w' -> once_agrees w' -> inv w'.
Proof.
  intros [L I N _ _ _] Hk [G1 G2] [= <- <-] Hh K [O1 O2]. split; try done; rewrite ?Hh; cbn.
  - intros q. rewrite elem_of_union, elem_of_singleton, L. split.
    + intros [->|[k' Hk']]; [by exists k|]. exists k'. rewrite G2; [done|]. by intros ->; rewrite Hk in Hk'.
    + intros [k' Hk']. destruct (decide (k' = k)) as [->|Hne]; [left; congruence|]. right. exists k'. by rewrite <- G2.
  - assert (Hfresh : forall k', held w k' <> Some (next (objects w))).
    { intros k' Hk'. assert (next (objects w) ∈ live (objects w)) as ?%N by (apply L; by exists k'). lia. }
    intros k1 k2 q H1 H2. destruct (decide (k1 = k)) as [->|N1], (decide (k2 = k)) as [->|N2]; [done|..].
    + rewrite (G2 _ N2) in H2. rewrite G1 in H1. injection H1 as <-. by apply Hfresh in H2.
    + rewrite (G2 _ N1) in H1. rewrite G1 in H2. injection H2 as <-. by apply Hfresh in H1.
    + rewrite (G2 _ N1) in H1. rewrite (G2 _ N2) in H2. by eapply I.
  - intros q [->%elem_of_singleton|Hq]%elem_of_union; [lia|]. apply N in Hq. lia.
Qed.

Lemma inv_delete w w' k p :
  inv w -> held w k = Some p -> gives w w' k None -> keys_agree w' -> once_agrees w' ->
  exists h, delete_object (objects w) p = Ok h /\ (objects w' = h -> inv w').
Proof.
  intros [L I N _ _ _] Hk [G1 G2] K [O1 O2]. assert (Hp : p ∈ live (objects w)) by (apply L; by exists k).
  unfold delete_object. rewrite decide_True by done. eexists. split; [done|]. intros Hh. split; try done; rewrite ?Hh; cbn.
  - intros q. rewrite elem_of_difference, elem_of_singleton, L. split.
    + intros [[k' Hk'] Hne]. exists k'. rewrite G2; [done|]. intros ->. congruence.
    + intros [k' Hk']. destruct (decide (k' = k)) as [->|Hne]; [congruence|]. rewrite G2 in Hk' by done. split; [by exists k'|].
      intros ->. apply Hne. by eapply I.
  - intros k1 k2 q H1 H2. destruct (decide (k1 = k)) as [->|N1]; [congruence|]. destruct (decide (k2 = k)) as [->|N2]; [congruence|].
    rewrite G2 in H1, H2 by done. by eapply I.
  - intros q [Hq _]%elem_of_difference. by apply N.
Qed.

Lemma get_ok w k : inv w ->
  exists p w', get w k = Ok (p, w') /\ inv w' /\ gives w w' k (Some p) /\ (forall q, held w k = Some q -> p = q /\ w' = w).
Proof.
  intros Hi. pose proof Hi as [L I N K O E]. destruct (held w k) as [q|] eqn:Hk.
  - exists q, w. assert (get w k = Ok (q, w)) as ->.
    { destruct w as [s l ls h], k as [|tid|tid]; cbn in *.
      - unfold Singleton.instance. rewrite O, Hk, bool_decide_true by done. by rewrite Hk.
      - unfold ThreadLocal.value. by rewrite Hk.
      - unfold ThreadLocalSingleton.instance. unfold ThreadLocalSingleton.pointer in Hk. by rewrite Hk. }
    split_and!; try done. by intros ? [= <-].
  - destruct w as [s l ls h], k as [|tid|tid]; cbn in Hk; cbn [get singleton local local_singleton objects] in *.
    + unfold Singleton.instance. rewrite O, Hk, bool_decide_false by (by intros []). cbn [Singleton.init new_object Singleton.value_ mbind res_bind].
      eexists _, _. split; [done|]. rewrite O, Hk, bool_decide_false in E by (by intros []). cbn in E.
      assert (G : gives (mk s l ls h) (mk (Singleton.mk true (Some (next h)) (if no_destroy then Singleton.at_exit s else S (Singleton.at_exit s))) l ls
        (mk_heap (next h + 1) ({[next h]} ∪ live h))) KSingleton (Some (next h))) by (split; [done|]; by intros []).
      split_and!; try done. apply (inv_new _ _ KSingleton _ _ Hi Hk G eq_refl eq_refl); [done|]. split; [done|]. cbn. rewrite E. by destruct no_destroy.
    + unfold ThreadLocal.value. rewrite Hk. cbn. eexists _, _. split; [done|].
      assert (G : gives (mk s l ls h) (mk s (<[tid := next h]> l) ls (mk_heap (next h + 1) ({[next h]} ∪ live h))) (KLocal tid) (Some (next h))).
      { split; cbn; [by rewrite lookup_insert_eq|]. intros [|t|t] Hne; cbn; try done. apply lookup_insert_ne. congruence. }
      split_and!; try done. by apply (inv_new _ _ (KLocal tid) _ _ Hi Hk G eq_refl eq_refl).
    + unfold ThreadLocalSingleton.instance. unfold ThreadLocalSingleton.pointer in Hk. rewrite Hk. cbn [new_object].
      unfold ThreadLocalSingleton.set. rewrite assert_true by (rewrite K; by apply bool_decide_eq_true). cbn [mbind res_bind]. rewrite K.
      eexists _, _. split; [done|].
      assert (G : gives (mk s l ls h) (mk s l (ThreadLocalSingleton.mk (<[tid := next h]> (ThreadLocalSingleton.t_value_ ls)) (<[tid := next h]> (ThreadLocalSingleton.t_value_ ls)))
        (mk_heap (next h + 1) ({[next h]} ∪ live h))) (KLocalSingleton tid) (Some (next h))).
      { split; cbn; unfold ThreadLocalSingleton.pointer; cbn; [by rewrite lookup_insert_eq|]. intros [|t|t] Hne; cbn; try done. apply lookup_insert_ne. congruence. }
      split_and!; try done. by apply (inv_new _ _ (KLocalSingleton tid) _ _ Hi Hk G eq_refl eq_refl).
Qed.

(** The end of a thread, a key at a time. *)
Lemma local_ends w tid : inv w ->
  exists l h, ThreadLocal.destructor tid (local w) (objects w) = Ok (l, h) /\
    inv (mk (singleton w) l (local_singleton w) h) /\ gives w (mk (singleton w) l (local_singleton w) h) (KLocal tid) None.
Proof.
  intros Hi. pose proof Hi as [_ _ _ K O E]. destruct w as [s l ls h]; cbn in *. unfold ThreadLocal.destructor.
  destruct (l !! tid) as [p|] eqn:Hl; [|by exists l, h].
  assert (G : forall h', gives (mk s l ls h) (mk s (delete tid l) ls h') (KLocal tid) None).
  { split; cbn; [by rewrite lookup_delete_eq|]. intros [|t|t] Hne; cbn; try done. apply lookup_delete_ne. congruence. }
  destruct (inv_delete (mk s l ls h) (mk s (delete tid l) ls (mk_heap (next h) (live h ∖ {[p]}))) (KLocal tid) p Hi Hl (G _)) as (h' & Eh & Hn); [done..|].
  cbn [objects] in Eh. rewrite Eh. cbn. eexists _, _. split; [done|]. split; [|by apply G].
  unfold delete_object in Eh. destruct (decide _); [|done]. injection Eh as <-. by apply Hn.
Qed.

Lemma local_singleton_ends w tid : inv w ->
  exists ls h, ThreadLocalSingleton.destructor tid (local_singleton w) (objects w) = Ok (ls, h) /\
    inv (mk (singleton w) (local w) ls h) /\ gives w (mk (singleton w) (local w) ls h) (KLocalSingleton tid) None.
Proof.
  intros Hi. pose proof Hi as [_ _ _ K O E]. destruct w as [s l [v k] h]; cbn in *. subst k. unfold ThreadLocalSingleton.destructor; cbn.
  destruct (v !! tid) as [p|] eqn:Hl; [|by exists (ThreadLocalSingleton.mk v v), h].
  assert (G : forall h', gives (mk s l (ThreadLocalSingleton.mk v v) h) (mk s l (ThreadLocalSingleton.mk (delete tid v) (delete tid v)) h') (KLocalSingleton tid) None).
  { split; unfold held, ThreadLocalSingleton.pointer; cbn; [by rewrite lookup_delete_eq|]. intros [|t|t] Hne; cbn; try done. apply lookup_delete_ne. congruence. }
  destruct (inv_delete (mk s l (ThreadLocalSingleton.mk v v) h) (mk s l (ThreadLocalSingleton.mk (delete tid v) (delete tid v)) (mk_heap (next h) (live h ∖ {[p]})))
    (KLocalSingleton tid) p Hi Hl (G _)) as (h' & Eh & Hn); [done..|].
  rewrite assert_true by (by apply bool_decide_eq_true). cbn [objects] in Eh. rewrite Eh. cbn. eexists _, _. split; [done|]. split; [|by apply G].
  unfold delete_object in Eh. destruct (decide _); [|done]. injection Eh as <-. by apply Hn.
Qed.

Lemma thread_ends_ok w tid : inv w ->
  exists w', thread_ends w tid = Ok w' /\ inv w' /\ held w' (KLocal tid) = None /\ held w' (KLocalSingleton tid) = None /\
    forall k, k <> KLocal tid -> k <> KLocalSingleton tid -> held w' k = held w k.
Proof.
  intros Hi. unfold thread_ends. destruct (local_ends w tid Hi) as (l & h & -> & I1 & G1 & G2). cbn [mbind res_bind].
  destruct (local_singleton_ends _ tid I1) as (ls & h' & E & I2 & G3 & G4). cbn [local_singleton objects] in E. rewrite E. cbn [mbind res_bind].
  eexists. split; [done|]. split_and!; try done. intros k H1 H2. by rewrite G4, G2.
Qed.

Definition keeps (k : key) (e : event) : Prop :=
  match e with ThreadEnds tid => k <> KLocal tid /\ k <> KLocalSingleton tid | Get _ => True end.

Lemma run_ok w es : inv w ->
  exists w', run w es = Ok w' /\ inv w' /\ forall k p, Forall (keeps k) es -> held w k = Some p -> held w' k = Some p.
Proof.
  revert w. induction es as [|e es IH]; intros w Hi; [by exists w|]. cbn [run].
  assert (exists w', step w e = Ok w' /\ inv w' /\ forall k p, keeps k e -> held w k = Some p -> held w' k = Some p) as (w1 & -> & I1 & H1).
  { destruct e as [k|tid]; cbn [step].
    - destruct (get_ok w k Hi) as (p & w' & -> & I' & [G1 G2] & Hq). exists w'. split_and!; try done. intros k' q _ Hk'.
      destruct (decide (k' = k)) as [->|Hne]; [|by rewrite G2]. by destruct (Hq q Hk') as [_ ->].
    - destruct (thread_ends_ok w tid Hi) as (w' & -> & I' & _ & _ & G). exists w'. split_and!; try done. intros k q [N1 N2] Hk. by rewrite G. }
  cbn [mbind res_bind]. destruct (IH w1 I1) as (w2 & -> & I2 & H2). exists w2. split_and!; try done.
  intros k p [Hk Hf]%Forall_cons Hp. apply H2; [done|]. by apply H1.
Qed.

(** Exit destroys the singleton, once, unless its type forbids it. *)
Lemma exit_ok w : inv w -> exists s h, Singleton.exit (singleton w) (objects w) = Ok (s, h) /\
  live h = if no_destroy then live (objects w) else live (objects w) ∖ match held w KSingleton with Some p => {[p]} | None => ∅ end.
Proof.
  intros [L _ _ _ O E]. destruct w as [s l ls h]; cbn in *. unfold Singleton.exit. rewrite E, O.
  destruct (Singleton.value_ s) as [p|] eqn:Hv.
  - rewrite bool_decide_true by done. destruct no_destroy; cbn; [by eexists _, _|]. unfold Singleton.destroy, delete_object. rewrite Hv.
    rewrite decide_True by (apply L; by exists KSingleton). cbn. by eexists _, _.
  - rewrite bool_decide_false by (by intros []). cbn. eexists _, _. split; [done|]. destruct no_destroy; [done|set_solver].
Qed.

End Process.

(** C28: in a process whose threads come to their singletons and thread-local
    values in any order, nothing asserts and nothing is deleted twice; each
    holder, the process or a thread, always gets the object it got first, until
    its thread ends; no two holders share one; the objects alive are exactly
    those held, so a thread's end frees its own and only those; and exit
    destroys the process's, once. *)
Theorem instances no_destroy es :
  exists w, run no_destroy initial es = Ok w /\
    (forall p, p ∈ live (objects w) <-> exists k, held w k = Some p) /\
    (forall k k' p, held w k = Some p -> held w k' = Some p -> k = k') /\
    (forall k es', Forall (keeps k) es' -> exists p w1 w2,
       get no_destroy w k = Ok (p, w1) /\ run no_destroy w1 es' = Ok w2 /\ get no_destroy w2 k = Ok (p, w2)) /\
    (exists s h, Singleton.exit (singleton w) (objects w) = Ok (s, h) /\
       live h = if no_destroy then live (objects w) else live (objects w) ∖ match held w KSingleton with Some p => {[p]} | None => ∅ end).
Proof.
  destruct (run_ok no_destroy initial es (inv_initial no_destroy)) as (w & E & Hi & _). exists w. split; [done|].
  pose proof Hi as [L I _ _ _ _]. split; [done|]. split; [done|]. split; [|by apply exit_ok].
  intros k es' Hk. destruct (get_ok no_destroy w k Hi) as (p & w1 & E1 & I1 & [G1 _] & _).
  destruct (run_ok no_destroy w1 es' I1) as (w2 & E2 & I2 & H2). destruct (get_ok no_destroy w2 k I2) as (q & w3 & E3 & _ & _ & Hq).
  exists p, w1, w2. split; [done|]. split; [done|]. destruct (Hq p) as [-> ->]; [|done]. by apply H2.
Qed.

End Locals.
