(* ===== verification/Balancer.v ===== *)
(** The load balancer (src/networking-examples/socks4a/balancer.cpp): each new
    connection is tunnelled to the next of the backends.

    The balancer runs several loop threads; a connection's events run in its
    own thread, on that thread's tunnels, and the choice of the backend is under
    a mutex, so a handler is one step.  A tunnel is the address it connects to. *)

From S2P Require Import Prelude Endian StringPiece StdMap Buffer Sockets CString Printf.

Module Balancer.

Inductive act :=
  | SetTcpNoDelay (on : bool)
  | StopRead
  | SetupTunnel (backend : Sockets.sockaddr)
  | ConnectTunnel (backend : Sockets.sockaddr)
  | DisconnectTunnel (backend : Sockets.sockaddr)
  | Forward (data : list byte).

Abbreviation tunnels := (list (list byte * Sockets.sockaddr)).
Record t := mk {
  g_backends : list Sockets.sockaddr;
  g_current : Z;
  t_tunnels : gmap Z tunnels;
}.

(** [t_tunnels.value()] of a thread: empty when it is first used. *)
Definition value (s : t) (tid : Z) : tunnels := default [] (t_tunnels s !! tid).

Definition onServerConnection (s : t) (tid : Z) (name : list byte) (connected : bool) : res (t * list act) :=
  let tunnels := value s tid in
  if connected then
    let current := g_current s in
    if decide (g_backends s = []) then Err Undefined                  (* % 0 *)
    else
      let g_current' := u64 (g_current s + 1) mod zlen (g_backends s) in
      match g_backends s !! Z.to_nat current with
      | Some backend =>
          Ok (mk (g_backends s) g_current' (<[tid := StdMap.set name backend tunnels]> (t_tunnels s)),
              [SetTcpNoDelay true; StopRead; SetupTunnel backend; ConnectTunnel backend])
      | None => Err Undefined
      end
  else
    match StdMap.find name tunnels with
    | Some backend => Ok (mk (g_backends s) (g_current s) (<[tid := StdMap.erase name tunnels]> (t_tunnels s)), [DisconnectTunnel backend])
    | None => Err AssertFailed
    end.

(** [context]: the tunnel's client connection, as whether it is connected. *)
Definition onServerMessage (context : option bool) (buf : Buffer.t) : Buffer.t * list act :=
  match context with
  | Some true => (Buffer.retrieveAll buf, [Forward (Buffer.content buf)])
  | _ => (buf, [])
  end.

(** ** The backends of the command line *)
Section Arguments.
Context `{Sockets.Presentation} (raw : Sockets.sockaddr).

Definition parse_backend (hostport : list byte) : option Sockets.sockaddr :=
  match CString.find_char hostport Sockets.colon with
  | Some colon =>
      let ip := take colon hostport in
      let port := uwrap 16 (CString.atoi (CString.c_str (drop (S colon) hostport))) in
      Some (Sockets.InetAddress_ip raw ip port false)
  | None => None
  end.
(** [None] when an argument is not an address: the program ends with 1. *)
Fixpoint parse_backends (args : list (list byte)) : option (list Sockets.sockaddr) :=
  match args with
  | [] => Some []
  | a :: args => b ← parse_backend a; l ← parse_backends args; Some (b :: l)
  end.
End Arguments.

(** ** What it promises *)

Inductive event := Up (tid : Z) (name : list byte) | Down (tid : Z) (name : list byte).

Definition step (s : t) (e : event) : res (t * list act) :=
  match e with Up tid name => onServerConnection s tid name true | Down tid name => onServerConnection s tid name false end.
Fixpoint run (s : t) (es : list event) : res (t * list (list act)) :=
  match es with
  | [] => Ok (s, [])
  | e :: es => '(s, a) ← step s e; '(s, l) ← run s es; Ok (s, a :: l)
  end.

(** The connections, each with the backend it was given: the [k]-th gets the
    backend [k mod n]. *)
Section Spec.
Context (backends : list Sockets.sockaddr).
Abbreviation n := (length backends).
Abbreviation conns := (gmap (Z * list byte) nat).
Definition spec_step (q : nat * conns) (e : event) : option (nat * conns) :=
  let '(k, c) := q in
  match e with
  | Up tid name => if decide (c !! (tid, name) = None) then Some (S k, <[(tid, name) := k mod n]> c)%nat else None
  | Down tid name => if decide (c !! (tid, name) = None) then None else Some (k, delete (tid, name) c)
  end.
Fixpoint spec_run (q : nat * conns) (es : list event) : option (nat * conns) :=
  match es with [] => Some q | e :: es => q ← spec_step q e; spec_run q es end.

(** What the connections have been told to do. *)
Definition spec_acts (q : nat * conns) (e : event) : list act :=
  let backend i : Sockets.sockaddr := default ([] : Sockets.sockaddr) (backends !! i) in
  match e with
  | Up tid name => let b := backend (q.1 mod n)%nat in [SetTcpNoDelay true; StopRead; SetupTunnel b; ConnectTunnel b]
  | Down tid name => [DisconnectTunnel (backend (default 0%nat (q.2 !! (tid, name))))]
  end.
Fixpoint spec_trace (q : nat * conns) (es : list event) : list (list act) :=
  match es with
  | [] => []
  | e :: es => spec_acts q e :: match spec_step q e with Some q => spec_trace q es | None => [] end
  end.

Record refines (s : t) (q : nat * conns) : Prop := {
  ref_backends : g_backends s = backends;
  ref_current : g_current s = Z.of_nat (q.1 mod n);
  ref_range x i : q.2 !! x = Some i -> (i < n)%nat;
  ref_sorted tid : StdMap.sorted (value s tid);
  ref_tunnels tid name : StdMap.find name (value s tid) = (i ← q.2 !! (tid, name); backends !! i);
}.

Lemma step_refines s q e q' :
  0 < zlen backends <= size_max -> refines s q -> spec_step q e = Some q' ->
  exists s', step s e = Ok (s', spec_acts q e) /\ refines s' q'.
Proof.
  intros Hn [Rb Rc Rr Rs Rt] E. destruct q as [k c]. assert (Hpos : (0 < n)%nat) by (unfold zlen in Hn; lia).
  pose proof (Nat.mod_upper_bound k n ltac:(lia)) as Hk. destruct e as [tid name|tid name]; cbn -[Nat.modulo] in *.
  - destruct (decide (c !! (tid, name) = None)) as [Hc|]; [|done]. injection E as <-.
    unfold onServerConnection. rewrite Rb, decide_False by (intros ->; cbn in Hpos; lia). rewrite Rc, Nat2Z.id.
    destruct (lookup_lt_is_Some_2 backends (k mod n)%nat Hk) as [b Hb]. rewrite Hb. eexists. split; [reflexivity|].
    split; cbn -[Nat.modulo]; try done.
    + rewrite u64_small by (unfold zlen, size_max in *; lia). unfold zlen.
      rewrite !Nat2Z.inj_mod, Nat2Z.inj_succ. by rewrite Zplus_mod_idemp_l.
    + intros x i. rewrite lookup_insert. destruct (decide _); [by intros [= <-]|by apply Rr].
    + intros tid'. unfold value; cbn -[Nat.modulo]. rewrite lookup_insert. destruct (decide _) as [->|]; cbn -[Nat.modulo]; [apply StdMap.set_sorted, Rs|apply Rs].
    + intros tid' name'. unfold value; cbn -[Nat.modulo]. rewrite !lookup_insert. destruct (decide (tid = tid')) as [->|Ht]; cbn.
      * destruct (decide (name = name')) as [->|Hname].
        -- rewrite decide_True by done. cbn. by rewrite StdMap.find_set_eq, Hb.
        -- rewrite decide_False by congruence. rewrite StdMap.find_set_ne by (try apply Rs; congruence). apply Rt.
      * rewrite decide_False by congruence. apply Rt.
  - destruct (decide (c !! (tid, name) = None)) as [|Hc]; [done|]. injection E as <-. destruct (c !! (tid, name)) as [i|] eqn:Ei; [|done]. clear Hc.
    destruct (lookup_lt_is_Some_2 backends i (Rr _ _ Ei)) as [b Hb].
    unfold onServerConnection. rewrite Rt, Ei. cbn. rewrite Hb. cbn. eexists. split; [done|]. split; cbn -[Nat.modulo]; try done.
    + intros x j. rewrite lookup_delete. destruct (decide _); [done|]. by apply Rr.
    + intros tid'. unfold value; cbn -[Nat.modulo]. rewrite lookup_insert. destruct (decide _) as [->|]; cbn -[Nat.modulo]; [apply StdMap.erase_sorted, Rs|apply Rs].
    + intros tid' name'. unfold value; cbn -[Nat.modulo]. rewrite lookup_insert, lookup_delete. destruct (decide (tid = tid')) as [->|Ht]; cbn.
      * destruct (decide (name = name')) as [->|Hname].
        -- rewrite decide_True by done. cbn. by rewrite StdMap.find_erase_eq by apply Rs.
        -- rewrite decide_False by congruence. rewrite StdMap.find_erase_ne by (try apply Rs; congruence). apply Rt.
      * rewrite decide_False by congruence. apply Rt.
Qed.

Lemma run_refines s q es q' :
  0 < zlen backends <= size_max -> refines s q -> spec_run q es = Some q' ->
  exists s', run s es = Ok (s', spec_trace q es) /\ refines s' q'.
Proof.
  intros Hn. revert s q. induction es as [|e es IH]; intros s q R E; cbn in *.
  - injection E as <-. by exists s.
  - destruct (spec_step q e) as [q1|] eqn:E1; cbn in E; [|done]. destruct (step_refines s q e q1 Hn R E1) as (s1 & -> & R1). cbn [mbind res_bind].
    destruct (IH s1 q1 R1 E) as (s2 & -> & R2). by exists s2.
Qed.
End Spec.

(** *** Fairness *)

Definition is_choice (n j i : nat) : Prop := (i mod n = j)%nat.
#[global] Instance is_choice_dec n j i : Decision (is_choice n j i).
Proof. unfold is_choice. apply _. Defined.
(** How often the backend [j] was chosen for the first [k] connections. *)
Definition chosen (n k j : nat) : nat := length (filter (is_choice n j) (seq 0 k)).

Lemma chosen_count n k j : (j < n)%nat -> chosen n k j = ((k + (n - 1 - j)) / n)%nat.
Proof.
  intros Hj. unfold chosen. induction k as [|k IH]; [cbn [seq filter length Nat.add]; symmetry; apply Nat.div_small; lia|].
  rewrite seq_S, filter_app, length_app, IH, Nat.add_0_l, filter_cons, filter_nil.
  pose proof (Nat.div_mod_eq k n) as Ek. pose proof (Nat.mod_upper_bound k n ltac:(lia)) as Hr.
  assert (Hdiv : forall a b, (b < n)%nat -> ((n * a + b) / n = a)%nat).
  { intros a b Hb. symmetry. by apply (Nat.div_unique _ n a b). }
  set (q := (k / n)%nat) in *. destruct (decide (is_choice n j k)) as [E|E]; unfold is_choice in E; cbn [length].
  - rewrite E in Ek, Hr. replace (k + (n - 1 - j))%nat with (n * q + (n - 1))%nat by lia.
    replace (S k + (n - 1 - j))%nat with (n * S q + 0)%nat by lia. rewrite !Hdiv by lia. lia.
  - set (r := (k mod n)%nat) in *. destruct (decide (r < j)%nat).
    + replace (k + (n - 1 - j))%nat with (n * q + (r + (n - 1 - j)))%nat by lia.
      replace (S k + (n - 1 - j))%nat with (n * q + (S r + (n - 1 - j)))%nat by lia. rewrite !Hdiv by lia. lia.
    + replace (k + (n - 1 - j))%nat with (n * S q + (r - j - 1))%nat by lia.
      replace (S k + (n - 1 - j))%nat with (n * S q + (r - j))%nat by lia. rewrite !Hdiv by lia. lia.
Qed.

Lemma chosen_fair n k i j : (i < n)%nat -> (j < n)%nat -> (chosen n k i <= S (chosen n k j))%nat.
Proof.
  intros Hi Hj. rewrite !chosen_count by done. transitivity ((k + (n - 1 - j) + 1 * n) / n)%nat.
  - apply Nat.Div0.div_le_mono. lia.
  - rewrite Nat.div_add by lia. lia.
Qed.

(** C24: the balancer is a round robin.  With some backends, and any sequence of
    connections that come up, each under a name new in its thread, and go down
    in any order, no assertion fails; what the handlers do is exactly what the
    specification says: the [k]-th connection is tunnelled to the backend
    [k mod n], and a connection that goes down has the tunnel it was given
    disconnected; and after any number of connections no backend was chosen
    more than once oftener than another. *)
Theorem balancer_round_robin backends es k live :
  0 < zlen backends <= size_max -> spec_run backends (0%nat, ∅) es = Some (k, live) ->
  (exists s', run (mk backends 0 ∅) es = Ok (s', spec_trace backends (0%nat, ∅) es) /\
     forall tid name, StdMap.find name (value s' tid) = (i ← live !! (tid, name); backends !! i)) /\
  (forall i j, (i < length backends)%nat -> (j < length backends)%nat -> (chosen (length backends) k i <= S (chosen (length backends) k j))%nat).
Proof.
  intros Hn Hs. split; [|intros; by apply chosen_fair].
  destruct (run_refines backends (mk backends 0 ∅) (0%nat, ∅) es (k, live) Hn) as (s' & E & R); [|done|].
  - split; try done; cbn -[Nat.modulo].
    + by rewrite Nat.Div0.mod_0_l.
    + intros tid. constructor.
  - exists s'. split; [done|]. by destruct R.
Qed.

Definition sample_backends : list Sockets.sockaddr := [[x01]; [x02]].
Definition sample_events : list event :=
  [Up 1 (bs "a"); Up 2 (bs "a"); Up 1 (bs "b"); Down 1 (bs "a"); Up 1 (bs "a")].
Lemma balancer_round_robin_witness :
  exists s', run (mk sample_backends 0 ∅) sample_events = Ok (s', spec_trace sample_backends (0%nat, ∅) sample_events) /\
    StdMap.find (bs "a") (value s' 1) = Some [x02].
Proof.
  assert (Hs : exists k live, spec_run sample_backends (0%nat, ∅) sample_events = Some (k, live) /\ live !! (1, bs "a") = Some 1%nat).
  { eexists _, _. split; [reflexivity|]. by rewrite lookup_insert_eq. }
  destruct Hs as (k & live & Hs & Hl).
  destruct (balancer_round_robin sample_backends sample_events k live ltac:(done) Hs) as [(s' & E & T) _].
  exists s'. split; [exact E|]. by rewrite T, Hl.
Defined.

(** An argument [ip:port] is a backend at that port; an IPv6 address has more
    colons, and is not. *)
Lemma parse_backend_v4 `{Sockets.Presentation} raw ip port :
  Sockets.colon ∉ ip -> 0 <= port < 65536 ->
  parse_backend raw (ip ++ [Sockets.colon] ++ dec port) = Some (Sockets.InetAddress_ip raw ip port false).
Proof.
  intros Hc Hp. unfold parse_backend. cbn [app]. rewrite CString.find_char_app, take_app_length by done.
  replace (drop (S (length ip)) (ip ++ Sockets.colon :: dec port)) with (dec port).
  - unfold CString.atoi. pose proof (CString.strtol_c_str port [] ltac:(unfold CString.long_max; lia) I) as E. rewrite app_nil_r in E. rewrite E.
    by rewrite swrap_small, uwrap_small by lia.
  - rewrite drop_app_ge by lia. by replace (S (length ip) - length ip)%nat with 1%nat by lia.
Qed.

End Balancer.
