(* ===== verification/Socks5.v ===== *)
(** The SOCKS5 proxies (src/networking-examples/socks5/socks5_proxy.cpp and
    socks5_proxy_multithreaded.cpp): a greeting, a request to connect, then a
    tunnel.

    The handlers look at bytes through [peek()], before they know how many have
    arrived, so a byte is read from the buffer's storage.  As in [Socks4a], what a
    handler does to connections and tunnels is a list of actions, the resolver is
    an argument, and a tunnel is the address it connects to. *)

From S2P Require Import Prelude Endian StringPiece StdMap Buffer Sockets Socks4a CString.

Inductive act :=
  | SetTcpNoDelay (on : bool)
  | Send (data : list byte)
  | SetupTunnel (serverAddr : Sockets.sockaddr)
  | ConnectTunnel (serverAddr : Sockets.sockaddr)
  | DisconnectTunnel (serverAddr : Sockets.sockaddr)
  | Forward (data : list byte).                    (* to the tunnel's client connection *)

Definition tunnels : Type := list (list byte * Sockets.sockaddr).

(** ** What the two proxies share *)
Module Socks5.

Definition DOMAIN_SIZE_LIMIT : Z := 512.
Definition IP_ADDR_SIZE : Z := 4.
Definition NOAUTH : byte := x00.
Definition SOCKS5_VERSION : byte := x05.
Definition SOCKS5_RSV : byte := x00.
Definition SOCKS5_CONNECT : byte := x01.
Definition SOCKS5_CONNECT_HEADER_SIZE : Z := 4.
Definition SOCKS5_HOST_IN_IPv4 : byte := x01.
Definition SOCKS5_HOST_IN_DOMAIN : byte := x03.
Definition SOCKS5_CONNECT_OK : byte := x00.

(** [buf->peek()[i]]: whatever is there, if it is in the vector. *)
Definition byte_at (b : Buffer.t) (i : Z) : res byte :=
  match Buffer.buffer_ b !! Z.to_nat (Buffer.peek b + i) with Some x => Ok x | None => Err Undefined end.
(** [n] bytes at [buf->peek() + i]. *)
Definition bytes_at (b : Buffer.t) (i n : Z) : res (list byte) :=
  if (0 <=? n) && (Buffer.peek b + i + n <=? Buffer.size b) then Ok (slice (Buffer.buffer_ b) (Buffer.peek b + i) n) else Err Undefined.
Definition expect (b : Buffer.t) (i : Z) (x : byte) : res unit :=
  y ← byte_at b i; assert_ (bool_decide (y = x)).

(** The first phase: [None] when the greeting is not complete. *)
Definition greet (buf : Buffer.t) : res (option (Buffer.t * list byte)) :=
  assert! (Buffer.readableBytes buf <=? 3);
  if Buffer.readableBytes buf <? 3 then Ok None
  else
    _ ← expect buf 0 SOCKS5_VERSION;
    _ ← expect buf 1 x01;
    _ ← expect buf 2 NOAUTH;
    buf ← Buffer.retrieve buf 3;
    Ok (Some (buf, [SOCKS5_VERSION; NOAUTH])).

(** The second phase, up to the address to connect to: the type of the request,
    the address, and [processed_bytes]; [None] when it is not complete. *)
Definition connect_request (resolver : list byte -> option (Z * list byte)) (buf : Buffer.t) : res (option (byte * Sockets.sockaddr * Z)) :=
  assert! (Buffer.readableBytes buf <? DOMAIN_SIZE_LIMIT);
  _ ← expect buf 0 SOCKS5_VERSION;
  _ ← expect buf 1 SOCKS5_CONNECT;
  _ ← expect buf 2 SOCKS5_RSV;
  host_name_type ← byte_at buf 3;
  assert! (bool_decide (host_name_type = SOCKS5_HOST_IN_IPv4) || bool_decide (host_name_type = SOCKS5_HOST_IN_DOMAIN));
  let remote_addr := Sockets.set_family (replicate 28 x00) Sockets.AF_INET in
  if bool_decide (host_name_type = SOCKS5_HOST_IN_IPv4) then
    let connect_bytes_len := SOCKS5_CONNECT_HEADER_SIZE + IP_ADDR_SIZE + 2 in
    assert! (Buffer.readableBytes buf <=? connect_bytes_len);
    if Buffer.readableBytes buf <? connect_bytes_len then Ok None
    else
      remote_port ← bytes_at buf (IP_ADDR_SIZE + SOCKS5_CONNECT_HEADER_SIZE) 2;
      remote_ip ← bytes_at buf SOCKS5_CONNECT_HEADER_SIZE 4;
      Ok (Some (host_name_type, Sockets.set_sin_addr (Sockets.set_port remote_addr (le_combine remote_port)) remote_ip, IP_ADDR_SIZE + 2))
  else
    len ← byte_at buf SOCKS5_CONNECT_HEADER_SIZE;
    let host_name_len := s8 len in
    let connect_bytes_len := u64 (SOCKS5_CONNECT_HEADER_SIZE + host_name_len + 2 + 1) in
    assert! (Buffer.readableBytes buf <=? connect_bytes_len);
    if Buffer.readableBytes buf <? connect_bytes_len then Ok None
    else
      let processed_bytes := u64 (host_name_len + 2 + 1) in
      host_name ← bytes_at buf (SOCKS5_CONNECT_HEADER_SIZE + 1) host_name_len;     (* memcpy *)
      r ← Socks4a.lookup_host resolver (CString.c_str (host_name ++ replicate (Z.to_nat DOMAIN_SIZE_LIMIT - length host_name) x00));
      match r with
      | Some ip =>
          remote_port ← bytes_at buf (SOCKS5_CONNECT_HEADER_SIZE + 1 + host_name_len) 2;
          Ok (Some (host_name_type, Sockets.set_port (Sockets.set_sin_addr remote_addr ip) (le_combine remote_port), processed_bytes))
      | None => Err AssertFailed
      end.

(** The reply to a request, in two parts, and the buffer emptied. *)
Definition reply (buf : Buffer.t) (host_name_type : byte) (processed_bytes : Z) : res (Buffer.t * list act) :=
  echo ← bytes_at buf SOCKS5_CONNECT_HEADER_SIZE (i32 processed_bytes);
  assert! (Buffer.readableBytes buf =? u64 (SOCKS5_CONNECT_HEADER_SIZE + processed_bytes));
  Ok (Buffer.retrieveAll buf, [Send [SOCKS5_VERSION; SOCKS5_CONNECT_OK; SOCKS5_RSV; host_name_type]; Send echo]).

End Socks5.

(** ** socks5_proxy.cpp: what each peer is at is in global sets *)
Module Socks5Proxy.
Import Socks5.

Record t := mk {
  g_handshake : gset (list byte);
  g_connect : gset (list byte);
  g_tunnels : tunnels;
}.

(** [peer] is [conn->peerAddress().toIpPort()]. *)
Definition onServerConnection (s : t) (peer : list byte) (connected : bool) : res (t * list act) :=
  if connected then
    assert! bool_decide (peer ∉ g_handshake s);
    assert! bool_decide (peer ∉ g_connect s);
    Ok (mk ({[peer]} ∪ g_handshake s) (g_connect s) (g_tunnels s), [SetTcpNoDelay true])
  else
    match StdMap.find peer (g_tunnels s) with
    | Some tunnel => Ok (mk (g_handshake s) (g_connect s) (StdMap.erase peer (g_tunnels s)), [DisconnectTunnel tunnel])
    | None => Ok (s, [])
    end.

(** [context] is the tunnel's client connection when it is there, as whether it
    is connected. *)
Definition onServerMessage (resolver : list byte -> option (Z * list byte)) (s : t) (peer : list byte) (context : option bool) (buf : Buffer.t)
    : res (t * Buffer.t * list act) :=
  if decide (peer ∈ g_handshake s) then
    assert! bool_decide (peer ∉ g_connect s);
    r ← greet buf;
    match r with
    | None => Ok (s, buf, [])
    | Some (buf, reply) => Ok (mk (g_handshake s ∖ {[peer]}) ({[peer]} ∪ g_connect s) (g_tunnels s), buf, [Send reply])
    end
  else if decide (peer ∈ g_connect s) then
    assert! bool_decide (peer ∉ g_handshake s);
    r ← connect_request resolver buf;
    match r with
    | None => Ok (s, buf, [])
    | Some (host_name_type, remote_addr, processed_bytes) =>
        '(buf, sent) ← reply buf host_name_type processed_bytes;
        Ok (mk (g_handshake s) (g_connect s ∖ {[peer]}) (StdMap.set peer remote_addr (g_tunnels s)), buf,
            [SetupTunnel remote_addr; ConnectTunnel remote_addr] ++ sent)
    end
  else
    match context with
    | Some true => Ok (s, Buffer.retrieveAll buf, [Forward (Buffer.content buf)])
    | Some false => Ok (s, buf, [])
    | None => Err AssertFailed
    end.

End Socks5Proxy.

(** ** socks5_proxy_multithreaded.cpp: what a connection is at is in its context *)
Module Socks5Threads.
Import Socks5.

Definition HANDSHAKE : Z := 1.
Definition CONNECT : Z := 2.
Definition CONNECT2 : Z := 3.
Definition CONNECTING : Z := 4.

(** The [boost::any] of a connection; a tunnel puts its client connection there. *)
Inductive context := Empty | Flag (flag : Z) | Client (connected : bool).

(** The tunnels of the connection's thread. *)
Definition onServerConnection (g : tunnels) (peer : list byte) (ctx : context) (connected : bool) : res (tunnels * context * list act) :=
  if connected then
    match ctx with
    | Empty => Ok (g, Flag HANDSHAKE, [SetTcpNoDelay true])
    | _ => Err AssertFailed
    end
  else
    match StdMap.find peer g with
    | Some tunnel => Ok (StdMap.erase peer g, ctx, [DisconnectTunnel tunnel])
    | None => Ok (g, ctx, [])
    end.

Definition onServerMessage (resolver : list byte -> option (Z * list byte)) (g : tunnels) (peer : list byte) (ctx : context) (buf : Buffer.t)
    : res (tunnels * context * Buffer.t * list act) :=
  match ctx with
  | Empty => Err AssertFailed
  | Flag flag =>
      if flag =? HANDSHAKE then
        r ← greet buf;
        match r with
        | None => Ok (g, ctx, buf, [])
        | Some (buf, reply) => Ok (g, Flag CONNECT, buf, [Send reply])
        end
      else if flag =? CONNECT then
        r ← connect_request resolver buf;
        match r with
        | None => Ok (g, ctx, buf, [])
        | Some (host_name_type, remote_addr, processed_bytes) =>
            '(buf, sent) ← reply buf host_name_type processed_bytes;
            Ok (StdMap.set peer remote_addr g, Flag CONNECT2, buf, SetupTunnel remote_addr :: sent)
        end
      else if flag =? CONNECT2 then
        match StdMap.find peer g with
        | Some tunnel => Ok (g, Flag CONNECTING, buf, [ConnectTunnel tunnel])
        | None => Err AssertFailed
        end
      else if flag =? CONNECTING then Ok (g, ctx, buf, [])
      else Err Fatal
  | Client true => Ok (g, ctx, Buffer.retrieveAll buf, [Forward (Buffer.content buf)])
  | Client false => Ok (g, ctx, buf, [])
  end.

End Socks5Threads.
