(* ===== verification/Socks5Facts.v ===== *)
(** The SOCKS5 proxies against the protocol: greeting and request, however the
    bytes arrive, lead to one tunnel to the address asked for. *)

From S2P Require Import Prelude Endian StringPiece StdMap Buffer Sockets Socks4a CString Socks5.

Module Socks5Facts.
Import Socks5.

(** ** Reading through [peek()] *)

Lemma byte_at_content b i x : Buffer.wf b -> 0 <= i -> Buffer.content b !! Z.to_nat i = Some x -> byte_at b i = Ok x.
Proof.
  intros [Hr _ _] Hi. unfold Buffer.content, slice, byte_at, Buffer.peek. intros H.
  rewrite lookup_take_Some, lookup_drop in H. destruct H as [H _].
  replace (Z.to_nat (Buffer.readerIndex_ b + i)) with (Z.to_nat (Buffer.readerIndex_ b) + Z.to_nat i)%nat by lia. by rewrite H.
Qed.

Lemma bytes_at_content b i n :
  Buffer.wf b -> 0 <= i -> 0 <= n -> i + n <= zlen (Buffer.content b) -> bytes_at b i n = Ok (slice (Buffer.content b) i n).
Proof.
  intros Hwf Hi Hn Hz. pose proof (Buffer.zlen_content b Hwf) as E. destruct Hwf as [Hr Hw _]. unfold bytes_at, Buffer.peek.
  rewrite (proj2 (Z.leb_le 0 n)), (proj2 (Z.leb_le _ (Buffer.size b))) by lia. cbn [andb].
  unfold Buffer.content. by rewrite slice_slice by lia.
Qed.

Lemma expect_content b i x : Buffer.wf b -> 0 <= i -> Buffer.content b !! Z.to_nat i = Some x -> expect b i x = Ok tt.
Proof. intros Hw Hi Hx. unfold expect. rewrite (byte_at_content b i x) by done. cbn. by rewrite bool_decide_true. Qed.

(** ** The messages *)

Definition greeting : list byte := [x05; x01; x00].

(** What to connect to: an address or a host name. *)
Inductive target := Address (ip : list byte) | Host (host : list byte).
Definition target_ok (t : target) : Prop :=
  match t with Address ip => length ip = 4%nat | Host host => Socks4a.no_nul host /\ (length host <= 127)%nat end.
Definition target_type (t : target) : byte := match t with Address _ => x01 | Host _ => x03 end.
Definition target_bytes (t : target) : list byte :=
  match t with Address ip => ip | Host host => byte_of (zlen host) :: host end.
Definition request (port : list byte) (t : target) : list byte := [x05; x01; x00; target_type t] ++ target_bytes t ++ port.

Definition destination (resolver : list byte -> option (Z * list byte)) (t : target) : option (list byte) :=
  match t with Address ip => Some ip | Host host => snd <$> resolver host end.

Lemma zlen_request port t : target_ok t -> length port = 2%nat ->
  zlen (request port t) = match t with Address _ => 10 | Host host => 7 + zlen host end.
Proof. intros Ht Hp. unfold request, zlen. rewrite !length_app, Hp. destruct t; cbn in *; [rewrite Ht|]; lia. Qed.

Lemma request_small port t : target_ok t -> length port = 2%nat -> 7 <= zlen (request port t) <= 134.
Proof. intros Ht Hp. rewrite zlen_request by done. destruct t; unfold zlen; cbn in Ht; lia. Qed.

(** *** The greeting *)
Section Greeting.
Context (buf : Buffer.t).
Hypothesis (Hwf : Buffer.wf buf).

Lemma greet_partial : zlen (Buffer.content buf) < 3 -> greet buf = Ok None.
Proof.
  intros Hz. unfold greet. rewrite Buffer.readableBytes_content, assert_true by (done || zbool; lia).
  by rewrite (proj2 (Z.ltb_lt _ 3)) by lia.
Qed.

Lemma greet_whole : Buffer.content buf = greeting ->
  exists buf', greet buf = Ok (Some (buf', [x05; x00])) /\ Buffer.wf buf' /\ Buffer.content buf' = [] /\ Buffer.size buf' <= Buffer.size buf.
Proof.
  intros Hc. unfold greet. rewrite Buffer.readableBytes_content, Hc by done. cbn [greeting zlen length Z.of_nat].
  destruct (Buffer.retrieve_ok buf 3 Hwf ltac:(rewrite Hc; done)) as (buf' & E & Hw & C & [_ Hs]).
  rewrite !expect_content by (try done; by rewrite Hc). cbn. rewrite E. cbn.
  exists buf'. split_and!; [done|done|by rewrite C, Hc|lia].
Qed.
End Greeting.

(** *** The request *)
Section Request.
Context (resolver : list byte -> option (Z * list byte)) (buf : Buffer.t) (port : list byte) (t : target).
Hypothesis (Hwf : Buffer.wf buf) (Hport : length port = 2%nat) (Ht : target_ok t) (Hres : Socks4a.resolver_ok resolver).

Lemma request_cells : exists x r, request port t = x05 :: x01 :: x00 :: target_type t :: x :: r /\
  match t with Host host => x = byte_of (zlen host) | _ => True end.
Proof.
  unfold request. destruct t as [ip|host]; cbn in *.
  - destruct ip as [|x ip]; [done|]. by exists x, (ip ++ port).
  - by exists (byte_of (zlen host)), (host ++ port).
Qed.

Lemma host_length (host : list byte) : (length host <= 127)%nat -> s8 (byte_of (zlen host)) = zlen host.
Proof. intros Hl. unfold s8. rewrite u8_byte_of, Z.mod_small by (unfold zlen; lia). apply swrap_small; unfold zlen; lia. Qed.

(** What is left of the parser once five bytes of a request are there. *)
Lemma connect_request_start k :
  (5 <= k)%nat -> Buffer.content buf = take k (request port t) ->
  connect_request resolver buf =
    let remote_addr := Sockets.set_family (replicate 28 x00) Sockets.AF_INET in
    let n := zlen (Buffer.content buf) in
    if n <? zlen (request port t) then Ok None
    else match t with
    | Address _ =>
        remote_port ← bytes_at buf 8 2;
        remote_ip ← bytes_at buf 4 4;
        Ok (Some (x01, Sockets.set_sin_addr (Sockets.set_port remote_addr (le_combine remote_port)) remote_ip, 6))
    | Host host =>
        host_name ← bytes_at buf 5 (zlen host);
        r ← Socks4a.lookup_host resolver (CString.c_str (host_name ++ replicate (512 - length host_name) x00));
        match r with
        | Some ip =>
            remote_port ← bytes_at buf (5 + zlen host) 2;
            Ok (Some (x03, Sockets.set_port (Sockets.set_sin_addr remote_addr ip) (le_combine remote_port), zlen host + 3))
        | None => Err AssertFailed
        end
    end.
Proof.
  intros Hk Hc. destruct request_cells as (x & r & Eq & Hx). pose proof (request_small port t Ht Hport) as Hsmall.
  assert (Hn : 0 <= zlen (Buffer.content buf) <= zlen (request port t)) by (rewrite Hc; unfold zlen; rewrite length_take; lia).
  assert (Hcells : Buffer.content buf = x05 :: x01 :: x00 :: target_type t :: x :: take (k - 5) r).
  { rewrite Hc, Eq. by replace k with (5 + (k - 5))%nat at 1 by lia. }
  unfold connect_request, DOMAIN_SIZE_LIMIT. rewrite Buffer.readableBytes_content, assert_true by (done || zbool; lia).
  rewrite !expect_content by (try done; by rewrite Hcells). cbn [mbind res_bind].
  rewrite (byte_at_content buf 3 (target_type t)) by (try done; by rewrite Hcells). cbn [mbind res_bind]. cbv zeta.
  rewrite (zlen_request port t) in * by done. destruct t as [ip|host]; cbn [target_type].
  - rewrite assert_true, (bool_decide_true (x01 = _)) by done. rewrite assert_true by (unfold SOCKS5_CONNECT_HEADER_SIZE, IP_ADDR_SIZE; zbool; lia). done.
  - destruct Ht as [Hnn Hl]. rewrite assert_true, (bool_decide_false (x03 = _)) by done.
    rewrite (byte_at_content buf SOCKS5_CONNECT_HEADER_SIZE x) by (try done; by rewrite Hcells). cbn [mbind res_bind].
    rewrite Hx, host_length by done. pose proof (zlen_nonneg host).
    unfold SOCKS5_CONNECT_HEADER_SIZE. rewrite !u64_small by (unfold size_max, zlen in *; lia).
    replace (4 + zlen host + 2 + 1) with (7 + zlen host) by lia. rewrite assert_true by (zbool; lia).
    replace (zlen host + 2 + 1) with (zlen host + 3) by lia. done.
Qed.

Lemma connect_request_partial k :
  (5 <= k < length (request port t))%nat -> Buffer.content buf = take k (request port t) -> connect_request resolver buf = Ok None.
Proof.
  intros Hk Hc. rewrite (connect_request_start k) by (done || lia). cbv zeta.
  rewrite (proj2 (Z.ltb_lt _ _)); [done|]. rewrite Hc. unfold zlen. rewrite length_take. lia.
Qed.

Lemma slice_mid (a b c : list byte) : slice (a ++ b ++ c) (zlen a) (zlen b) = b.
Proof. unfold slice, zlen. rewrite !Nat2Z.id, drop_app_length. apply take_app_length. Qed.

Lemma address_order z ip : length ip = 4%nat ->
  let a := Sockets.set_family (replicate 28 x00) Sockets.AF_INET in
  Sockets.set_port (Sockets.set_sin_addr a ip) z = Sockets.set_sin_addr (Sockets.set_port a z) ip.
Proof. intros Hl. by destruct ip as [|a1 [|a2 [|a3 [|a4 [|]]]]]. Qed.

Lemma connect_request_whole :
  Buffer.content buf = request port t ->
  connect_request resolver buf =
    match destination resolver t with
    | Some ip => Ok (Some (target_type t, Socks4a.server_address port ip, zlen (target_bytes t ++ port)))
    | None => Err AssertFailed
    end.
Proof.
  intros Hc. pose proof (request_small port t Ht Hport) as Hsmall. pose proof (zlen_request port t Ht Hport) as Hz.
  rewrite (connect_request_start (length (request port t))) by (rewrite ?take_ge by done; done || unfold zlen in *; lia).
  cbv zeta. rewrite Hc, (proj2 (Z.ltb_ge _ _)) by lia. unfold request in Hc.
  destruct t as [ip|host]; cbn [target_type target_bytes destination] in *; cbn [target_ok] in Ht.
  - rewrite !bytes_at_content by (try done; try lia; rewrite Hc; unfold zlen; rewrite !length_app, Ht, Hport; cbn; lia). cbn [mbind res_bind]. rewrite Hc.
    assert (E1 : slice ([x05; x01; x00; x01] ++ ip ++ port) 4 4 = ip).
    { pose proof (slice_mid [x05; x01; x00; x01] ip port) as E1. unfold zlen in E1. by rewrite Ht in E1. }
    assert (E2 : slice ([x05; x01; x00; x01] ++ ip ++ port) 8 2 = port).
    { pose proof (slice_mid ([x05; x01; x00; x01] ++ ip) port []) as E2. unfold zlen in E2.
      by rewrite app_nil_r, <- app_assoc, length_app, Ht, Hport in E2. }
    rewrite E1, E2. do 3 f_equal. unfold zlen. by rewrite length_app, Ht, Hport.
  - destruct Ht as [Hn Hl]. pose proof (zlen_nonneg host).
    rewrite !bytes_at_content by (try done; try lia; rewrite Hc; unfold zlen; rewrite !length_app; cbn; lia). cbn [mbind res_bind].
    assert (E1 : slice (Buffer.content buf) 5 (zlen host) = host).
    { rewrite Hc. apply (slice_mid [x05; x01; x00; x03; byte_of (zlen host)] host port). }
    rewrite E1, CString.c_str_app by done.
    replace (512 - length host)%nat with (S (511 - length host)) by lia. cbn [replicate]. rewrite CString.c_str_nul, app_nil_r.
    rewrite Socks4a.lookup_host_ok by done. cbn [mbind res_bind]. destruct (snd <$> resolver host) as [ip|] eqn:Eh; [|done].
    assert (Hip : length ip = 4%nat). { destruct (resolver host) as [[ty a]|] eqn:Er; [|done]. injection Eh as <-. by apply Hres in Er as [_ ?]. }
    assert (E2 : slice (Buffer.content buf) (5 + zlen host) 2 = port).
    { rewrite Hc. pose proof (slice_mid ([x05; x01; x00; x03; byte_of (zlen host)] ++ host) port []) as E2.
      assert (Hp : zlen port = 2) by (unfold zlen; lia). by rewrite app_nil_r, <- app_assoc, zlen_app, Hp in E2. }
    rewrite E2, address_order by done. do 3 f_equal. unfold zlen. cbn [length app]. rewrite length_app. lia.
Qed.

Lemma reply_whole :
  Buffer.content buf = request port t ->
  reply buf (target_type t) (zlen (target_bytes t ++ port)) =
    Ok (Buffer.retrieveAll buf, [Send [x05; x00; x00; target_type t]; Send (target_bytes t ++ port)]).
Proof.
  intros Hc. pose proof (request_small port t Ht Hport) as Hsmall. pose proof (zlen_nonneg (target_bytes t ++ port)).
  assert (Hz : zlen (request port t) = 4 + zlen (target_bytes t ++ port)) by (unfold request; by rewrite zlen_app).
  unfold reply, SOCKS5_CONNECT_HEADER_SIZE. rewrite swrap_small by lia. rewrite bytes_at_content by (try done; try lia; rewrite ?Hc; lia). cbn [mbind res_bind].
  rewrite Buffer.readableBytes_content, u64_small, Hc, assert_true by (done || (unfold size_max; lia) || zbool; lia).
  do 5 f_equal. pose proof (slice_mid [x05; x01; x00; target_type t] (target_bytes t ++ port) []) as E. by rewrite app_nil_r in E.
Qed.

End Request.

(** ** A message in pieces *)
Section Feed.
Context {S : Type} (handler : S -> Buffer.t -> res (S * Buffer.t * list act)).

(** Each piece is appended to the buffer, and the handler runs. *)
Fixpoint feed (s : S) (buf : Buffer.t) (chunks : list (list byte)) : res (S * Buffer.t * list act) :=
  match chunks with
  | [] => Ok (s, buf, [])
  | c :: chunks =>
      buf ← Buffer.append buf c;
      '(s, buf, a) ← handler s buf;
      '(s, buf, a') ← feed s buf chunks;
      Ok (s, buf, a ++ a')
  end.

Lemma feed_app s buf cs1 cs2 s1 buf1 a1 :
  feed s buf cs1 = Ok (s1, buf1, a1) ->
  feed s buf (cs1 ++ cs2) = ('(s, buf, a2) ← feed s1 buf1 cs2; Ok (s, buf, a1 ++ a2)).
Proof.
  revert s buf a1. induction cs1 as [|c cs1 IH]; intros s buf a1; cbn [feed app].
  - intros [= <- <- <-]. by destruct (feed s buf cs2) as [[[? ?] ?]|].
  - destruct (Buffer.append buf c) as [b|]; cbn [mbind res_bind]; [|done]. destruct (handler s b) as [[[s' b'] a]|]; cbn [mbind res_bind]; [|done].
    destruct (feed s' b' cs1) as [[[s2 b2] a2]|] eqn:E; cbn [mbind res_bind]; [|done]. intros [= <- <- <-]. rewrite (IH _ _ _ E).
    destruct (feed s2 b2 cs2) as [[[? ?] ?]|]; cbn; [|done]. by rewrite app_assoc.
Qed.

(** A handler that waits for a message, and once it has seen [k0] bytes of it
    does nothing before the last, takes the message in any pieces. *)
Context (s s' : S) (msg : list byte) (acts : list act) (k0 : nat).
Hypothesis (Hwait : forall buf k, Buffer.wf buf -> (k0 <= k < length msg)%nat -> Buffer.content buf = take k msg -> handler s buf = Ok (s, buf, [])).
Hypothesis (Hdone : forall buf, Buffer.wf buf -> Buffer.content buf = msg ->
  exists buf', handler s buf = Ok (s', buf', acts) /\ Buffer.wf buf' /\ Buffer.content buf' = [] /\ Buffer.size buf' <= Buffer.size buf).

Lemma feed_rest pre chunks buf :
  Buffer.wf buf -> Buffer.content buf = pre -> msg = pre ++ concat chunks -> chunks <> [] -> Forall (fun c => c <> []) chunks ->
  Buffer.size buf + zlen (concat chunks) <= Buffer.max_size -> (k0 <= length (pre ++ default [] (head chunks)))%nat ->
  exists buf', feed s buf chunks = Ok (s', buf', acts) /\ Buffer.wf buf' /\ Buffer.content buf' = [] /\
    Buffer.size buf' <= Buffer.size buf + zlen (concat chunks).
Proof.
  revert pre buf. induction chunks as [|c chunks IH]; intros pre buf Hwf Hc Hmsg Hne Hall Hsize Hk; [done|]. cbn [feed concat head default from_option] in *.
  change (id c) with c in Hk.
  apply Forall_cons in Hall as [Hcne Hall]. rewrite zlen_app in Hsize. pose proof (zlen_nonneg (concat chunks)).
  destruct (Buffer.append_ok buf c Hwf ltac:(lia)) as (b & -> & Hw & Cb & _ & [_ Hs]). cbn [mbind res_bind]. rewrite Hc in Cb.
  destruct chunks as [|c2 chunks].
  - destruct (Hdone b Hw) as (b' & -> & Hw' & C' & S'); [by rewrite Cb, Hmsg; cbn; rewrite app_nil_r|]. cbn.
    exists b'. rewrite app_nil_r. split_and!; try done. rewrite app_nil_r. lia.
  - assert (Hlen : (length (pre ++ c) < length msg)%nat).
    { rewrite Hmsg. cbn [concat]. rewrite !length_app. apply Forall_cons in Hall as [H2 _]. destruct c2; [done|]. cbn. lia. }
    rewrite (Hwait b (length (pre ++ c)) Hw) by (lia || (rewrite Cb, Hmsg; cbn [concat]; by rewrite app_assoc, take_app_length)).
    cbn [mbind res_bind]. destruct (IH (pre ++ c) b) as (b' & -> & R); try done.
    + by rewrite <- app_assoc.
    + lia.
    + rewrite length_app. lia.
    + cbn. exists b'. destruct R as (? & ? & ?). rewrite zlen_app. cbn [concat] in *. split_and!; try done. lia.
Qed.

Lemma feed_message chunks buf :
  Buffer.wf buf -> Buffer.content buf = [] -> concat chunks = msg -> msg <> [] -> Forall (fun c => c <> []) chunks ->
  Buffer.size buf + zlen msg <= Buffer.max_size -> (k0 <= length (default [] (head chunks)))%nat ->
  exists buf', feed s buf chunks = Ok (s', buf', acts) /\ Buffer.wf buf' /\ Buffer.content buf' = [] /\ Buffer.size buf' <= Buffer.size buf + zlen msg.
Proof. intros Hwf Hc Hm Hne Hall Hs Hk. rewrite <- Hm. apply (feed_rest []); try done; [by intros ->|by rewrite Hm]. Qed.
End Feed.

(** How the two messages of a client may arrive: no piece is empty, none has
    bytes of both messages (a client waits for the answer to its greeting before
    it sends the request), and the first of the request has its first five
    bytes.  What else may arrive stops the proxy: [joined_greeting_asserts],
    [short_piece_asserts]. *)
Record pieces (cs1 cs2 : list (list byte)) (port : list byte) (t : target) : Prop := {
  pieces_greeting : concat cs1 = greeting;
  pieces_request : concat cs2 = request port t;
  pieces_nonempty : Forall (fun c => c <> []) (cs1 ++ cs2);
  pieces_first : (5 <= length (default [] (head cs2)))%nat;
}.

Definition replies (port : list byte) (t : target) : list act :=
  [Send [x05; x00; x00; target_type t]; Send (target_bytes t ++ port)].

(** Both phases of a handler, one after the other. *)
Section Session.
Context (resolver : list byte -> option (Z * list byte)) (port : list byte) (t : target) (ip : list byte).
Hypothesis (Hport : length port = 2%nat) (Ht : target_ok t) (Hres : Socks4a.resolver_ok resolver) (Hip : destination resolver t = Some ip).
Context {S : Type} (handler : S -> Buffer.t -> res (S * Buffer.t * list act)) (s1 s2 : S) (s3 : Sockets.sockaddr -> S) (setup : Sockets.sockaddr -> list act).
Hypothesis (Hgreet : forall buf, handler s1 buf =
  (r ← greet buf; match r with None => Ok (s1, buf, []) | Some (buf, reply) => Ok (s2, buf, [Send reply]) end)).
Hypothesis (Hconnect : forall buf, handler s2 buf =
  (r ← connect_request resolver buf;
   match r with
   | None => Ok (s2, buf, [])
   | Some (ty, addr, n) => '(buf, sent) ← reply buf ty n; Ok (s3 addr, buf, setup addr ++ sent)
   end)).
Abbreviation addr := (Socks4a.server_address port ip).

Lemma greeting_phase chunks buf :
  Buffer.wf buf -> Buffer.content buf = [] -> concat chunks = greeting -> Forall (fun c => c <> []) chunks ->
  Buffer.size buf + 3 <= Buffer.max_size ->
  exists buf', feed handler s1 buf chunks = Ok (s2, buf', [Send [x05; x00]]) /\ Buffer.wf buf' /\ Buffer.content buf' = [] /\
    Buffer.size buf' <= Buffer.size buf + 3.
Proof.
  intros Hwf Hc Hm Hall Hs. apply (feed_message handler s1 s2 greeting [Send [x05; x00]] 0); try done; [..|lia].
  - intros b k Hw Hk Hb. rewrite Hgreet, greet_partial; [done|done|]. rewrite Hb. unfold zlen. rewrite length_take. cbn in *. lia.
  - intros b Hw Hb. destruct (greet_whole b Hw Hb) as (b' & E & R). exists b'. by rewrite Hgreet, E.
Qed.

Lemma request_phase chunks buf :
  Buffer.wf buf -> Buffer.content buf = [] -> concat chunks = request port t -> Forall (fun c => c <> []) chunks ->
  Buffer.size buf + 134 <= Buffer.max_size -> (5 <= length (default [] (head chunks)))%nat ->
  exists buf', feed handler s2 buf chunks = Ok (s3 addr, buf', setup addr ++ replies port t) /\ Buffer.wf buf' /\ Buffer.content buf' = [] /\
    Buffer.size buf' <= Buffer.size buf + 134.
Proof.
  intros Hwf Hc Hm Hall Hs H5. pose proof (request_small port t Ht Hport) as Hsmall.
  destruct (feed_message handler s2 (s3 addr) (request port t) (setup addr ++ replies port t) 5) with (chunks := chunks) (buf := buf)
    as (buf' & E & Hw' & C' & S'); try done; try lia.
  - intros b k Hw Hk Hb. by rewrite Hconnect, (connect_request_partial resolver b port t Hw Hport Ht k).
  - intros b Hw Hb. exists (Buffer.retrieveAll b). rewrite Hconnect, (connect_request_whole resolver b port t), Hip by done. cbn [mbind res_bind].
    rewrite reply_whole by done. cbn [mbind res_bind]. destruct (Buffer.retrieveAll_ok b Hw). done.
  - exists buf'. split_and!; try done. lia.
Qed.

Lemma session cs1 cs2 buf :
  Buffer.wf buf -> Buffer.content buf = [] -> Buffer.size buf + 137 <= Buffer.max_size -> pieces cs1 cs2 port t ->
  exists buf', feed handler s1 buf (cs1 ++ cs2) = Ok (s3 addr, buf', Send [x05; x00] :: setup addr ++ replies port t) /\
    Buffer.wf buf' /\ Buffer.content buf' = [] /\ Buffer.size buf' <= Buffer.size buf + 137.
Proof.
  intros Hwf Hc Hs [P1 P2 P3 P4]. apply Forall_app in P3 as [N1 N2].
  destruct (greeting_phase cs1 buf Hwf Hc P1 N1 ltac:(lia)) as (b1 & E1 & W1 & C1 & S1).
  destruct (request_phase cs2 b1 W1 C1 P2 N2 ltac:(lia) P4) as (b2 & E2 & W2 & C2 & S2).
  exists b2. rewrite (feed_app handler _ _ _ _ _ _ _ E1), E2. split_and!; try done. lia.
Qed.
End Session.

(** ** socks5_proxy.cpp *)

Definition proxy_handler resolver peer (s : Socks5Proxy.t) (buf : Buffer.t) := Socks5Proxy.onServerMessage resolver s peer None buf.

(** C23: a session with the single-threaded SOCKS5 proxy.  A new peer connects and
    sends the greeting and a request for an address or for a host name of at most
    127 bytes that resolves, in any non-empty pieces none of which has bytes of
    both messages (the client waits for the answer to its greeting), and with the
    request's first five bytes together.  Then the proxy answers the greeting, sets up and connects exactly one tunnel,
    to the port and the address asked for or resolved, registers it, grants the
    request with the request's own address in the reply, and has no byte left in
    the buffer; when the peer leaves, the tunnel is disconnected, and the
    proxy's tables are what they were before the peer came. *)
Theorem proxy_session resolver s peer port t ip cs1 cs2 buf :
  length port = 2%nat -> target_ok t -> Socks4a.resolver_ok resolver -> destination resolver t = Some ip ->
  peer ∉ Socks5Proxy.g_handshake s -> peer ∉ Socks5Proxy.g_connect s -> StdMap.find peer (Socks5Proxy.g_tunnels s) = None ->
  Buffer.wf buf -> Buffer.content buf = [] -> Buffer.size buf + 137 <= Buffer.max_size -> pieces cs1 cs2 port t ->
  let a := Socks4a.server_address port ip in
  exists s1 s2 buf',
    Socks5Proxy.onServerConnection s peer true = Ok (s1, [SetTcpNoDelay true]) /\
    feed (proxy_handler resolver peer) s1 buf (cs1 ++ cs2) =
      Ok (s2, buf', [Send [x05; x00]; SetupTunnel a; ConnectTunnel a; Send [x05; x00; x00; target_type t]; Send (target_bytes t ++ port)]) /\
    Buffer.content buf' = [] /\ StdMap.find peer (Socks5Proxy.g_tunnels s2) = Some a /\
    Socks5Proxy.onServerConnection s2 peer false = Ok (s, [DisconnectTunnel a]).
Proof.
  intros Hp Ht Hr Hip Hh Hg Hf Hwf Hc Hs P a. destruct s as [H G T]; cbn in *.
  exists (Socks5Proxy.mk ({[peer]} ∪ H) G T), (Socks5Proxy.mk H G (StdMap.set peer a T)).
  destruct (session resolver port t ip Hp Ht Hr Hip (proxy_handler resolver peer) (Socks5Proxy.mk ({[peer]} ∪ H) G T)
    (Socks5Proxy.mk H ({[peer]} ∪ G) T) (fun a => Socks5Proxy.mk H G (StdMap.set peer a T)) (fun a => [SetupTunnel a; ConnectTunnel a])) with
    (cs1 := cs1) (cs2 := cs2) (buf := buf) as (buf' & E & _ & C & _); try done.
  - intros b. unfold proxy_handler, Socks5Proxy.onServerMessage; cbn. rewrite decide_True by set_solver. rewrite assert_true by (by apply bool_decide_eq_true).
    destruct (greet b) as [[[b' r]|]|]; cbn; [|done..]. by replace (({[peer]} ∪ H) ∖ {[peer]}) with H by set_solver.
  - intros b. unfold proxy_handler, Socks5Proxy.onServerMessage; cbn. rewrite decide_False by done. rewrite decide_True by set_solver.
    rewrite assert_true by (by apply bool_decide_eq_true). destruct (connect_request resolver b) as [[[[ty addr] n]|]|]; cbn; [|done..].
    destruct (reply b ty n) as [[b' sent]|]; cbn; [|done]. by replace (({[peer]} ∪ G) ∖ {[peer]}) with G by set_solver.
  - exists buf'. unfold Socks5Proxy.onServerConnection; cbn. rewrite StdMap.find_set_eq, StdMap.erase_set by done.
    split_and!; try done. by rewrite !bool_decide_true.
Qed.

(** A request for a host name, in three pieces. *)
Definition sample_greeting : list (list byte) := [[x05]; [x01; x00]].
Definition sample_request : list (list byte) := [[x05; x01; x00; x03; x04; x68]; bs "os"; [x74; x00; x50]].
Definition sample_target : target := Host (bs "host").
Definition sample_buf : Buffer.t := match Buffer.new 64 with Ok b => b | Err _ => Buffer.mk [] 0 0 end.
Definition no_peers : Socks5Proxy.t := Socks5Proxy.mk ∅ ∅ [].

Lemma sample_pieces : pieces sample_greeting sample_request [x00; x50] sample_target.
Proof. split; [reflexivity|reflexivity|repeat constructor; discriminate|cbn; lia]. Qed.
Lemma sample_resolver_ok : Socks4a.resolver_ok Socks4a.sample_resolver.
Proof. intros h ty a. unfold Socks4a.sample_resolver. destruct (bool_decide _); [|discriminate]. intros [= <- <-]. split; reflexivity. Qed.
Lemma sample_target_ok : target_ok sample_target.
Proof. split; [by apply (bool_decide_unpack _); vm_compute|cbn; lia]. Qed.
Lemma sample_buf_wf : Buffer.wf sample_buf.
Proof. split; vm_compute; intuition discriminate. Qed.

Lemma proxy_session_witness :
  let a := Socks4a.server_address [x00; x50] [x0a; x00; x00; x01] in
  exists s1 s2 buf',
    Socks5Proxy.onServerConnection no_peers (bs "peer") true = Ok (s1, [SetTcpNoDelay true]) /\
    feed (proxy_handler Socks4a.sample_resolver (bs "peer")) s1 sample_buf (sample_greeting ++ sample_request) =
      Ok (s2, buf', [Send [x05; x00]; SetupTunnel a; ConnectTunnel a; Send [x05; x00; x00; x03]; Send (x04 :: bs "host" ++ [x00; x50])]) /\
    Buffer.content buf' = [] /\ StdMap.find (bs "peer") (Socks5Proxy.g_tunnels s2) = Some a /\
    Socks5Proxy.onServerConnection s2 (bs "peer") false = Ok (no_peers, [DisconnectTunnel a]).
Proof.
  apply (proxy_session Socks4a.sample_resolver no_peers (bs "peer") [x00; x50] sample_target [x0a; x00; x00; x01]
           sample_greeting sample_request sample_buf eq_refl sample_target_ok sample_resolver_ok eq_refl).
  - by apply not_elem_of_empty.
  - by apply not_elem_of_empty.
  - reflexivity.
  - apply sample_buf_wf.
  - reflexivity.
  - vm_compute. discriminate.
  - apply sample_pieces.
Defined.

(** The conditions on the pieces and on the name are needed: a client that sends
    its greeting and its request together, and one that asks for a name that does
    not resolve, stop the proxy. *)
Example joined_greeting_asserts :
  ('(s, _) ← Socks5Proxy.onServerConnection no_peers (bs "peer") true;
   feed (proxy_handler Socks4a.sample_resolver (bs "peer")) s sample_buf [concat (sample_greeting ++ sample_request)]) = Err AssertFailed.
Proof. vm_compute. reflexivity. Qed.

Example unresolved_name_asserts :
  ('(s, _) ← Socks5Proxy.onServerConnection no_peers (bs "peer") true;
   feed (proxy_handler (fun _ => None) (bs "peer")) s sample_buf (sample_greeting ++ sample_request)) = Err AssertFailed.
Proof. vm_compute. reflexivity. Qed.

(** Data that a client sends once its request is granted, but before the tunnel's
    connection is up, stops the proxy. *)
Example early_data_asserts :
  (s1 ← Socks5Proxy.onServerConnection no_peers (bs "peer") true;
   feed (proxy_handler Socks4a.sample_resolver (bs "peer")) s1.1 sample_buf (sample_greeting ++ sample_request ++ [bs "GET"])) = Err AssertFailed.
Proof. vm_compute. reflexivity. Qed.

(** A peer that leaves before its request is granted may not come back. *)
Example reconnect_asserts :
  ('(s, _) ← Socks5Proxy.onServerConnection no_peers (bs "peer") true;
   '(s, _) ← Socks5Proxy.onServerConnection s (bs "peer") false;
   Socks5Proxy.onServerConnection s (bs "peer") true) = Err AssertFailed.
Proof. vm_compute. reflexivity. Qed.

(** A request whose first three bytes arrive alone: the type that is looked at is
    not there yet. *)
Example short_piece_asserts :
  ('(s, _) ← Socks5Proxy.onServerConnection no_peers (bs "peer") true;
   feed (proxy_handler Socks4a.sample_resolver (bs "peer")) s sample_buf (sample_greeting ++ [[x05; x01; x00]])) = Err AssertFailed.
Proof. vm_compute. reflexivity. Qed.

(** A host name's length is a signed byte: a name of 128 to 248 bytes is
    never complete, one of 249 or more stops the proxy. *)
Lemma long_name_waits resolver buf len r :
  Buffer.wf buf -> Buffer.content buf = [x05; x01; x00; x03; len] ++ r -> zlen (Buffer.content buf) < 512 -> 128 <= u8 len ->
  connect_request resolver buf = if u8 len <? 249 then Ok None else
    if zlen (Buffer.content buf) <=? u8 len - 249 then
      (if zlen (Buffer.content buf) <? u8 len - 249 then Ok None else Err Undefined) else Err AssertFailed.
Proof.
  intros Hwf Hc Hz Hl. pose proof (u8_range len). pose proof (zlen_nonneg (Buffer.content buf)).
  unfold connect_request, DOMAIN_SIZE_LIMIT. rewrite Buffer.readableBytes_content, assert_true by (done || zbool; lia).
  rewrite !expect_content by (try done; by rewrite Hc). cbn [mbind res_bind].
  rewrite (byte_at_content buf 3 x03) by (try done; by rewrite Hc). cbn [mbind res_bind]. cbv zeta.
  rewrite assert_true, (bool_decide_false (x03 = _)) by done.
  rewrite (byte_at_content buf SOCKS5_CONNECT_HEADER_SIZE len) by (try done; by rewrite Hc). cbn [mbind res_bind].
  assert (Es : s8 len = u8 len - 256).
  { unfold s8, swrap. change (2 ^ (8 - 1)) with 128. change (2 ^ 8) with 256. rewrite <- (Z.mod_unique_pos (u8 len + 128) 256 1 (u8 len - 128)) by lia. lia. }
  rewrite Es. unfold SOCKS5_CONNECT_HEADER_SIZE. replace (4 + (u8 len - 256) + 2 + 1) with (u8 len - 249) by lia.
  destruct (u8 len <? 249) eqn:E; zbool.
  - assert (Eu : u64 (u8 len - 249) = u8 len - 249 + 2 ^ 64).
    { unfold uwrap. symmetry. apply (Z.mod_unique_pos _ _ (-1)); lia. }
    rewrite Eu, assert_true by (zbool; lia). by rewrite (proj2 (Z.ltb_lt _ _)) by lia.
  - rewrite u64_small by (unfold size_max; lia). destruct (zlen (Buffer.content buf) <=? u8 len - 249) eqn:E2; [|done]. cbn [assert_ mbind res_bind].
    destruct (_ <? _) eqn:E3; [done|]. unfold bytes_at. by rewrite (proj2 (Z.leb_gt 0 (u8 len - 256))) by lia.
Qed.

(** ** socks5_proxy_multithreaded.cpp *)

Definition threads_handler resolver peer (s : tunnels * Socks5Threads.context) (buf : Buffer.t) :=
  Socks5Threads.onServerMessage resolver s.1 peer s.2 buf.

(** Until the tunnel's connection is up, what arrives stays. *)
Lemma connecting_keeps resolver peer g chunks buf :
  Buffer.wf buf -> Buffer.size buf + zlen (concat chunks) <= Buffer.max_size ->
  exists buf', feed (threads_handler resolver peer) (g, Socks5Threads.Flag Socks5Threads.CONNECTING) buf chunks =
    Ok ((g, Socks5Threads.Flag Socks5Threads.CONNECTING), buf', []) /\ Buffer.content buf' = Buffer.content buf ++ concat chunks.
Proof.
  revert buf. induction chunks as [|c chunks IH]; intros buf Hwf Hs; cbn [feed concat] in *.
  - exists buf. by rewrite app_nil_r.
  - rewrite zlen_app in Hs. pose proof (zlen_nonneg (concat chunks)).
    destruct (Buffer.append_ok buf c Hwf ltac:(lia)) as (b & -> & Hw & Cb & _ & [_ Hsz]). cbn [mbind res_bind].
    change (threads_handler resolver peer (g, Socks5Threads.Flag Socks5Threads.CONNECTING) b)
      with (Ok ((g, Socks5Threads.Flag Socks5Threads.CONNECTING), b, @nil act)). cbn [mbind res_bind].
    destruct (IH b Hw ltac:(lia)) as (b' & -> & C). exists b'. by rewrite C, Cb, <- app_assoc.
Qed.

(** A session with the multi-threaded SOCKS5 proxy.  A new connection that
    sends the greeting and a request, in pieces as above, gets its replies and a
    tunnel set up to the address asked for, registered under its peer, but not
    yet connected; the first piece of data after that makes the tunnel connect,
    exactly once, and that piece and every later one stay in the buffer, in
    order, until the tunnel's connection is up and takes them. *)
Theorem threads_session resolver g peer port t ip cs1 cs2 data more buf :
  length port = 2%nat -> target_ok t -> Socks4a.resolver_ok resolver -> destination resolver t = Some ip ->
  Buffer.wf buf -> Buffer.content buf = [] -> Buffer.size buf + 137 + zlen (concat (data :: more)) <= Buffer.max_size -> pieces cs1 cs2 port t ->
  let a := Socks4a.server_address port ip in
  exists g' ctx1 ctx2 buf1 buf2,
    Socks5Threads.onServerConnection g peer Socks5Threads.Empty true = Ok (g, ctx1, [SetTcpNoDelay true]) /\
    feed (threads_handler resolver peer) (g, ctx1) buf (cs1 ++ cs2) =
      Ok ((g', ctx2), buf1, [Send [x05; x00]; SetupTunnel a; Send [x05; x00; x00; target_type t]; Send (target_bytes t ++ port)]) /\
    Buffer.content buf1 = [] /\ g' = StdMap.set peer a g /\
    feed (threads_handler resolver peer) (g', ctx2) buf1 (data :: more) =
      Ok ((g', Socks5Threads.Flag Socks5Threads.CONNECTING), buf2, [ConnectTunnel a]) /\
    Buffer.content buf2 = concat (data :: more).
Proof.
  intros Hp Ht Hr Hip Hwf Hc Hs P a. cbn [concat] in Hs. rewrite zlen_app in Hs. pose proof (zlen_nonneg data). pose proof (zlen_nonneg (concat more)).
  destruct (session resolver port t ip Hp Ht Hr Hip (threads_handler resolver peer) (g, Socks5Threads.Flag Socks5Threads.HANDSHAKE)
    (g, Socks5Threads.Flag Socks5Threads.CONNECT) (fun a => (StdMap.set peer a g, Socks5Threads.Flag Socks5Threads.CONNECT2)) (fun a => [SetupTunnel a]))
    with (cs1 := cs1) (cs2 := cs2) (buf := buf) as (b1 & E & W1 & C1 & S1); try done; try lia.
  exists (StdMap.set peer a g), (Socks5Threads.Flag Socks5Threads.HANDSHAKE), (Socks5Threads.Flag Socks5Threads.CONNECT2), b1.
  cbn [feed]. destruct (Buffer.append_ok b1 data W1 ltac:(lia)) as (b2 & E2 & W2 & C2 & _ & [_ S2]). rewrite E2. cbn [mbind res_bind].
  destruct (connecting_keeps resolver peer (StdMap.set peer a g) more b2 W2 ltac:(lia)) as (b3 & E3 & C3). exists b3.
  split_and!; try done.
  - assert (Eh : threads_handler resolver peer (StdMap.set peer a g, Socks5Threads.Flag Socks5Threads.CONNECT2) b2 =
      Ok ((StdMap.set peer a g, Socks5Threads.Flag Socks5Threads.CONNECTING), b2, [ConnectTunnel a])).
    { unfold threads_handler, Socks5Threads.onServerMessage. cbn [fst snd]. by rewrite StdMap.find_set_eq. }
    unfold tunnels in *. setoid_rewrite Eh. cbn [mbind res_bind]. by rewrite E3.
  - by rewrite C3, C2, C1.
Qed.

Lemma threads_session_witness :
  let a := Socks4a.server_address [x00; x50] [x0a; x00; x00; x01] in
  exists g' ctx1 ctx2 buf1 buf2,
    Socks5Threads.onServerConnection [] (bs "peer") Socks5Threads.Empty true = Ok ([], ctx1, [SetTcpNoDelay true]) /\
    feed (threads_handler Socks4a.sample_resolver (bs "peer")) ([], ctx1) sample_buf (sample_greeting ++ sample_request) =
      Ok ((g', ctx2), buf1, [Send [x05; x00]; SetupTunnel a; Send [x05; x00; x00; x03]; Send (x04 :: bs "host" ++ [x00; x50])]) /\
    Buffer.content buf1 = [] /\ g' = StdMap.set (bs "peer") a [] /\
    feed (threads_handler Socks4a.sample_resolver (bs "peer")) (g', ctx2) buf1 [bs "GET"; bs " /"] =
      Ok ((g', Socks5Threads.Flag Socks5Threads.CONNECTING), buf2, [ConnectTunnel a]) /\
    Buffer.content buf2 = concat [bs "GET"; bs " /"].
Proof.
  apply (threads_session Socks4a.sample_resolver [] (bs "peer") [x00; x50] sample_target [x0a; x00; x00; x01]
           sample_greeting sample_request (bs "GET") [bs " /"] sample_buf eq_refl sample_target_ok sample_resolver_ok eq_refl).
  - apply sample_buf_wf.
  - reflexivity.
  - vm_compute. discriminate.
  - apply sample_pieces.
Defined.

(** A tunnel that is torn down leaves its connection without a context: what the
    client still sends stops the proxy. *)
Example data_after_teardown_asserts resolver g peer buf :
  Socks5Threads.onServerMessage resolver g peer Socks5Threads.Empty buf = Err AssertFailed.
Proof. reflexivity. Qed.

End Socks5Facts.
