(* ===== verification/Libco.v ===== *)
(** The SOCKS5 proxy with coroutines
    (src/networking-examples/socks5/socks5_proxy_libco.cpp): one coroutine per
    client reads, answers and relays as if its sockets blocked.

    The coroutine library is an argument, the class [Co] of the calls the program
    makes on a world of sockets; [CoStreams] is what its documentation promises of
    connections that work, on the streams of bytes they carry. *)

From S2P Require Import Prelude Endian StringPiece StdMap Buffer Sockets Socks4a CString Socks5 Socks5Facts.

(** ** The calls *)
Class Co (W : Type) := {
  setNonBlock : W -> Z -> W * Z;                     (* the two calls of fcntl *)
  recvn : W -> Z -> Z -> W * (Z * list byte);
  recv : W -> Z -> Z -> W * (Z * list byte);
  send : W -> Z -> list byte -> W * Z;
  tcp_socket : W -> Z -> W * Z;
  connect : W -> Z -> Sockets.sockaddr -> W * Z;
  close : W -> Z -> W;
}.

(** ** readn and writen, on what recv and send answer *)
Inductive answer := Got (d : list byte) | Failed (errno : Z).

Definition EINTR : Z := 4.

(** The loop of [readn], with [nleft] bytes to go and [got] read: what it returns
    and the bytes; [None] while it waits for an answer. *)
Fixpoint readn_loop (n nleft : Z) (got : list byte) (answers : list answer) : option (Z * list byte) :=
  if nleft <=? 0 then Some (n - nleft, got)
  else
    match answers with
    | [] => None
    | Failed errno :: answers => if errno =? EINTR then readn_loop n nleft got answers else Some (-1, got)
    | Got [] :: _ => Some (n - nleft, got)
    | Got d :: answers => readn_loop n (nleft - zlen d) (got ++ d) answers
    end.
Definition readn (n : Z) (answers : list answer) : option (Z * list byte) := readn_loop n n [] answers.

(** [writen]: send answers how many bytes it took, or fails. *)
Inductive sent := Took (k : Z) | SendFailed (errno : Z).
Fixpoint writen_loop (n nleft : Z) (ptr : list byte) (out : list byte) (answers : list sent) : option (Z * list byte) :=
  if nleft <=? 0 then Some (n, out)
  else
    match answers with
    | [] => None
    | SendFailed errno :: answers => if errno =? EINTR then writen_loop n nleft ptr out answers else Some (-1, out)
    | Took k :: answers =>
        if k <=? 0 then Some (-1, out)
        else writen_loop n (nleft - k) (drop (Z.to_nat k) ptr) (out ++ take (Z.to_nat k) ptr) answers
    end.
Definition writen (data : list byte) (answers : list sent) : option (Z * list byte) := writen_loop (zlen data) (zlen data) data [] answers.

(** Interrupted or not, and in whatever pieces, [readn] gets the [n] bytes. *)
Definition bytes_of (a : answer) : list byte := match a with Got d => d | Failed _ => [] end.
Definition continues (a : answer) : Prop := match a with Got d => d <> [] | Failed errno => errno = EINTR end.

Lemma readn_loop_all n answers got :
  Forall continues answers -> readn_loop n (zlen (concat (map bytes_of answers))) got answers = Some (n, got ++ concat (map bytes_of answers)).
Proof.
  intros Ha. revert got. induction Ha as [|a answers Hc Ha IH]; intros got; cbn; [by rewrite Z.sub_0_r, app_nil_r|].
  destruct a as [d|errno]; cbn in *.
  - destruct d as [|b d]; [done|]. rewrite zlen_app. pose proof (zlen_nonneg (concat (map bytes_of answers))). cbn [app].
    assert (0 < zlen (b :: d)) by (unfold zlen; cbn; lia). rewrite (proj2 (Z.leb_gt _ 0)) by lia.
    replace (zlen (b :: d) + zlen (concat (map bytes_of answers)) - zlen (b :: d)) with (zlen (concat (map bytes_of answers))) by lia.
    by rewrite IH, <- app_assoc.
  - subst errno. destruct (_ <=? 0) eqn:E; [|apply IH]. zbool.
    assert (concat (map bytes_of answers) = []) as -> by (destruct (concat _); [done|unfold zlen in *; cbn in *; lia]). cbn. by rewrite Z.sub_0_r, app_nil_r.
Qed.
Lemma readn_all answers : Forall continues answers ->
  let d := concat (map bytes_of answers) in readn (zlen d) answers = Some (zlen d, d).
Proof. intros Ha. by apply readn_loop_all. Qed.

(** And [writen] sends all of them. *)
Definition count_of (a : sent) : Z := match a with Took k => k | SendFailed _ => 0 end.
Definition proceeds (a : sent) : Prop := match a with Took k => 0 < k | SendFailed errno => errno = EINTR end.
Fixpoint total (answers : list sent) : Z := match answers with [] => 0 | a :: answers => count_of a + total answers end.

Lemma total_nonneg answers : Forall proceeds answers -> 0 <= total answers.
Proof. induction 1 as [|[k|e] answers Hp Ha IH]; cbn in *; [lia|lia|exact IH]. Qed.
Lemma writen_loop_all n answers ptr out :
  Forall proceeds answers -> total answers = zlen ptr -> writen_loop n (zlen ptr) ptr out answers = Some (n, out ++ ptr).
Proof.
  intros Ha. revert ptr out. induction Ha as [|a answers Hc Ha IH]; intros ptr out Ht; cbn in *.
  - destruct ptr; [by rewrite app_nil_r|unfold zlen in Ht; cbn in Ht; lia].
  - pose proof (total_nonneg _ Ha) as Hn. destruct a as [k|errno]; cbn in *.
    + rewrite (proj2 (Z.leb_gt _ 0)) by lia. rewrite (proj2 (Z.leb_gt k 0)) by lia.
      assert (E : zlen ptr - k = zlen (drop (Z.to_nat k) ptr)) by (unfold zlen in *; rewrite length_drop; lia).
      rewrite E, IH by lia. by rewrite <- app_assoc, take_drop.
    + subst errno. destruct (_ <=? 0) eqn:E; [|apply IH; lia]. zbool.
      destruct ptr; [by rewrite app_nil_r|unfold zlen in *; cbn in *; lia].
Qed.
Lemma writen_all data answers : Forall proceeds answers -> total answers = zlen data -> writen data answers = Some (zlen data, data).
Proof. intros Ha Ht. by apply (writen_loop_all (zlen data) answers data []). Qed.

(** ** The handler of a client *)
Module Libco.
Import Socks5.

Definition BUFSIZE : Z := 4096.

Section Handler.
Context {W : Type} `{Co W}.

(** A coroutine: it changes the world, or an assertion stops the program. *)
Definition M (A : Type) : Type := W -> res (A * W).
#[global] Instance M_ret : MRet M := fun A a w => Ok (a, w).
#[global] Instance M_bind : MBind M := fun A B f m w => match m w with Ok (a, w) => f a w | Err e => Err e end.
Definition call {A} (f : W -> W * A) : M A := fun w => let '(w, a) := f w in Ok (a, w).
Definition lift {A} (r : res A) : M A := fun w => match r with Ok a => Ok (a, w) | Err e => Err e end.
Definition assert_2 (condition : bool) : M unit := lift (assert_ condition).

(** The [i]-th byte of an array that was filled with [l]. *)
Definition at_ (l : list byte) (i : nat) : M byte := lift (match l !! i with Some b => Ok b | None => Err Undefined end).
Definition expect (l : list byte) (i : nat) (b : byte) : M unit := x ← at_ l i; assert_2 (bool_decide (x = b)).

(** [recvn] of a whole array, which must not fail. *)
Definition recvn_all (fd n : Z) : M (list byte) :=
  '(ret, d) ← call (fun w => recvn w fd n);
  _ ← assert_2 (ret =? n);
  mret d.
(** [send] of a whole array, which must not fail. *)
Definition send_all (fd : Z) (d : list byte) : M unit :=
  ret ← call (fun w => send w fd d);
  assert_2 (ret =? zlen d).

Definition handshake (fd : Z) : M unit :=
  init ← recvn_all fd 3;
  _ ← expect init 0 SOCKS5_VERSION;
  _ ← expect init 1 x01;
  _ ← expect init 2 NOAUTH;
  send_all fd [SOCKS5_VERSION; NOAUTH].

(** The request: its type, the address, and what the reply repeats. *)
Definition request (resolver : list byte -> option (Z * list byte)) (fd : Z) : M (byte * Sockets.sockaddr * list (list byte)) :=
  connect_header ← recvn_all fd 4;
  _ ← expect connect_header 0 SOCKS5_VERSION;
  _ ← expect connect_header 1 SOCKS5_CONNECT;
  _ ← expect connect_header 2 SOCKS5_RSV;
  remote_addr_type ← at_ connect_header 3;
  _ ← assert_2 (bool_decide (remote_addr_type = SOCKS5_HOST_IN_IPv4) || bool_decide (remote_addr_type = SOCKS5_HOST_IN_DOMAIN));
  let remote_addr := Sockets.set_family (replicate 28 x00) Sockets.AF_INET in
  if bool_decide (remote_addr_type = SOCKS5_HOST_IN_IPv4) then
    ip_port ← recvn_all fd 6;
    mret (remote_addr_type,
          Sockets.set_sin_addr (Sockets.set_port remote_addr (le_combine (slice ip_port IP_ADDR_SIZE 2))) (slice ip_port 0 4),
          [ip_port])
  else
    l ← recvn_all fd 1;
    domain_len ← at_ l 0;
    domain ← recvn_all fd (u8 domain_len);
    let domain := CString.c_str (domain ++ [x00]) in
    r ← lift (Socks4a.lookup_host resolver domain);
    match r with
    | Some ip =>
        let remote_addr := Sockets.set_sin_addr remote_addr ip in
        port ← recvn_all fd 2;
        mret (remote_addr_type, Sockets.set_port remote_addr (le_combine port), [[domain_len]; domain; port])
    | None => lift (Err AssertFailed)
    end.

Fixpoint send_each (fd : Z) (l : list (list byte)) : M unit :=
  match l with [] => mret tt | d :: l => _ ← send_all fd d; send_each fd l end.

(** The relay: from the client, then from the server, in turn, until one ends;
    [None] when the fuel runs out. *)
Fixpoint relay (fuel : nat) (cli_fd remote_fd : Z) : M (option unit) :=
  match fuel with
  | O => mret None
  | S fuel =>
      '(byte_rcv, buffer) ← call (fun w => recv w cli_fd BUFSIZE);
      if byte_rcv <=? 0 then mret (Some tt)
      else
        byte_snd ← call (fun w => send w remote_fd buffer);
        _ ← assert_2 (0 <? byte_snd);
        '(byte_rcv, buffer) ← call (fun w => recv w remote_fd BUFSIZE);
        if byte_rcv <=? 0 then mret (Some tt)
        else
          byte_snd ← call (fun w => send w cli_fd buffer);
          _ ← assert_2 (0 <? byte_snd);
          relay fuel cli_fd remote_fd
  end.

Definition handle_socks5_client (resolver : list byte -> option (Z * list byte)) (fuel : nat) (fd : Z) : M (option unit) :=
  ret ← call (fun w => setNonBlock w fd);
  _ ← assert_2 (ret =? 0);
  _ ← handshake fd;
  '(remote_addr_type, remote_addr, echo) ← request resolver fd;
  remote_fd ← call (fun w => tcp_socket w (Sockets.family remote_addr));
  ret ← call (fun w => connect w remote_fd remote_addr);
  _ ← assert_2 (ret =? 0);
  _ ← send_all fd [SOCKS5_VERSION; SOCKS5_CONNECT_OK; SOCKS5_RSV; remote_addr_type];
  _ ← send_each fd echo;
  done ← relay fuel fd remote_fd;
  match done with
  | None => mret None
  | Some tt => call (fun w => (close (close w remote_fd) fd, Some tt))
  end.

End Handler.
End Libco.

(** ** What the library promises *)
Record streams := mk_streams {
  incoming : gmap Z (list byte);          (* what is still to be received, then the end *)
  outgoing : gmap Z (list byte);          (* what has been sent *)
  peer : gmap Z Sockets.sockaddr;
  closed : gset Z;
}.
Definition set_in (s : streams) (fd : Z) (d : list byte) : streams := mk_streams (<[fd := d]> (incoming s)) (outgoing s) (peer s) (closed s).
Definition set_out (s : streams) (fd : Z) (d : list byte) : streams := mk_streams (incoming s) (<[fd := d]> (outgoing s)) (peer s) (closed s).

(** Connections that work: recvn waits for all, recv for some, send sends all,
    and every server accepts and will send [serves] of its address. *)
Class CoStreams (W : Type) `{Co W} := {
  view : W -> streams;
  serves : Sockets.sockaddr -> list byte;
  setNonBlock_law w fd : exists w', setNonBlock w fd = (w', 0) /\ view w' = view w;
  recvn_law w fd n d : incoming (view w) !! fd = Some d -> 0 <= n <= zlen d ->
    exists w', recvn w fd n = (w', (n, take (Z.to_nat n) d)) /\ view w' = set_in (view w) fd (drop (Z.to_nat n) d);
  recv_law w fd n d : incoming (view w) !! fd = Some d -> 0 < n ->
    exists w' k r, recv w fd n = (w', (zlen k, k)) /\ d = k ++ r /\ (k = [] -> d = []) /\ zlen k <= n /\ view w' = set_in (view w) fd r;
  send_law w fd d o : outgoing (view w) !! fd = Some o ->
    exists w', send w fd d = (w', zlen d) /\ view w' = set_out (view w) fd (o ++ d);
  tcp_socket_law w af : exists w' fd, tcp_socket w af = (w', fd) /\ incoming (view w) !! fd = None /\ view w' = view w;
  connect_law w fd a : incoming (view w) !! fd = None ->
    exists w', connect w fd a = (w', 0) /\
      view w' = mk_streams (<[fd := serves a]> (incoming (view w))) (<[fd := []]> (outgoing (view w))) (<[fd := a]> (peer (view w))) (closed (view w));
  close_law w fd : view (close w fd) = mk_streams (incoming (view w)) (outgoing (view w)) (peer (view w)) ({[fd]} ∪ closed (view w));
}.

Module LibcoFacts.
Import Socks5 Libco.

Section Facts.
Context {W : Type} `{CoStreams W}.

(** A command runs from a world to another. *)
Definition runs {A} (m : M A) (w : W) (a : A) (w' : W) : Prop := m w = Ok (a, w').

Lemma runs_bind {A B} (m : M A) (f : A -> M B) w a w1 b w2 : runs m w a w1 -> runs (f a) w1 b w2 -> runs (m ≫= f) w b w2.
Proof. unfold runs. intros E1 E2. unfold mbind, M_bind. by rewrite E1. Qed.
Lemma runs_assert b w : b = true -> runs (assert_2 b) w tt w.
Proof. by intros ->. Qed.
Lemma runs_ret {A} (a : A) w : runs (mret a) w a w.
Proof. done. Qed.
Lemma runs_call {A} (f : W -> W * A) w w' a : f w = (w', a) -> runs (call f) w a w'.
Proof. unfold runs, call. by intros ->. Qed.
Lemma runs_expect l i b w : l !! i = Some b -> runs (expect l i b) w tt w.
Proof. intros E. unfold runs, expect, at_, lift, mbind, M_bind. rewrite E. cbn. by rewrite bool_decide_true. Qed.

Lemma runs_recvn w fd d r :
  incoming (view w) !! fd = Some (d ++ r) -> exists w', runs (recvn_all fd (zlen d)) w d w' /\ view w' = set_in (view w) fd r.
Proof.
  intros Hin. destruct (recvn_law w fd (zlen d) (d ++ r) Hin) as (w' & E & V). { rewrite zlen_app. pose proof (zlen_nonneg r). pose proof (zlen_nonneg d). lia. }
  unfold zlen in E, V. rewrite Nat2Z.id in E, V. rewrite take_app_length in E. rewrite drop_app_length in V. exists w'. split; [|done].
  eapply runs_bind; [by apply runs_call|]. cbn. eapply runs_bind; [apply runs_assert|done]. unfold zlen. by rewrite Z.eqb_refl.
Qed.

Lemma runs_send w fd d o :
  outgoing (view w) !! fd = Some o -> exists w', runs (send_all fd d) w tt w' /\ view w' = set_out (view w) fd (o ++ d).
Proof.
  intros Ho. destruct (send_law w fd d o Ho) as (w' & E & V). exists w'. split; [|done].
  eapply runs_bind; [by apply runs_call|]. apply runs_assert. by rewrite Z.eqb_refl.
Qed.

Lemma runs_send_each w fd l o :
  outgoing (view w) !! fd = Some o -> exists w', runs (send_each fd l) w tt w' /\ view w' = set_out (view w) fd (o ++ concat l).
Proof.
  revert w o. induction l as [|d l IH]; intros w o Ho; cbn [send_each concat].
  - exists w. split; [apply runs_ret|]. rewrite app_nil_r. unfold set_out. rewrite insert_id by done. by destruct (view w).
  - destruct (runs_send w fd d o Ho) as (w1 & R1 & V1). destruct (IH w1 (o ++ d)) as (w2 & R2 & V2). { rewrite V1. cbn. apply lookup_insert_eq. }
    exists w2. split; [by eapply runs_bind|]. rewrite V2, V1, app_assoc. unfold set_out; cbn. by rewrite insert_insert_eq.
Qed.

(** The sockets of a session: the client's, and the one made for it. *)
Definition at_work (w : W) (fd : Z) (i o : list byte) : Prop := incoming (view w) !! fd = Some i /\ outgoing (view w) !! fd = Some o.

Lemma handshake_ok w fd r o : at_work w fd (Socks5Facts.greeting ++ r) o ->
  exists w', runs (handshake fd) w tt w' /\ view w' = set_out (set_in (view w) fd r) fd (o ++ [x05; x00]).
Proof.
  intros [Hi Ho]. destruct (runs_recvn w fd Socks5Facts.greeting r Hi) as (w1 & R1 & V1).
  destruct (runs_send w1 fd [x05; x00] o) as (w2 & R2 & V2). { by rewrite V1. }
  exists w2. split; [|by rewrite V2, V1]. eapply runs_bind; [exact R1|]. do 3 (eapply runs_bind; [by apply runs_expect|]). done.
Qed.

Lemma set_in_in (s : streams) fd a b : set_in (set_in s fd a) fd b = set_in s fd b.
Proof. unfold set_in; cbn. by rewrite insert_insert_eq. Qed.

Lemma set_in_out_in (s : streams) fd a b o : set_in (set_out (set_in s fd a) fd o) fd b = set_out (set_in s fd b) fd o.
Proof. unfold set_in, set_out; cbn. by rewrite insert_insert_eq. Qed.

(** Here a name's length is unsigned: all names of the protocol are taken. *)
Definition target_ok (t : Socks5Facts.target) : Prop :=
  match t with
  | Socks5Facts.Address ip => length ip = 4%nat
  | Socks5Facts.Host host => Socks4a.no_nul host /\ (length host <= 255)%nat
  end.

Lemma request_ok resolver w fd port t ip r :
  length port = 2%nat -> target_ok t -> Socks4a.resolver_ok resolver -> Socks5Facts.destination resolver t = Some ip ->
  incoming (view w) !! fd = Some (Socks5Facts.request port t ++ r) ->
  exists w' echo, runs (request resolver fd) w (Socks5Facts.target_type t, Socks4a.server_address port ip, echo) w' /\
    concat echo = Socks5Facts.target_bytes t ++ port /\ view w' = set_in (view w) fd r.
Proof.
  intros Hp Ht Hr Hd Hi. unfold Socks5Facts.request in Hi. rewrite <- app_assoc in Hi.
  destruct (runs_recvn w fd _ _ Hi) as (w1 & R1 & V1).
  assert (Hw1 : incoming (view w1) !! fd = Some ((Socks5Facts.target_bytes t ++ port) ++ r)) by (rewrite V1; cbn; apply lookup_insert_eq).
  destruct t as [a|host]; cbn [Socks5Facts.target_type Socks5Facts.target_bytes Socks5Facts.destination target_ok] in *.
  - injection Hd as ->. destruct (runs_recvn w1 fd _ _ Hw1) as (w2 & R2 & V2). exists w2, [ip ++ port].
    split; [|split; [by cbn; rewrite app_nil_r|by rewrite V2, V1, set_in_in]].
    eapply runs_bind; [exact R1|]. do 3 (eapply runs_bind; [by apply runs_expect|]). eapply runs_bind; [reflexivity|]. eapply runs_bind; [by apply runs_assert|].
    rewrite bool_decide_true by done. assert (E6 : zlen (ip ++ port) = 6) by (unfold zlen; rewrite length_app; lia). rewrite E6 in R2.
    eapply runs_bind; [exact R2|]. unfold runs, mret, M_ret. do 3 f_equal. unfold Socks4a.server_address, IP_ADDR_SIZE.
    assert (slice (ip ++ port) 4 2 = port) as -> by (unfold slice; rewrite drop_app_length' by done; by rewrite take_ge by lia).
    assert (slice (ip ++ port) 0 4 = ip) as -> by (unfold slice; by rewrite drop_0, take_app_length'). done.
  - destruct Ht as [Hn Hl]. rewrite <- !app_assoc in Hw1.
    destruct (runs_recvn w1 fd [byte_of (zlen host)] (host ++ port ++ r)) as (w2 & R2 & V2); [by rewrite Hw1|].
    destruct (runs_recvn w2 fd host (port ++ r)) as (w3 & R3 & V3); [rewrite V2; cbn; apply lookup_insert_eq|].
    destruct (runs_recvn w3 fd port r) as (w4 & R4 & V4); [rewrite V3; cbn; apply lookup_insert_eq|].
    exists w4, [[byte_of (zlen host)]; host; port].
    split; [|split; [cbn; by rewrite app_nil_r|by rewrite V4, V3, V2, V1, !set_in_in]].
    eapply runs_bind; [exact R1|]. do 3 (eapply runs_bind; [by apply runs_expect|]). eapply runs_bind; [reflexivity|]. eapply runs_bind; [by apply runs_assert|].
    rewrite bool_decide_false by done. eapply runs_bind; [exact R2|]. eapply runs_bind; [reflexivity|].
    assert (Eu : u8 (byte_of (zlen host)) = zlen host) by (rewrite u8_byte_of; apply Z.mod_small; unfold zlen; lia). rewrite Eu.
    eapply runs_bind; [exact R3|]. cbv zeta. rewrite CString.c_str_app, CString.c_str_nul, app_nil_r by done.
    rewrite Socks4a.lookup_host_ok by done. eapply runs_bind; [reflexivity|]. rewrite Hd.
    assert (E2 : zlen port = 2) by (unfold zlen; lia). rewrite E2 in R4. eapply runs_bind; [exact R4|]. unfold runs, mret, M_ret.
    rewrite Socks5Facts.address_order; [done|]. destruct (resolver host) as [[ty x]|] eqn:Er; [|done]. injection Hd as <-. by apply Hr in Er as [_ ?].
Qed.

(** The relay sends on all it receives, and stops only when a side has ended. *)
Lemma relay_ok fuel w fd rfd i o ri ro :
  fd <> rfd -> at_work w fd i o -> at_work w rfd ri ro -> (length i < fuel)%nat ->
  exists w' i1 i2 r1 r2, runs (relay fuel fd rfd) w (Some tt) w' /\ i = i1 ++ i2 /\ ri = r1 ++ r2 /\ (i2 = [] \/ r2 = []) /\
    at_work w' fd i2 (o ++ r1) /\ at_work w' rfd r2 (ro ++ i1) /\ peer (view w') = peer (view w) /\ closed (view w') = closed (view w).
Proof.
  intros Hne. revert w i o ri ro. induction fuel as [|fuel IH]; intros w i o ri ro [Hi Ho] [Hri Hro] Hf; [lia|]. cbn [relay].
  destruct (recv_law w fd BUFSIZE i Hi ltac:(done)) as (w1 & k & r & E1 & -> & Hk & _ & V1).
  destruct k as [|b k].
  { specialize (Hk eq_refl). cbn in Hk. subst r. exists w1, [], [], [], ri. split.
    - eapply runs_bind; [by apply runs_call|]. done.
    - unfold at_work. rewrite !app_nil_r, V1. cbn. rewrite lookup_insert_eq, lookup_insert_ne by done. split_and!; try done. by left. }
  destruct (send_law w1 rfd (b :: k) ro) as (w2 & E2 & V2); [by rewrite V1|].
  destruct (recv_law w2 rfd BUFSIZE ri) as (w3 & k' & r' & E3 & -> & Hk' & _ & V3); [by rewrite V2, V1; cbn; rewrite lookup_insert_ne|done|].
  destruct k' as [|b' k'].
  - specialize (Hk' eq_refl). cbn in Hk'. subst r'. exists w3, (b :: k), r, [], []. split.
    + eapply runs_bind; [by apply runs_call|]. cbn. eapply runs_bind; [by apply runs_call|]. eapply runs_bind; [by apply runs_assert|].
      eapply runs_bind; [by apply runs_call|]. done.
    + unfold at_work. rewrite !app_nil_r, V3, V2, V1. cbn. rewrite !lookup_insert_eq, !(lookup_insert_ne _ rfd), lookup_insert_eq by done. split_and!; try done. by right.
  - destruct (send_law w3 fd (b' :: k') o) as (w4 & E4 & V4); [by rewrite V3, V2, V1; cbn; rewrite lookup_insert_ne|].
    destruct (IH w4 r (o ++ b' :: k') r' (ro ++ b :: k)) as (w' & i1 & i2 & r1 & r2 & R & -> & -> & Hend & A1 & A2 & P & C).
    + split; rewrite V4, V3, V2, V1; cbn; rewrite ?lookup_insert_eq, ?(lookup_insert_ne _ rfd), ?lookup_insert_eq by done; done.
    + split; rewrite V4, V3, V2, V1; cbn; rewrite ?lookup_insert_eq, ?(lookup_insert_ne _ fd), ?lookup_insert_eq by done; done.
    + cbn in Hf. rewrite length_app in Hf. lia.
    + exists w', (b :: k ++ i1), i2, (b' :: k' ++ r1), r2. split.
      * eapply runs_bind; [by apply runs_call|]. cbn. eapply runs_bind; [by apply runs_call|]. eapply runs_bind; [by apply runs_assert|].
        eapply runs_bind; [by apply runs_call|]. cbn. eapply runs_bind; [by apply runs_call|]. eapply runs_bind; [by apply runs_assert|]. done.
      * rewrite <- !app_assoc in A1, A2. cbn in A1, A2. split_and!; try done; [cbn; by rewrite <- app_assoc..|by rewrite P, V4, V3, V2, V1|by rewrite C, V4, V3, V2, V1].
Qed.

Lemma handle_ok resolver fuel w fd port t ip data :
  length port = 2%nat -> target_ok t -> Socks4a.resolver_ok resolver -> Socks5Facts.destination resolver t = Some ip ->
  at_work w fd (Socks5Facts.greeting ++ Socks5Facts.request port t ++ data) [] -> (length data < fuel)%nat ->
  let a := Socks4a.server_address port ip in
  exists w' rfd d1 d2 r1 r2, handle_socks5_client resolver fuel fd w = Ok (Some tt, w') /\ rfd <> fd /\
    data = d1 ++ d2 /\ serves a = r1 ++ r2 /\ (d2 = [] \/ r2 = []) /\ peer (view w') !! rfd = Some a /\
    incoming (view w') !! fd = Some d2 /\ incoming (view w') !! rfd = Some r2 /\
    outgoing (view w') !! rfd = Some d1 /\
    outgoing (view w') !! fd = Some ([x05; x00] ++ [x05; x00; x00; Socks5Facts.target_type t] ++ Socks5Facts.target_bytes t ++ port ++ r1) /\
    closed (view w') = {[fd; rfd]} ∪ closed (view w).
Proof.
  intros Hp Ht Hr Hd [Hi Ho] Hf a. destruct (setNonBlock_law w fd) as (w0 & E0 & V0). rewrite <- V0 in Hi, Ho.
  destruct (handshake_ok w0 fd _ _ (conj Hi Ho)) as (w1 & R1 & V1).
  destruct (request_ok resolver w1 fd port t ip data) as (w2 & echo & R2 & Ee & V2); try done; [rewrite V1; cbn; apply lookup_insert_eq|].
  destruct (tcp_socket_law w2 (Sockets.family a)) as (w3 & rfd & E3 & Hnew & V3). rewrite <- V3 in Hnew.
  destruct (connect_law w3 rfd a Hnew) as (w4 & E4 & V4). rewrite V3, V2, V1, set_in_out_in in V4.
  assert (Hne : rfd <> fd). { intros ->. rewrite V3, V2 in Hnew. cbn in Hnew. by rewrite lookup_insert_eq in Hnew. }
  destruct (runs_send w4 fd [x05; x00; x00; Socks5Facts.target_type t] [x05; x00]) as (w5 & R5 & V5).
  { rewrite V4. cbn. rewrite lookup_insert_ne by done. apply lookup_insert_eq. }
  destruct (runs_send_each w5 fd echo ([x05; x00] ++ [x05; x00; x00; Socks5Facts.target_type t])) as (w6 & R6 & V6).
  { rewrite V5. cbn. by rewrite lookup_insert_eq. }
  destruct (relay_ok fuel w6 fd rfd data ([x05; x00] ++ [x05; x00; x00; Socks5Facts.target_type t] ++ concat echo) (serves a) [])
    as (w7 & d1 & d2 & r1 & r2 & R7 & Ed & Er & Hend & A1 & A2 & P & C); try done.
  { split; rewrite V6, V5, V4; cbn; [rewrite lookup_insert_ne by done; apply lookup_insert_eq|by rewrite lookup_insert_eq]. }
  { split; rewrite V6, V5, V4; cbn; [by rewrite lookup_insert_eq|]. rewrite !(lookup_insert_ne _ fd) by done. by rewrite lookup_insert_eq. }
  exists (close (close w7 rfd) fd), rfd, d1, d2, r1, r2. split.
  { change (runs (handle_socks5_client resolver fuel fd) w (Some tt) (close (close w7 rfd) fd)). unfold handle_socks5_client.
    eapply runs_bind; [by apply runs_call|]. eapply runs_bind; [by apply runs_assert|]. eapply runs_bind; [exact R1|]. eapply runs_bind; [exact R2|]. cbn beta iota.
    eapply runs_bind; [by apply runs_call|]. eapply runs_bind; [by apply runs_call|]. eapply runs_bind; [by apply runs_assert|].
    eapply runs_bind; [exact R5|]. eapply runs_bind; [exact R6|]. eapply runs_bind; [exact R7|]. done. }
  rewrite !close_law. cbn. destruct A1 as [I1 A1], A2 as [I2 A2]. rewrite A1, A2, P, C, V6, V5, V4. cbn. rewrite lookup_insert_eq, Ee.
  split_and!; try done.
  - cbn. by rewrite <- !app_assoc.
  - rewrite V0. clear. set_solver.
Qed.

End Facts.


(** A world of streams that keeps these promises. *)
Section Instance_.
Context (server : Sockets.sockaddr -> list byte).
Definition fresh_fd (s : streams) : Z := fresh (dom (incoming s)).
#[local] Instance streams_co : Co streams := {|
  setNonBlock s fd := (s, 0);
  recvn s fd n := let d := default [] (incoming s !! fd) in (set_in s fd (drop (Z.to_nat n) d), (Z.min n (zlen d), take (Z.to_nat n) d));
  recv s fd n := let d := default [] (incoming s !! fd) in
    (set_in s fd (drop (Z.to_nat n) d), (zlen (take (Z.to_nat n) d), take (Z.to_nat n) d));
  send s fd d := (set_out s fd (default [] (outgoing s !! fd) ++ d), zlen d);
  tcp_socket s af := (s, fresh_fd s);
  connect s fd a := (mk_streams (<[fd := server a]> (incoming s)) (<[fd := []]> (outgoing s)) (<[fd := a]> (peer s)) (closed s), 0);
  close s fd := mk_streams (incoming s) (outgoing s) (peer s) ({[fd]} ∪ closed s);
|}.
#[local] Instance streams_laws : CoStreams streams.
Proof.
  refine {| view s := s; serves := server |}.
  - intros w fd. by exists w.
  - intros w fd n d E Hn. cbn. rewrite E. cbn. eexists. split; [|done]. by rewrite Z.min_l by lia.
  - intros w fd n d E Hn. cbn. rewrite E. cbn. eexists _, (take (Z.to_nat n) d), (drop (Z.to_nat n) d). split; [done|]. split; [by rewrite take_drop|].
    split; [|split; [|done]].
    + destruct d; [done|]. destruct (Z.to_nat n) eqn:En; [lia|done].
    + unfold zlen. rewrite length_take. lia.
  - intros w fd d o E. cbn. rewrite E. by eexists.
  - intros w af. exists w, (fresh_fd w). split_and!; try done. apply not_elem_of_dom. unfold fresh_fd. apply is_fresh.
  - intros w fd a _. by eexists.
  - done.
Defined.
End Instance_.

Definition sample_world : streams :=
  mk_streams {[7 := Socks5Facts.greeting ++ Socks5Facts.request [x00; x50] Socks5Facts.sample_target ++ bs "GET"]} {[7 := []]} ∅ ∅.


End LibcoFacts.
