(* ===== verification/LibcoMain.v ===== *)
(** The accepting coroutine of the proxy with coroutines
    (src/networking-examples/socks5/socks5_proxy_libco.cpp, accept_routine): the
    listening socket it sets up and the coroutines it starts.

    The answers of the system calls and of [co::accept] are arguments. *)

From S2P Require Import Prelude Sockets Socket.

Module LibcoMain.

(** The listening socket: its options, and the options it had when it was bound,
    which are those bind(2) goes by. *)
Record listener := mk_listener {
  fd : Z;
  options_ : Socket.options;
  bound_ : option Socket.options;
  listening_ : bool;
}.

(** What the calls of the setup return. *)
Record answers := mk_answers { a_socket : Z; a_bind : Z; a_reuse : Z; a_nodelay : Z; a_listen : Z }.

Definition bindAddress (l : listener) (ret : Z) : res listener :=
  _ ← Sockets.bindOrDie ret; Ok (mk_listener (fd l) (options_ l) (Some (options_ l)) (listening_ l)).
Definition listen (l : listener) (ret : Z) : res listener :=
  _ ← Sockets.listenOrDie ret; Ok (mk_listener (fd l) (options_ l) (bound_ l) true).
Definition with_options (l : listener) (o : Socket.options) : listener := mk_listener (fd l) o (bound_ l) (listening_ l).

Definition setup (a : answers) : res listener :=
  listener_fd ← Sockets.createNonblockingOrDie (a_socket a);
  assert! (0 <=? listener_fd);
  let l := mk_listener listener_fd ∅ None false in
  l ← bindAddress l (a_bind a);
  let l := with_options l (Socket.setReuseAddr (options_ l) true (a_reuse a)) in
  let l := with_options l (Socket.setTcpNoDelay (options_ l) true (a_nodelay a)) in
  listen l (a_listen a).

(** The turns of the loop that [co::accept] has answered, with the descriptors
    whose coroutines were started; the assertion aborts the program. *)
Fixpoint accept_loop (accepts : list Z) (started : list Z) : list Z * res unit :=
  match accepts with
  | [] => (started, Ok tt)
  | client_fd :: accepts => if 0 <=? client_fd then accept_loop accepts (started ++ [client_fd]) else (started, Err AssertFailed)
  end.

Definition accept_routine (a : answers) (accepts : list Z) : res (listener * (list Z * res unit)) :=
  l ← setup a; Ok (l, accept_loop accepts []).

(** ** Facts *)

(** How the turns can have gone. *)
Definition turns (accepts started : list Z) (r : res unit) : Prop :=
  exists rest, accepts = started ++ rest /\ Forall (Z.le 0) started /\
    match r with Ok _ => rest = [] | Err e => e = AssertFailed /\ exists bad rest', rest = bad :: rest' /\ bad < 0 end.

Lemma accept_loop_turns accepts s0 :
  exists started, fst (accept_loop accepts s0) = s0 ++ started /\ turns accepts started (snd (accept_loop accepts s0)).
Proof.
  revert s0. induction accepts as [|c accepts IH]; intros s0; cbn.
  - exists []. rewrite app_nil_r. split; [done|]. by exists [].
  - destruct (Z.leb_spec 0 c) as [Hc|Hc]; cbn.
    + destruct (IH (s0 ++ [c])) as (started & E & rest & -> & Hs & Hr). exists (c :: started). rewrite E, <- app_assoc. split; [done|].
      exists rest. split_and!; [done|by constructor|done].
    + exists []. rewrite app_nil_r. split; [done|]. exists (c :: accepts). split_and!; [done|done|done|]. by exists c, accepts.
Qed.

(** Once set up, the proxy starts one coroutine for each client, in the order
    accepted, as long as [accept] succeeds, and the first failure ends the
    program, with every client it serves; and the address was bound without
    SO_REUSEADDR, whatever the calls returned. *)
Theorem accepting a accepts l started r :
  accept_routine a accepts = Ok (l, (started, r)) ->
  turns accepts started r /\
  listening_ l = true /\ exists o, bound_ l = Some o /\ o !! (Socket.SOL_SOCKET, Socket.SO_REUSEADDR) = None.
Proof.
  unfold accept_routine. intros H. destruct (setup a) as [l'|] eqn:Es; [|done]. cbn in H. injection H as -> Hl. split.
  - destruct (accept_loop_turns accepts []) as (started' & E & T). rewrite Hl in E, T. cbn in E, T. by subst.
  - unfold setup, bindAddress, listen, Sockets.createNonblockingOrDie, Sockets.bindOrDie, Sockets.listenOrDie, assert_ in Es.
    destruct (a_socket a <? 0); [done|]. cbn in Es. destruct (0 <=? a_socket a); [|done]. cbn in Es.
    destruct (a_bind a <? 0); [done|]. cbn in Es. destruct (a_listen a <? 0); [done|]. injection Es as <-.
    split; [done|]. eexists. split; [done|]. apply lookup_empty.
Qed.

End LibcoMain.
