(* ===== verification/Cdns.v ===== *)
(** The asynchronous DNS resolver (src/networking-examples/cdns/Resolver.cpp): it
    drives the c-ares library from an event loop.

    The library is what it answers: during each call it makes some callbacks into
    the resolver, and after it, it reports how long it may be left alone.  The
    loop is what the resolver uses of it: the timers it has asked for, and the
    channels that are active in the current iteration, of which one may be
    handling its event.  Times are in microseconds. *)

From S2P Require Import Prelude StdMap Sockets.

Module Cdns.

Definition SOCK_STREAM : Z := 1.
Definition SOCK_DGRAM : Z := 2.

Inductive callback :=
  | SockCreate (sockfd type : Z)
  | SockState (sockfd : Z) (read write : bool)
  | HostResult (query : Z) (status : Z) (h_addr : option (list byte)).

Inductive act :=
  | EnableReading (sockfd : Z)
  | RemoveChannel (sockfd : Z)                      (* disableAll and remove *)
  | RunAfter (timeout : Z)                          (* onTimer *)
  | Callback (query : Z) (addr : Sockets.sockaddr).

(** What the loop is doing: the active channels, and the one whose event is
    being handled. *)
Record loop := mk_loop { active : gset Z; current : option Z }.
Definition outside : loop := mk_loop ∅ None.

Record t := mk {
  timerActive_ : bool;
  channels_ : gset Z;
  queries : gset Z;                                 (* the QueryData there are *)
  nextQuery : Z;
  timers : nat;                                     (* calls of onTimer the loop has to make *)
}.
Definition new : t := mk false ∅ ∅ 0 0.

(** [ares_timeout]: none when nothing is waiting. *)
Definition getSeconds (tv : option (Z * Z)) : Z :=
  match tv with Some (tv_sec, tv_usec) => tv_sec * 1000000 + tv_usec | None => -1000000 end.
Definition getSocketType (type : Z) : list byte :=
  if type =? SOCK_DGRAM then bs "UDP" else if type =? SOCK_STREAM then bs "TCP" else bs "Unknown".

Definition onSockCreate (s : t) (sockfd : Z) : res (t * list act) :=
  assert! bool_decide (sockfd ∉ channels_ s);
  Ok (mk (timerActive_ s) ({[sockfd]} ∪ channels_ s) (queries s) (nextQuery s) (timers s), [EnableReading sockfd]).

(** The channel is removed from the loop, which must not be about to handle it,
    and destroyed, which it must not be handling. *)
Definition onSockStateChange (l : loop) (s : t) (sockfd : Z) (read write : bool) : res (t * list act) :=
  assert! bool_decide (sockfd ∈ channels_ s);
  if read then Ok (s, [])
  else
    assert! bool_decide (current l = Some sockfd) || bool_decide (sockfd ∉ active l);
    assert! negb (bool_decide (current l = Some sockfd));
    Ok (mk (timerActive_ s) (channels_ s ∖ {[sockfd]}) (queries s) (nextQuery s) (timers s), [RemoveChannel sockfd]).

(** The address given to the callback; without a result it is 0.0.0.0. *)
Definition onQueryResult (h_addr : option (list byte)) : Sockets.sockaddr :=
  let addr := Sockets.set_port (Sockets.set_family (replicate 28 x00) Sockets.AF_INET) 0 in
  match h_addr with Some a => Sockets.set_sin_addr addr (take 4 a) | None => addr end.

Definition ares_host_callback (s : t) (query : Z) (h_addr : option (list byte)) : res (t * list act) :=
  if decide (query ∈ queries s) then
    Ok (mk (timerActive_ s) (channels_ s) (queries s ∖ {[query]}) (nextQuery s) (timers s), [Callback query (onQueryResult h_addr)])
  else Err Undefined.

Definition run_callback (l : loop) (s : t) (c : callback) : res (t * list act) :=
  match c with
  | SockCreate sockfd _ => onSockCreate s sockfd
  | SockState sockfd read write => onSockStateChange l s sockfd read write
  | HostResult query _ h_addr => ares_host_callback s query h_addr
  end.
Fixpoint run_callbacks (l : loop) (s : t) (cs : list callback) : res (t * list act) :=
  match cs with
  | [] => Ok (s, [])
  | c :: cs => '(s, a) ← run_callback l s c; '(s, a') ← run_callbacks l s cs; Ok (s, a ++ a')
  end.

Definition set_timer (s : t) : t := mk true (channels_ s) (queries s) (nextQuery s) (S (timers s)).

(** [resolve]: [cs] is what ares_gethostbyname calls, [tv] what ares_timeout
    reports. *)
Definition resolve (l : loop) (s : t) (cs : list callback) (tv : option (Z * Z)) : res (Z * t * list act) :=
  let query := nextQuery s in
  let s := mk (timerActive_ s) (channels_ s) ({[query]} ∪ queries s) (nextQuery s + 1) (timers s) in
  '(s, a) ← run_callbacks l s cs;
  let timeout := getSeconds tv in
  if timerActive_ s then Ok (query, s, a) else Ok (query, set_timer s, a ++ [RunAfter timeout]).

Definition onRead (l : loop) (s : t) (cs : list callback) : res (t * list act) := run_callbacks l s cs.

Definition onTimer (l : loop) (s : t) (cs : list callback) (tv : option (Z * Z)) : res (t * list act) :=
  assert! timerActive_ s;
  '(s, a) ← run_callbacks l s cs;
  let timeout := getSeconds tv in
  if timeout <? 0 then Ok (mk false (channels_ s) (queries s) (nextQuery s) (timers s), a)
  else Ok (set_timer s, a ++ [RunAfter timeout]).

(** ** The loop calls *)
Inductive event :=
  | Resolve (l : loop) (cs : list callback) (tv : option (Z * Z))
  | Readable (sockfd : Z) (others : gset Z) (cs : list callback)
  | TimerFires (others : gset Z) (cs : list callback) (tv : option (Z * Z)).

Definition step (s : t) (e : event) : res (t * list act) :=
  match e with
  | Resolve l cs tv => '(_, s, a) ← resolve l s cs tv; Ok (s, a)
  | Readable sockfd others cs => onRead (mk_loop ({[sockfd]} ∪ others) (Some sockfd)) s cs
  | TimerFires others cs tv =>
      onTimer (mk_loop others None) (mk (timerActive_ s) (channels_ s) (queries s) (nextQuery s) (Nat.pred (timers s))) cs tv
  end.

(** ** What c-ares promises
    It has sockets open and queries to answer: it opens a socket that it has not,
    closes one that it has, and answers a query once.  When it closes a socket is
    left open: ARES_FLAG_STAYOPEN keeps sockets open that have no query left, not
    those that fail. *)
Record ares := mk_ares { sockets : gset Z; outstanding : gset Z }.

Definition ares_callback (a : ares) (c : callback) : option ares :=
  match c with
  | SockCreate fd _ => if decide (fd ∈ sockets a) then None else Some (mk_ares ({[fd]} ∪ sockets a) (outstanding a))
  | SockState fd read write =>
      if decide (fd ∈ sockets a) then
        if read then Some a else Some (mk_ares (sockets a ∖ {[fd]}) (outstanding a))
      else None
  | HostResult q _ _ => if decide (q ∈ outstanding a) then Some (mk_ares (sockets a) (outstanding a ∖ {[q]})) else None
  end.
Fixpoint ares_callbacks (a : ares) (cs : list callback) : option ares :=
  match cs with [] => Some a | c :: cs => a ← ares_callback a c; ares_callbacks a cs end.

(** A time to wait is not negative, and there is one while a query waits. *)
Definition timeout_ok (a : ares) (tv : option (Z * Z)) : Prop :=
  match tv with Some (sec, usec) => 0 <= sec /\ 0 <= usec | None => outstanding a = ∅ end.

(** What may happen next. *)
Inductive allowed (s : t) (a : ares) : event -> ares -> Prop :=
  | allow_resolve l cs tv a' :
      ares_callbacks (mk_ares (sockets a) ({[nextQuery s]} ∪ outstanding a)) cs = Some a' -> allowed s a (Resolve l cs tv) a'
  | allow_readable fd others cs a' :
      fd ∈ channels_ s -> ares_callbacks a cs = Some a' -> allowed s a (Readable fd others cs) a'
  | allow_timer others cs tv a' :
      timers s <> 0%nat -> ares_callbacks a cs = Some a' -> timeout_ok a' tv -> allowed s a (TimerFires others cs tv) a'.

Inductive reachable : t -> ares -> list act -> Prop :=
  | reach_new : reachable new (mk_ares ∅ ∅) []
  | reach_step s a tr e a' s' acts : reachable s a tr -> allowed s a e a' -> step s e = Ok (s', acts) -> reachable s' a' (tr ++ acts).

(** ** What follows *)

(** The queries that were answered, in order. *)
Definition answer_of (a : act) : option Z := match a with Callback q _ => Some q | _ => None end.
Definition answered (tr : list act) : list Z := omap answer_of tr.

Lemma answered_app t1 t2 : answered (t1 ++ t2) = answered t1 ++ answered t2.
Proof. apply omap_app. Qed.

(** Whether c-ares closes, during an event, a socket whose channel the loop is
    handling or has still to handle in this iteration. *)
Definition closes_busy (l : loop) (c : callback) : bool :=
  match c with
  | SockState fd false _ => bool_decide (fd ∈ active l) || bool_decide (current l = Some fd)
  | _ => false
  end.
Definition busy_close (e : event) : bool :=
  match e with
  | Resolve l cs _ => existsb (closes_busy l) cs
  | Readable fd others cs => existsb (closes_busy (mk_loop ({[fd]} ∪ others) (Some fd))) cs
  | TimerFires others cs _ => existsb (closes_busy (mk_loop others None)) cs
  end.

(** The resolver and c-ares agree. *)
Definition agree (s : t) (a : ares) : Prop := channels_ s = sockets a /\ queries s = outstanding a.

Lemma run_callback_ok l s a c a' : agree s a -> ares_callback a c = Some a' -> closes_busy l c = false ->
  exists s' acts, run_callback l s c = Ok (s', acts) /\ agree s' a' /\
    timerActive_ s' = timerActive_ s /\ timers s' = timers s /\ nextQuery s' = nextQuery s /\ outstanding a' ⊆ outstanding a /\
    NoDup (answered acts) /\ forall q, q ∈ answered acts <-> q ∈ outstanding a /\ q ∉ outstanding a'.
Proof.
  intros [C Q] E B. destruct c as [fd ty|fd read write|q st h]; cbn in *.
  - destruct (decide (fd ∈ sockets a)); [done|]. injection E as <-. unfold onSockCreate. rewrite C, assert_true by (by apply bool_decide_eq_true).
    eexists _, _. split; [done|]. split_and!; try done; [constructor|set_solver].
  - destruct (decide (fd ∈ sockets a)) as [Hin|]; [|done]. unfold onSockStateChange. rewrite C, assert_true by (by apply bool_decide_eq_true).
    destruct read.
    + injection E as <-. eexists _, _. split; [done|]. split_and!; try done; [constructor|set_solver].
    + injection E as <-. apply orb_false_iff in B as [B1%bool_decide_eq_false B2%bool_decide_eq_false].
      rewrite (bool_decide_false (current l = Some fd)), (bool_decide_true (fd ∉ active l)) by done. eexists _, _. split; [done|]. split_and!; try done; [constructor|set_solver].
  - destruct (decide (q ∈ outstanding a)) as [Hin|]; [|done]. injection E as <-. unfold ares_host_callback. rewrite Q, decide_True by done.
    eexists _, _. split; [done|]. split_and!; try done; cbn; [set_solver|apply NoDup_singleton|].
    intros q'. rewrite list_elem_of_singleton, elem_of_difference, elem_of_singleton. split; [intros ->; tauto|]. intros [H1 H2]. apply dec_stable. tauto.
Qed.

Lemma run_callback_fails l s a c a' : agree s a -> ares_callback a c = Some a' -> closes_busy l c = true -> run_callback l s c = Err AssertFailed.
Proof.
  intros [C _] E B. destruct c as [fd ty|fd [] write|q st h]; try done. cbn in *. destruct (decide (fd ∈ sockets a)); [|done].
  unfold onSockStateChange. rewrite C, assert_true by (by apply bool_decide_eq_true). cbn [negb].
  destruct (bool_decide (current l = Some fd)); [done|]. rewrite orb_false_r in B. apply bool_decide_eq_true in B. by rewrite bool_decide_false by tauto.
Qed.

Lemma run_callbacks_ok l cs s a a' : agree s a -> ares_callbacks a cs = Some a' -> existsb (closes_busy l) cs = false ->
  exists s' acts, run_callbacks l s cs = Ok (s', acts) /\ agree s' a' /\
    timerActive_ s' = timerActive_ s /\ timers s' = timers s /\ nextQuery s' = nextQuery s /\ outstanding a' ⊆ outstanding a /\
    NoDup (answered acts) /\ forall q, q ∈ answered acts <-> q ∈ outstanding a /\ q ∉ outstanding a'.
Proof.
  revert s a. induction cs as [|c cs IH]; intros s a A E B; cbn in *.
  - injection E as <-. exists s, []. split_and!; try done; [constructor|set_solver].
  - destruct (ares_callback a c) as [a1|] eqn:E1; cbn in E; [|done]. apply orb_false_iff in B as [B1 B2].
    destruct (run_callback_ok l s a c a1 A E1 B1) as (s1 & t1 & -> & A1 & T1 & M1 & N1 & S1 & D1 & Q1). cbn [mbind res_bind].
    destruct (IH s1 a1 A1 E B2) as (s2 & t2 & -> & A2 & T2 & M2 & N2 & S2 & D2 & Q2). cbn [mbind res_bind]. exists s2, (t1 ++ t2). split; [done|].
    split_and!; try done; try congruence; [set_solver|..]; rewrite answered_app.
    + apply NoDup_app. split_and!; try done. intros q Hq1 Hq2. apply Q1 in Hq1. apply Q2 in Hq2. tauto.
    + intros q. rewrite elem_of_app, Q1, Q2. destruct (decide (q ∈ outstanding a1)) as [H|H]; [|set_solver].
      split; [|tauto]. intros [?|?]; [tauto|]. set_solver.
Qed.

Lemma run_callbacks_fails l cs s a a' :
  agree s a -> ares_callbacks a cs = Some a' -> existsb (closes_busy l) cs = true -> run_callbacks l s cs = Err AssertFailed.
Proof.
  revert s a. induction cs as [|c cs IH]; intros s a A E B; cbn in *; [done|].
  destruct (ares_callback a c) as [a1|] eqn:E1; cbn in E; [|done]. destruct (closes_busy l c) eqn:Bc.
  - by rewrite (run_callback_fails l s a c a1).
  - destruct (run_callback_ok l s a c a1 A E1 Bc) as (s1 & t1 & -> & A1 & _). cbn [mbind res_bind]. by rewrite (IH s1 a1).
Qed.

Record inv (s : t) (a : ares) (tr : list act) : Prop := {
  inv_agree : agree s a;
  inv_timers : timers s = if timerActive_ s then 1%nat else 0%nat;
  inv_waits : outstanding a <> ∅ -> timerActive_ s = true;
  inv_queries q : q ∈ outstanding a -> 0 <= q < nextQuery s;
  inv_next : 0 <= nextQuery s;
  inv_once : NoDup (answered tr);
  inv_answered q : q ∈ answered tr <-> 0 <= q < nextQuery s /\ q ∉ outstanding a;
}.

Lemma inv_trace (a a' : ares) tr s' acts :
  (forall q, q ∈ answered tr <-> 0 <= q < nextQuery s' /\ q ∉ outstanding a) -> (forall q, q ∈ outstanding a -> 0 <= q < nextQuery s') ->
  NoDup (answered tr) -> NoDup (answered acts) -> outstanding a' ⊆ outstanding a ->
  (forall q, q ∈ answered acts <-> q ∈ outstanding a /\ q ∉ outstanding a') ->
  NoDup (answered (tr ++ acts)) /\ forall q, q ∈ answered (tr ++ acts) <-> 0 <= q < nextQuery s' /\ q ∉ outstanding a'.
Proof.
  intros H1 H2 D1 D2 Hs Q. rewrite answered_app. split.
  - apply NoDup_app. split_and!; try done. intros q Hq1 Hq2. apply H1 in Hq1. apply Q in Hq2. tauto.
  - intros q. rewrite elem_of_app, H1, Q. destruct (decide (q ∈ outstanding a)) as [H|H].
    + specialize (H2 q H). tauto.
    + assert (q ∉ outstanding a') by set_solver. tauto.
Qed.

(** What is allowed succeeds, and keeps the invariant, unless it closes a socket
    that is busy. *)
Lemma agree_query s a : agree s a ->
  agree (mk (timerActive_ s) (channels_ s) ({[nextQuery s]} ∪ queries s) (nextQuery s + 1) (timers s)) (mk_ares (sockets a) ({[nextQuery s]} ∪ outstanding a)).
Proof. intros [C1 C2]. split; cbn; [done|by rewrite C2]. Qed.

Lemma resolver_step_fails s a tr e a' : inv s a tr -> allowed s a e a' -> busy_close e = true -> step s e = Err AssertFailed.
Proof.
  intros [A T _ _ _ _ _] Al B. destruct Al as [l cs tv a' E|fd others cs a' Hfd E|others cs tv a' Ht E Htv]; cbn in B |- *.
  - unfold resolve. by rewrite (run_callbacks_fails _ cs _ _ a' (agree_query s a A)).
  - unfold onRead. by rewrite (run_callbacks_fails _ cs s a a').
  - assert (Ea : timerActive_ s = true) by (rewrite T in Ht; by destruct (timerActive_ s)).
    unfold onTimer. rewrite assert_true by done. by rewrite (run_callbacks_fails _ cs _ a a').
Qed.

Lemma resolver_step_ok s a tr e a' : inv s a tr -> allowed s a e a' -> busy_close e = false -> exists s' acts, step s e = Ok (s', acts) /\ inv s' a' (tr ++ acts).
Proof.
  intros [A T Wt Q N D An] Al B. destruct Al as [l cs tv a' E|fd others cs a' Hfd E|others cs tv a' Ht E Htv]; cbn in B.
  - set (s1 := mk (timerActive_ s) (channels_ s) ({[nextQuery s]} ∪ queries s) (nextQuery s + 1) (timers s)).
    set (a1 := mk_ares (sockets a) ({[nextQuery s]} ∪ outstanding a)) in E.
    pose proof (agree_query s a A : agree s1 a1) as A1.
    destruct (run_callbacks_ok l cs s1 a1 a' A1 E B) as (s2 & acts & R & A2 & T2 & M2 & N2 & S2 & D2 & Q2).
    assert (An1 : forall q, q ∈ answered tr <-> 0 <= q < nextQuery s2 /\ q ∉ outstanding a1).
    { intros q. rewrite An, N2. cbn. rewrite not_elem_of_union, not_elem_of_singleton.
      split; [intros [? ?]|intros [? [? ?]]]; split_and!; try done; lia. }
    assert (Q1 : forall q, q ∈ outstanding a1 -> 0 <= q < nextQuery s2).
    { intros q. rewrite N2. cbn. rewrite elem_of_union, elem_of_singleton. intros [->|Hq%Q]; lia. }
    cbn [step]. unfold resolve. fold s1. rewrite R. cbn [mbind res_bind]. rewrite T2. change (timerActive_ s1) with (timerActive_ s).
    destruct (timerActive_ s) eqn:Ea; cbn [mbind res_bind]; eexists _, _; (split; [done|]).
    + destruct (inv_trace a1 a' tr s2 acts) as [D3 An3]; try done. split; try done; try (cbn in *; lia); try congruence.
      * rewrite M2, T2. exact T.
      * intros q Hq. apply Q1. set_solver.
    + destruct (inv_trace a1 a' tr (set_timer s2) (acts ++ [RunAfter (getSeconds tv)])) as [D3 An3]; try done.
      1,2: rewrite answered_app; cbn; by rewrite app_nil_r.
      split; try done; cbn; [by rewrite M2; cbn; rewrite T|intros q Hq; apply Q1; set_solver|rewrite N2; cbn; lia].
  - destruct (run_callbacks_ok _ cs s a a' A E B) as (s2 & acts & R & A2 & T2 & M2 & N2 & S2 & D2 & Q2).
    cbn [step]. unfold onRead. exists s2, acts. split; [done|]. rewrite <- N2 in Q, An, N.
    destruct (inv_trace a a' tr s2 acts) as [D3 An3]; try done. split; try done.
    + by rewrite M2, T2.
    + rewrite T2. intros Ho. apply Wt. set_solver.
    + intros q Hq. apply Q. set_solver.
  - assert (Ea : timerActive_ s = true) by (rewrite T in Ht; by destruct (timerActive_ s)). rewrite Ea in T.
    set (s1 := mk (timerActive_ s) (channels_ s) (queries s) (nextQuery s) (Nat.pred (timers s))).
    destruct (run_callbacks_ok (mk_loop others None) cs s1 a a' A E B) as (s2 & acts & R & A2 & T2 & M2 & N2 & S2 & D2 & Q2).
    cbn [step]. unfold onTimer. fold s1. rewrite assert_true by done. rewrite R. cbn [mbind res_bind].
    change (nextQuery s1) with (nextQuery s) in N2. rewrite <- N2 in Q, An, N. assert (M0 : timers s2 = 0%nat) by (rewrite M2; cbn; by rewrite T).
    destruct (getSeconds tv <? 0) eqn:Et; zbool; eexists _, _; (split; [done|]).
    + assert (tv = None) as -> by (destruct tv as [[sec usec]|]; [cbn in *; lia|done]).
      destruct (inv_trace a a' tr s2 acts) as [D3 An3]; try done. split; try done; cbn.
      intros q Hq. apply Q. set_solver.
    + destruct (inv_trace a a' tr (set_timer s2) (acts ++ [RunAfter (getSeconds tv)])) as [D3 An3]; try done.
      1,2: rewrite answered_app; cbn; by rewrite app_nil_r.
      split; try done; cbn; [by rewrite M0|intros q Hq; apply Q; set_solver].
Qed.

Lemma resolver_inv_new : inv new (mk_ares ∅ ∅) [].
Proof. split; try done; try set_solver; cbn; [constructor|]. intros q. rewrite elem_of_nil. split; [done|]. lia. Qed.

Lemma resolver_reachable_inv s a tr : reachable s a tr -> inv s a tr.
Proof.
  induction 1 as [|s a tr e a' s' acts R IH Al E]; [apply resolver_inv_new|].
  destruct (busy_close e) eqn:B; [by rewrite (resolver_step_fails s a tr e a' IH Al B) in E|].
  destruct (resolver_step_ok s a tr e a' IH Al B) as (s2 & acts2 & E2 & I2). rewrite E in E2. by injection E2 as <- <-.
Qed.


Definition sample_callbacks : list callback := [SockCreate 9 SOCK_DGRAM; SockState 9 true false].
Definition sample_state : t := mk true {[9]} ∅ 1 1.

(** A socket that c-ares closes while its own event is handled: the channel is
    destroyed inside its handler, whose destructor asserts that it is not. *)
Lemma close_in_own_event s fd others write :
  fd ∈ channels_ s -> step s (Readable fd others [SockState fd false write]) = Err AssertFailed.
Proof.
  intros Hin. cbn. unfold onSockStateChange. cbn. rewrite assert_true by (by apply bool_decide_eq_true).
  by rewrite (bool_decide_true (Some fd = Some fd)).
Qed.

End Cdns.
