(* ===== verification/Curl.v ===== *)
(** The HTTP client of the examples (src/networking-examples/curl/Curl.cpp): it
    drives libcurl from an event loop.

    libcurl is what it answers and the callbacks it makes; a transfer is known by
    its easy handle, a channel by its address.  What is done to channels and
    timers, and the calls of the user's callbacks, are actions. *)

From S2P Require Import Prelude.

Module Curl.

Definition CURL_POLL_NONE : Z := 0.
Definition CURL_POLL_IN : Z := 1.
Definition CURL_POLL_OUT : Z := 2.
Definition CURL_POLL_INOUT : Z := 3.
Definition CURL_POLL_REMOVE : Z := 4.
Definition CURLM_CALL_MULTI_PERFORM : Z := -1.

(** A channel and the events it is registered for. *)
Record channel := mk_channel { address : Z; fd_ : Z; reading : bool; writing : bool }.
Definition isNoneEvent (ch : channel) : bool := negb (reading ch) && negb (writing ch).

(** A request, of its easy handle: its channel, and which callbacks are set. *)
Record request := mk_request { channel_ : option channel; dataCb_ : bool; headerCb_ : bool; doneCb_ : bool }.

Inductive act :=
  | Enable (ch : Z) (read write : bool)              (* the channel's new interest *)
  | RemoveChannel (ch : Z)                           (* disableAll, remove, and kept by a pending functor *)
  | AssignSocket (sockfd : Z) (ch : option Z)         (* curl_multi_assign *)
  | RunAfter (ms : Z)
  | Data (c : Z) (d : list byte)
  | Header (c : Z) (d : list byte)
  | Done (c : Z) (code : Z).

Record t := mk {
  requests : gmap Z request;
  nextChannel : Z;
  runningHandles_ : Z;
  prevRunningHandles_ : Z;
}.
Definition new : t := mk ∅ 1 0 0.
Definition set_request (s : t) (c : Z) (r : request) : t :=
  mk (<[c := r]> (requests s)) (nextChannel s) (runningHandles_ s) (prevRunningHandles_ s).
Definition with_channel (r : request) (ch : option channel) : request := mk_request ch (dataCb_ r) (headerCb_ r) (doneCb_ r).

(** ** Requests *)
Definition getUrl (s : t) (c : Z) : t := set_request s c (mk_request None false false false).
Definition setCallbacks (r : request) (data header done : bool) : request := mk_request (channel_ r) data header done.
(** [~Request] *)
Definition destroy (s : t) (c : Z) : res t :=
  match requests s !! c with
  | Some r =>
      assert! match channel_ r with Some ch => isNoneEvent ch | None => true end;
      Ok (mk (delete c (requests s)) (nextChannel s) (runningHandles_ s) (prevRunningHandles_ s))
  | None => Err Undefined
  end.

(** [setChannel]: a new channel, not yet interested in anything. *)
Definition setChannel (s : t) (c : Z) (r : request) (sockfd : Z) : res (channel * request * t) :=
  assert! match channel_ r with None => true | Some _ => false end;
  let ch := mk_channel (nextChannel s) sockfd false false in
  Ok (ch, with_channel r (Some ch), mk (requests s) (nextChannel s + 1) (runningHandles_ s) (prevRunningHandles_ s)).
Definition removeChannel (r : request) : res (request * list act) :=
  match channel_ r with
  | Some ch => Ok (with_channel r None, [RemoveChannel (address ch)])
  | None => Err Undefined
  end.

Definition done (s : t) (c code : Z) : list act :=
  match requests s !! c with Some r => if doneCb_ r then [Done c code] else [] | None => [] end.
(** [writeData] and [headerData]: the bytes go to the callback, and libcurl is
    told that all were taken; the length given to the callback is an int. *)
Definition int_piece (buffer : list byte) (nmemb : Z) : list byte := slice buffer 0 (i32 nmemb).
Definition writeData (s : t) (c size nmemb : Z) (buffer : list byte) : res (Z * list act) :=
  assert! size =? 1;
  match requests s !! c with
  | Some r => Ok (nmemb, if dataCb_ r then [Data c (int_piece buffer nmemb)] else [])
  | None => Err Undefined
  end.
Definition headerData (s : t) (c size nmemb : Z) (buffer : list byte) : res (Z * list act) :=
  assert! size =? 1;
  match requests s !! c with
  | Some r => Ok (nmemb, if headerCb_ r then [Header c (int_piece buffer nmemb)] else [])
  | None => Err Undefined
  end.

(** ** Callbacks of the multi handle *)

(** The channel's address, as a pointer. *)
Definition getChannel (r : request) : option Z := address <$> channel_ r.
Definition update_writing (ch : channel) (on : bool) : channel := mk_channel (address ch) (fd_ ch) (reading ch) on.

(** [socketCallback]; [socketp] is what was assigned to the socket. *)
Definition socketCallback (s : t) (c sockfd what : Z) (socketp : option Z) : res (t * list act) :=
  if negb ((0 <=? what) && (what <=? 4)) then Err Undefined                     (* whatstr[what] *)
  else
    match requests s !! c with
    | None => Err Undefined
    | Some r =>
        if what =? CURL_POLL_REMOVE then
          assert! bool_decide (getChannel r = socketp);
          '(r, a) ← removeChannel r;
          Ok (set_request s c r, a ++ [AssignSocket sockfd None])
        else
          '(r, s, a) ←
            match socketp with
            | None =>
                '(ch, r, s) ← setChannel s c r sockfd;
                let ch := mk_channel (address ch) (fd_ ch) true (writing ch) in             (* enableReading *)
                Ok (with_channel r (Some ch), s, [Enable (address ch) true (writing ch); AssignSocket sockfd (Some (address ch))])
            | Some p => Ok (r, s, [])
            end;
          let ch_ := match socketp with None => getChannel r | p => p end in
          assert! bool_decide (getChannel r = ch_);
          match channel_ r with
          | Some ch =>
              let ch := update_writing ch (Z.testbit what 1) in
              Ok (set_request s c (with_channel r (Some ch)), a ++ [Enable (address ch) (reading ch) (writing ch)])
          | None => Err Undefined
          end
    end.

Definition timerCallback (ms : Z) : list act := [RunAfter (i32 ms)].

(** What curl_multi_socket_action answers: its code and the running handles.  The
    call is made again while it says so; [None] while it waits for an answer. *)
Fixpoint socket_action (s : t) (answers : list (Z * Z)) : option t :=
  match answers with
  | [] => None
  | (rc, running) :: answers =>
      let s := mk (requests s) (nextChannel s) running (prevRunningHandles_ s) in
      if rc =? CURLM_CALL_MULTI_PERFORM then socket_action s answers else Some s
  end.

(** [checkFinish]: [messages] are those that curl_multi_info_read has, as the
    handle, and its result when it is done; what is left of them. *)
Definition finish_one (s : t) (m : Z * option Z) : list act :=
  match m with (c, Some code) => done s c code | (_, None) => [] end.
Definition checkFinish (s : t) (messages : list (Z * option Z)) : t * list (Z * option Z) * list act :=
  let s' := mk (requests s) (nextChannel s) (runningHandles_ s) (runningHandles_ s) in
  if (runningHandles_ s <? prevRunningHandles_ s) || (runningHandles_ s =? 0)
  then (s', [], concat (map (finish_one s) messages))
  else (s', messages, []).

(** [onTimer], [onRead] and [onWrite] differ in what they ask libcurl to do. *)
Definition onEvent (s : t) (answers : list (Z * Z)) (messages : list (Z * option Z)) : option (t * list (Z * option Z) * list act) :=
  s ← socket_action s answers; Some (checkFinish s messages).

(** ** libcurl: the socket of each transfer, and what was assigned to it *)
Abbreviation sockets := (gmap Z (Z * option Z)).

Inductive event :=
  | GetUrl (c : Z)
  | Destroy (c : Z)
  | Socket (c sockfd what : Z).

Definition step (s : t) (m : sockets) (e : event) : res (t * list act) :=
  match e with
  | GetUrl c => Ok (getUrl s c, [])
  | Destroy c => s ← destroy s c; Ok (s, [])
  | Socket c sockfd what => socketCallback s c sockfd what (match m !! c with Some (_, p) => p | None => None end)
  end.

(** The assignments of a step. *)
Definition assigned (a : list act) : option (option Z) :=
  last (omap (fun x => match x with AssignSocket _ p => Some p | _ => None end) a).

(** What libcurl does: a new handle is new; a transfer has one socket at a time;
    it is told of its socket until it is removed; a request is destroyed when it
    has none. *)
Inductive allowed (s : t) (m : sockets) : event -> Prop :=
  | allow_get c : requests s !! c = None -> m !! c = None -> allowed s m (GetUrl c)
  | allow_destroy c : is_Some (requests s !! c) -> m !! c = None -> allowed s m (Destroy c)
  | allow_open c fd what : is_Some (requests s !! c) -> m !! c = None -> 0 <= what < 4 -> allowed s m (Socket c fd what)
  | allow_socket c fd p what : is_Some (requests s !! c) -> m !! c = Some (fd, p) -> 0 <= what <= 4 -> allowed s m (Socket c fd what).

(** libcurl's own table after an event. *)
Definition after (m : sockets) (e : event) (a : list act) : sockets :=
  match e with
  | Socket c fd what =>
      if what =? CURL_POLL_REMOVE then delete c m
      else <[c := (fd, match assigned a with Some p => p | None => match m !! c with Some (_, p) => p | None => None end end)]> m
  | _ => m
  end.

Inductive reachable : t -> sockets -> Prop :=
  | reach_new : reachable new ∅
  | reach_step s m e s' a : reachable s m -> allowed s m e -> step s m e = Ok (s', a) -> reachable s' (after m e a).

(** ** What follows *)

(** libcurl's view of a request. *)
Definition socket_of (r : request) : option (Z * option Z) := (fun ch => (fd_ ch, Some (address ch))) <$> channel_ r.

Record inv (s : t) (m : sockets) : Prop := {
  inv_sockets c : m !! c = requests s !! c ≫= socket_of;
  inv_reading c r ch : requests s !! c = Some r -> channel_ r = Some ch -> reading ch = true;
}.

(** The request of [c] is replaced. *)
Lemma inv_update s m c r n : inv s m -> (forall ch, channel_ r = Some ch -> reading ch = true) ->
  inv (mk (<[c := r]> (requests s)) n (runningHandles_ s) (prevRunningHandles_ s))
      (match socket_of r with Some x => <[c := x]> m | None => delete c m end).
Proof.
  intros [S R] Hr. split; cbn.
  - intros c'. destruct (decide (c = c')) as [<-|Hne].
    + rewrite lookup_insert_eq. cbn. destruct (socket_of r); [apply lookup_insert_eq|apply lookup_delete_eq].
    + rewrite lookup_insert_ne by done. rewrite <- S. destruct (socket_of r); [by apply lookup_insert_ne|by apply lookup_delete_ne].
  - intros c' r' ch. rewrite lookup_insert. destruct (decide _); [intros [= <-]; apply Hr|apply R].
Qed.

(** What a transfer's channel is after libcurl has told its wish. *)
Definition obeys (s : t) (e : event) : Prop :=
  match e with
  | Socket c fd what =>
      exists r, requests s !! c = Some r /\
        if what =? CURL_POLL_REMOVE then channel_ r = None
        else exists ch, channel_ r = Some ch /\ fd_ ch = fd /\ reading ch = true /\ writing ch = Z.testbit what 1
  | GetUrl c => exists r, requests s !! c = Some r /\ channel_ r = None
  | Destroy c => requests s !! c = None
  end.

Lemma open_ok s m c fd what r : inv s m -> requests s !! c = Some r -> m !! c = None -> 0 <= what < 4 ->
  exists s' a, step s m (Socket c fd what) = Ok (s', a) /\ inv s' (after m (Socket c fd what) a) /\ obeys s' (Socket c fd what).
Proof.
  intros I Hr Hm Hw. pose proof I as [S R]. specialize (S c). rewrite Hr, Hm in S. cbn in S. unfold socket_of in S.
  destruct (channel_ r) as [|] eqn:Hc; [done|]. assert (E4 : (what =? CURL_POLL_REMOVE) = false) by (unfold CURL_POLL_REMOVE; zbool; lia).
  unfold step. rewrite Hm. unfold socketCallback. rewrite (proj2 (Z.leb_le 0 what)), (proj2 (Z.leb_le what 4)) by lia. cbn [andb negb]. rewrite Hr, E4.
  unfold setChannel. rewrite Hc. cbn [assert_ mbind res_bind channel_ with_channel getChannel address fd_ reading writing].
  rewrite assert_true by (by apply bool_decide_eq_true). cbn -[Z.testbit]. eexists _, _. split; [done|]. split.
  - rewrite E4. cbn -[Z.testbit]. apply (inv_update s m c (mk_request (Some (mk_channel (nextChannel s) fd true (Z.testbit what 1))) (dataCb_ r) (headerCb_ r) (doneCb_ r)) (nextChannel s + 1) I).
    by intros ch [= <-].
  - eexists. cbn -[Z.testbit]. rewrite lookup_insert_eq. split; [done|]. rewrite E4. cbn -[Z.testbit]. by eexists.
Qed.

Lemma socket_ok s m c fd p what r : inv s m -> requests s !! c = Some r -> m !! c = Some (fd, p) -> 0 <= what <= 4 ->
  exists s' a, step s m (Socket c fd what) = Ok (s', a) /\ inv s' (after m (Socket c fd what) a) /\ obeys s' (Socket c fd what).
Proof.
  intros I Hr Hm Hw. pose proof I as [S R]. specialize (S c). rewrite Hr, Hm in S. cbn in S. unfold socket_of in S.
  destruct (channel_ r) as [ch|] eqn:Hc; [|done]. injection S as -> ->. pose proof (R c r ch Hr Hc) as Hread.
  unfold step. rewrite Hm. unfold socketCallback. rewrite (proj2 (Z.leb_le 0 what)), (proj2 (Z.leb_le what 4)) by lia. cbn [andb negb]. rewrite Hr.
  destruct (what =? CURL_POLL_REMOVE) eqn:E4.
  - unfold getChannel, removeChannel. rewrite Hc. cbn -[Z.testbit]. rewrite bool_decide_true by done. cbn -[Z.testbit]. eexists _, _. split; [done|]. split.
    + rewrite E4. by apply (inv_update s m c (with_channel r None) _ I).
    + eexists. cbn -[Z.testbit]. rewrite lookup_insert_eq. split; [done|]. by rewrite E4.
  - cbn [mbind res_bind]. unfold getChannel. rewrite Hc. cbn -[Z.testbit]. rewrite bool_decide_true by done. cbn -[Z.testbit]. eexists _, _. split; [done|]. split.
    + rewrite E4. cbn -[Z.testbit]. rewrite Hm. apply (inv_update s m c (with_channel r (Some (update_writing ch (Z.testbit what 1)))) _ I). cbn -[Z.testbit]. by intros ch' [= <-].
    + eexists. cbn -[Z.testbit]. rewrite lookup_insert_eq. split; [done|]. rewrite E4. cbn -[Z.testbit]. by eexists.
Qed.

Lemma curl_step_ok s m e : inv s m -> allowed s m e -> exists s' a, step s m e = Ok (s', a) /\ inv s' (after m e a) /\ obeys s' e.
Proof.
  intros I Al. pose proof I as [S R]. destruct Al as [c Hr Hm|c [r Hr] Hm|c fd what [r Hr] Hm Hw|c fd p what [r Hr] Hm Hw].
  - cbn. eexists _, _. split; [done|]. split.
    + pose proof (inv_update s m c (mk_request None false false false) (nextChannel s) I ltac:(done)) as I'. cbn in I'. by rewrite delete_id in I'.
    + eexists. cbn. by rewrite lookup_insert_eq.
  - specialize (S c). rewrite Hr, Hm in S. cbn in S. unfold socket_of in S. destruct (channel_ r) as [|] eqn:Hc; [done|].
    cbn. unfold destroy. rewrite Hr, Hc. cbn. eexists _, _. split; [done|]. destruct I as [S' R']. split; [|apply lookup_delete_eq].
    split; cbn.
    + intros c'. rewrite lookup_delete. destruct (decide _) as [<-|]; [by rewrite Hm|apply S'].
    + intros c' r' ch. rewrite lookup_delete. destruct (decide _); [done|apply R'].
  - by apply (open_ok s m c fd what r).
  - by apply (socket_ok s m c fd p what r).
Qed.

Lemma curl_reachable_inv s m : reachable s m -> inv s m.
Proof.
  induction 1 as [|s m e s' a R IH Al E].
  - split; cbn; intros c; rewrite ?lookup_empty; done.
  - destruct (curl_step_ok s m e IH Al) as (s2 & a2 & E2 & I2 & _). rewrite E in E2. by injection E2 as <- <-.
Qed.

(** Once nothing runs, no message is left, and every transfer that is done has had
    its callback. *)
Lemma finish_delivers s answers messages s' rest acts :
  onEvent s answers messages = Some (s', rest, acts) -> runningHandles_ s' = 0 ->
  rest = [] /\ forall c code, (c, Some code) ∈ messages -> (exists r, requests s !! c = Some r /\ doneCb_ r = true) -> Done c code ∈ acts.
Proof.
  unfold onEvent. destruct (socket_action s answers) as [s1|] eqn:E; cbn; [|done]. unfold checkFinish. intros [= E'] H0.
  assert (Er : requests s1 = requests s).
  { clear -E. revert s E. induction answers as [|[rc n] answers IH]; intros s E; cbn in E; [done|]. destruct (rc =? _); [|by injection E as <-]. by apply IH in E. }
  assert (H1 : runningHandles_ s1 = 0) by (by destruct (_ || _); injection E' as <- _ _). rewrite H1 in E'. rewrite orb_true_r in E'. injection E' as <- <- <-.
  split; [done|]. intros c code Hin (r & Hr & Hd). rewrite list_elem_of_In, in_concat. exists (finish_one s1 (c, Some code)). split.
  - apply in_map. by apply list_elem_of_In.
  - cbn. unfold done. rewrite Er, Hr, Hd. by left.
Qed.

(** The client drives libcurl safely.  In every state that is reached with
    libcurl giving each transfer one socket at a time, whatever it does next runs
    without a failed assertion: a new socket gets a channel, assigned to it and
    reading; the channel writes exactly when libcurl last asked for it; a removed
    socket takes its channel away; and so a request has a channel exactly while
    its transfer has a socket, and can be destroyed when it has not. *)
Theorem curl_safe s m :
  reachable s m ->
  (forall e, allowed s m e -> exists s' a, step s m e = Ok (s', a) /\ obeys s' e) /\
  (forall c r, requests s !! c = Some r -> m !! c = socket_of r) /\
  (forall c, is_Some (m !! c) -> is_Some (requests s !! c)).
Proof.
  intros R. pose proof (curl_reachable_inv s m R) as I. pose proof I as [S _]. split_and!.
  - intros e Al. destruct (curl_step_ok s m e I Al) as (s' & a & E & _ & O). by exists s', a.
  - intros c r Hr. by rewrite S, Hr.
  - intros c. rewrite S. destruct (requests s !! c); [done|]. by intros [].
Qed.

Definition sample : t := mk {[1 := mk_request (Some (mk_channel 1 8 true true)) false false false]} 2 0 0.
Lemma curl_safe_witness :
  reachable sample {[1 := (8, Some 1)]} /\
  (exists s' a, step sample {[1 := (8, Some 1)]} (Socket 1 8 CURL_POLL_REMOVE) = Ok (s', a) /\ obeys s' (Socket 1 8 CURL_POLL_REMOVE)).
Proof.
  assert (R : reachable sample {[1 := (8, Some 1)]}).
  { apply (reach_step (getUrl new 1) ∅ (Socket 1 8 CURL_POLL_INOUT) sample
             [Enable 1 true false; AssignSocket 8 (Some 1); Enable 1 true true]).
    - apply (reach_step new ∅ (GetUrl 1) (getUrl new 1) []); [constructor|by apply allow_get|reflexivity].
    - apply allow_open; [by eexists|reflexivity|unfold CURL_POLL_INOUT; lia].
    - reflexivity. }
  split; [exact R|]. destruct (curl_safe _ _ R) as [H _]. apply H. eapply allow_socket; [by eexists|reflexivity|unfold CURL_POLL_REMOVE; lia].
Defined.

(** A transfer to which libcurl gives a second socket, as it does when it tries
    two addresses at once. *)
Example second_socket_asserts : socketCallback sample 1 9 CURL_POLL_OUT None = Err AssertFailed.
Proof. reflexivity. Qed.

End Curl.
