(* ===== verification/Download.v ===== *)
(** The parallel download (src/networking-examples/curl/download.cpp): the headers
    say how long the resource is, and four requests fetch a range of it each.

    The transfers are libcurl's (see [Curl]); here they are the callbacks the
    program gets, and a file is what was written to it. *)

From S2P Require Import Prelude Printf CString.

Module Download.

Definition kConcurrent : Z := 4.

Definition startWith (str prefix : list byte) : bool := prefixb prefix str.

(** A piece: its range, its file, and whether its request is still there. *)
Record piece := mk_piece { range_ : list byte; out_ : list byte; open : bool }.

Record t := mk {
  found_ : bool;
  acceptRanges_ : bool;
  length_ : Z;
  pieces_ : list (option piece);
  concurrent_ : Z;
  quit : bool;                                   (* loop_->quit() was called *)
}.
Definition new : t := mk false false 0 (replicate (Z.to_nat kConcurrent) None) 0 false.

Definition onHeader (s : t) (line : list byte) : t :=
  let found := found_ s || (startWith line (bs "HTTP/1.1 200") || startWith line (bs "HTTP/1.0 200")) in
  if bool_decide (line = bs "Accept-Ranges: bytes" ++ [x0d; x0a])
  then mk found true (length_ s) (pieces_ s) (concurrent_ s) (quit s)
  else if startWith line (bs "Content-Length:")
  then mk found (acceptRanges_ s) (CString.atoll (CString.c_str (drop (length (bs "Content-Length:")) line))) (pieces_ s) (concurrent_ s) (quit s)
  else mk found (acceptRanges_ s) (length_ s) (pieces_ s) (concurrent_ s) (quit s).

(** The range of the [i]-th piece, its ends included. *)
Definition range (length i : Z) : Z * Z :=
  let pieceLen := i64 (length `quot` kConcurrent) in
  if i <? kConcurrent - 1 then (i64 (i * pieceLen), i64 ((i + 1) * pieceLen - 1)) else (i64 (i * pieceLen), i64 (length - 1)).
Definition range_text (r : Z * Z) : list byte := dec r.1 ++ bs "-" ++ dec r.2.

(** One turn of the loop of [concurrentDownload]; [opened] is whether fopen
    could create the output file. *)
Definition start_piece (s : t) (i : nat) (opened : bool) : t :=
  if opened then
    mk (found_ s) (acceptRanges_ s) (length_ s)
       (<[i := Some (mk_piece (range_text (range (length_ s) (Z.of_nat i))) [] true)]> (pieces_ s)) (concurrent_ s) (quit s)
  else mk (found_ s) (acceptRanges_ s) (length_ s) (pieces_ s) (concurrent_ s) true.
Fixpoint start_pieces (s : t) (i : nat) (opened : list bool) : t :=
  match opened with [] => s | o :: opened => start_pieces (start_piece s i o) (S i) opened end.

(** [onHeaderDone]; [fopens] are the four answers of fopen. *)
Definition onHeaderDone (s : t) (fopens : list bool) : t :=
  if acceptRanges_ s && (kConcurrent * 4096 <=? length_ s) then
    start_pieces (mk (found_ s) (acceptRanges_ s) (length_ s) (pieces_ s) kConcurrent (quit s)) 0 fopens
  else s.

Definition onDownloadDone (s : t) : t :=
  let c := i32 (concurrent_ s - 1) in
  mk (found_ s) (acceptRanges_ s) (length_ s) (pieces_ s) c (quit s || (c <=? 0)).

Inductive event := Data (i : nat) (d : list byte) | Done (i : nat).

(** [Piece::onData] and [Piece::onDone]; the file is gone after the latter. *)
Definition onData (p : piece) (d : list byte) : res piece :=
  if open p then Ok (mk_piece (range_ p) (out_ p ++ d) true) else Err Undefined.
Definition onDone (p : piece) : piece := mk_piece (range_ p) (out_ p) false.

Definition set_piece (s : t) (i : nat) (p : piece) : t :=
  mk (found_ s) (acceptRanges_ s) (length_ s) (<[i := Some p]> (pieces_ s)) (concurrent_ s) (quit s).
Definition step (s : t) (e : event) : res t :=
  match e with
  | Data i d => match pieces_ s !! i with Some (Some p) => p ← onData p d; Ok (set_piece s i p) | _ => Err Undefined end
  | Done i => match pieces_ s !! i with Some (Some p) => Ok (onDownloadDone (set_piece s i (onDone p))) | _ => Err Undefined end
  end.
Fixpoint run (s : t) (es : list event) : res t :=
  match es with [] => Ok s | e :: es => s ← step s e; run s es end.

(** ** The ranges *)

Lemma range_bounds n i : 0 <= n < 2 ^ 63 -> 0 <= i < 4 ->
  range n i = (i * (n / 4), if i <? 3 then (i + 1) * (n / 4) - 1 else n - 1).
Proof.
  intros Hn Hi. unfold range, kConcurrent. rewrite Z.quot_div_nonneg by lia.
  pose proof (Z.div_mod n 4 ltac:(lia)). pose proof (Z.mod_pos_bound n 4 ltac:(lia)).
  rewrite (swrap_small 64 (n / 4)) by lia. change (4 - 1) with 3. destruct (i <? 3) eqn:E; zbool; rewrite !swrap_small by nia; done.
Qed.

(** The bytes of a range. *)
Definition part (body : list byte) (r : Z * Z) : list byte := slice body r.1 (r.2 - r.1 + 1).

Lemma parts_whole body : zlen body < 2 ^ 63 ->
  concat (map (fun i => part body (range (zlen body) i)) [0; 1; 2; 3]) = body.
Proof.
  intros Hz. pose proof (zlen_nonneg body) as Hn. pose proof (Z.div_mod (zlen body) 4 ltac:(lia)). pose proof (Z.mod_pos_bound (zlen body) 4 ltac:(lia)).
  set (q := zlen body / 4) in *. cbn [map concat]. rewrite !range_bounds by lia. fold q. unfold part. cbn [fst snd].
  change (0 <? 3) with true. change (1 <? 3) with true. change (2 <? 3) with true. change (3 <? 3) with false. cbn iota. rewrite app_nil_r.
  replace (0 * q) with 0 by lia. replace (1 * q) with (0 + q) by lia. replace ((0 + 1) * q - 1 - 0 + 1) with q by lia.
  replace ((1 + 1) * q - 1 - (0 + q) + 1) with q by lia. replace (2 * q) with (0 + (q + q)) by lia. replace ((2 + 1) * q - 1 - (0 + (q + q)) + 1) with q by lia.
  replace (3 * q) with (0 + (q + (q + q))) by lia. remember (zlen body - 1 - (0 + (q + (q + q))) + 1) as r eqn:Er.
  rewrite <- (slice_all body) at 5. replace (zlen body) with (q + (q + (q + r))) by lia.
  rewrite !slice_app by lia. by rewrite !Z.add_assoc.
Qed.

(** ** The headers *)

Definition accept_line : list byte := bs "Accept-Ranges: bytes" ++ [x0d; x0a].
Definition length_line (n : Z) : list byte := bs "Content-Length:" ++ [space] ++ dec n ++ [x0d; x0a].
Definition is_length (line : list byte) : bool := startWith line (bs "Content-Length:").
Definition headers (s : t) (lines : list (list byte)) : t := foldl onHeader s lines.

(** Headers change neither the pieces nor what is left to do. *)
Definition same_work (s s' : t) : Prop := pieces_ s' = pieces_ s /\ concurrent_ s' = concurrent_ s /\ quit s' = quit s.

Lemma onHeader_other s line : is_length line = false ->
  same_work s (onHeader s line) /\ length_ (onHeader s line) = length_ s /\
  acceptRanges_ (onHeader s line) = acceptRanges_ s || bool_decide (line = accept_line).
Proof.
  intros Hl. unfold onHeader, is_length in *. fold accept_line. rewrite Hl. destruct (bool_decide (line = accept_line)); cbn; by rewrite ?orb_true_r, ?orb_false_r.
Qed.

Lemma onHeader_length s n : 0 <= n < 2 ^ 63 ->
  same_work s (onHeader s (length_line n)) /\ length_ (onHeader s (length_line n)) = n /\ acceptRanges_ (onHeader s (length_line n)) = acceptRanges_ s.
Proof.
  intros Hn. unfold onHeader. rewrite bool_decide_false by (intros E; by apply (f_equal (fun l => l !! 0%nat)) in E).
  assert (startWith (length_line n) (bs "Content-Length:") = true) as -> by apply prefixb_app. cbn [length_ acceptRanges_]. split; [done|]. split; [|done].
  unfold length_line. rewrite drop_app_length. unfold CString.atoll, CString.atol.
  replace (CString.c_str ([space] ++ dec n ++ [x0d; x0a])) with ([space] ++ dec n ++ [x0d; x0a]).
  - apply CString.strtol_dec; [by repeat constructor|unfold CString.long_max; lia|reflexivity].
  - rewrite <- (app_nil_r ([space] ++ _)) at 2. rewrite CString.c_str_app; [by rewrite app_nil_r|].
    rewrite !elem_of_app. intros [?|[?|?]]; [set_solver|by eapply CString.dec_bytes; [| |done]; [lia|done]|set_solver].
Qed.

Lemma headers_other s lines : Forall (fun l => is_length l = false) lines ->
  same_work s (headers s lines) /\ length_ (headers s lines) = length_ s /\
  acceptRanges_ (headers s lines) = acceptRanges_ s || bool_decide (accept_line ∈ lines).
Proof.
  intros Hl. revert s. induction Hl as [|l lines Hl Hls IH]; intros s; cbn.
  - rewrite (bool_decide_false (accept_line ∈ [])) by (by intros ?%elem_of_nil). by rewrite orb_false_r.
  - destruct (onHeader_other s l Hl) as ((A1 & A2 & A3) & A4 & A5). destruct (IH (onHeader s l)) as ((B1 & B2 & B3) & B4 & B5).
    unfold headers in *. split; [split_and!; congruence|]. split; [congruence|]. rewrite B5, A5, <- orb_assoc. f_equal.
    destruct (decide (l = accept_line)) as [->|Hne].
    + rewrite (bool_decide_true (accept_line = accept_line)), (bool_decide_true (accept_line ∈ accept_line :: lines)) by (done || by left). done.
    + rewrite (bool_decide_false (l = accept_line)) by done. apply bool_decide_ext. rewrite elem_of_cons. split; [by right|]. intros [E|?]; [by symmetry in E|done].
Qed.

Lemma headers_found pre n post :
  Forall (fun l => is_length l = false) (pre ++ post) -> accept_line ∈ pre ++ post -> 0 <= n < 2 ^ 63 ->
  let s := headers new (pre ++ [length_line n] ++ post) in same_work new s /\ length_ s = n /\ acceptRanges_ s = true.
Proof.
  intros [H1 H2]%Forall_app Ha Hn. unfold headers. rewrite !foldl_app. cbn [foldl].
  destruct (headers_other new pre H1) as ((A1 & A2 & A3) & A4 & A5). destruct (onHeader_length (headers new pre) n Hn) as ((B1 & B2 & B3) & B4 & B5).
  destruct (headers_other (onHeader (headers new pre) (length_line n)) post H2) as ((C1 & C2 & C3) & C4 & C5). unfold headers in *.
  split; [split_and!; congruence|]. split; [congruence|]. rewrite C5, B5, A5. cbn [new acceptRanges_ orb].
  apply elem_of_app in Ha as [Ha|Ha]; [by rewrite (bool_decide_true (accept_line ∈ pre))|].
  rewrite (bool_decide_true (accept_line ∈ post)) by done. by rewrite orb_true_r.
Qed.

(** ** The transfers *)

Definition index (e : event) : nat := match e with Data i _ | Done i => i end.
Definition about (i : nat) (e : event) : Prop := index e = i.
#[global] Instance about_dec i e : Decision (about i e).
Proof. unfold about. apply _. Defined.
#[global] Typeclasses Opaque about.
Definition is_done (e : event) : bool := match e with Done _ => true | Data _ _ => false end.
Definition dones (es : list event) : nat := length (filter (fun e => is_done e = true) es).

(** What a piece still has coming: some data, then that it is done. *)
Definition coming (p : option (option piece)) (i : nat) (es : list event) (d : list byte) : Prop :=
  match p with
  | Some (Some p) =>
      if open p then exists cs, filter (about i) es = map (Data i) cs ++ [Done i] /\ concat cs = d
      else filter (about i) es = [] /\ d = []
  | _ => filter (about i) es = [] /\ d = []
  end.
Definition finished (p : piece) (d : list byte) : piece := mk_piece (range_ p) (out_ p ++ d) false.

Lemma filter_about i e es : filter (about i) (e :: es) = if decide (index e = i) then e :: filter (about i) es else filter (about i) es.
Proof. rewrite filter_cons. unfold about at 2. by destruct (decide _), (decide (index e = i)). Qed.

Lemma step_other s e s' i : step s e = Ok s' -> i <> index e -> pieces_ s' !! i = pieces_ s !! i.
Proof.
  destruct e as [j d|j]; cbn; destruct (pieces_ s !! j) as [[p|]|] eqn:Ep; try done.
  - unfold onData. destruct (open p); [|done]. intros [= <-] Hi. cbn. by apply list_lookup_insert_ne.
  - intros [= <-] Hi. cbn. by apply list_lookup_insert_ne.
Qed.

(** One event: the piece it is about is open, and goes on. *)
Lemma step_coming s e es (ds : nat -> list byte) :
  (forall i, coming (pieces_ s !! i) i (e :: es) (ds i)) ->
  exists s' (ds' : nat -> list byte), step s e = Ok s' /\ (forall i, coming (pieces_ s' !! i) i es (ds' i)) /\
    (forall i p, pieces_ s !! i = Some (Some p) -> exists p', pieces_ s' !! i = Some (Some p') /\ finished p' (ds' i) = finished p (ds i)) /\
    concurrent_ s' = (if is_done e then i32 (concurrent_ s - 1) else concurrent_ s) /\
    quit s' = (quit s || (is_done e && (concurrent_ s' <=? 0))) /\ length_ s' = length_ s.
Proof.
  intros H. pose proof (H (index e)) as He. unfold coming in He. rewrite filter_about, decide_True in He by done.
  destruct (pieces_ s !! index e) as [[p|]|] eqn:Ep; [|by destruct He..]. destruct (open p) eqn:Eo; [|by destruct He]. destruct He as (cs & Ef & Ec).
  assert (Hlen : (index e < length (pieces_ s))%nat) by (by eapply lookup_lt_Some).
  assert (Hother : forall i, i <> index e -> filter (about i) (e :: es) = filter (about i) es) by (intros i Hi; by rewrite filter_about, decide_False).
  destruct e as [j d|j]; cbn [index is_done] in *; destruct cs as [|c cs]; cbn [map app] in Ef; try discriminate Ef; injection Ef as Ef.
  - subst c. eexists _, (fun i => if decide (i = j) then concat cs else ds i). cbn [step]. rewrite Ep. unfold onData. rewrite Eo. cbn [mbind res_bind]. split; [done|].
    split_and!; try done; cbn; [..|by rewrite orb_false_r].
    + intros i. destruct (decide (i = j)) as [->|Hi]; [rewrite list_lookup_insert_eq by done; cbn; by exists cs|].
      rewrite list_lookup_insert_ne by done. specialize (H i). unfold coming in *. by rewrite Hother in H.
    + intros i q Hq. destruct (decide (i = j)) as [->|Hi].
      * rewrite list_lookup_insert_eq by done. rewrite Ep in Hq. injection Hq as <-. eexists. split; [done|]. unfold finished; cbn. by rewrite <- Ec, <- app_assoc.
      * rewrite list_lookup_insert_ne by done. by eexists.
  - eexists _, (fun i => if decide (i = j) then [] else ds i). cbn [step]. rewrite Ep. split; [done|].
    split_and!; try done; cbn.
    + intros i. destruct (decide (i = j)) as [->|Hi]; [by rewrite list_lookup_insert_eq|].
      rewrite list_lookup_insert_ne by done. specialize (H i). unfold coming in *. by rewrite Hother in H.
    + intros i q Hq. destruct (decide (i = j)) as [->|Hi].
      * rewrite list_lookup_insert_eq by done. rewrite Ep in Hq. injection Hq as <-. eexists. split; [done|]. unfold finished; cbn. cbn in Ec. by rewrite <- Ec.
      * rewrite list_lookup_insert_ne by done. by eexists.
Qed.

(** How a run ends, and that the loop is told to quit exactly with the last of
    the pieces. *)
Lemma dones_cons e es : dones (e :: es) = ((if is_done e then 1 else 0) + dones es)%nat.
Proof. unfold dones. rewrite filter_cons. by destruct e. Qed.

Lemma run_coming es s (ds : nat -> list byte) :
  (forall i, coming (pieces_ s !! i) i es (ds i)) -> concurrent_ s = Z.of_nat (dones es) -> (dones es <= 4)%nat ->
  exists s', run s es = Ok s' /\
    (forall i p, pieces_ s !! i = Some (Some p) -> exists p', pieces_ s' !! i = Some (Some p') /\ finished p' [] = finished p (ds i)) /\
    concurrent_ s' = 0 /\ quit s' = quit s || bool_decide (0 < dones es)%nat /\ length_ s' = length_ s.
Proof.
  revert s ds. induction es as [|e es IH]; intros s ds H Hc Hd.
  - exists s. cbn in *. split_and!; try done; [|by rewrite orb_false_r]. intros i p Hp. exists p. split; [done|]. specialize (H i). unfold coming in H. rewrite Hp in H.
    destruct (open p); [destruct H as (cs & E & _); by destruct cs|]. by destruct H as [_ ->].
  - destruct (step_coming s e es ds H) as (s1 & ds1 & E1 & H1 & P1 & C1 & Q1 & L1). rewrite dones_cons in Hc, Hd.
    assert (Hc1 : concurrent_ s1 = Z.of_nat (dones es)). { rewrite C1, Hc. destruct (is_done e); [rewrite swrap_small by lia|]; lia. }
    destruct (IH s1 ds1 H1 Hc1) as (s2 & E2 & P2 & C2 & Q2 & L2); [lia|]. exists s2. cbn [run]. rewrite E1. cbn [mbind res_bind]. split; [done|]. split_and!; try done; try congruence.
    + intros i p Hp. destruct (P1 i p Hp) as (p1 & Hp1 & F1). destruct (P2 i p1 Hp1) as (p2 & Hp2 & F2). exists p2. split; [done|]. congruence.
    + rewrite Q2, Q1, Hc1, dones_cons, <- orb_assoc. f_equal. destruct (is_done e); cbn.
      * rewrite (bool_decide_true (0 < S _)%nat) by lia. destruct (dones es); [done|]. by rewrite (bool_decide_true (0 < S _)%nat), orb_true_r by lia.
      * done.
Qed.

Lemma run_length s es s' : run s es = Ok s' -> length (pieces_ s) = length (pieces_ s').
Proof.
  revert s. induction es as [|e es IH]; intros s; cbn; [by intros [= <-]|]. destruct (step s e) as [s1|] eqn:E; cbn; [|done]. intros R. rewrite <- (IH s1 R).
  destruct e as [j d|j]; cbn in E; destruct (pieces_ s !! j) as [[p|]|]; try done; [unfold onData in E; destruct (open p); [|done]|];
    injection E as <-; cbn; by rewrite length_insert.
Qed.

(** As long as a piece is to come, the loop is not told to quit. *)
Lemma run_early es1 es2 s s1 (ds : nat -> list byte) :
  (forall i, coming (pieces_ s !! i) i (es1 ++ es2) (ds i)) -> concurrent_ s = Z.of_nat (dones (es1 ++ es2)) -> (dones (es1 ++ es2) <= 4)%nat ->
  (0 < dones es2)%nat -> run s es1 = Ok s1 -> quit s1 = quit s.
Proof.
  revert s ds. induction es1 as [|e es1 IH]; intros s ds H Hc Hd H2; cbn [run app] in *; [by intros [= <-]|].
  destruct (step_coming s e (es1 ++ es2) ds H) as (s2 & ds1 & -> & H1 & _ & C1 & Q1 & _). cbn [mbind res_bind]. intros R. rewrite dones_cons in Hc, Hd.
  assert (Hc1 : concurrent_ s2 = Z.of_nat (dones (es1 ++ es2))). { rewrite C1, Hc. destruct (is_done e); [rewrite swrap_small by lia|]; lia. }
  rewrite (IH s2 ds1 H1 Hc1 ltac:(lia) H2 R), Q1. assert ((concurrent_ s2 <=? 0) = false) as ->; [|by rewrite andb_false_r, orb_false_r].
  rewrite Hc1. unfold dones. rewrite filter_app, length_app. unfold dones in H2. zbool. lia.
Qed.

(** *** The four pieces *)

Lemma dones_split es : Forall (fun e => index e < 4)%nat es ->
  dones es = (dones (filter (about 0) es) + dones (filter (about 1) es) + dones (filter (about 2) es) + dones (filter (about 3) es))%nat.
Proof.
  induction 1 as [|e es He Hes IH]; [done|]. rewrite dones_cons, !filter_about, IH.
  destruct (index e) as [|[|[|[|k]]]]; [..|lia];
    repeat (destruct (decide (_ = _)); try lia); rewrite dones_cons; lia.
Qed.

Lemma dones_piece i cs : dones (map (Data i) cs ++ [Done i]) = 1%nat.
Proof. induction cs as [|c cs IH]; [done|]. cbn [map app]. rewrite dones_cons. by rewrite IH. Qed.

(** The state in which the four transfers start. *)
Definition started (s : t) (n : Z) : Prop :=
  length_ s = n /\ concurrent_ s = 4 /\ quit s = false /\
  pieces_ s = map (fun i => Some (mk_piece (range_text (range n i)) [] true)) [0; 1; 2; 3].

Lemma header_done_starts s n : same_work new s -> length_ s = n -> acceptRanges_ s = true -> 16384 <= n ->
  started (onHeaderDone s [true; true; true; true]) n.
Proof.
  intros (P & C & Q) L A Hn. unfold onHeaderDone, kConcurrent. rewrite A, L. rewrite (proj2 (Z.leb_le _ n)) by lia. cbn [andb].
  unfold started. cbn. rewrite P, Q. by rewrite ?L.
Qed.

(** C27: a parallel download is complete.  If the headers accept ranges and give a
    length of at least 16384, in any order and among any other headers, the
    four requests ask for ranges that follow each other without gap or overlap
    from the first byte to the last; if each is answered with the bytes of its
    range, in any pieces and however the four interleave, then the four files
    one after the other are the resource, byte for byte, and the loop is told to
    quit when the last piece is done, and not before. *)
Theorem download_complete pre post body es (chunks : nat -> list (list byte)) :
  Forall (fun l => is_length l = false) (pre ++ post) -> accept_line ∈ pre ++ post -> 16384 <= zlen body < 2 ^ 63 ->
  (forall i, (i < 4)%nat -> filter (about i) es = map (Data i) (chunks i) ++ [Done i] /\ concat (chunks i) = part body (range (zlen body) (Z.of_nat i))) ->
  Forall (fun e => index e < 4)%nat es ->
  let s := onHeaderDone (headers new (pre ++ [length_line (zlen body)] ++ post)) [true; true; true; true] in
  map (fmap range_) (pieces_ s) = map (fun i => Some (range_text (range (zlen body) i))) [0; 1; 2; 3] /\
  exists s', run s es = Ok s' /\ concat (map (fun p => default [] (out_ <$> p)) (pieces_ s')) = body /\ quit s' = true /\
    forall es1 es2 s1, es = es1 ++ es2 -> (0 < dones es2)%nat -> run s es1 = Ok s1 -> quit s1 = false.
Proof.
  intros Hl Ha Hn Hch Hidx s. destruct (headers_found pre (zlen body) post Hl Ha ltac:(lia)) as (W & L & A).
  destruct (header_done_starts _ (zlen body) W L A ltac:(lia)) as (L0 & C0 & Q0 & P0). fold s in L0, C0, Q0, P0. split; [by rewrite P0|].
  set (ds i := if decide (i < 4)%nat then part body (range (zlen body) (Z.of_nat i)) else []).
  assert (Hcome : forall i, coming (pieces_ s !! i) i es (ds i)).
  { intros i. unfold ds. destruct (decide (i < 4)%nat) as [Hi|Hi].
    - destruct (Hch i Hi) as [F D]. rewrite P0. destruct i as [|[|[|[|i]]]]; [..|lia]; cbn; eauto.
    - rewrite P0, lookup_ge_None_2 by (cbn; lia). split; [|done]. apply elem_of_nil_inv. intros e [He1 He2]%list_elem_of_filter.
      rewrite Forall_forall in Hidx. apply Hidx in He2. unfold about in He1. lia. }
  assert (H4 : dones es = 4%nat).
  { rewrite dones_split by done. by rewrite (proj1 (Hch 0%nat ltac:(lia))), (proj1 (Hch 1%nat ltac:(lia))), (proj1 (Hch 2%nat ltac:(lia))), (proj1 (Hch 3%nat ltac:(lia))), !dones_piece. }
  destruct (run_coming es s ds Hcome) as (s' & E & P & C & Q & _); [by rewrite C0, H4|lia|]. exists s'. split; [done|]. split; [|split].
  - assert (Hlen : length (pieces_ s') = 4%nat) by (rewrite <- (run_length s es s' E), P0; done).
    assert (Hout : forall i, (i < 4)%nat -> exists p, pieces_ s' !! i = Some (Some p) /\ out_ p = part body (range (zlen body) (Z.of_nat i))).
    { intros i Hi. destruct (P i (mk_piece (range_text (range (zlen body) (Z.of_nat i))) [] true)) as (p & Hp & F).
      - rewrite P0. by destruct i as [|[|[|[|i]]]]; [..|lia].
      - exists p. split; [done|]. unfold finished in F. injection F as _ F. rewrite app_nil_r in F. cbn in F. rewrite F. unfold ds. by rewrite decide_True. }
    destruct (Hout 0%nat ltac:(lia)) as (p0 & H0 & O0), (Hout 1%nat ltac:(lia)) as (p1 & H1 & O1), (Hout 2%nat ltac:(lia)) as (p2 & H2 & O2), (Hout 3%nat ltac:(lia)) as (p3 & H3 & O3).
    destruct (pieces_ s') as [|x0 [|x1 [|x2 [|x3 [|]]]]]; try discriminate Hlen. cbn in H0, H1, H2, H3. simplify_eq. cbn [map fmap option_fmap option_map default from_option].
    unfold id. rewrite O0, O1, O2, O3. apply (parts_whole body). lia.
  - rewrite Q, H4. by rewrite orb_true_r.
  - intros es1 es2 s1 -> Hd R. rewrite <- Q0. by apply (run_early es1 es2 s s1 ds Hcome); [rewrite C0, H4|lia|..].
Qed.

(** A resource of 16384 bytes, whose last piece is done first. *)
Definition sample_body : list byte := replicate (Z.to_nat 16384) x61.
Definition sample_chunks (i : nat) : list (list byte) := [part sample_body (range (zlen sample_body) (Z.of_nat i))].
Definition sample_events : list event :=
  concat (map (fun i => map (Data i) (sample_chunks i) ++ [Done i]) [3; 0; 2; 1]%nat).

Lemma zlen_sample : zlen sample_body = 16384.
Proof. unfold sample_body. rewrite zlen_replicate. lia. Qed.

Lemma download_complete_witness :
  let s := onHeaderDone (headers new ([bs "HTTP/1.1 200 OK"] ++ [length_line (zlen sample_body)] ++ [accept_line])) [true; true; true; true] in
  exists s', run s sample_events = Ok s' /\ concat (map (fun p => default [] (out_ <$> p)) (pieces_ s')) = sample_body /\ quit s' = true.
Proof.
  assert (Ha : accept_line ∈ [bs "HTTP/1.1 200 OK"; accept_line]) by (right; left).
  assert (Hf : forall i, (i < 4)%nat -> filter (about i) sample_events = map (Data i) (sample_chunks i) ++ [Done i] /\
    concat (sample_chunks i) = part sample_body (range (zlen sample_body) (Z.of_nat i))).
  { intros i Hi. split; [|apply app_nil_r]. destruct i as [|[|[|[|i]]]]; [reflexivity..|lia]. }
  destruct (download_complete [bs "HTTP/1.1 200 OK"] [accept_line] sample_body sample_events sample_chunks
    ltac:(repeat constructor) Ha ltac:(rewrite zlen_sample; lia) Hf ltac:(repeat constructor)) as [_ (s' & E & B & Q & _)].
  exists s'. split; [exact E|]. split; [exact B|exact Q].
Defined.

End Download.
